(* ===== verification/_CoqProject ===== *)
-Q . S2P
Prelude.v
GoLib.v
GoSort.v
Agent.v
Common.v
Effects.v
Sql.v
Scenario.v
Lease.v
SharedLease.v
SqliteRows.v
SqliteQuery.v
SqliteLifecycle.v
SqliteCore.v
SqliteEvents.v
SqliteReaper.v
SqliteRefine.v
SqliteDag.v
SqliteLog.v
SqliteSafety.v
SqliteBehaviour.v
SqliteReads.v
PgRows.v
PgEffects.v
PgQuery.v
PgPlaceholders.v
PgEngine.v
PgLifecycle.v
PgLogic.v
PgAlone.v
PgScenario.v
PgStatements.v
PgRefine.v
PgSafety.v
PgLog.v
PgBehaviour.v
PgBatch.v
ShardMap.v
Shards.v
ShardsContract.v
ShardsPg.v
ShardsReads.v
ValkeyKeys.v
ValkeyScripts.v
ValkeyIndex.v
ValkeyContract.v
ValkeySafety.v
ValkeyClient.v
ValkeyStore.v
ValkeySession.v
ValkeyRequests.v
ValkeyReads.v
GoSha.v
MigrationFiles.v
MigrationLexer.v
SchemaActions.v
SchemaProgress.v
SchemaSafety.v
SchemaRollback.v
GoNet.v
Wakeups.v
ApiTypes.v
ApiHandlers.v
ApiIsolation.v
ApiSafety.v
ApiServer.v
ApiSqlite.v
ApiSqliteLaws.v
ApiScenario.v
ApiStatus.v
ApiFront.v
ApiBoot.v
StoreConfig.v
Dsn.v
StoreLifecycle.v
ApiAuth.v
ApiLimiter.v
TelemetrySpans.v
ApiTelemetry.v
ApiReports.v
