(* ===== verification/Prelude.v ===== *)
(** * Agent Spaces: a verification library

    The program ([src/], Go) is a coordination server for workers.  Agents
    (units of work) are put into a space, claimed by workers under a lease
    with a fencing token, and completed, released or reaped when the lease
    runs out; every change is logged as an event.  The space is kept by one
    of several stores; an HTTP API with API keys, namespaces and limits stands
    in front of it.

    ** The parts and their models

    - [src/pkg/agent]: the data model.  [Agent.v] has its records, statuses
      and helpers; a JSON value is the inductive type [any].
    - [src/pkg/store/internal/common]: [Common.v], partial updates, completion
      metadata, the subscription registry.
    - The lifecycle contract the interface [AgentSpace] documents: [Lease.v],
      an abstract machine on histories of one store; [SharedLease.v], the same
      per agent, for stores that several sessions share.
    - [src/pkg/store/sqlite]: [SqliteRows.v] (the table and its statements),
      [SqliteQuery.v] (WHERE clauses, queries), [SqliteLifecycle.v] (every
      operation as the calls of [database/sql] it makes), [SqliteEvents.v],
      [SqliteReaper.v].  [SqliteCore.v] computes each operation's effect,
      [SqliteRefine.v] relates it to the contract, [SqliteDag.v] and
      [SqliteLog.v] hold the arguments about graphs and the event log;
      [SqliteSafety.v], [SqliteBehaviour.v] and [SqliteReads.v] state the
      properties.
    - [src/pkg/store/postgres]: [PgRows.v], [PgQuery.v], [PgLifecycle.v]
      and [PgEngine.v] (deferred event writer, partitions,
      prefetcher, wake-ups) over the sessions of [PgEffects.v].  [PgLogic.v]
      is a rely/guarantee logic for one session beside others, [PgStatements.v]
      and [PgRefine.v] prove the operations with it, [PgAlone.v] has exact
      rules for a session by itself; [PgSafety.v], [PgLog.v],
      [PgPlaceholders.v], [PgBehaviour.v] and [PgBatch.v] state the properties.
    - [src/pkg/store/postgressharded]: [ShardMap.v] (the shard map, routing),
      [Shards.v] (the operations over the interface of a shard),
      [ShardsContract.v] (what a shard promises, as a class, and what follows
      for the sharded store), [ShardsPg.v] (Postgres is such a shard),
      [ShardsReads.v] (merged answers).
    - [src/pkg/store/valkey]: [ValkeyKeys.v] (keys, and what a
      shard keeps under them), [ValkeyScripts.v] (each Lua script
      as a function of its shard, command by command).  [ValkeyIndex.v],
      [ValkeyContract.v] and [ValkeySafety.v] relate the scripts to the
      contract and the indexes to the agents.  [ValkeyClient.v] and
      [ValkeyStore.v] are the Go client, each operation as the commands and
      scripts it sends; [ValkeySession.v] is a rely/guarantee logic for a
      client beside others, [ValkeyRequests.v] proves the operations with it,
      [ValkeyReads.v] the queries, and runs single cases.
    - [src/pkg/store/migrations] and the migration runners of the SQL stores:
      [MigrationFiles.v] (the loader), [MigrationLexer.v] (its statement
      counter and a grammar of SQL text), [SchemaActions.v] (validate, migrate,
      roll back, for both backends), [SchemaProgress.v] (databases on their way
      through the migrations), [SchemaSafety.v],
      [SchemaRollback.v] (rolling back; every shard).
    - [src/pkg/store/store.go] and the settings of [src/cmd/server/main.go]:
      [StoreConfig.v] (the flags and their bindings, the configurations, the
      choice of the backend), [Dsn.v] (connection strings, over a model of
      [net/url]), [StoreLifecycle.v] (the constructors and [Close] of every
      store over a ledger of connections and goroutines; the shutdown of the
      server beside the writer of deferred events).
    - The blocking calls of the Postgres and the Valkey store with their
      listeners and signals: [Wakeups.v], a transition system of a store and
      any number of callers.
    - [src/internal/api]: [ApiTypes.v] (requests, responses, and programs over
      a space: a free monad of the calls of [AgentSpace]), [ApiHandlers.v]
      (the handlers and routes), [ApiFront.v] (middleware), [ApiBoot.v] (the
      keys file and the HTTP settings of [src/cmd/server/main.go]).
      [ApiIsolation.v] is a rely/guarantee logic for handlers over a
      [NamespacedSpace], [ApiSafety.v] proves every handler with it,
      [ApiServer.v] interleaves requests, [ApiSqlite.v] and [ApiSqliteLaws.v]
      show the SQLite store is such a space; [ApiScenario.v], [ApiStatus.v],
      [ApiAuth.v] and [ApiLimiter.v] state the properties.
    - [src/pkg/metrics], [src/internal/api/metrics_middleware.go], the health,
      shard and invariant endpoints, the loops of [src/cmd/server/main.go] and
      [src/pkg/store/internal/core]: [ApiReports.v].
    - Telemetry: [TelemetrySpans.v] ([src/pkg/telemetry], the spans of an
      observation, the span tables of the stores), [ApiTelemetry.v] (the
      endpoints; two cases show the Valkey store does not keep namespaces
      apart).
    - What the code uses of Go's standard library: [GoLib.v] (strings,
      strconv, time, fnv), [GoSort.v], [GoSha.v], [GoNet.v].
    - [Effects.v] and [Sql.v]: database calls, transactions, clock, fresh
      identifiers and failures for the SQL stores; [Scenario.v],
      [PgScenario.v] and [ApiScenario.v]: concrete environments for witnesses.

    ** What the theorems show

    - C1 to C5: any history of well-formed requests to a SQLite store that
      started empty is one of the contract, whichever database calls fail;
      in it agents complete at most once and tokens fence; operations are
      atomic, and the event log tells exactly what happened.
    - C6 to C11: what the SQLite operations do, that the walk over the
      graph of agents ends, and that it finds the component of its root when
      nothing fails or expires; further lemmas of [SqliteBehaviour.v] and
      [SqliteReads.v] have the other operations branch by branch.
    - C12: callers blocked in a store are served, whatever signals are lost.
    - C13, C14: while a Postgres session runs an operation beside others that
      interleave at every database call, the tables move only by what the
      others did and by the session's own commits, in which every agent takes
      the contract's steps the answer tells; a completion, release or renewal
      succeeds only under the lease the agent is in.
    - C15 to C19: placeholder arithmetic, the event log's partitions, its
      deferred writer up to the end of the server (when the store is closed
      and no request outlives the drain), claims and completions in Postgres;
      [PgBehaviour.v] and [PgBatch.v] also have queue heads, batches
      and reaping.
    - C20 to C22: sharding: all nodes route alike, every shard moves as in
      C13, a merged query answers as one store would.
    - C23 to C26: an operation of the Valkey store beside other clients takes
      effect only in steps of the contract; the exception of updates, which
      write the agent back as they read it, is a finding.  Its indexes hold
      exactly the agents they should, its queues are served in order, and a query answered from an index is the answer of a scan.
    - C27 to C30: migrations: interrupted ones resume, a record that does not
      fit the files stops every action, a rollback runs the down migrations in
      order, and the statement counter agrees with a grammar.
    - C31 to C34: opening and configuring: stores give back what they take,
      connection strings say what they were built from, the shard report
      holds no secrets, and every setting the server reads is declared.
    - C35 to C39: the HTTP server: requests stay in their principal's
      namespace, the graph endpoint excepted, and so do telemetry spans over
      Postgres; status codes of completions tell the truth, only configured
      keys get past authentication except on the health paths, the rate
      limiter's bounds for windows it does not prune early.
    - C40: the two ways of counting the agents for the metrics agree.

    ** Modelling choices

    - Integers are kept at 64 bits where the code can overflow ([int64]);
      instants are integers of nanoseconds, milliseconds in SQLite and
      microseconds in Postgres columns.  Numbers inside JSON keep their
      literal; a nil slice is the empty one unless the code tells them apart
      (nil tags, which Postgres refuses, are not: see [pg_row_of]).
    - The clock, fresh UUIDs, failing calls and, for Postgres, the other
      sessions are an environment over which the theorems quantify.  A failed
      call has no effect; a failed commit commits nothing (a Postgres commit
      that took effect although its answer was lost is not modelled).  SQLite
      runs on one connection, so an operation of a single transaction runs
      undisturbed; operations of several calls ([GetDAG], [QueryEvents], [In_],
      [Read]) are modelled without other operations in between.  Postgres
      sessions interleave at every call under READ COMMITTED with row locks.
    - Ties the SQL leaves open are a parameter ([SqlOrder]).  Errors while
      iterating rows are folded into the query and [rows.Err].
    - Recursion that is not structural has fuel: [dag_fuel] iterations for
      graphs (proved enough in C10), a number of polls for the blocking calls
      ([In_ends] shows they end once the clock passes the deadline), pages for the
      loops of the handlers.
    - Valkey runs a script or a command atomically; a client's operations
      interleave with other clients' between them, and a call that answers an
      error may have taken effect.  Rewriting JSON in Lua ([cjson]) and
      reading it back in Go is a parameter ([Cjson]); numbers a script adds
      are whole; streams are not trimmed.
    - What the text of a migration does to the schema is the engine's
      ([SqlEngine]), and so is what a text that fails outside a transaction
      leaves behind ([left_by]); one process migrates at a time.
    - Requests interleave at calls of the store; a blocking call is one step.
      JSON decoding (a third-party package), HMAC, the error texts of drivers
      and [time.ParseDuration] (floating point) are parameters.  URL paths are
      clean.
    - Metrics and logging are left out of the operations; the recording
      functions and the middleware are in [ApiReports.v].  The observations a
      request carries are recorded beside the handlers ([recordObs]), not in
      them.
    - Opening a connection, a statement of the start-up and a ping succeed or
      fail as a parameter says (the effect of [initSchema] on the event table
      is that of a start that succeeds); a shutdown may time out with requests
      still running; a goroutine is known by its context and ends
      with it.

    ** Not modelled

    The trimming of Valkey streams, request timeouts, logging, subscriptions
    of the sharded store (they register the handler with every shard), the
    methods that only forward to a modelled one, JSON encoding, and what is
    not the program's: drivers, the Prometheus client, [net/http] itself. *)

From stdpp Require Import gmap strings list fin_maps sorting pretty.
From Stdlib Require Import ZArith Lia.

Open Scope Z_scope.

(** ** Results *)

(** A Go call that returns [(value, error)]: the value when the error is nil,
    the error otherwise. *)
Inductive result (E A : Type) : Type :=
| Ok (a : A)
| Err (e : E).
Arguments Ok {E A} a.
Arguments Err {E A} e.

Definition is_ok {E A} (r : result E A) : bool :=
  match r with Ok _ => true | Err _ => false end.

Definition result_map {E A B} (f : A -> B) (r : result E A) : result E B :=
  match r with Ok a => Ok (f a) | Err e => Err e end.

#[export] Instance result_ret {X} : MRet (result X) := fun A a => Ok a.
#[export] Instance result_bind {X} : MBind (result X) := fun A B f r =>
  match r with Ok a => f a | Err e => Err e end.

#[export] Instance Ok_inj E A : Inj (=) (=) (@Ok E A).
Proof. by intros ?? [= ->]. Qed.
#[export] Instance Err_inj E A : Inj (=) (=) (@Err E A).
Proof. by intros ?? [= ->]. Qed.

(** ** Machine integers *)

(** [int64 z] is the value of a Go [int64] expression whose exact result is
    [z]: two's-complement wrap-around on 64 bits. *)
Definition int64 (z : Z) : Z := (z + 2 ^ 63) `mod` 2 ^ 64 - 2 ^ 63.

Definition min_int64 : Z := - 2 ^ 63.
Definition max_int64 : Z := 2 ^ 63 - 1.

(** The largest whole number of seconds a [time.Duration] can hold. *)
Definition max_duration_sec : Z := 9223372036.

Definition in_int64 (z : Z) : Prop := min_int64 <= z <= max_int64.
#[export] Instance in_int64_dec z : Decision (in_int64 z).
Proof. unfold in_int64. apply _. Defined.

Lemma int64_small z : in_int64 z -> int64 z = z.
Proof.
  unfold in_int64, min_int64, max_int64, int64. intros H.
  rewrite Z.mod_small; lia.
Qed.

Lemma int64_range z : in_int64 (int64 z).
Proof.
  unfold in_int64, min_int64, max_int64, int64.
  pose proof (Z.mod_pos_bound (z + 2 ^ 63) (2 ^ 64)). lia.
Qed.

Lemma int64_idemp z : int64 (int64 z) = int64 z.
Proof. apply int64_small, int64_range. Qed.

(** ** Maps with a zero default

    Go's [m[k]] on a [map[string]string] yields [""] for a missing key and
    for a nil map. *)
Definition mget (m : gmap string string) (k : string) : string :=
  default ""%string (m !! k).

Definition omget (m : option (gmap string string)) (k : string) : string :=
  match m with Some m => mget m k | None => ""%string end.

Lemma mget_insert_eq m k v : mget (<[k:=v]> m) k = v.
Proof. unfold mget. by rewrite lookup_insert_eq. Qed.

Lemma mget_insert_ne m k k' v : k <> k' -> mget (<[k:=v]> m) k' = mget m k'.
Proof. intros. unfold mget. by rewrite lookup_insert_ne. Qed.

(** ** Lists *)

(** [find_map f l]: the first element on which [f] answers. *)
Fixpoint find_map {A B} (f : A -> option B) (l : list A) : option B :=
  match l with
  | [] => None
  | x :: l => match f x with Some y => Some y | None => find_map f l end
  end.

(** Go slices [l[off:]] and [l[:lim]] guarded the way every paginated
    operation of the program guards them. *)
Definition paginate {A} (limit offset : Z) (l : list A) : list A :=
  let l := if decide (0 < offset) then
             if decide (Z.of_nat (length l) <= offset) then []
             else drop (Z.to_nat offset) l
           else l in
  if decide (0 < limit /\ limit < Z.of_nat (length l))
  then take (Z.to_nat limit) l else l.

(** SQL's [LIMIT]/[OFFSET], each present only when it is positive. *)
Definition sql_window {A} (limit offset : option Z) (l : list A) : list A :=
  let l := match offset with Some o => drop (Z.to_nat o) l | None => l end in
  match limit with Some n => take (Z.to_nat n) l | None => l end.

Arguments sql_window : simpl never.

Definition pos_opt (z : Z) : option Z := if decide (0 < z) then Some z else None.

Lemma paginate_window {A} limit offset (l : list A) :
  paginate limit offset l = sql_window (pos_opt limit) (pos_opt offset) l.
Proof.
  unfold paginate, sql_window, pos_opt.
  destruct (decide (0 < offset)) as [Ho|Ho].
  - destruct (decide (Z.of_nat (length l) <= offset)) as [Hl|Hl].
    + rewrite (drop_ge l) by lia. simpl.
      destruct (decide (0 < limit)), (decide _); rewrite ?take_nil; done.
    + destruct (decide (0 < limit)) as [Hp|Hp]; case_decide as Hc; try done; [|lia].
      rewrite take_ge; [done|]. apply not_and_l in Hc as [?|?]; lia.
  - destruct (decide (0 < limit)) as [Hp|Hp]; case_decide as Hc; try done; [|lia].
    rewrite take_ge; [done|]. apply not_and_l in Hc as [?|?]; lia.
Qed.

Lemma length_sql_window {A} limit offset (l : list A) :
  (length (sql_window limit offset l) <= length l)%nat.
Proof.
  unfold sql_window.
  destruct limit, offset; rewrite ?length_take, ?length_drop; lia.
Qed.

Lemma find_map_Some {A B} (f : A -> option B) l y :
  find_map f l = Some y ->
  exists l1 x l2, l = l1 ++ x :: l2 /\ f x = Some y /\ Forall (fun z => f z = None) l1.
Proof.
  induction l as [|x l IH]; simpl; [done|].
  destruct (f x) as [z|] eqn:Hx.
  - intros [= ->]. by exists [], x, l.
  - intros (l1 & x' & l2 & -> & ? & ?)%IH.
    exists (x :: l1), x', l2. repeat split; auto.
Qed.

Lemma find_map_None {A B} (f : A -> option B) l :
  find_map f l = None <-> Forall (fun z => f z = None) l.
Proof.
  induction l as [|x l IH]; simpl; [done|].
  rewrite Forall_cons, <- IH. destruct (f x); [split; [done|by intros [? ?]]|naive_solver].
Qed.

(** Paging commutes with a decoding that never drops a row. *)
Lemma omap_take {A B} (f : A -> option B) l n :
  Forall (fun x => is_Some (f x)) l -> omap f (take n l) = take n (omap f l).
Proof.
  intros HF. revert n. induction HF as [|x l [y Hy] HF IH]; intros [|n]; simpl; try done.
  rewrite Hy. simpl. by rewrite IH.
Qed.

Lemma omap_drop {A B} (f : A -> option B) l n :
  Forall (fun x => is_Some (f x)) l -> omap f (drop n l) = drop n (omap f l).
Proof.
  intros HF. revert n. induction HF as [|x l [y Hy] HF IH]; intros [|n]; simpl; try done.
  by rewrite Hy.
Qed.

Lemma omap_window {A B} (f : A -> option B) limit offset l :
  Forall (fun x => is_Some (f x)) l ->
  omap f (sql_window limit offset l) = sql_window limit offset (omap f l).
Proof.
  intros HF. unfold sql_window.
  destruct offset as [o|], limit as [n|]; rewrite ?omap_take, ?omap_drop; by auto using Forall_drop.
Qed.

Lemma StronglySorted_omap {A B} (R : A -> A -> Prop) (R' : B -> B -> Prop) (f : A -> option B) l :
  (forall x y x' y', f x = Some x' -> f y = Some y' -> R x y -> R' x' y') ->
  StronglySorted R l -> StronglySorted R' (omap f l).
Proof.
  intros Hf. induction 1 as [|x l Hs IH HF]; simpl; [constructor|].
  destruct (f x) as [x'|] eqn:Hx; [|done]. constructor; [done|].
  apply Forall_forall. intros y' (y & Hy & E)%list_elem_of_omap.
  rewrite Forall_forall in HF. eauto.
Qed.

Lemma length_omap_le {A B} (f : A -> option B) l : (length (omap f l) <= length l)%nat.
Proof.
  induction l as [|x l IH]; [done|].
  change (omap f (x :: l)) with (match f x with Some y => y :: omap f l | None => omap f l end).
  destruct (f x); cbn [length]; lia.
Qed.

(** Filters that keep everything, and nothing. *)
Lemma filter_all {A} {P : A -> Prop} `{forall x, Decision (P x)} (l : list A) :
  (forall x, x ∈ l -> P x) -> filter P l = l.
Proof.
  induction l as [|x l IH]; intros Hl; [done|]. rewrite filter_cons_True by (apply Hl; left).
  f_equal. apply IH. intros y Hy. apply Hl. by right.
Qed.

Lemma filter_none {A} {P : A -> Prop} `{forall x, Decision (P x)} (l : list A) :
  (forall x, x ∈ l -> ~ P x) -> filter P l = [].
Proof.
  induction l as [|x l IH]; intros Hl; [done|]. rewrite filter_cons_False by (apply Hl; left).
  apply IH. intros y Hy. apply Hl. by right.
Qed.

(** Filtering rows and then decoding some of them, against decoding and then
    filtering. *)
Lemma omap_filter_swap {A B} (P Q : A -> bool) (R : B -> Prop) `{!forall b, Decision (R b)}
    (f g : A -> option B) (l : list A) :
  (forall x, x ∈ l -> (if P x then f x else None) =
             (if Q x then match g x with Some y => if decide (R y) then Some y else None
                                    | None => None end else None)) ->
  omap f (filter P l) = filter R (omap g (filter Q l)).
Proof.
  induction l as [|x l IH]; intros Hx; [done|].
  rewrite !filter_cons. specialize (IH (fun y Hy => Hx y (list_elem_of_further _ _ _ Hy))).
  specialize (Hx x (list_elem_of_here _ _)).
  destruct (P x), (Q x); simpl in *; rewrite ?Hx, ?IH; try done.
  all: destruct (g x) as [y|]; [|done]; simpl; rewrite ?filter_cons;
    destruct (decide (R y)); first [done | by f_equal].
Qed.

(** ** Automation *)

Create HintDb spaces.
Create Rewrite HintDb spaces.
#[export] Hint Resolve int64_range int64_small : spaces.
#[export] Hint Rewrite @mget_insert_eq : spaces.
#[export] Hint Rewrite @mget_insert_ne using done : spaces.

(** Split every conjunction and existential of the context. *)
Ltac deex :=
  repeat match goal with
  | H : exists _, _ |- _ => destruct H
  | H : _ /\ _ |- _ => destruct H
  end.

(** The same with disjunctions, one goal per case. *)
Ltac break :=
  repeat match goal with
  | H : exists _, _ |- _ => destruct H
  | H : _ /\ _ |- _ => destruct H
  | H : _ \/ _ |- _ => destruct H
  end.

(** Case analysis on the innermost [match] or [if] of a hypothesis. *)
Ltac case_in H :=
  match type of H with
  | context [match ?x with _ => _ end] =>
      lazymatch x with
      | context [match _ with _ => _ end] => fail
      | _ => destruct x eqn:?
      end
  end.
