(* ===== verification/GoLib.v ===== *)
(** * What the program uses of Go's standard library

    [strings] (TrimSpace, ToLower, HasPrefix, Contains, Split, Join),
    [strconv.Atoi], [hash/fnv], and [time]: instants, durations, RFC 3339
    formatting and parsing.  A Go string is its sequence of bytes. *)

From S2P Require Import Prelude.
From stdpp Require Import gmap strings list fin_maps sorting pretty.
From Stdlib Require Import ZArith Lia Ascii.

Open Scope Z_scope.

(** ** Bytes *)

Definition byte_val (c : ascii) : Z := Z.of_N (N_of_ascii c).

Fixpoint bytes (s : string) : list ascii :=
  match s with
  | EmptyString => []
  | String c s => c :: bytes s
  end.

Fixpoint of_bytes (l : list ascii) : string :=
  match l with
  | [] => EmptyString
  | c :: l => String c (of_bytes l)
  end.

Lemma of_bytes_bytes s : of_bytes (bytes s) = s.
Proof. induction s; simpl; congruence. Qed.

Lemma bytes_of_bytes l : bytes (of_bytes l) = l.
Proof. induction l; simpl; congruence. Qed.

Lemma bytes_app s t : bytes (s +:+ t) = bytes s ++ bytes t.
Proof. induction s; simpl; [done|]. by f_equal. Qed.

(** ** Package strings *)

Module Strings.

(** The length of the white-space rune a byte sequence starts with
    ([unicode.IsSpace]): the ASCII ones, U+0085, U+00A0, U+1680, U+2000 to
    U+200A, U+2028, U+2029, U+202F, U+205F and U+3000. *)
Definition space_len (l : list ascii) : option nat :=
  match byte_val <$> take 3 l with
  | a :: rest =>
      if decide (a = 32 \/ 9 <= a <= 13) then Some 1%nat
      else match rest with
      | b :: rest =>
          if decide (a = 194 /\ (b = 133 \/ b = 160)) then Some 2%nat
          else match rest with
          | c :: _ =>
              if decide (a = 225 /\ b = 154 /\ c = 128
                         \/ a = 226 /\ b = 128 /\ (128 <= c <= 138 \/ c = 168 \/ c = 169 \/ c = 175)
                         \/ a = 226 /\ b = 129 /\ c = 159
                         \/ a = 227 /\ b = 128 /\ c = 128)
              then Some 3%nat else None
          | [] => None
          end
      | [] => None
      end
  | [] => None
  end.

(** The same for the rune a sequence ends with, given reversed. *)
Definition space_len_rev (l : list ascii) : option nat :=
  match l with
  | a :: b :: c :: _ =>
      match space_len [a], space_len [b; a], space_len [c; b; a] with
      | Some 1%nat, _, _ => Some 1%nat
      | _, Some 2%nat, _ => Some 2%nat
      | _, _, Some 3%nat => Some 3%nat
      | _, _, _ => None
      end
  | a :: b :: _ =>
      match space_len [a], space_len [b; a] with
      | Some 1%nat, _ => Some 1%nat
      | _, Some 2%nat => Some 2%nat
      | _, _ => None
      end
  | a :: _ => match space_len [a] with Some 1%nat => Some 1%nat | _ => None end
  | [] => None
  end.

Fixpoint strip (probe : list ascii -> option nat) (fuel : nat) (l : list ascii) : list ascii :=
  match fuel with
  | O => l
  | S fuel => match probe l with
              | Some n => strip probe fuel (drop n l)
              | None => l
              end
  end.

Definition trim_bytes (l : list ascii) : list ascii :=
  let l := strip space_len (length l) l in
  rev (strip space_len_rev (length l) (rev l)).

Definition TrimSpace (s : string) : string := of_bytes (trim_bytes (bytes s)).

Definition lower_byte (c : ascii) : ascii :=
  if decide (65 <= byte_val c <= 90)
  then ascii_of_N (Z.to_N (byte_val c + 32)) else c.

(** [strings.ToLower] on ASCII text. *)
Definition ToLower (s : string) : string := of_bytes (lower_byte <$> bytes s).

Fixpoint prefix_bytes (p l : list ascii) : bool :=
  match p, l with
  | [], _ => true
  | a :: p, b :: l => bool_decide (a = b) && prefix_bytes p l
  | _ :: _, [] => false
  end.

Definition HasPrefix (s p : string) : bool := prefix_bytes (bytes p) (bytes s).

Definition TrimPrefix (s p : string) : string :=
  if HasPrefix s p then of_bytes (drop (String.length p) (bytes s)) else s.

Definition HasSuffix (s p : string) : bool := prefix_bytes (rev (bytes p)) (rev (bytes s)).

Definition TrimSuffix (s p : string) : string :=
  if HasSuffix s p then of_bytes (take (String.length s - String.length p) (bytes s)) else s.

(** [strings.Trim] for a cut set of one byte. *)
Fixpoint drop_byte (c : ascii) (l : list ascii) : list ascii :=
  match l with
  | a :: l' => if decide (a = c) then drop_byte c l' else l
  | [] => []
  end.

Definition TrimByte (s : string) (c : ascii) : string :=
  of_bytes (rev (drop_byte c (rev (drop_byte c (bytes s))))).

Fixpoint contains_bytes (l p : list ascii) : bool :=
  prefix_bytes p l ||
  match l with
  | [] => false
  | _ :: l => contains_bytes l p
  end.

Definition Contains (s sub : string) : bool := contains_bytes (bytes s) (bytes sub).

(** [strings.Split s sep] for a separator of one byte. *)
Fixpoint split_bytes (sep : ascii) (l : list ascii) : list (list ascii) :=
  match l with
  | [] => [[]]
  | c :: l =>
      if decide (c = sep) then [] :: split_bytes sep l
      else match split_bytes sep l with
           | w :: ws => (c :: w) :: ws
           | [] => [[c]]
           end
  end.

Definition Split (s : string) (sep : ascii) : list string :=
  of_bytes <$> split_bytes sep (bytes s).

Fixpoint join_bytes (sep : list ascii) (ws : list (list ascii)) : list ascii :=
  match ws with
  | [] => []
  | [w] => w
  | w :: ws => w ++ sep ++ join_bytes sep ws
  end.

Definition Join (ws : list string) (sep : string) : string :=
  of_bytes (join_bytes (bytes sep) (bytes <$> ws)).

(** [SplitN s sep 2] for a separator of one byte. *)
Fixpoint cut_bytes (sep : ascii) (l : list ascii) : list ascii * option (list ascii) :=
  match l with
  | [] => ([], None)
  | c :: l =>
      if decide (c = sep) then ([], Some l)
      else let '(a, b) := cut_bytes sep l in (c :: a, b)
  end.

Lemma split_join_bytes sep (ws : list (list ascii)) :
  ws <> [] -> Forall (fun w => sep ∉ w) ws ->
  split_bytes sep (join_bytes [sep] ws) = ws.
Proof.
  assert (Hw : forall w l, sep ∉ w -> split_bytes sep (w ++ sep :: l) = w :: split_bytes sep l).
  { induction w as [|c w IH]; intros l Hc; simpl.
    - by rewrite decide_True.
    - apply not_elem_of_cons in Hc as [? ?].
      rewrite decide_False by done. by rewrite IH. }
  assert (Hl : forall w, sep ∉ w -> split_bytes sep w = [w]).
  { induction w as [|c w IH]; intros Hc; simpl; [done|].
    apply not_elem_of_cons in Hc as [? ?].
    rewrite decide_False by done. by rewrite IH. }
  intros Hne HF. induction ws as [|w ws IH]; [done|].
  apply Forall_cons in HF as [? HF].
  destruct ws as [|w' ws]; simpl; [by apply Hl|].
  simpl in IH. rewrite Hw by done. f_equal. by apply IH.
Qed.

Lemma Split_Join (sep : ascii) (ws : list string) :
  ws <> [] -> Forall (fun w => sep ∉ bytes w) ws ->
  Split (Join ws (String sep "")) sep = ws.
Proof.
  intros Hne HF. unfold Split, Join. rewrite bytes_of_bytes. simpl.
  rewrite split_join_bytes.
  - induction ws as [|w ws IH]; [done|]. simpl. rewrite of_bytes_bytes. f_equal.
    destruct ws; [done|]. apply IH; [done|]. by inversion HF.
  - by destruct ws.
  - apply Forall_fmap. eapply Forall_impl; [exact HF|]. done.
Qed.

(** A text contains what any of its parts contains. *)
Lemma prefix_bytes_app p l r : prefix_bytes p l = true -> prefix_bytes p (l ++ r) = true.
Proof.
  revert l. induction p as [|a p IH]; intros [|b l]; simpl; try done.
  intros [-> H]%andb_true_iff. simpl. by apply IH.
Qed.

Lemma contains_bytes_app_r l r p : contains_bytes l p = true -> contains_bytes (l ++ r) p = true.
Proof.
  induction l as [|a l IH]; intros H.
  - simpl in H. rewrite orb_false_r in H. destruct p; [by destruct r|done].
  - simpl in *. apply orb_true_iff in H as [H|H]; apply orb_true_iff; [left|right; by apply IH].
    by apply (prefix_bytes_app p (a :: l) r).
Qed.

Lemma contains_bytes_app_l l r p : contains_bytes r p = true -> contains_bytes (l ++ r) p = true.
Proof. induction l as [|a l IH]; intros H; simpl; [done|]. rewrite IH by done. by rewrite orb_true_r. Qed.

Lemma Contains_app_r s t p : Contains s p = true -> Contains (s +:+ t) p = true.
Proof. unfold Contains. rewrite bytes_app. apply contains_bytes_app_r. Qed.

Lemma Contains_app_l s t p : Contains t p = true -> Contains (s +:+ t) p = true.
Proof. unfold Contains. rewrite bytes_app. apply contains_bytes_app_l. Qed.

(** *** Trimming twice *)

Lemma strip_suffix probe fuel l : exists p, l = p ++ strip probe fuel l.
Proof.
  revert l. induction fuel as [|fuel IH]; intros l; simpl; [by exists []|].
  destruct (probe l) as [n|]; [|by exists []].
  destruct (IH (drop n l)) as [p Hp]. exists (take n l ++ p).
  rewrite <- (app_assoc (take n l)), <- Hp. by rewrite take_drop.
Qed.

Lemma strip_done probe fuel l :
  (forall l n, probe l = Some n -> (0 < n)%nat /\ l <> []) -> (length l <= fuel)%nat ->
  probe (strip probe fuel l) = None.
Proof.
  intros Hp. revert l. induction fuel as [|fuel IH]; intros l Hl; simpl.
  - destruct (probe l) as [n|] eqn:Hn; [|done]. destruct (Hp _ _ Hn) as [_ Hne].
    destruct l; [done|simpl in Hl; lia].
  - destruct (probe l) as [n|] eqn:Hn; [|done]. apply IH. destruct (Hp _ _ Hn) as [Hn0 Hne].
    rewrite length_drop. destruct l; [done|]. simpl in *. lia.
Qed.

Lemma strip_none probe fuel l : probe l = None -> strip probe fuel l = l.
Proof. intros H. destruct fuel; simpl; by rewrite ?H. Qed.

Lemma space_len_Some l n : space_len l = Some n -> (0 < n)%nat /\ l <> [].
Proof.
  unfold space_len. destruct l as [|a [|b [|c l]]]; simpl; [done|..];
    repeat case_decide; intros [= <-]; split; (lia || done).
Qed.

Lemma space_len_rev_Some l n : space_len_rev l = Some n -> (0 < n)%nat /\ l <> [].
Proof.
  unfold space_len_rev. destruct l as [|a [|b [|c l]]]; [done|..]; intros H; (split; [|done]);
    repeat match type of H with context [match ?x with _ => _ end] => destruct x; try done end;
    injection H as <-; lia.
Qed.

Lemma space_len_prefix p r : space_len (p ++ r) = None -> space_len p = None.
Proof.
  unfold space_len. destruct p as [|a [|b [|c p]]]; simpl; [done|..]; [| |done].
  - destruct (take 2 r); simpl; repeat case_decide; done.
  - destruct (take 1 r); simpl; repeat case_decide; done.
Qed.

Lemma trim_bytes_idemp l : trim_bytes (trim_bytes l) = trim_bytes l.
Proof.
  unfold trim_bytes at 2 3. set (l1 := strip space_len (length l) l).
  set (l2 := rev (strip space_len_rev (length l1) (rev l1))).
  assert (H1 : space_len l1 = None) by (apply strip_done; [apply space_len_Some|done]).
  assert (H2 : space_len l2 = None).
  { destruct (strip_suffix space_len_rev (length l1) (rev l1)) as [p Hp].
    apply (space_len_prefix l2 (rev p)). unfold l2. rewrite <- rev_app_distr, <- Hp, rev_involutive. exact H1. }
  assert (H3 : space_len_rev (rev l2) = None).
  { unfold l2. rewrite rev_involutive. apply strip_done; [apply space_len_rev_Some|].
    by rewrite length_rev. }
  unfold trim_bytes. rewrite (strip_none space_len _ l2 H2), (strip_none _ _ _ H3). apply rev_involutive.
Qed.

Lemma TrimSpace_idemp s : TrimSpace (TrimSpace s) = TrimSpace s.
Proof. unfold TrimSpace. rewrite bytes_of_bytes. by rewrite trim_bytes_idemp. Qed.

End Strings.

(** ** Package strconv *)

Module Strconv.

Definition digit_val (c : ascii) : option Z :=
  let v := byte_val c in
  if decide (48 <= v <= 57) then Some (v - 48) else None.

(** The value of a non-empty run of decimal digits. *)
Fixpoint digits_from (acc : Z) (l : list ascii) : option Z :=
  match l with
  | [] => Some acc
  | c :: l => match digit_val c with
              | Some d => digits_from (10 * acc + d) l
              | None => None
              end
  end.

Definition digits (l : list ascii) : option Z :=
  match l with [] => None | _ => digits_from 0 l end.

(** [strconv.Atoi]: an optional sign, at least one digit, and a value that
    fits the 64-bit [int]; any other text is an error. *)
Definition Atoi (s : string) : option Z :=
  let '(neg, l) :=
    match bytes s with
    | c :: l => if decide (c = "-"%char) then (true, l)
                else if decide (c = "+"%char) then (false, l)
                else (false, c :: l)
    | [] => (false, [])
    end in
  match digits l with
  | Some n => let v := if (neg : bool) then - n else n in
              if decide (in_int64 v) then Some v else None
  | None => None
  end.

(** The regular expression [^[0-9]+$] of PostgreSQL. *)
Definition all_digits (s : string) : bool :=
  match digits (bytes s) with Some _ => true | None => false end.

(** [strconv.FormatInt z 10]. *)
Definition FormatInt (z : Z) : string := pretty z.

Lemma digits_from_nonneg acc l n : 0 <= acc -> digits_from acc l = Some n -> 0 <= n.
Proof.
  revert acc. induction l as [|c l IH]; simpl; intros acc Hacc.
  - by intros [= <-].
  - unfold digit_val. case_decide; [|done]. apply IH. lia.
Qed.

Lemma Atoi_range s n : Atoi s = Some n -> in_int64 n.
Proof.
  unfold Atoi. destruct (match bytes s with [] => _ | _ => _ end) as [neg l].
  destruct (digits l); [|done]. case_decide; [|done]. by intros [= <-].
Qed.

(** A run of digits denotes the same number for [Atoi] as for PostgreSQL's
    [::bigint] cast, as long as it fits. *)
Lemma Atoi_digits s n :
  digits (bytes s) = Some n -> in_int64 n -> Atoi s = Some n.
Proof.
  unfold Atoi. destruct (bytes s) as [|c l] eqn:Hb; [done|].
  intros Hd Hr. pose proof Hd as Hd'. unfold digits in Hd'. simpl in Hd'.
  assert (c <> "-"%char) by (intros ->; done).
  assert (c <> "+"%char) by (intros ->; done).
  rewrite !decide_False by done. rewrite Hd. by rewrite decide_True.
Qed.

End Strconv.

(** ** Package hash/fnv *)

(** FNV-1a, 32 bits: [New32a], [Write], [Sum32]. *)
Definition fnv32a (l : list ascii) : Z :=
  foldl (fun h c => (Z.lxor h (byte_val c) * 16777619) `mod` 2 ^ 32) 2166136261 l.

Lemma fnv32a_range l : 0 <= fnv32a l < 2 ^ 32.
Proof.
  unfold fnv32a. assert (H : 0 <= 2166136261 < 2 ^ 32) by lia.
  revert H. generalize 2166136261 as h. induction l as [|c l IH]; intros h Hh; [done|].
  simpl. apply IH. apply Z.mod_pos_bound. lia.
Qed.

(** ** Package time

    An instant is its number of nanoseconds since the Unix epoch, a duration a
    64-bit number of nanoseconds.  [zero_time] is the zero [time.Time]
    (January 1, year 1, 00:00:00 UTC). *)

Module Time.

Definition Nanosecond : Z := 1.
Definition Microsecond : Z := 1000.
Definition Millisecond : Z := 1000000.
Definition Second : Z := 1000000000.
Definition Minute : Z := 60000000000.

Definition zero_time : Z := -62135596800 * Second.
Definition IsZero (t : Z) : bool := bool_decide (t = zero_time).

Definition UnixMilli (t : Z) : Z := t `div` Millisecond.
Definition of_UnixMilli (ms : Z) : Z := ms * Millisecond.
(** [d / time.Millisecond]: Go's integer division truncates. *)
Definition Milliseconds (d : Z) : Z := Z.quot d Millisecond.
Definition Add (t d : Z) : Z := t + d.
(** [t.Sub(u)] saturates at the bounds of [time.Duration]. *)
Definition Sub (t u : Z) : Z := Z.max min_int64 (Z.min max_int64 (t - u)).

Lemma UnixMilli_of_UnixMilli ms : UnixMilli (of_UnixMilli ms) = ms.
Proof. unfold UnixMilli, of_UnixMilli, Millisecond. apply Z.div_mul. lia. Qed.

Lemma of_UnixMilli_le t : of_UnixMilli (UnixMilli t) <= t < of_UnixMilli (UnixMilli t) + Millisecond.
Proof.
  unfold UnixMilli, of_UnixMilli, Millisecond.
  pose proof (Z.div_mod t 1000000). pose proof (Z.mod_pos_bound t 1000000). lia.
Qed.

Lemma UnixMilli_mono t u : t <= u -> UnixMilli t <= UnixMilli u.
Proof. intros. unfold UnixMilli, Millisecond. apply Z.div_le_mono; lia. Qed.

(** The proleptic Gregorian calendar: days since 1970-01-01. *)
Definition civil_of_days (z : Z) : Z * Z * Z :=
  let z := z + 719468 in
  let era := z `div` 146097 in
  let doe := z - era * 146097 in
  let yoe := (doe - doe `div` 1460 + doe `div` 36524 - doe `div` 146096) `div` 365 in
  let doy := doe - (365 * yoe + yoe `div` 4 - yoe `div` 100) in
  let mp := (5 * doy + 2) `div` 153 in
  let d := doy - (153 * mp + 2) `div` 5 + 1 in
  let m := if decide (mp < 10) then mp + 3 else mp - 9 in
  let y := yoe + era * 400 in
  (if decide (m <= 2) then y + 1 else y, m, d).

Definition days_of_civil (y m d : Z) : Z :=
  let y := if decide (m <= 2) then y - 1 else y in
  let era := y `div` 400 in
  let yoe := y - era * 400 in
  let doy := (153 * (if decide (2 < m) then m - 3 else m + 9) + 2) `div` 5 + d - 1 in
  let doe := yoe * 365 + yoe `div` 4 - yoe `div` 100 + doy in
  era * 146097 + doe - 719468.

Definition leap (y : Z) : bool :=
  bool_decide (y `mod` 4 = 0) && (negb (bool_decide (y `mod` 100 = 0)) || bool_decide (y `mod` 400 = 0)).

Definition days_in (m y : Z) : Z :=
  if decide (m = 2) then if leap y then 29 else 28
  else if decide (m = 4 \/ m = 6 \/ m = 9 \/ m = 11) then 30 else 31.

(** Zero-padded decimal of at least [w] digits. *)
Definition pad (w : nat) (n : Z) : string :=
  let ds := bytes (pretty (Z.abs n)) in
  (if decide (n < 0) then "-" else "")%string
  +:+ of_bytes (replicate (w - length ds) "0"%char ++ ds).

Fixpoint drop_zeros_rev (l : list ascii) : list ascii :=
  match l with
  | c :: l' => if decide (c = "0"%char) then drop_zeros_rev l' else l
  | [] => []
  end.

(** [t.UTC().Format(time.RFC3339Nano)]: trailing zeros of the fraction, and
    the point itself when the fraction is zero, are dropped. *)
Definition FormatRFC3339Nano (t : Z) : string :=
  let secs := t `div` Second in
  let nanos := t `mod` Second in
  let days := secs `div` 86400 in
  let sod := secs `mod` 86400 in
  let '(y, m, d) := civil_of_days days in
  let frac := rev (drop_zeros_rev (rev (bytes (pad 9 nanos)))) in
  pad 4 y +:+ "-" +:+ pad 2 m +:+ "-" +:+ pad 2 d +:+ "T"
  +:+ pad 2 (sod `div` 3600) +:+ ":" +:+ pad 2 (sod `mod` 3600 `div` 60) +:+ ":" +:+ pad 2 (sod `mod` 60)
  +:+ (match frac with [] => "" | _ => "." +:+ of_bytes frac end) +:+ "Z".

(** ** Parsing RFC 3339 *)

(** [getnum]: a two-digit number, or a one-digit one when not [fixed]. *)
Definition getnum (fixed : bool) (l : list ascii) : option (Z * list ascii) :=
  match l with
  | a :: l' =>
      match Strconv.digit_val a with
      | None => None
      | Some x =>
          match l' with
          | b :: l'' =>
              match Strconv.digit_val b with
              | Some y => Some (10 * x + y, l'')
              | None => if fixed then None else Some (x, l')
              end
          | [] => if fixed then None else Some (x, l')
          end
      end
  | [] => None
  end.

Definition lit (c : ascii) (l : list ascii) : option (list ascii) :=
  match l with
  | a :: l' => if decide (a = c) then Some l' else None
  | [] => None
  end.

Definition year4 (l : list ascii) : option (Z * list ascii) :=
  if decide (4 <= Z.of_nat (length l)) then
    match Strconv.digits (take 4 l) with
    | Some y => Some (y, drop 4 l)
    | None => None
    end
  else None.

Fixpoint span_digits (l : list ascii) : list ascii * list ascii :=
  match l with
  | c :: l' => match Strconv.digit_val c with
               | Some _ => let '(a, b) := span_digits l' in (c :: a, b)
               | None => ([], l)
               end
  | [] => ([], [])
  end.

(** A fraction after the seconds, introduced by a period or a comma; digits
    after the ninth are dropped ([parseNanoseconds]). *)
Definition fraction (l : list ascii) : Z * list ascii :=
  match l with
  | c :: l' =>
      if decide (c = "."%char \/ c = ","%char) then
        let '(ds, rest) := span_digits l' in
        match ds with
        | [] => (0, l)
        | _ => let ds := take 9 ds in
               (default 0 (Strconv.digits ds) * 10 ^ (9 - Z.of_nat (length ds)), rest)
        end
      else (0, l)
  | [] => (0, l)
  end.

(** [Z07:00]: the zone's offset in seconds, at the end of the text. *)
Definition zone (l : list ascii) : option Z :=
  match l with
  | [c] => if decide (c = "Z"%char) then Some 0 else None
  | c :: l =>
      match getnum true l with
      | Some (h, l) =>
          match lit ":"%char l with
          | Some l =>
              match getnum true l with
              | Some (m, []) =>
                  if decide (h <= 24 /\ m <= 60) then
                    if decide (c = "+"%char) then Some (h * 3600 + m * 60)
                    else if decide (c = "-"%char) then Some (- (h * 3600 + m * 60))
                    else None
                  else None
              | _ => None
              end
          | None => None
          end
      | None => None
      end
  | [] => None
  end.

#[local] Notation "'do' x <- e ; k" := (match e with Some x => k | None => None end)
  (at level 200, x pattern, e at level 100, k at level 200).

(** [time.Parse(time.RFC3339, s)]. *)
Definition ParseRFC3339 (s : string) : option Z :=
  do (y, l) <- year4 (bytes s);
  do l <- lit "-"%char l;
  do (mo, l) <- getnum true l;
  do l <- lit "-"%char l;
  do (d, l) <- getnum true l;
  do l <- lit "T"%char l;
  do (h, l) <- getnum false l;
  do l <- lit ":"%char l;
  do (mi, l) <- getnum true l;
  do l <- lit ":"%char l;
  do (sec, l) <- getnum true l;
  let '(nanos, l) := fraction l in
  do off <- zone l;
  if decide (1 <= mo <= 12 /\ 1 <= d <= days_in mo y /\ h < 24 /\ mi < 60 /\ sec < 60)
  then Some ((days_of_civil y mo d * 86400 + h * 3600 + mi * 60 + sec - off) * Second + nanos)
  else None.

Example format_epoch : FormatRFC3339Nano 0 = "1970-01-01T00:00:00Z"%string.
Proof. vm_compute. reflexivity. Qed.
Example format_frac :
  FormatRFC3339Nano (1709210096 * Second + 123450000) = "2024-02-29T12:34:56.12345Z"%string.
Proof. vm_compute. reflexivity. Qed.
Example parse_offset :
  ParseRFC3339 "2024-02-29T14:34:56.12345+02:00" = Some (1709210096 * Second + 123450000).
Proof. vm_compute. reflexivity. Qed.
Example parse_bad_day : ParseRFC3339 "2023-02-29T00:00:00Z" = None.
Proof. vm_compute. reflexivity. Qed.

End Time.
