(* ===== verification/GoSort.v ===== *)
(** * Package sort, and the order of Go strings

    [sort.SliceStable] and [sort.Strings], and Go's [<] on strings, which
    compares bytes. *)

From S2P Require Import Prelude GoLib.
From stdpp Require Import gmap strings list fin_maps sorting.
From Stdlib Require Import ZArith Lia Ascii.

Open Scope Z_scope.

(** ** Strings by bytes *)

Fixpoint bytes_le (l k : list Z) : bool :=
  match l, k with
  | [], _ => true
  | _ :: _, [] => false
  | a :: l, b :: k => (a <? b) || ((a =? b) && bytes_le l k)
  end.

Lemma bytes_le_trans l k j : bytes_le l k = true -> bytes_le k j = true -> bytes_le l j = true.
Proof.
  revert k j. induction l as [|a l IH]; intros [|b k] [|c j]; simpl; try done.
  rewrite !orb_true_iff, !andb_true_iff, !Z.ltb_lt, !Z.eqb_eq.
  intros [H1|[H1 H2]] [H3|[H3 H4]]; [left; lia..|]. right. split; [lia|eauto].
Qed.

Lemma bytes_le_total l k : bytes_le l k = true \/ bytes_le k l = true.
Proof.
  revert k. induction l as [|a l IH]; intros [|b k]; simpl; auto.
  rewrite !orb_true_iff, !andb_true_iff, !Z.ltb_lt, !Z.eqb_eq.
  destruct (Z.lt_total a b) as [|[|]], (IH k); auto.
Qed.

Lemma bytes_le_antisymm l k : bytes_le l k = true -> bytes_le k l = true -> l = k.
Proof.
  revert k. induction l as [|a l IH]; intros [|b k]; simpl; try done.
  rewrite !orb_true_iff, !andb_true_iff, !Z.ltb_lt, !Z.eqb_eq.
  intros [H1|[H1 H2]] [H3|[H3 H4]]; try lia. subst. f_equal. eauto.
Qed.

Definition text_val (t : string) : list Z := byte_val <$> bytes t.

#[export] Instance byte_val_inj : Inj (=) (=) byte_val.
Proof.
  intros a b H%N2Z.inj. rewrite <- (ascii_N_embedding a), <- (ascii_N_embedding b). by f_equal.
Qed.

Lemma text_val_inj t u : text_val t = text_val u -> t = u.
Proof.
  intros H. rewrite <- (of_bytes_bytes t), <- (of_bytes_bytes u). f_equal.
  by apply (inj (fmap byte_val)).
Qed.

(** [t <= u] and [t < u] of Go. *)
Definition string_leb (t u : string) : bool := bytes_le (text_val t) (text_val u).
Definition string_ltb (t u : string) : bool := negb (string_leb u t).

Lemma string_leb_trans t u v : string_leb t u = true -> string_leb u v = true -> string_leb t v = true.
Proof. apply bytes_le_trans. Qed.
Lemma string_leb_total t u : string_leb t u = true \/ string_leb u t = true.
Proof. apply bytes_le_total. Qed.
Lemma string_leb_antisymm t u : string_leb t u = true -> string_leb u t = true -> t = u.
Proof. intros H1 H2. by apply text_val_inj, bytes_le_antisymm. Qed.

(** ** Stable sorting *)

Section Sort.
Context {A : Type} (less : A -> A -> bool).

Fixpoint insert_stable (x : A) (l : list A) : list A :=
  match l with
  | [] => [x]
  | y :: l => if less y x then y :: insert_stable x l else x :: y :: l
  end.

(** [sort.SliceStable(l, less)]. *)
Definition SliceStable (l : list A) : list A := foldr insert_stable [] l.

Lemma insert_stable_perm x l : insert_stable x l ≡ₚ x :: l.
Proof.
  induction l as [|y l IH]; simpl; [done|]. destruct (less y x); [|done]. rewrite IH. apply perm_swap.
Qed.

Lemma SliceStable_perm l : SliceStable l ≡ₚ l.
Proof. induction l as [|x l IH]; simpl; [done|]. by rewrite insert_stable_perm, IH. Qed.

Lemma elem_of_SliceStable x l : x ∈ SliceStable l <-> x ∈ l.
Proof. by rewrite SliceStable_perm. Qed.

(** [less] is a strict weak order: its converse complement [not_after] is
    total and transitive. *)
Definition not_after (x y : A) : Prop := less y x = false.

Hypothesis asym : forall x y, less x y = true -> less y x = false.
Hypothesis trans : forall x y z, not_after x y -> not_after y z -> not_after x z.

Lemma insert_stable_sorted x l : StronglySorted not_after l -> StronglySorted not_after (insert_stable x l).
Proof.
  induction 1 as [|y l Hs IH HF]; simpl; [by repeat constructor|]. destruct (less y x) eqn:Hl.
  - constructor; [done|]. rewrite insert_stable_perm. constructor; [by apply asym|done].
  - constructor; [by constructor|]. constructor; [done|].
    eapply Forall_impl; [exact HF|]. intros z Hz. by eapply trans.
Qed.

Lemma SliceStable_sorted l : StronglySorted not_after (SliceStable l).
Proof. induction l as [|x l IH]; simpl; [constructor|]. by apply insert_stable_sorted. Qed.

(** Where the order leaves no ties, the result depends on the elements
    only. *)
Lemma SliceStable_unique l k :
  (forall x y, x ∈ l -> y ∈ l -> not_after x y -> not_after y x -> x = y) ->
  l ≡ₚ k -> SliceStable l = SliceStable k.
Proof.
  intros Hanti Hp. apply (StronglySorted_unique_strong not_after).
  - intros x y Hx Hy. rewrite elem_of_SliceStable in Hx, Hy. rewrite <- Hp in Hy. by apply Hanti.
  - apply SliceStable_sorted.
  - apply SliceStable_sorted.
  - by rewrite !SliceStable_perm.
Qed.

End Sort.

(** [sort.Strings]. *)
Definition sort_strings (l : list string) : list string := SliceStable string_ltb l.

Lemma string_ltb_asym t u : string_ltb t u = true -> string_ltb u t = false.
Proof.
  unfold string_ltb. rewrite negb_true_iff, negb_false_iff. intros H.
  destruct (string_leb_total t u); [done|congruence].
Qed.

Lemma string_not_after t u : not_after string_ltb t u <-> string_leb t u = true.
Proof. unfold not_after, string_ltb. by rewrite negb_false_iff. Qed.

Lemma string_not_after_trans t u v :
  not_after string_ltb t u -> not_after string_ltb u v -> not_after string_ltb t v.
Proof. rewrite !string_not_after. apply string_leb_trans. Qed.
