(* ===== verification/Agent.v ===== *)
(** * Package agent: the data model

    The types of [src/pkg/agent/types.go] (agents, events, queries, event
    filters, DAGs) and the helpers of [src/pkg/agent/helpers.go].  A status is
    a Go string with five named values; a nil map is [None]; an [interface{}]
    value is an [any]. *)

From S2P Require Import Prelude GoLib.
From stdpp Require Import gmap strings list fin_maps sorting pretty.
From Stdlib Require Import ZArith Lia Ascii.

Open Scope Z_scope.

(** ** Dynamic values *)

(** What an [interface{}] holds in payloads, event data and update maps: the
    JSON kinds, and the Go types the code tests for by type assertion
    ([[]string], [map[string]string], [time.Time]).  A number is kept as its
    literal: the program never computes with one, and the rounding of a
    decoded literal to a [float64] is not modelled. *)
Inductive any : Type :=
| VNil
| VBool (b : bool)
| VNum (lit : string)
| VStr (s : string)
| VTime (t : Z)
| VStrs (l : list string)
| VList (l : list any)
| VStrMap (m : gmap string string)
| VMap (m : gmap string any).

(** The value read back after [json.Marshal] and [json.Unmarshal] into an
    [interface{}]. *)
Fixpoint json_value (v : any) : any :=
  match v with
  | VTime t => VStr (Time.FormatRFC3339Nano t)
  | VStrs l => VList (VStr <$> l)
  | VStrMap m => VMap (VStr <$> m)
  | VList l => VList (json_value <$> l)
  | VMap m => VMap (json_value <$> m)
  | VNil | VBool _ | VNum _ | VStr _ => v
  end.

(** ** Agents *)

Definition StatusNew : string := "NEW".
Definition StatusInProgress : string := "IN_PROGRESS".
Definition StatusCompleted : string := "COMPLETED".
Definition StatusFailed : string := "FAILED".
Definition StatusCancelled : string := "CANCELLED".

Definition EventCreated : string := "CREATED".
Definition EventClaimed : string := "CLAIMED".
Definition EventUpdated : string := "UPDATED".
Definition EventCompleted : string := "COMPLETED".
Definition EventFailed : string := "FAILED".
Definition EventReleased : string := "RELEASED".

Record Agent : Type := MkAgent {
  a_ID : string;
  a_Kind : string;
  a_Status : string;
  a_ShardID : string;
  a_Payload : option (gmap string any);
  a_Tags : list string;
  a_Owner : string;
  a_ParentID : string;
  a_TraceID : string;
  a_NamespaceID : string;
  a_TTL : Z;
  a_CreatedAt : Z;
  a_UpdatedAt : Z;
  a_OwnerTime : Z;
  a_LeaseToken : string;
  a_LeaseUntil : Z;
  a_Version : Z;
  a_Metadata : option (gmap string string);
}.

Definition set_ID (v : string) (a : Agent) : Agent :=
  let '(MkAgent _ x1 x2 x3 x4 x5 x6 x7 x8 x9 x10 x11 x12 x13 x14 x15 x16 x17) := a in
  MkAgent v x1 x2 x3 x4 x5 x6 x7 x8 x9 x10 x11 x12 x13 x14 x15 x16 x17.
Definition set_Kind (v : string) (a : Agent) : Agent :=
  let '(MkAgent x0 _ x2 x3 x4 x5 x6 x7 x8 x9 x10 x11 x12 x13 x14 x15 x16 x17) := a in
  MkAgent x0 v x2 x3 x4 x5 x6 x7 x8 x9 x10 x11 x12 x13 x14 x15 x16 x17.
Definition set_Status (v : string) (a : Agent) : Agent :=
  let '(MkAgent x0 x1 _ x3 x4 x5 x6 x7 x8 x9 x10 x11 x12 x13 x14 x15 x16 x17) := a in
  MkAgent x0 x1 v x3 x4 x5 x6 x7 x8 x9 x10 x11 x12 x13 x14 x15 x16 x17.
Definition set_ShardID (v : string) (a : Agent) : Agent :=
  let '(MkAgent x0 x1 x2 _ x4 x5 x6 x7 x8 x9 x10 x11 x12 x13 x14 x15 x16 x17) := a in
  MkAgent x0 x1 x2 v x4 x5 x6 x7 x8 x9 x10 x11 x12 x13 x14 x15 x16 x17.
Definition set_Payload (v : option (gmap string any)) (a : Agent) : Agent :=
  let '(MkAgent x0 x1 x2 x3 _ x5 x6 x7 x8 x9 x10 x11 x12 x13 x14 x15 x16 x17) := a in
  MkAgent x0 x1 x2 x3 v x5 x6 x7 x8 x9 x10 x11 x12 x13 x14 x15 x16 x17.
Definition set_Tags (v : list string) (a : Agent) : Agent :=
  let '(MkAgent x0 x1 x2 x3 x4 _ x6 x7 x8 x9 x10 x11 x12 x13 x14 x15 x16 x17) := a in
  MkAgent x0 x1 x2 x3 x4 v x6 x7 x8 x9 x10 x11 x12 x13 x14 x15 x16 x17.
Definition set_Owner (v : string) (a : Agent) : Agent :=
  let '(MkAgent x0 x1 x2 x3 x4 x5 _ x7 x8 x9 x10 x11 x12 x13 x14 x15 x16 x17) := a in
  MkAgent x0 x1 x2 x3 x4 x5 v x7 x8 x9 x10 x11 x12 x13 x14 x15 x16 x17.
Definition set_ParentID (v : string) (a : Agent) : Agent :=
  let '(MkAgent x0 x1 x2 x3 x4 x5 x6 _ x8 x9 x10 x11 x12 x13 x14 x15 x16 x17) := a in
  MkAgent x0 x1 x2 x3 x4 x5 x6 v x8 x9 x10 x11 x12 x13 x14 x15 x16 x17.
Definition set_TraceID (v : string) (a : Agent) : Agent :=
  let '(MkAgent x0 x1 x2 x3 x4 x5 x6 x7 _ x9 x10 x11 x12 x13 x14 x15 x16 x17) := a in
  MkAgent x0 x1 x2 x3 x4 x5 x6 x7 v x9 x10 x11 x12 x13 x14 x15 x16 x17.
Definition set_NamespaceID (v : string) (a : Agent) : Agent :=
  let '(MkAgent x0 x1 x2 x3 x4 x5 x6 x7 x8 _ x10 x11 x12 x13 x14 x15 x16 x17) := a in
  MkAgent x0 x1 x2 x3 x4 x5 x6 x7 x8 v x10 x11 x12 x13 x14 x15 x16 x17.
Definition set_TTL (v : Z) (a : Agent) : Agent :=
  let '(MkAgent x0 x1 x2 x3 x4 x5 x6 x7 x8 x9 _ x11 x12 x13 x14 x15 x16 x17) := a in
  MkAgent x0 x1 x2 x3 x4 x5 x6 x7 x8 x9 v x11 x12 x13 x14 x15 x16 x17.
Definition set_CreatedAt (v : Z) (a : Agent) : Agent :=
  let '(MkAgent x0 x1 x2 x3 x4 x5 x6 x7 x8 x9 x10 _ x12 x13 x14 x15 x16 x17) := a in
  MkAgent x0 x1 x2 x3 x4 x5 x6 x7 x8 x9 x10 v x12 x13 x14 x15 x16 x17.
Definition set_UpdatedAt (v : Z) (a : Agent) : Agent :=
  let '(MkAgent x0 x1 x2 x3 x4 x5 x6 x7 x8 x9 x10 x11 _ x13 x14 x15 x16 x17) := a in
  MkAgent x0 x1 x2 x3 x4 x5 x6 x7 x8 x9 x10 x11 v x13 x14 x15 x16 x17.
Definition set_OwnerTime (v : Z) (a : Agent) : Agent :=
  let '(MkAgent x0 x1 x2 x3 x4 x5 x6 x7 x8 x9 x10 x11 x12 _ x14 x15 x16 x17) := a in
  MkAgent x0 x1 x2 x3 x4 x5 x6 x7 x8 x9 x10 x11 x12 v x14 x15 x16 x17.
Definition set_LeaseToken (v : string) (a : Agent) : Agent :=
  let '(MkAgent x0 x1 x2 x3 x4 x5 x6 x7 x8 x9 x10 x11 x12 x13 _ x15 x16 x17) := a in
  MkAgent x0 x1 x2 x3 x4 x5 x6 x7 x8 x9 x10 x11 x12 x13 v x15 x16 x17.
Definition set_LeaseUntil (v : Z) (a : Agent) : Agent :=
  let '(MkAgent x0 x1 x2 x3 x4 x5 x6 x7 x8 x9 x10 x11 x12 x13 x14 _ x16 x17) := a in
  MkAgent x0 x1 x2 x3 x4 x5 x6 x7 x8 x9 x10 x11 x12 x13 x14 v x16 x17.
Definition set_Version (v : Z) (a : Agent) : Agent :=
  let '(MkAgent x0 x1 x2 x3 x4 x5 x6 x7 x8 x9 x10 x11 x12 x13 x14 x15 _ x17) := a in
  MkAgent x0 x1 x2 x3 x4 x5 x6 x7 x8 x9 x10 x11 x12 x13 x14 x15 v x17.
Definition set_Metadata (v : option (gmap string string)) (a : Agent) : Agent :=
  let '(MkAgent x0 x1 x2 x3 x4 x5 x6 x7 x8 x9 x10 x11 x12 x13 x14 x15 x16 _) := a in
  MkAgent x0 x1 x2 x3 x4 x5 x6 x7 x8 x9 x10 x11 x12 x13 x14 x15 x16 v.

Record Event : Type := MkEvent {
  e_ID : string;
  e_TupleID : string;
  e_Type : string;
  e_Kind : string;
  e_Timestamp : Z;
  e_AgentID : string;
  e_Data : gmap string any;
  e_TraceID : string;
  e_Version : Z;
}.

Record Query : Type := MkQuery {
  q_Kind : string;
  q_Status : string;
  q_Tags : list string;
  q_Owner : string;
  q_ParentID : string;
  q_TraceID : string;
  q_NamespaceID : string;
  q_AgentID : string;
  q_Metadata : option (gmap string string);
  q_Limit : Z;
  q_Offset : Z;
}.

Definition empty_query : Query := MkQuery "" "" [] "" "" "" "" "" None 0 0.

Record EventQuery : Type := MkEventQuery {
  eq_TupleID : string;
  eq_AgentID : string;
  eq_Type : string;
  eq_TraceID : string;
  eq_Limit : Z;
  eq_Offset : Z;
  eq_Cursor : string;
}.

Record EventPage : Type := MkEventPage {
  ep_Events : list Event;
  ep_Total : Z;
  ep_NextCursor : string;
}.

Record EventFilter : Type := MkEventFilter {
  f_Types : list string;
  f_TupleIDs : list string;
  f_Kinds : list string;
  f_AgentIDs : list string;
  f_TraceIDs : list string;
}.

Record DAGNode : Type := MkDAGNode {
  n_TupleID : string;
  n_Kind : string;
  n_Status : string;
  n_CreatedAt : Z;
  n_Metadata : option (gmap string string);
}.

Record Edge : Type := MkEdge {
  edge_From : string;
  edge_To : string;
  edge_Type : string;
}.

Record DAG : Type := MkDAG {
  dag_Nodes : gmap string DAGNode;
  dag_Edges : list Edge;
}.

Record LeaseOptions : Type := MkLeaseOptions {
  LeaseDuration : Z;
  AutoRenew : bool;
}.

(** The JSON object of an agent: the field names of the struct tags, with
    [shard_id] and [lease_token] omitted when empty. *)
Definition agent_json (t : Agent) : any :=
  VMap (list_to_map
    ([("id", VStr (a_ID t)); ("kind", VStr (a_Kind t)); ("status", VStr (a_Status t));
      ("payload", match a_Payload t with Some m => VMap m | None => VNil end);
      ("tags", VStrs (a_Tags t)); ("owner", VStr (a_Owner t));
      ("parent_id", VStr (a_ParentID t)); ("trace_id", VStr (a_TraceID t));
      ("namespace_id", VStr (a_NamespaceID t)); ("ttl", VNum (pretty (a_TTL t)));
      ("created_at", VTime (a_CreatedAt t)); ("updated_at", VTime (a_UpdatedAt t));
      ("owner_time", VTime (a_OwnerTime t)); ("lease_until", VTime (a_LeaseUntil t));
      ("version", VNum (pretty (a_Version t)));
      ("metadata", match a_Metadata t with Some m => VStrMap m | None => VNil end)]
     ++ (if decide (a_ShardID t = "") then [] else [("shard_id", VStr (a_ShardID t))])
     ++ (if decide (a_LeaseToken t = "") then [] else [("lease_token", VStr (a_LeaseToken t))]))%list).

(** ** Helpers *)

(** [NewAgent]: [id] and [trace] are the two fresh UUIDs, [now] the clock. *)
Definition NewAgent (id trace : string) (now : Z) (kind : string)
    (payload : option (gmap string any)) : Agent :=
  MkAgent id kind StatusNew "" payload [] "" "" trace "" 0 now now
    Time.zero_time "" Time.zero_time 1 (Some ∅).

Definition WithTraceID (traceID : string) (t : Agent) : Agent := set_TraceID traceID t.
Definition WithParentID (parentID : string) (t : Agent) : Agent := set_ParentID parentID t.
Definition WithTags (tags : list string) (t : Agent) : Agent := set_Tags (a_Tags t ++ tags) t.
Definition WithTTL (ttl : Z) (t : Agent) : Agent := set_TTL ttl t.
Definition WithMetadata (key value : string) (t : Agent) : Agent :=
  set_Metadata (Some (<[key:=value]> (default ∅ (a_Metadata t)))) t.

Definition HasTag (t : Agent) (tag : string) : bool :=
  existsb (fun u => bool_decide (u = tag)) (a_Tags t).
Definition HasAnyTag (t : Agent) (tags : list string) : bool :=
  existsb (fun tag => HasTag t tag) tags.
Definition HasAllTags (t : Agent) (tags : list string) : bool :=
  forallb (fun tag => HasTag t tag) tags.

Definition IsExpired (now : Z) (t : Agent) : bool :=
  if decide (a_TTL t = 0) then false
  else bool_decide (a_TTL t < Time.Sub now (a_CreatedAt t)).

Definition IsLeaseExpired (now leaseDuration : Z) (t : Agent) : bool :=
  if decide (a_Owner t = "" \/ a_Status t <> StatusInProgress)%string then false
  else if Time.IsZero (a_LeaseUntil t)
  then bool_decide (leaseDuration < Time.Sub now (a_OwnerTime t))
  else bool_decide (a_LeaseUntil t < now).

(** An empty criterion matches every value. *)
Definition crit (want have : string) : bool :=
  bool_decide (want = "")%string || bool_decide (have = want).

Definition MatchesQuery (t : Agent) (q : option Query) : bool :=
  match q with
  | None => true
  | Some q =>
      crit (q_Kind q) (a_Kind t) && crit (q_Status q) (a_Status t)
      && crit (q_Owner q) (a_Owner t) && crit (q_TraceID q) (a_TraceID t)
      && crit (q_ParentID q) (a_ParentID t) && crit (q_NamespaceID q) (a_NamespaceID t)
      && (bool_decide (q_Tags q = []) || HasAllTags t (q_Tags q))
  end.

Definition ParseTag (tag : string) : string * string :=
  match Strings.cut_bytes ":"%char (bytes tag) with
  | (k, Some v) => (of_bytes k, of_bytes v)
  | (_, None) => (tag, ""%string)
  end.

Definition MakeTag (key value : string) : string :=
  if decide (value = "")%string then key else (key +:+ ":" +:+ value)%string.

Definition DefaultLeaseOptions : LeaseOptions := MkLeaseOptions (5 * Time.Minute) false.

(** ** Facts *)

Lemma HasTag_spec t tag : HasTag t tag = true <-> tag ∈ a_Tags t.
Proof.
  unfold HasTag. rewrite existsb_exists. split.
  - intros (x & Hx & ->%bool_decide_eq_true). by apply list_elem_of_In.
  - intros H. exists tag. by rewrite bool_decide_eq_true, <- list_elem_of_In.
Qed.

Lemma HasAllTags_spec t tags : HasAllTags t tags = true <-> tags ⊆ a_Tags t.
Proof.
  unfold HasAllTags. rewrite forallb_forall. split.
  - intros H x Hx. apply HasTag_spec, H, list_elem_of_In, Hx.
  - intros H x Hx. apply HasTag_spec, H, list_elem_of_In, Hx.
Qed.

Lemma crit_spec want have : crit want have = true <-> want = ""%string \/ have = want.
Proof. unfold crit. rewrite orb_true_iff, !bool_decide_eq_true. done. Qed.

Lemma cut_bytes_app sep k v :
  sep ∉ k -> Strings.cut_bytes sep (k ++ sep :: v) = (k, Some v).
Proof.
  induction k as [|c k IH]; intros Hk; simpl.
  - by rewrite decide_True.
  - apply not_elem_of_cons in Hk as [? ?]. rewrite decide_False by done.
    by rewrite IH.
Qed.

Lemma cut_bytes_none sep k : sep ∉ k -> Strings.cut_bytes sep k = (k, None).
Proof.
  induction k as [|c k IH]; intros Hk; simpl; [done|].
  apply not_elem_of_cons in Hk as [? ?]. rewrite decide_False by done.
  by rewrite IH.
Qed.

Lemma of_bytes_app a b : of_bytes (a ++ b) = (of_bytes a +:+ of_bytes b)%string.
Proof. induction a as [|c a IH]; [done|]. simpl. by rewrite IH. Qed.

(** ** The theorem *)

(** Tags round-trip.  A key without a colon and any value, joined by
    [MakeTag], come apart again under [ParseTag], colons in the value and the
    empty value included. *)
Theorem ParseTag_MakeTag key value :
  ":"%char ∉ bytes key -> ParseTag (MakeTag key value) = (key, value).
Proof.
  intros Hk. unfold ParseTag, MakeTag. case_decide as Hv.
  - subst value. by rewrite cut_bytes_none.
  - change ((key +:+ ":" +:+ value)%string) with (key +:+ String ":"%char value)%string.
    rewrite bytes_app. simpl. by rewrite cut_bytes_app, !of_bytes_bytes.
Qed.

Lemma ParseTag_MakeTag_witness : ParseTag (MakeTag "host" "db:5432") = ("host"%string, "db:5432"%string).
Proof.
  apply ParseTag_MakeTag. simpl. repeat (apply not_elem_of_cons; split; [discriminate|]). apply not_elem_of_nil.
Defined.
