(* ===== verification/Common.v ===== *)
(** * Shared store logic: package pkg/store/internal/common

    Partial updates ([update.go]), completion metadata ([completion.go]) and
    the subscription registry ([subscription.go]), which every backend uses,
    with the theorem that the textual subscription keys decide exactly the
    filter they encode. *)

From S2P Require Import Prelude GoLib Agent.
From stdpp Require Import gmap strings list fin_maps sorting pretty.
From Stdlib Require Import ZArith Lia Ascii.

Open Scope Z_scope.

(** ** Constants *)

Definition CompletedByMetadataKey : string := "_completed_by".
Definition CompletedByTokenMetadataKey : string := "_completed_by_token".
Definition CompletedAtMetadataKey : string := "_completed_at".
Definition TokenMismatchStaleErr : string := "TOKEN_MISMATCH_STALE".
Definition QueueMetadataKey : string := "queue".
Definition QueueCreatedMsKey : string := "queue_created_ms".
Definition NamespaceMetadataKey : string := "namespace_id".

(** ** Partial updates *)

Definition GetStringFromMap (m : gmap string any) (key : string) : string :=
  match m !! key with Some (VStr s) => s | _ => ""%string end.

(** The strings among the elements of a dynamic list, in order. *)
Definition strings_of (l : list any) : list string :=
  omap (fun v => match v with VStr s => Some s | _ => None end) l.

(** The entries of a dynamic map whose values are strings. *)
Definition string_entries (m : gmap string any) : gmap string string :=
  omap (fun v => match v with VStr s => Some s | _ => None end) m.

(** A field that takes a [time.Time] or an RFC 3339 string; anything else,
    and a string that does not parse, leaves it alone. *)
Definition time_update (v : option any) (old : Z) : Z :=
  match v with
  | Some (VTime t) => t
  | Some (VStr s) => default old (Time.ParseRFC3339 s)
  | _ => old
  end.

(** The field a key of the update map changes, when its value has the tested
    type; payload and metadata are merged key by key. *)
Definition update_payload (v : option any) (t : Agent) : Agent :=
  match v with
  | Some (VMap payload) => set_Payload (Some (payload ∪ default ∅ (a_Payload t))) t
  | _ => t
  end.

Definition update_string (set : string -> Agent -> Agent) (v : option any) (t : Agent) : Agent :=
  match v with Some (VStr s) => set s t | _ => t end.

Definition update_tags (v : option any) (t : Agent) : Agent :=
  match v with
  | Some (VStrs tags) => set_Tags tags t
  | Some (VList tags) => set_Tags (strings_of tags) t
  | _ => t
  end.

Definition update_metadata (v : option any) (t : Agent) : Agent :=
  match v with
  | Some (VStrMap m) => set_Metadata (Some (m ∪ default ∅ (a_Metadata t))) t
  | Some (VMap m) => set_Metadata (Some (string_entries m ∪ default ∅ (a_Metadata t))) t
  | _ => t
  end.

Definition update_owner_time (v : option any) (t : Agent) : Agent :=
  set_OwnerTime (time_update v (a_OwnerTime t)) t.
Definition update_lease_until (v : option any) (t : Agent) : Agent :=
  set_LeaseUntil (time_update v (a_LeaseUntil t)) t.

Definition ApplyUpdates (t : Agent) (updates : gmap string any) : Agent :=
  let v (k : string) := updates !! k in
  update_string set_LeaseToken (v "lease_token")
    (update_lease_until (v "lease_until")
      (update_owner_time (v "owner_time")
        (update_metadata (v "metadata")
          (update_tags (v "tags")
            (update_string set_Owner (v "owner")
              (update_string set_Status (v "status")
                (update_payload (v "payload") t))))))).

(** ** Completion metadata *)

Definition insert_unless_empty (k v : string) (m : gmap string string) : gmap string string :=
  if decide (v = "")%string then m else <[k:=v]> m.

Definition SetCompletionMetadata (t : Agent) (agentID leaseToken : string) (completedAt : Z) : Agent :=
  let m := default ∅ (a_Metadata t) in
  let m := insert_unless_empty CompletedByMetadataKey agentID m in
  let m := insert_unless_empty CompletedByTokenMetadataKey leaseToken m in
  let m := if Time.IsZero completedAt then m
           else <[CompletedAtMetadataKey := Time.FormatRFC3339Nano completedAt]> m in
  set_Metadata (Some m) t.

Definition CompletionTokenMatches (t : Agent) (leaseToken : string) : bool :=
  match a_Metadata t with
  | None => false
  | Some m =>
      let token := mget m CompletedByTokenMetadataKey in
      bool_decide (leaseToken <> "")%string && bool_decide (token <> "")%string
      && bool_decide (token = leaseToken)
  end.

Definition CompletionTokenRecorded (t : Agent) : bool :=
  match a_Metadata t with
  | None => false
  | Some m => bool_decide (mget m CompletedByTokenMetadataKey <> "")%string
  end.

(** ** Subscriptions *)

Definition key_part (name : string) (values : list string) : list string :=
  match values with [] => [] | _ => [name; Strings.Join values ","] end.

Definition GenerateSubKey (filter : option EventFilter) : string :=
  match filter with
  | None => "sub"
  | Some f =>
      Strings.Join
        ("sub"%string ::
           key_part "types" (f_Types f) ++ key_part "kinds" (f_Kinds f)
           ++ key_part "tuples" (f_TupleIDs f) ++ key_part "agents" (f_AgentIDs f)
           ++ key_part "traces" (f_TraceIDs f)) ":"
  end.

Definition containsString (slice : list string) (str : string) : bool :=
  existsb (fun s => bool_decide (s = str)) slice.

(** The body of the loop's [switch]: an unknown filter type constrains
    nothing. *)
Definition part_matches (event : Event) (filterType filterValue : string) : bool :=
  let values := Strings.Split filterValue ","%char in
  if decide (filterType = "types")%string then containsString values (e_Type event)
  else if decide (filterType = "kinds")%string then containsString values (e_Kind event)
  else if decide (filterType = "tuples")%string then containsString values (e_TupleID event)
  else if decide (filterType = "agents")%string then containsString values (e_AgentID event)
  else if decide (filterType = "traces")%string then containsString values (e_TraceID event)
  else true.

(** The loop over [parts[i]], [parts[i+1]] for [i = 1, 3, ...]. *)
Fixpoint parts_match (event : Event) (parts : list string) : bool :=
  match parts with
  | filterType :: filterValue :: rest =>
      part_matches event filterType filterValue && parts_match event rest
  | _ => true
  end.

Definition EventMatchesFilter (event : Event) (subKey : string) : bool :=
  parts_match event (drop 1 (Strings.Split subKey ":"%char)).

(** [subscribers]: the handlers under each key, in order of registration. *)
Definition Registry (H : Type) : Type := gmap string (list H).

Definition NewSubscriptionRegistry {H} : Registry H := ∅.

Definition Subscribe {H} (filter : option EventFilter) (handler : H) (r : Registry H) : Registry H :=
  let subKey := GenerateSubKey filter in
  <[subKey := default [] (r !! subKey) ++ [handler]]> r.

(** [Notify] starts every handler of every matching key; the order among keys
    is Go's map order, of which the model fixes one. *)
Definition Notify {H} (event : Event) (r : Registry H) : list H :=
  '(subKey, handlers) ← map_to_list r;
  if EventMatchesFilter event subKey then handlers else [].

(** What a filter means: an empty list accepts every value. *)
Definition among (values : list string) (v : string) : Prop := values = [] \/ v ∈ values.

Definition filter_accepts (f : EventFilter) (e : Event) : Prop :=
  among (f_Types f) (e_Type e) /\ among (f_Kinds f) (e_Kind e)
  /\ among (f_TupleIDs f) (e_TupleID e) /\ among (f_AgentIDs f) (e_AgentID e)
  /\ among (f_TraceIDs f) (e_TraceID e).

(** A value the textual key can carry: it has neither of the two separators. *)
Definition plain (s : string) : Prop := ":"%char ∉ bytes s /\ ","%char ∉ bytes s.

Definition plain_filter (f : EventFilter) : Prop :=
  Forall plain (f_Types f) /\ Forall plain (f_Kinds f) /\ Forall plain (f_TupleIDs f)
  /\ Forall plain (f_AgentIDs f) /\ Forall plain (f_TraceIDs f).

#[export] Instance plain_dec s : Decision (plain s).
Proof. unfold plain. apply _. Defined.
#[export] Instance plain_filter_dec f : Decision (plain_filter f).
Proof. unfold plain_filter. apply _. Defined.

(** ** Facts on partial updates *)

Lemma update_string_ID (set : string -> Agent -> Agent) v t :
  (forall s t, a_ID (set s t) = a_ID t) -> a_ID (update_string set v t) = a_ID t.
Proof. intros H. destruct v as [[]|]; simpl; auto. Qed.

Lemma ApplyUpdates_ID t updates : a_ID (ApplyUpdates t updates) = a_ID t.
Proof.
  unfold ApplyUpdates. cbn zeta beta.
  assert (HP : forall v t, a_ID (update_payload v t) = a_ID t) by (by intros [[]|] []).
  assert (HT : forall v t, a_ID (update_tags v t) = a_ID t) by (by intros [[]|] []).
  assert (HM : forall v t, a_ID (update_metadata v t) = a_ID t) by (by intros [[]|] []).
  assert (HO : forall v t, a_ID (update_owner_time v t) = a_ID t) by (by intros v []).
  assert (HL : forall v t, a_ID (update_lease_until v t) = a_ID t) by (by intros v []).
  rewrite update_string_ID by (by intros s []). rewrite HL, HO, HM, HT.
  rewrite !update_string_ID by (by intros s []). apply HP.
Qed.

(** ** Facts on completion metadata *)

Lemma CompletionTokenMatches_spec t tok :
  CompletionTokenMatches t tok = true <->
  tok <> ""%string /\ omget (a_Metadata t) CompletedByTokenMetadataKey = tok.
Proof.
  unfold CompletionTokenMatches, omget. destruct (a_Metadata t) as [m|].
  - rewrite !andb_true_iff, !bool_decide_eq_true. naive_solver congruence.
  - split; [done|]. intros [H E]. by subst tok.
Qed.

Lemma SetCompletionMetadata_token t who tok at_ :
  tok <> ""%string ->
  CompletionTokenMatches (SetCompletionMetadata t who tok at_) tok = true.
Proof.
  intros Ht. apply CompletionTokenMatches_spec. split; [done|].
  destruct t; simpl. unfold insert_unless_empty. rewrite (decide_False (P := tok = _)) by done.
  destruct (Time.IsZero at_); autorewrite with spaces; done.
Qed.

(** ** Facts on subscriptions *)

Lemma containsString_spec l s : containsString l s = true <-> s ∈ l.
Proof.
  unfold containsString. rewrite existsb_exists. split.
  - intros (x & Hx & ->%bool_decide_eq_true). by apply list_elem_of_In.
  - intros H. exists s. by rewrite bool_decide_eq_true, <- list_elem_of_In.
Qed.

Lemma Join_no_sep (c : ascii) (ws : list string) (sep : ascii) :
  c <> sep -> Forall (fun w => c ∉ bytes w) ws -> c ∉ bytes (Strings.Join ws (String sep "")).
Proof.
  intros Hne HF. unfold Strings.Join. rewrite bytes_of_bytes. simpl.
  induction HF as [|w ws Hw HF IH]; simpl; [apply not_elem_of_nil|].
  change (list_fmap string (list ascii) bytes ws) with (bytes <$> ws).
  destruct (bytes <$> ws) as [|w' l]; [exact Hw|]. rewrite not_elem_of_app, not_elem_of_cons.
  split_and!; [exact Hw|exact Hne|exact IH].
Qed.

Lemma parts_match_app e l1 l2 :
  Nat.Even (length l1) -> parts_match e (l1 ++ l2) = parts_match e l1 && parts_match e l2.
Proof.
  intros [n Hn]. revert l1 Hn. induction n as [|n IH]; intros l1 Hn.
  - destruct l1; [done|]. simpl in Hn. lia.
  - destruct l1 as [|x [|y l1]]; simpl in Hn; try lia. simpl.
    rewrite IH by lia. by rewrite andb_assoc.
Qed.

Lemma key_part_even name vs : Nat.Even (length (key_part name vs)).
Proof. destruct vs; [by exists 0%nat | by exists 1%nat]. Qed.

(** One criterion: its part of the key decides membership. *)
Lemma key_part_match e name vs v :
  Forall plain vs ->
  (forall w, part_matches e name w = containsString (Strings.Split w ","%char) v) ->
  parts_match e (key_part name vs) = true <-> among vs v.
Proof.
  intros Hp Hm. unfold among. destruct vs as [|v0 vs]; [naive_solver|].
  change (key_part name (v0 :: vs)) with [name; Strings.Join (v0 :: vs) ","].
  cbn [parts_match]. rewrite andb_true_r, Hm.
  rewrite Strings.Split_Join, containsString_spec; [naive_solver|done|].
  eapply Forall_impl; [exact Hp|]. by intros ? [? ?].
Qed.

Lemma key_part_plain name vs :
  ":"%char ∉ bytes name -> Forall plain vs ->
  Forall (fun w => ":"%char ∉ bytes w) (key_part name vs).
Proof.
  intros Hn Hp. destruct vs as [|v vs]; [constructor|].
  change (key_part name (v :: vs)) with [name; Strings.Join (v :: vs) ","].
  repeat constructor; [done|]. apply Join_no_sep; [done|].
  eapply Forall_impl; [exact Hp|]. by intros ? [? ?].
Qed.

Lemma SubKey_parts f :
  plain_filter f ->
  drop 1 (Strings.Split (GenerateSubKey (Some f)) ":"%char) =
  key_part "types" (f_Types f) ++ key_part "kinds" (f_Kinds f)
  ++ key_part "tuples" (f_TupleIDs f) ++ key_part "agents" (f_AgentIDs f)
  ++ key_part "traces" (f_TraceIDs f).
Proof.
  intros (H1 & H2 & H3 & H4 & H5). unfold GenerateSubKey.
  rewrite Strings.Split_Join; [done|done|].
  constructor; [simpl; by repeat (apply not_elem_of_cons; split); [..|apply not_elem_of_nil]|].
  repeat apply Forall_app_2; apply key_part_plain; try done;
    simpl; by repeat (apply not_elem_of_cons; split); [..|apply not_elem_of_nil].
Qed.

Lemma SubKey_decides f e :
  plain_filter f ->
  EventMatchesFilter e (GenerateSubKey (Some f)) = true <-> filter_accepts f e.
Proof.
  intros Hf. unfold EventMatchesFilter. rewrite SubKey_parts by done.
  destruct Hf as (H1 & H2 & H3 & H4 & H5).
  rewrite !parts_match_app, !andb_true_iff by apply key_part_even.
  rewrite !(key_part_match e) by done. unfold filter_accepts. tauto.
Qed.

Lemma Notify_elem {H} e (r : Registry H) h :
  h ∈ Notify e r <-> exists k hs, r !! k = Some hs /\ h ∈ hs /\ EventMatchesFilter e k = true.
Proof.
  unfold Notify, Registry in *. rewrite list_elem_of_bind. split.
  - intros ([k hs] & Hh & Hk). apply elem_of_map_to_list in Hk.
    destruct (EventMatchesFilter e k) eqn:E; [|by apply not_elem_of_nil in Hh]. eauto.
  - intros (k & hs & Hk & Hh & E). exists (k, hs).
    by rewrite E, elem_of_map_to_list.
Qed.

Lemma Subscribe_elem {H} (f : option EventFilter) (h h' : H) e r :
  h' ∈ Notify e (Subscribe f h r) <->
  h' ∈ Notify e r \/ h' = h /\ EventMatchesFilter e (GenerateSubKey f) = true.
Proof.
  rewrite !Notify_elem. unfold Subscribe, Registry in *. set (k0 := GenerateSubKey f). split.
  - intros (k & hs & Hk & Hh & He). destruct (decide (k = k0)) as [->|Hne].
    + rewrite lookup_insert_eq in Hk. injection Hk as <-.
      apply elem_of_app in Hh as [Hh|Hh%list_elem_of_singleton]; [|by right].
      left. destruct (r !! k0) as [hs|] eqn:Hr; [by exists k0, hs|by apply not_elem_of_nil in Hh].
    + rewrite lookup_insert_ne in Hk by done. left. by exists k, hs.
  - intros [(k & hs & Hk & Hh & He)|[-> He]].
    + destruct (decide (k = k0)) as [->|Hne].
      * exists k0. eexists. rewrite lookup_insert_eq, Hk. split_and!; [done|set_solver|done].
      * exists k, hs. by rewrite lookup_insert_ne.
    + exists k0. eexists. rewrite lookup_insert_eq. split_and!; [done|set_solver|done].
Qed.

(** ** The theorem *)

(** A subscription delivers exactly what its filter accepts.  A handler
    new to the registry and subscribed with a filter whose values contain
    neither colon nor comma is started for an event exactly when, for every
    criterion the filter gives, the event's value is among those given; the
    other handlers are started exactly as before. *)
Theorem Subscribe_delivers {H} (f : EventFilter) (h : H) (r : Registry H) e :
  plain_filter f -> (forall k hs, r !! k = Some hs -> h ∉ hs) ->
  (h ∈ Notify e (Subscribe (Some f) h r) <-> filter_accepts f e)
  /\ forall h', h' <> h -> (h' ∈ Notify e (Subscribe (Some f) h r) <-> h' ∈ Notify e r).
Proof.
  intros Hf Hnew. split.
  - rewrite Subscribe_elem, SubKey_decides by done. split; [|by right].
    intros [(k & hs & Hk & Hh & _)%Notify_elem|[_ ?]]; [by destruct (Hnew k hs)|done].
  - intros h' Hne. rewrite Subscribe_elem. naive_solver.
Qed.

Lemma Subscribe_delivers_witness :
  let f := MkEventFilter ["COMPLETED"; "FAILED"]%string [] ["job"]%string [] [] in
  let e := MkEvent "e" "a" "COMPLETED" "job" 0 "bob" ∅ "t" 2 in
  7%nat ∈ Notify e (Subscribe (Some f) 7%nat NewSubscriptionRegistry) <-> filter_accepts f e.
Proof.
  intros f e. refine (proj1 (Subscribe_delivers f 7%nat NewSubscriptionRegistry e _ _)).
  - apply (bool_decide_unpack _). vm_compute. exact I.
  - intros k hs Hk. pose proof (lookup_empty (M := gmap string) (A := list nat) k) as Hn.
    unfold NewSubscriptionRegistry, Registry in Hk. rewrite Hn in Hk. discriminate Hk.
Defined.
