(* ===== verification/Effects.v ===== *)
(** * Effects: database calls, transactions, clock, identifiers, subscribers

    The stores are sequences of [database/sql] calls.  A computation is a
    state-passing function over a [World]: the committed database, the copy
    an open transaction works on, counters into the environment's oracles,
    and the events handed to subscribers.  The environment decides the
    clock's readings, the fresh UUIDs and which call fails; every theorem
    quantifies over it.  A failed call has no effect on the data, and the
    deferred [Rollback] discards the transaction's copy. *)

From S2P Require Import Prelude GoLib Agent.
From stdpp Require Import gmap strings list fin_maps.
From Stdlib Require Import ZArith Lia.

Open Scope Z_scope.

(** ** Errors *)

(** The errors the stores return, with what their messages interpolate;
    [EMessage] is one told by its text alone. *)
Inductive gerror : Type :=
| EAgentIDRequired
| ELeaseTokenRequired
| ENotFound (id : string)
| EStaleToken
| EInvalidStatus (s : string)
| EOwnedBy (verb owner agentID : string)
| ETokenMismatch
| ERejected (verb : string)
| ETimeout
| ECtxDone
| ETxDone
| ENoRows
| EBadJSON
| EInvalidMode (raw : string)
| ESQL (msg : string)
| EDB (msg : string)
| EMessage (msg : string)
| EWrap (context : string) (e : gerror).

(** The cause under any number of [fmt.Errorf("...: %w", err)]. *)
Fixpoint root_cause (e : gerror) : gerror :=
  match e with EWrap _ e => root_cause e | _ => e end.

(** ** The environment *)

(** [clock_at n]: the n-th reading of [time.Now()]; [uuid_at n]: the n-th
    [uuid.New()]; [fault_at n]: the error of the n-th database call, if it
    fails; [ctx_done_at n]: whether the n-th [select] of a polling loop takes
    its [ctx.Done()] branch. *)
Class Env : Type := {
  clock_at : nat -> Z;
  uuid_at : nat -> string;
  fault_at : nat -> option string;
  ctx_done_at : nat -> bool;
}.

(** What [uuid.New] promises: no identifier is drawn twice, and none is
    empty. *)
Class FreshIds (E : Env) : Prop := {
  uuid_inj : forall n m, uuid_at n = uuid_at m -> n = m;
  uuid_nonempty : forall n, uuid_at n <> ""%string;
}.

Definition fault_free (E : Env) : Prop := forall n, fault_at n = None.

(** ** The world *)

Record World (D : Type) : Type := MkWorld {
  w_db : D;
  w_tx : option D;
  w_clock : nat;
  w_uuid : nat;
  w_call : nat;
  w_notified : list Event;
}.
Arguments MkWorld {D} _ _ _ _ _ _.
Arguments w_db {D} _.
Arguments w_tx {D} _.
Arguments w_clock {D} _.
Arguments w_uuid {D} _.
Arguments w_call {D} _.
Arguments w_notified {D} _.

Definition set_db {D} (d : D) (w : World D) : World D :=
  MkWorld d (w_tx w) (w_clock w) (w_uuid w) (w_call w) (w_notified w).
Definition set_tx {D} (tx : option D) (w : World D) : World D :=
  MkWorld (w_db w) tx (w_clock w) (w_uuid w) (w_call w) (w_notified w).
Definition tick {D} (w : World D) : World D :=
  MkWorld (w_db w) (w_tx w) (w_clock w) (w_uuid w) (S (w_call w)) (w_notified w).

(** ** The monad *)

Definition M (D A : Type) : Type := World D -> result gerror A * World D.

#[export] Instance M_ret {D} : MRet (M D) := fun A a w => (Ok a, w).
#[export] Instance M_bind {D} : MBind (M D) := fun A B f m w =>
  match m w with
  | (Ok a, w) => f a w
  | (Err e, w) => (Err e, w)
  end.

Definition fail {D A} (e : gerror) : M D A := fun w => (Err e, w).

(** Run a call and look at its error. *)
Definition try_ {D A} (m : M D A) : M D (result gerror A) := fun w =>
  let '(r, w) := m w in (Ok r, w).

(** [fmt.Errorf("context: %w", err)]. *)
Definition wrap {D A} (context : string) (m : M D A) : M D A := fun w =>
  match m w with
  | (Ok a, w) => (Ok a, w)
  | (Err e, w) => (Err (EWrap context e), w)
  end.

Fixpoint for_each {D A B} (f : A -> M D B) (l : list A) : M D (list B) :=
  match l with
  | [] => mret []
  | x :: l => y ← f x; ys ← for_each f l; mret (y :: ys)
  end.

Section Primitives.
Context `{E : Env} {D : Type}.

Definition now : M D Z := fun w =>
  (Ok (clock_at (w_clock w)),
   MkWorld (w_db w) (w_tx w) (S (w_clock w)) (w_uuid w) (w_call w) (w_notified w)).

Definition new_uuid : M D string := fun w =>
  (Ok (uuid_at (w_uuid w)),
   MkWorld (w_db w) (w_tx w) (w_clock w) (S (w_uuid w)) (w_call w) (w_notified w)).

(** [notifySubscribers]. *)
Definition notify (e : Event) : M D unit := fun w =>
  (Ok tt, MkWorld (w_db w) (w_tx w) (w_clock w) (w_uuid w) (w_call w) (w_notified w ++ [e])).

Definition select_done : M D bool := fun w => (Ok (ctx_done_at (w_call w)), tick w).

(** One database call: it takes its index, and fails when the environment
    says so, with no effect. *)
Definition call {A} (m : M D A) : M D A := fun w =>
  match fault_at (w_call w) with
  | Some msg => (Err (EDB msg), tick w)
  | None => m (tick w)
  end.

Definition BeginTx : M D unit := call (fun w => (Ok tt, set_tx (Some (w_db w)) w)).

(** A statement outside a transaction commits by itself. *)
Definition db_read {A} (f : D -> result gerror A) : M D A :=
  call (fun w => (f (w_db w), w)).

Definition tx_read {A} (f : D -> result gerror A) : M D A :=
  call (fun w => match w_tx w with
                 | Some d => (f d, w)
                 | None => (Err ETxDone, w)
                 end).

Definition tx_exec {A} (f : D -> result gerror (D * A)) : M D A :=
  call (fun w => match w_tx w with
                 | Some d => match f d with
                             | Ok (d', a) => (Ok a, set_tx (Some d') w)
                             | Err e => (Err e, w)
                             end
                 | None => (Err ETxDone, w)
                 end).

Definition Commit : M D unit :=
  call (fun w => match w_tx w with
                 | Some d => (Ok tt, set_db d (set_tx None w))
                 | None => (Err ETxDone, w)
                 end).

(** [rows.Err()] after the iteration. *)
Definition rows_Err : M D unit := call (fun w => (Ok tt, w)).

(** [tx, err := BeginTx(); ...; defer tx.Rollback()]: the body runs with the
    transaction open, and what it has not committed is dropped at exit. *)
Definition deferred_rollback {A} (body : M D A) : M D A := fun w =>
  let '(r, w) := body w in (r, set_tx None w).

Definition with_tx {A} (body : M D A) : M D A :=
  _ ← BeginTx; deferred_rollback body.

End Primitives.

(** ** Reasoning about runs *)

(** [wp m Q w]: running [m] from [w] ends in [Q]. *)
Definition wp {D A} (m : M D A) (Q : result gerror A -> World D -> Prop) (w : World D) : Prop :=
  let '(r, w') := m w in Q r w'.

Lemma wp_mono {D A} (m : M D A) (P Q : result gerror A -> World D -> Prop) w :
  wp m P w -> (forall r w', P r w' -> Q r w') -> wp m Q w.
Proof. unfold wp. destruct (m w). auto. Qed.

Lemma wp_run {D A} (m : M D A) Q w r w' : wp m Q w -> m w = (r, w') -> Q r w'.
Proof. unfold wp. intros H E. by rewrite E in H. Qed.

Lemma wp_ret {D A} (a : A) Q (w : World D) : Q (Ok a) w -> wp (mret a) Q w.
Proof. done. Qed.

Lemma wp_fail {D A} e (Q : result gerror A -> World D -> Prop) w : Q (Err e) w -> wp (fail e) Q w.
Proof. done. Qed.

Lemma wp_bind {D A B} (m : M D A) (f : A -> M D B) Q w :
  wp m (fun r w' => match r with Ok a => wp (f a) Q w' | Err e => Q (Err e) w' end) w ->
  wp (m ≫= f) Q w.
Proof. unfold wp, mbind, M_bind. destruct (m w) as [[a|e] w']; auto. Qed.

Lemma wp_try {D A} (m : M D A) Q w :
  wp m (fun r w' => Q (Ok r) w') w -> wp (try_ m) Q w.
Proof. unfold wp, try_. by destruct (m w). Qed.

Lemma wp_wrap {D A} c (m : M D A) Q w :
  wp m (fun r w' => match r with Ok a => Q (Ok a) w' | Err e => Q (Err (EWrap c e)) w' end) w ->
  wp (wrap c m) Q w.
Proof. unfold wp, wrap. by destruct (m w) as [[]]. Qed.

Section Rules.
Context `{E : Env} {D : Type}.
Implicit Types w : World D.

Lemma wp_now Q w :
  Q (Ok (clock_at (w_clock w)))
    (MkWorld (w_db w) (w_tx w) (S (w_clock w)) (w_uuid w) (w_call w) (w_notified w)) ->
  wp now Q w.
Proof. done. Qed.

Lemma wp_new_uuid Q w :
  Q (Ok (uuid_at (w_uuid w)))
    (MkWorld (w_db w) (w_tx w) (w_clock w) (S (w_uuid w)) (w_call w) (w_notified w)) ->
  wp new_uuid Q w.
Proof. done. Qed.

Lemma wp_notify e Q w :
  Q (Ok tt) (MkWorld (w_db w) (w_tx w) (w_clock w) (w_uuid w) (w_call w) (w_notified w ++ [e])) ->
  wp (notify e) Q w.
Proof. done. Qed.

Lemma wp_call {A} (m : M D A) Q w :
  (forall msg, fault_at (w_call w) = Some msg -> Q (Err (EDB msg)) (tick w)) ->
  (fault_at (w_call w) = None -> wp m Q (tick w)) ->
  wp (call m) Q w.
Proof. unfold wp, call. intros H1 H2. destruct (fault_at (w_call w)); [by apply H1|by apply H2]. Qed.

Lemma wp_with_tx {A} (body : M D A) Q w :
  (forall msg, fault_at (w_call w) = Some msg -> Q (Err (EDB msg)) (tick w)) ->
  (fault_at (w_call w) = None ->
   wp body (fun r w' => Q r (set_tx None w')) (set_tx (Some (w_db w)) (tick w))) ->
  wp (with_tx body) Q w.
Proof.
  intros Hf Hb. unfold with_tx. apply wp_bind, wp_call; [auto|].
  intros E0. specialize (Hb E0). unfold wp, deferred_rollback in *. simpl.
  by destruct (body _).
Qed.

(** *** Aborted runs *)

(** A run that ended on a failing database call: the error is that call's,
    and neither the data nor the subscribers saw anything. *)
Definition aborted {A} (w : World D) (r : result gerror A) (w' : World D) : Prop :=
  (exists e msg n, r = Err e /\ root_cause e = EDB msg /\ fault_at n = Some msg
                   /\ (w_call w <= n < w_call w')%nat)
  /\ w_db w' = w_db w /\ w_notified w' = w_notified w.

Lemma aborted_fault_free {A} w (r : result gerror A) w' :
  fault_free E -> ~ aborted w r w'.
Proof. intros HF ((e & msg & n & _ & _ & Hn & _) & _). by rewrite HF in Hn. Qed.

(** *** Computations inside a transaction *)

(** [in_tx m]: started inside a transaction, [m] stays inside it; it touches
    neither the committed database nor the subscribers. *)
Definition in_tx {A} (m : M D A) : Prop :=
  forall w d, w_tx w = Some d ->
  wp m (fun _ w' => w_db w' = w_db w /\ w_notified w' = w_notified w
                    /\ exists d', w_tx w' = Some d') w.

Lemma in_tx_ret {A} (a : A) : in_tx (mret a).
Proof. intros w d H. apply wp_ret. eauto. Qed.

Lemma in_tx_fail {A} e : in_tx (A := A) (fail e).
Proof. intros w d H. apply wp_fail. eauto. Qed.

Lemma in_tx_bind {A B} (m : M D A) (f : A -> M D B) :
  in_tx m -> (forall a, in_tx (f a)) -> in_tx (m ≫= f).
Proof.
  intros Hm Hf w d Hd. apply wp_bind. eapply wp_mono; [by eapply Hm|].
  intros [a|e] w' (H1 & H2 & d' & H3); [|by eauto].
  eapply wp_mono; [by eapply Hf|]. cbn. intros _ w'' (-> & -> & H). eauto.
Qed.

Lemma in_tx_try {A} (m : M D A) : in_tx m -> in_tx (try_ m).
Proof. intros Hm w d Hd. apply wp_try. eapply wp_mono; [by eapply Hm|]. done. Qed.

Lemma in_tx_wrap {A} c (m : M D A) : in_tx m -> in_tx (wrap c m).
Proof.
  intros Hm w d Hd. apply wp_wrap. eapply wp_mono; [by eapply Hm|]. by intros [].
Qed.

Lemma in_tx_now : in_tx now.
Proof. intros w d H. apply wp_now. eauto. Qed.

Lemma in_tx_new_uuid : in_tx new_uuid.
Proof. intros w d H. apply wp_new_uuid. eauto. Qed.

Lemma in_tx_read {A} (f : D -> result gerror A) : in_tx (tx_read f).
Proof.
  intros w d H. apply wp_call; intros; simpl; [eauto|].
  unfold wp. simpl. rewrite H. simpl. eauto.
Qed.

Lemma in_tx_exec {A} (f : D -> result gerror (D * A)) : in_tx (tx_exec f).
Proof.
  intros w d H. apply wp_call; intros; simpl; [eauto|].
  unfold wp. simpl. rewrite H. destruct (f d) as [[d' a]|e]; simpl; eauto.
Qed.

Lemma in_tx_rows_Err : in_tx rows_Err.
Proof. intros w d H. apply wp_call; intros; simpl; [eauto|]. unfold wp. simpl. eauto. Qed.

Lemma in_tx_for_each {A B} (f : A -> M D B) l :
  (forall x, in_tx (f x)) -> in_tx (for_each f l).
Proof.
  intros Hf. induction l as [|x l IH]; simpl; [apply in_tx_ret|].
  apply in_tx_bind; [done|intros y]. apply in_tx_bind; [done|intros ys]. apply in_tx_ret.
Qed.

(** *** Atomicity *)

(** [atomic m]: when [m] fails, the committed database and the subscribers
    are as they were. *)
Definition atomic {A} (m : M D A) : Prop :=
  forall w, wp m (fun r w' => match r with
                              | Ok _ => True
                              | Err _ => w_db w' = w_db w /\ w_notified w' = w_notified w
                              end) w.

(** [cannot_fail m]: code after the commit, which cannot fail. *)
Definition cannot_fail {A} (m : M D A) : Prop :=
  forall w, wp m (fun r _ => exists a, r = Ok a) w.

Lemma cannot_fail_ret {A} (a : A) : cannot_fail (mret a).
Proof. intros w. apply wp_ret. eauto. Qed.

Lemma cannot_fail_notify {A} e (k : unit -> M D A) : cannot_fail (k tt) -> cannot_fail (notify e ≫= k).
Proof. intros Hk w. apply wp_bind, wp_notify. apply Hk. Qed.

(** The code of a transaction: work inside it, then possibly [Commit]
    followed by code that cannot fail. *)
Inductive commits {A} : M D A -> Prop :=
| commits_end m : in_tx m -> commits m
| commits_now k : cannot_fail (k tt) -> commits (Commit ≫= k)
| commits_bind {B} (m : M D B) f : in_tx m -> (forall b, commits (f b)) -> commits (m ≫= f).

Lemma commits_atomic {A} (m : M D A) w d :
  commits m -> w_tx w = Some d ->
  wp m (fun r w' => match r with
                    | Ok _ => True
                    | Err _ => w_db w' = w_db w /\ w_notified w' = w_notified w
                    end) w.
Proof.
  intros Hm. revert w d. induction Hm as [m Hin|k Hk|B m f Hin _ IH]; intros w d Hd.
  - eapply wp_mono; [by eapply Hin|]. intros [a|e] w'; naive_solver.
  - apply wp_bind, wp_call; intros; simpl; [done|].
    unfold wp at 1. simpl. rewrite Hd. simpl.
    eapply wp_mono; [apply Hk|]. by intros r w' [a ->].
  - apply wp_bind. eapply wp_mono; [by eapply Hin|].
    intros [b|e] w' (H1 & H2 & d' & H3); simpl; [|done].
    eapply wp_mono; [by eapply IH|]. intros [a|e] w''; [done|]. by intros [-> ->].
Qed.

Lemma with_tx_atomic {A} (m : M D A) : commits m -> atomic (with_tx m).
Proof.
  intros Hm w. apply wp_with_tx; intros; [done|].
  eapply wp_mono; [by eapply commits_atomic|]. intros [a|e] w'; done.
Qed.

Lemma atomic_fail {A} e : atomic (A := A) (fail e).
Proof. intros w. by apply wp_fail. Qed.

Lemma atomic_ret {A} (a : A) : atomic (mret a).
Proof. intros w. by apply wp_ret. Qed.

Lemma atomic_now_bind {A} (f : Z -> M D A) : (forall z, atomic (f z)) -> atomic (now ≫= f).
Proof. intros Hf w. apply wp_bind, wp_now. eapply wp_mono; [apply Hf|]. by intros []. Qed.

Lemma atomic_uuid_bind {A} (f : string -> M D A) :
  (forall z, atomic (f z)) -> atomic (new_uuid ≫= f).
Proof. intros Hf w. apply wp_bind, wp_new_uuid. eapply wp_mono; [apply Hf|]. by intros []. Qed.

Lemma atomic_map {A B} (m : M D A) (f : A -> B) : atomic m -> atomic (a ← m; mret (f a)).
Proof.
  intros Hm w. apply wp_bind. eapply wp_mono; [apply Hm|]. by intros [a|e] w'.
Qed.

End Rules.

#[export] Hint Resolve in_tx_ret in_tx_fail in_tx_now in_tx_new_uuid in_tx_read in_tx_exec
  in_tx_rows_Err cannot_fail_ret cannot_fail_notify atomic_fail atomic_ret : spaces.

(** Prove [in_tx] and [commits] by following the code's structure. *)
Ltac in_tx_step :=
  match goal with
  | |- in_tx (_ ≫= _) => apply in_tx_bind; [|intros]
  | |- in_tx (try_ _) => apply in_tx_try
  | |- in_tx (wrap _ _) => apply in_tx_wrap
  | |- in_tx (for_each _ _) => apply in_tx_for_each; intros
  | |- in_tx (match ?x with _ => _ end) => destruct x
  | |- in_tx (if ?b then _ else _) => destruct b
  | |- in_tx (let '(_, _) := ?x in _) => destruct x
  | |- in_tx _ => solve [eauto with spaces]
  end.

Ltac solve_in_tx := repeat in_tx_step.

(** Symbolic execution of the primitives. *)
Ltac wp_step :=
  match goal with
  | |- wp (mret _) _ _ => apply wp_ret
  | |- wp (fail _) _ _ => apply wp_fail
  | |- wp (_ ≫= _) _ _ => apply wp_bind
  | |- wp now _ _ => apply wp_now
  | |- wp new_uuid _ _ => apply wp_new_uuid
  | |- wp (notify _) _ _ => apply wp_notify
  | |- wp (try_ _) _ _ => apply wp_try
  | |- wp (wrap _ _) _ _ => apply wp_wrap
  | |- wp (with_tx _) _ _ => apply wp_with_tx; intros
  | |- wp (call _) _ _ => apply wp_call; intros
  | |- wp BeginTx _ _ => apply wp_call; intros
  | |- wp Commit _ _ => apply wp_call; intros
  | |- wp rows_Err _ _ => apply wp_call; intros
  | |- wp (tx_read _) _ _ => apply wp_call; intros
  | |- wp (db_read _) _ _ => apply wp_call; intros
  | |- wp (tx_exec _) _ _ => apply wp_call; intros
  end.

(** Close an [aborted] goal after a call whose fault is in the context. *)
Ltac solve_aborted :=
  split; [eexists _, _, _; split_and!; [reflexivity|reflexivity|eassumption|simpl; lia|simpl; lia]
         |split; simpl; congruence].
