(* ===== verification/Sql.v ===== *)
(** * What both SQL backends share

    JSON text columns and their decoding with [encoding/json]; the order in
    which [ORDER BY] returns rows: sorted on the key, rows with equal keys in
    an order the engine chooses ([SqlOrder]); and the code the SQLite and
    Postgres stores have in common, word for word: the defaults of a new
    agent, its namespace, its lease, its events and the identity of a take. *)

From S2P Require Import Prelude GoLib Agent Common Effects.
From stdpp Require Import gmap strings list fin_maps sorting.
From Stdlib Require Import ZArith Lia.

Open Scope Z_scope.

(** ** JSON columns *)

(** The text of a JSON column: empty, not JSON, or the JSON text of a value. *)
Inductive jcol : Type :=
| JEmpty
| JBad
| J (v : any).

(** [json.Marshal]; the kinds of [any] always encode. *)
Definition Marshal (v : any) : jcol := J (json_value v).

Definition marshal_payload (p : option (gmap string any)) : jcol :=
  Marshal (match p with Some m => VMap m | None => VNil end).
Definition marshal_metadata (m : option (gmap string string)) : jcol :=
  Marshal (match m with Some m => VStrMap m | None => VNil end).
Definition marshal_tags (l : list string) : jcol := Marshal (VStrs l).

(** Into a [map[string]interface{}] that starts empty: JSON [null] makes it
    nil, another kind than an object is an error. *)
Definition unmarshal_map (c : jcol) : result gerror (option (gmap string any)) :=
  match c with
  | JEmpty => Ok (Some ∅)
  | J (VMap m) => Ok (Some m)
  | J VNil => Ok None
  | _ => Err EBadJSON
  end.

Definition string_or_zero (v : any) : string := match v with VStr s => s | _ => ""%string end.

(** Into a [[]string], errors ignored: an element that is not a string is
    left at its zero value. *)
Definition unmarshal_tags (c : jcol) : list string :=
  match c with
  | J (VList l) => string_or_zero <$> l
  | _ => []
  end.

(** Into a [map[string]string], falling back on the string entries of a
    [map[string]interface{}]: a value that is not a string has been stored as
    its zero value by the first decoding already. *)
Definition unmarshal_metadata (c : jcol) : option (gmap string string) :=
  match c with
  | J (VMap m) => Some (string_or_zero <$> m)
  | J VNil => None
  | _ => Some ∅
  end.

Lemma unmarshal_marshal_tags l : unmarshal_tags (marshal_tags l) = l.
Proof.
  unfold unmarshal_tags, marshal_tags, Marshal. simpl.
  rewrite <- list_fmap_compose. apply list_fmap_id.
Qed.

Lemma unmarshal_marshal_metadata m : unmarshal_metadata (marshal_metadata m) = m.
Proof.
  destruct m as [m|]; [|done].
  unfold unmarshal_metadata, marshal_metadata, Marshal. simpl.
  rewrite <- map_fmap_compose. f_equal. apply map_fmap_id.
Qed.

Lemma unmarshal_marshal_payload p :
  unmarshal_map (marshal_payload p) = Ok ((fun m : gmap string any => json_value <$> m) <$> p).
Proof. by destruct p. Qed.

Arguments marshal_metadata : simpl never.
Arguments unmarshal_metadata : simpl never.

(** ** Row order *)

Class SqlOrder : Type := {
  sql_sort {A : Type} (key : A -> Z) : list A -> list A;
  sql_sort_perm {A : Type} (key : A -> Z) l : sql_sort key l ≡ₚ l;
  sql_sort_sorted {A : Type} (key : A -> Z) l :
    StronglySorted (fun x y => key x <= key y) (sql_sort key l);
}.

(** Ascending and descending [ORDER BY]. *)
Definition order_asc `{SqlOrder} {A} (key : A -> Z) (l : list A) : list A := sql_sort key l.
Definition order_desc `{SqlOrder} {A} (key : A -> Z) (l : list A) : list A :=
  sql_sort (fun x => - key x) l.

Lemma elem_of_sql_sort `{SqlOrder} {A} (key : A -> Z) l x : x ∈ sql_sort key l <-> x ∈ l.
Proof. by rewrite sql_sort_perm. Qed.

(** The first row of a sorted selection has the least key of all. *)
Lemma sql_sort_head `{SqlOrder} {A} (key : A -> Z) l l1 x l2 y :
  sql_sort key l = l1 ++ x :: l2 -> y ∈ l2 -> key x <= key y.
Proof.
  intros Hl Hy. pose proof (sql_sort_sorted key l) as Hs. rewrite Hl in Hs.
  apply StronglySorted_app_1_r in Hs.
  apply StronglySorted_inv in Hs as [_ HF].
  rewrite Forall_forall in HF. by apply HF.
Qed.

Section MergeOrder.
Context {A : Type} (key : A -> Z).

Definition key_le (x y : A) : Prop := key x <= key y.

#[local] Instance key_le_dec x y : Decision (key_le x y).
Proof. unfold key_le. apply _. Defined.
#[local] Instance key_le_trans : Transitive key_le.
Proof. unfold key_le. intros x y z. lia. Qed.
#[local] Instance key_le_total : Total key_le.
Proof. unfold key_le. intros x y. lia. Qed.

Definition merge_order (l : list A) : list A := merge_sort key_le l.

Lemma merge_order_perm l : merge_order l ≡ₚ l.
Proof. apply merge_sort_Permutation. Qed.

Lemma merge_order_sorted l : StronglySorted key_le (merge_order l).
Proof. apply StronglySorted_merge_sort; apply _. Qed.

End MergeOrder.

(** An engine whose sort is a merge sort: the interface can be implemented,
    and witnesses can be evaluated. *)
Definition MergeSqlOrder : SqlOrder := {|
  sql_sort := @merge_order;
  sql_sort_perm := @merge_order_perm;
  sql_sort_sorted := @merge_order_sorted;
|}.

(** ** Agents on their way to the table *)

(** The namespace and its metadata entry are made to agree before an agent
    is written; the mutation stays visible in the caller's agent. *)
Definition sync_namespace (t : Agent) : Agent :=
  let m := default ∅ (a_Metadata t) in
  if decide (a_NamespaceID t <> "")%string
  then set_Metadata (Some (<[NamespaceMetadataKey := a_NamespaceID t]> m)) t
  else
    let t := set_Metadata (Some m) t in
    let ns := mget m NamespaceMetadataKey in
    if decide (ns <> "")%string then set_NamespaceID ns t else t.

(** The defaults [Out] fills in, given the id and instants it may need. *)
Definition out_defaults (t : Agent) (id : string) (created updated : Z) : Agent :=
  let t := set_ID id t in
  let t := set_CreatedAt created t in
  let t := set_UpdatedAt updated t in
  let t := if decide (a_Version t = 0) then set_Version 1 t else t in
  match a_Metadata t with None => set_Metadata (Some ∅) t | Some _ => t end.

Lemma sync_namespace_id t : a_ID (sync_namespace t) = a_ID t.
Proof. destruct t. unfold sync_namespace. simpl. by repeat case_decide. Qed.

(** The event of a mutation: it carries the agent's new version. *)
Definition agent_event (id : string) (t : Agent) (type : string) (timestamp : Z)
    (agentID : string) (data : gmap string any) : Event :=
  {| e_ID := id; e_TupleID := a_ID t; e_Type := type; e_Kind := a_Kind t;
     e_Timestamp := timestamp; e_AgentID := agentID; e_Data := data;
     e_TraceID := a_TraceID t; e_Version := a_Version t |}.

(** ** Claims *)

(** The identity a take is made under: the query's [AgentID], else the
    [agent_id] of its metadata. *)
Definition query_agent_id (query : option Query) : string :=
  match query with
  | None => ""%string
  | Some q => if decide (q_AgentID q = "")%string then omget (q_Metadata q) "agent_id" else q_AgentID q
  end.

Definition take_refused (query : option Query) : bool :=
  match query with
  | Some q => negb (bool_decide (q_Status q = "")%string) && negb (bool_decide (q_Status q = StatusNew))
  | None => false
  end.

(** ** Nodes of the graph of related agents *)

Definition dag_node (t : Agent) : DAGNode :=
  MkDAGNode (a_ID t) (a_Kind t) (a_Status t) (a_CreatedAt t) (a_Metadata t).

Definition parent_query (id : string) : Query :=
  MkQuery "" "" [] "" id "" "" "" None 0 0.

(** ** Lease durations *)

(** The lease an agent's metadata asks for: [lease_sec], else [lease_ms],
    else five minutes; the multiplication wraps on 64 bits. *)
Definition leaseDurationForAgent (t : Agent) : Z :=
  let dflt := LeaseDuration DefaultLeaseOptions in
  let positive k unit_ := match a_Metadata t with
                          | Some m => match m !! k with
                                      | Some s => match Strconv.Atoi s with
                                                  | Some n => if decide (0 < n)
                                                              then Some (int64 (n * unit_)) else None
                                                  | None => None
                                                  end
                                      | None => None
                                      end
                          | None => None
                          end in
  match positive "lease_sec"%string Time.Second with
  | Some d => d
  | None => match positive "lease_ms"%string Time.Millisecond with
            | Some d => d
            | None => dflt
            end
  end.

(** The positive integer under a metadata key, if there is one. *)
Definition positive_entry (m : option (gmap string string)) (k : string) : option Z :=
  m ← m; s ← m !! k; n ← Strconv.Atoi s; if decide (0 < n) then Some n else None.

(** The lease an agent's metadata asks for, as an exact number of
    nanoseconds. *)
Definition requested_lease (t : Agent) : option Z :=
  match positive_entry (a_Metadata t) "lease_sec" with
  | Some n => Some (n * Time.Second)
  | None => (fun n => n * Time.Millisecond) <$> positive_entry (a_Metadata t) "lease_ms"
  end.

Lemma positive_entry_pos m k n : positive_entry m k = Some n -> 0 < n.
Proof.
  unfold positive_entry. intros (m' & _ & (s & _ & (n' & _ & H)%bind_Some)%bind_Some)%bind_Some.
  case_decide; by simplify_eq.
Qed.

Lemma leaseDuration_wraps t :
  leaseDurationForAgent t =
  match requested_lease t with Some d => int64 d | None => 5 * Time.Minute end.
Proof.
  unfold leaseDurationForAgent, requested_lease, positive_entry.
  destruct (a_Metadata t) as [m|]; [|done]. simpl.
  destruct (m !! "lease_sec"%string) as [s|]; simpl;
    [destruct (Strconv.Atoi s) as [n|]; simpl; [case_decide; [done|]|]|];
    (destruct (m !! "lease_ms"%string) as [s'|]; simpl; [|done];
     destruct (Strconv.Atoi s') as [n'|]; simpl; [|done]; by case_decide).
Qed.

(** Lease durations at their width.  [leaseDurationForAgent] gives
    exactly the lease the metadata asks for ([lease_sec] before [lease_ms],
    only positive decimal integers count) as long as it fits a 64-bit number of
    nanoseconds, which is up to 9223372036 seconds; a longer request wraps and
    is never honoured; without a request the lease is five minutes. *)
Theorem leaseDuration_exact t :
  match requested_lease t with
  | Some d => 0 < d /\ (leaseDurationForAgent t = d <-> d <= max_int64)
  | None => leaseDurationForAgent t = 5 * Time.Minute
  end.
Proof.
  rewrite leaseDuration_wraps. destruct (requested_lease t) as [d|] eqn:Hd; [|done].
  assert (Hpos : 0 < d).
  { unfold requested_lease in Hd.
    destruct (positive_entry _ "lease_sec") as [n|] eqn:Hn; simplify_eq/=;
      [|clear Hn; apply fmap_Some in Hd as (n & Hn & ->)];
      apply positive_entry_pos in Hn; unfold Time.Second, Time.Millisecond; lia. }
  split; [done|]. split.
  - intros <-. apply int64_range.
  - intros Hle. apply int64_small. unfold in_int64, min_int64. lia.
Qed.
