(* ===== verification/Scenario.v ===== *)
(** * A concrete environment

    A clock that advances by one millisecond per reading, numbered
    identifiers, and either no failing call or a chosen one: the environments
    in which the witnesses evaluate the operations. *)

From S2P Require Import Prelude GoLib Agent Effects Sql.
From stdpp Require Import gmap strings list pretty.
From Stdlib Require Import ZArith Lia.

Open Scope Z_scope.

(** Call number [n] fails for those [n] in [faults]. *)
Definition demo_env (faults : list nat) : Env := {|
  clock_at n := 1700000000 * Time.Second + Z.of_nat n * Time.Millisecond;
  uuid_at n := ("u" +:+ pretty n)%string;
  fault_at n := if decide (n ∈ faults) then Some "disk I/O error"%string else None;
  ctx_done_at _ := false;
|}.

Definition quiet : Env := demo_env [].

#[export] Instance demo_fresh faults : FreshIds (demo_env faults).
Proof.
  split.
  - intros n m H. simpl in H. injection H as H. exact (pretty_nat_inj _ _ H).
  - done.
Qed.

Lemma quiet_fault_free : fault_free quiet.
Proof. intros n. reflexivity. Qed.

(** A world with a given database at the start of its counters. *)
Definition start {D} (d : D) : World D := MkWorld d None 0 0 0 [].

(** An agent as a client offers it. *)
Definition offer (id kind : string) (tags : list string) (meta : gmap string string) : Agent :=
  MkAgent id kind StatusNew "" (Some ∅) tags "" "" "trace" "" 0 Time.zero_time Time.zero_time
    Time.zero_time "" Time.zero_time 0 (Some meta).

Definition by_kind (kind who : string) : Query := MkQuery kind "" [] "" "" "" "" who None 0 0.
