(* ===== verification/Lease.v ===== *)
(** * The lifecycle contract: leases and fencing tokens

    What the [AgentSpace] interface of [src/pkg/agent/types.go] promises about
    the lifecycle of an agent, as an abstract machine: an agent is created
    NEW, claimed by one owner under a fresh token, then completed, released or
    reaped; only the holder of the current token may complete, release or
    renew, and a completed agent stays completed.  The backends are shown to
    implement this machine; its theorems are about traces of labels. *)

From S2P Require Import Prelude GoLib Agent.
From stdpp Require Import gmap strings list fin_maps.
From Stdlib Require Import ZArith Lia.

Open Scope Z_scope.

(** ** States and labels *)

(** What the contract sees of an agent: its status, owner and token, and the
    token recorded by its completion. *)
Record cell : Type := MkCell {
  c_status : string;
  c_owner : string;
  c_token : string;
  c_done : string;
}.

Notation space := (gmap string cell).

Inductive label : Type :=
| LCreate (id by_ : string)
| LClaim (id who tok : string)
| LUpdate (id by_ : string)
| LRenew (id who tok : string)
| LComplete (id who tok : string)
| LReplay (id tok : string)
| LRelease (id who tok : string)
| LReap (id : string).

(** The agent a label is about. *)
Definition label_id (l : label) : string :=
  match l with
  | LCreate id _ | LClaim id _ _ | LUpdate id _ | LRenew id _ _
  | LComplete id _ _ | LReplay id _ | LRelease id _ _ | LReap id => id
  end.

(** ** The machine *)

Inductive step (σ : space) : label -> space -> Prop :=
| step_create id by_ c :
    σ !! id = None -> c_status c = StatusNew -> c_owner c = ""%string -> c_token c = ""%string ->
    step σ (LCreate id by_) (<[id := c]> σ)
| step_claim id who tok c :
    σ !! id = Some c -> c_status c = StatusNew ->
    step σ (LClaim id who tok) (<[id := MkCell StatusInProgress who tok (c_done c)]> σ)
| step_update id by_ c c' :
    σ !! id = Some c -> c_status c' = c_status c -> c_owner c' = c_owner c -> c_token c' = c_token c ->
    step σ (LUpdate id by_) (<[id := c']> σ)
| step_renew id who tok c :
    σ !! id = Some c -> c_status c = StatusInProgress -> c_owner c = who -> c_token c = tok ->
    step σ (LRenew id who tok) σ
| step_complete id who tok c :
    σ !! id = Some c -> c_status c = StatusInProgress -> c_owner c = who -> c_token c = tok ->
    step σ (LComplete id who tok) (<[id := MkCell StatusCompleted "" "" tok]> σ)
| step_replay id tok c :
    σ !! id = Some c -> c_status c = StatusCompleted -> c_done c = tok -> tok <> ""%string ->
    step σ (LReplay id tok) σ
| step_release id who tok c :
    σ !! id = Some c -> c_status c = StatusInProgress -> c_owner c = who -> c_token c = tok ->
    step σ (LRelease id who tok) (<[id := MkCell StatusNew "" "" (c_done c)]> σ)
| step_reap id c :
    σ !! id = Some c -> c_status c = StatusInProgress ->
    step σ (LReap id) (<[id := MkCell StatusNew "" "" (c_done c)]> σ).

Inductive steps : space -> list label -> space -> Prop :=
| steps_nil σ : steps σ [] σ
| steps_snoc σ ls σ1 l σ2 : steps σ ls σ1 -> step σ1 l σ2 -> steps σ (ls ++ [l]) σ2.

Lemma steps_one σ l σ' : step σ l σ' -> steps σ [l] σ'.
Proof. intros H. apply (steps_snoc σ [] σ l σ'); [constructor|done]. Qed.

Lemma steps_app σ1 l1 σ2 l2 σ3 : steps σ1 l1 σ2 -> steps σ2 l2 σ3 -> steps σ1 (l1 ++ l2) σ3.
Proof.
  intros H1 H2. induction H2 as [σ2|σ2 ls σ l σ' H2 IH Hs]; [by rewrite app_nil_r|].
  rewrite app_assoc. econstructor; eauto.
Qed.

Lemma steps_cons σ1 l σ2 ls σ3 : step σ1 l σ2 -> steps σ2 ls σ3 -> steps σ1 (l :: ls) σ3.
Proof. intros H1 H2. apply (steps_app σ1 [l] σ2 ls σ3); [by apply steps_one|done]. Qed.

Lemma steps_cons_inv σ1 l ls σ3 :
  steps σ1 (l :: ls) σ3 -> exists σ2, step σ1 l σ2 /\ steps σ2 ls σ3.
Proof.
  intros H. remember (l :: ls) as ls0 eqn:E0. revert ls E0.
  induction H as [σ|σ ls0 σ1 l0 σ2 H IH Hs]; intros ls E0; [done|].
  destruct ls0 as [|l1 ls1]; injection E0 as -> <-.
  - inversion H as [|? ls' ? ? ? ? ? Heq]; subst; [|by destruct ls'].
    exists σ2. split; [done|constructor].
  - destruct (IH ls1 eq_refl) as (σ' & H1 & H2). exists σ'. split; [done|]. by econstructor.
Qed.

(** ** What the history says about an agent *)

(** The claim in force after a history: who holds the agent under which
    token, if anyone. *)
Definition holder_step (id : string) (h : option (string * string)) (l : label) : option (string * string) :=
  match l with
  | LClaim id' who tok => if decide (id' = id) then Some (who, tok) else h
  | LComplete id' _ _ | LRelease id' _ _ | LReap id' => if decide (id' = id) then None else h
  | LCreate _ _ | LUpdate _ _ | LRenew _ _ _ | LReplay _ _ => h
  end.

Definition holder (id : string) (ls : list label) : option (string * string) :=
  foldl (holder_step id) None ls.

(** The labels that end a claim on [id], or start another. *)
Definition ends_claim (id : string) (l : label) : bool :=
  match l with
  | LClaim id' _ _ | LComplete id' _ _ | LRelease id' _ _ | LReap id' => bool_decide (id' = id)
  | _ => false
  end.

(** The token of the completion in a history, if there was one. *)
Definition completes (id : string) (l : label) : bool :=
  match l with LComplete id' _ _ => bool_decide (id' = id) | _ => false end.

Definition completions (id : string) (ls : list label) : nat := length (filter (completes id) ls).

(** The tokens handed out, in order. *)
Definition claim_token (l : label) : option string :=
  match l with LClaim _ _ tok => Some tok | _ => None end.
Definition tokens (ls : list label) : list string := omap claim_token ls.

Definition creates (id : string) (l : label) : bool :=
  match l with LCreate id' _ => bool_decide (id' = id) | _ => false end.

(** The cell agrees with the history. *)
Definition agrees (ls : list label) (id : string) (c : option cell) : Prop :=
  match c with
  | None => holder id ls = None /\ completions id ls = 0%nat
  | Some c =>
      (c_status c = StatusNew /\ c_owner c = ""%string /\ c_token c = ""%string
       /\ holder id ls = None /\ completions id ls = 0%nat)
      \/ (c_status c = StatusInProgress /\ holder id ls = Some (c_owner c, c_token c)
          /\ completions id ls = 0%nat)
      \/ (c_status c = StatusCompleted /\ holder id ls = None /\ completions id ls = 1%nat)
  end.

(** ** Invariant *)

Lemma holder_snoc id ls l : holder id (ls ++ [l]) = holder_step id (holder id ls) l.
Proof. unfold holder. by rewrite foldl_app. Qed.

Lemma completions_snoc id ls l :
  completions id (ls ++ [l]) = (completions id ls + if completes id l then 1 else 0)%nat.
Proof.
  unfold completions. rewrite filter_app, length_app, filter_cons. simpl.
  by destruct (completes id l); simpl.
Qed.

(** A label about another agent changes nothing about this one. *)
Lemma agrees_other ls l id c : label_id l <> id -> agrees ls id c -> agrees (ls ++ [l]) id c.
Proof.
  intros Hne. unfold agrees. rewrite holder_snoc, completions_snoc.
  assert (holder_step id (holder id ls) l = holder id ls) as ->
    by (destruct l; simpl in *; repeat case_decide; done).
  assert (completes id l = false) as ->
    by (destruct l; simpl in *; try done; by apply bool_decide_eq_false_2).
  by rewrite Nat.add_0_r.
Qed.

Lemma step_agrees σ ls l σ' :
  (forall id, agrees ls id (σ !! id)) -> step σ l σ' -> forall id, agrees (ls ++ [l]) id (σ' !! id).
Proof.
  intros Hinv Hs id. destruct (decide (label_id l = id)) as [Heq|Hne].
  2:{ apply agrees_other; [done|]. specialize (Hinv id).
      destruct Hs; cbn in Hne; rewrite ?lookup_insert_ne by exact Hne; exact Hinv. }
  specialize (Hinv id). revert Hinv.
  destruct Hs as [? ? c H1 H2 H3 H4|? ? ? c H1 H2|? ? c c' H1 H2 H3 H4|? ? ? c H1 H2 H3 H4
                 |? ? ? c H1 H2 H3 H4|? ? c H1 H2 H3 H4|? ? ? c H1 H2 H3 H4|? c H1 H2];
    cbn in Heq; subst id; rewrite ?lookup_insert_eq, H1.
  all: unfold agrees; rewrite ?holder_snoc, ?completions_snoc; simpl;
    rewrite ?decide_True, ?bool_decide_eq_true_2, ?Nat.add_0_r by done;
    intros Hi; break; simplify_eq; try congruence; try done.
  all: first
    [ exfalso; unfold StatusNew, StatusInProgress, StatusCompleted in *; congruence
    | left; split_and!; congruence
    | right; left; split_and!; congruence
    | right; right; split_and!; first [congruence|lia] ].
Qed.

Theorem steps_agree ls σ : steps ∅ ls σ -> forall id, agrees ls id (σ !! id).
Proof.
  intros H. remember ∅ as σ0 eqn:E0. induction H as [σ0|σ0 ls σ1 l σ2 H IH Hs].
  - subst. intros id. rewrite lookup_empty. done.
  - eapply step_agrees; [by apply IH|done].
Qed.

(** *** Fencing *)

(** An operation that presents a token succeeds only under the claim in
    force. *)
Lemma step_fenced ls σ l σ' id who tok :
  steps ∅ ls σ -> step σ l σ' ->
  l = LComplete id who tok \/ l = LRelease id who tok \/ l = LRenew id who tok ->
  holder id ls = Some (who, tok).
Proof.
  intros Hls Hs Hl. pose proof (steps_agree ls σ Hls id) as Ha.
  destruct Hl as [->|[->| ->]]; inversion Hs as [|
    |  |? ? ? c H1 H2 H3 H4|? ? ? c H1 H2 H3 H4| |? ? ? c H1 H2 H3 H4|]; subst;
    rewrite H1 in Ha; unfold agrees in Ha; break;
    unfold StatusNew, StatusInProgress, StatusCompleted in *; congruence.
Qed.

Lemma completions_le_one ls σ id : steps ∅ ls σ -> (completions id ls <= 1)%nat.
Proof.
  intros H. pose proof (steps_agree ls σ H id) as Ha.
  unfold agrees in Ha. destruct (σ !! id); break; lia.
Qed.

(** The claim in force was made in the history, and nothing has ended it
    since. *)
Lemma holder_split id ls who tok :
  holder id ls = Some (who, tok) ->
  exists l1 l2, ls = l1 ++ LClaim id who tok :: l2
    /\ Forall (fun l => ends_claim id l = false) l2.
Proof.
  induction ls as [|l ls IH] using rev_ind; [done|].
  rewrite holder_snoc. intros H.
  destruct (ends_claim id l) eqn:He.
  - assert (l = LClaim id who tok) as ->.
    { destruct l; simpl in *; try done; apply bool_decide_eq_true in He; subst;
        rewrite decide_True in H by done; by simplify_eq. }
    exists ls, []. by split.
  - assert (holder id ls = Some (who, tok)) as H1.
    { destruct l; simpl in *; try done; apply bool_decide_eq_false in He;
        by rewrite decide_False in H by done. }
    destruct (IH H1) as (l1 & l2 & -> & Hl). exists l1, (l2 ++ [l]). split.
    + by rewrite <- app_assoc.
    + apply Forall_app. split; [done|]. by constructor.
Qed.

(** With distinct tokens, a token that has been superseded or given up is
    never accepted again. *)
Lemma holder_tokens id ls who tok :
  holder id ls = Some (who, tok) -> tok ∈ tokens ls.
Proof.
  intros (l1 & l2 & -> & _)%holder_split. unfold tokens.
  rewrite omap_app. simpl. set_solver.
Qed.

Lemma holder_unique id id' ls who who' tok :
  NoDup (tokens ls) ->
  holder id ls = Some (who, tok) -> holder id' ls = Some (who', tok) -> id = id' /\ who = who'.
Proof.
  intros Hnd (l1 & l2 & -> & H1)%holder_split (k1 & k2 & Heq & H2)%holder_split.
  unfold tokens in Hnd. rewrite omap_app in Hnd. simpl in Hnd.
  apply NoDup_app in Hnd as (_ & Hd & Hnd). apply NoDup_cons in Hnd as [Hnot _].
  assert (Hclaim : forall l : list label, LClaim id' who' tok ∈ l -> tok ∈ omap claim_token l).
  { intros l Hl. apply list_elem_of_omap. eexists. by split. }
  assert (LClaim id' who' tok ∈ l1 ++ LClaim id who tok :: l2) as Hin
    by (rewrite Heq; set_solver).
  apply elem_of_app in Hin as [Hin|[Hin|Hin]%elem_of_cons].
  - destruct (Hd tok); [by apply Hclaim|]. set_solver.
  - by simplify_eq.
  - destruct Hnot. by apply Hclaim.
Qed.
