(* ===== verification/SharedLease.v ===== *)
(** * The lifecycle contract of a shared store

    When several sessions work on the same tables the contract is stated per
    agent: the history of one agent is a path of the machine below, whoever
    takes its steps.  It is the machine of [Lease] seen from one agent, except
    that an agent may be written anew over an existing one (the stores
    upsert), which starts a new life of it.  A path with creations joins any
    two states, so a path alone says little; the theorems of the stores tie
    its labels to the execution: a label is either a change the environment
    says another session made, or a label of a commit of the operation
    at hand. *)

From S2P Require Import Prelude GoLib Agent Common Effects Sql Lease.
From stdpp Require Import gmap strings list fin_maps.
From Stdlib Require Import ZArith Lia.

Open Scope Z_scope.

(** The labels about an agent. *)
Definition about (id : string) (ls : list label) : list label := filter (fun l => label_id l = id) ls.

Section Machine.
Variable id : string.

Inductive cell_step : option cell -> label -> option cell -> Prop :=
| cell_create by_ o c :
    c_status c = StatusNew -> c_owner c = ""%string -> c_token c = ""%string ->
    cell_step o (LCreate id by_) (Some c)
| cell_claim who tok c :
    c_status c = StatusNew ->
    cell_step (Some c) (LClaim id who tok) (Some (MkCell StatusInProgress who tok (c_done c)))
| cell_update by_ c c' :
    c_status c' = c_status c -> c_owner c' = c_owner c -> c_token c' = c_token c ->
    cell_step (Some c) (LUpdate id by_) (Some c')
| cell_renew who tok c :
    c_status c = StatusInProgress -> c_owner c = who -> c_token c = tok ->
    cell_step (Some c) (LRenew id who tok) (Some c)
| cell_complete who tok c :
    c_status c = StatusInProgress -> c_owner c = who -> c_token c = tok ->
    cell_step (Some c) (LComplete id who tok) (Some (MkCell StatusCompleted "" "" tok))
| cell_replay tok c :
    c_status c = StatusCompleted -> c_done c = tok -> tok <> ""%string ->
    cell_step (Some c) (LReplay id tok) (Some c)
| cell_release who tok c :
    c_status c = StatusInProgress -> c_owner c = who -> c_token c = tok ->
    cell_step (Some c) (LRelease id who tok) (Some (MkCell StatusNew "" "" (c_done c)))
| cell_reap c :
    c_status c = StatusInProgress ->
    cell_step (Some c) (LReap id) (Some (MkCell StatusNew "" "" (c_done c))).

Inductive cell_steps : option cell -> list label -> option cell -> Prop :=
| cell_steps_nil o : cell_steps o [] o
| cell_steps_cons o l o1 ls o2 : cell_step o l o1 -> cell_steps o1 ls o2 -> cell_steps o (l :: ls) o2.

Lemma cell_steps_one o l o' : cell_step o l o' -> cell_steps o [l] o'.
Proof. intros H. econstructor; [done|constructor]. Qed.

Lemma cell_steps_app o1 l1 o2 l2 o3 :
  cell_steps o1 l1 o2 -> cell_steps o2 l2 o3 -> cell_steps o1 (l1 ++ l2) o3.
Proof. induction 1; simpl; [done|]. intros H2. econstructor; eauto. Qed.

Lemma cell_steps_app_inv o1 l1 l2 o3 :
  cell_steps o1 (l1 ++ l2) o3 -> exists o2, cell_steps o1 l1 o2 /\ cell_steps o2 l2 o3.
Proof.
  revert o1. induction l1 as [|l l1 IH]; simpl; intros o1 H.
  - exists o1. split; [constructor|done].
  - inversion H as [|? ? o ? ? Hs H']; subst. destruct (IH _ H') as (o2 & H1 & H2).
    exists o2. split; [|done]. econstructor; eauto.
Qed.

(** ** One life of an agent *)

(** A history without creations. *)
Definition one_life (ls : list label) : Prop := Forall (fun l => creates id l = false) ls.

(** How far an agent has come: a completed one stays completed, with the
    token that completed it. *)
Lemma completed_stays ls c o' :
  cell_steps (Some c) ls o' -> one_life ls -> c_status c = StatusCompleted ->
  completions id ls = 0%nat /\ exists c', o' = Some c' /\ c_status c' = StatusCompleted.
Proof.
  intros H. remember (Some c) as o eqn:Ho. revert c Ho.
  induction H as [o|o l o1 ls o2 Hs _ IH]; intros c -> Hl Hc.
  - split; [done|]. by exists c.
  - apply Forall_cons in Hl as [Hn Hl].
    assert (exists c1, o1 = Some c1 /\ c_status c1 = StatusCompleted /\ completes id l = false)
      as (c1 & -> & Hc1 & Hcl).
    { inversion Hs; subst; try (unfold StatusNew, StatusInProgress, StatusCompleted in *; congruence);
        simpl in *; try (eexists; split_and!; [done|congruence|done]).
      by rewrite bool_decide_eq_true_2 in Hn. }
    destruct (IH c1 eq_refl Hl Hc1) as [H1 H2]. split; [|done].
    unfold completions in *. rewrite filter_cons, Hcl. exact H1.
Qed.

(** In one life an agent is completed at most once. *)
Lemma completes_once o ls o' : cell_steps o ls o' -> one_life ls -> (completions id ls <= 1)%nat.
Proof.
  induction 1 as [o|o l o1 ls o2 Hs H IH]; intros Hl; [unfold completions; simpl; lia|].
  apply Forall_cons in Hl as [Hn Hl]. specialize (IH Hl).
  unfold completions in *. rewrite filter_cons. destruct (completes id l) eqn:Hc; [|done].
  destruct l; try done. inversion Hs; subst.
  destruct (completed_stays ls _ o2 H Hl eq_refl) as [H0 _].
  unfold completions in H0. simpl. lia.
Qed.

(** *** Fencing *)

(** An answer to the holder of a token. *)
Definition presents (who tok : string) (l : label) : Prop :=
  l = LComplete id who tok \/ l = LRelease id who tok \/ l = LRenew id who tok.

(** Who holds the agent in a cell. *)
Definition held_by (who tok : string) (o : option cell) : Prop :=
  exists c, o = Some c /\ c_status c = StatusInProgress /\ c_owner c = who /\ c_token c = tok.

Lemma presents_held o l o' who tok : cell_step o l o' -> presents who tok l -> held_by who tok o.
Proof. intros Hs [->|[->| ->]]; inversion Hs; subst; by eexists. Qed.

(** A step after which the agent is held: it was the claim, or the agent was
    held before and the step did not end that. *)
Lemma held_step o l o' who tok :
  cell_step o l o' -> held_by who tok o' ->
  l = LClaim id who tok
  \/ (held_by who tok o /\ ends_claim id l = false /\ creates id l = false).
Proof.
  intros Hs (c & -> & H1 & H2 & H3). inversion Hs; subst; simpl in *;
    try (unfold StatusNew, StatusInProgress, StatusCompleted in *; congruence).
  - by left.
  - right. split_and!; [|done|done]. eexists. split_and!; [done|congruence..].
  - right. split_and!; [|done|done]. eexists. split_and!; [done|congruence..].
Qed.

(** Whoever holds the agent after a history claimed it in that history under
    this very token, or held it at its start; nothing has ended that claim
    since. *)
Lemma held_split o ls o' who tok :
  cell_steps o ls o' -> held_by who tok o' ->
  (exists l1 l2, ls = l1 ++ LClaim id who tok :: l2
     /\ Forall (fun l => ends_claim id l = false /\ creates id l = false) l2)
  \/ (held_by who tok o /\ Forall (fun l => ends_claim id l = false /\ creates id l = false) ls).
Proof.
  induction 1 as [o|o l o1 ls o2 Hs H IH]; intros Hh; [right; by split|].
  destruct (IH Hh) as [(l1 & l2 & -> & Hl2)|[Hh1 Hls]].
  - left. exists (l :: l1), l2. by split.
  - destruct (held_step _ _ _ _ _ Hs Hh1) as [->|(Hh0 & He & Hc)].
    + left. by exists [], ls.
    + right. split; [done|]. by constructor.
Qed.

(** The two promises, for a history anywhere in a path. *)
Lemma path_completes_once o ls o' l1 l2 l3 :
  cell_steps o ls o' -> ls = l1 ++ l2 ++ l3 -> one_life l2 -> (completions id l2 <= 1)%nat.
Proof.
  intros Hls -> Hone. apply cell_steps_app_inv in Hls as (o1 & _ & Hls).
  apply cell_steps_app_inv in Hls as (o2 & Hls & _). by eapply completes_once.
Qed.

Lemma path_fenced o ls o' l1 l l2 who tok :
  cell_steps o ls o' -> ls = l1 ++ l :: l2 -> presents who tok l ->
  (exists k1 k2, l1 = k1 ++ LClaim id who tok :: k2
     /\ Forall (fun k => ends_claim id k = false /\ creates id k = false) k2)
  \/ (held_by who tok o /\ Forall (fun k => ends_claim id k = false /\ creates id k = false) l1).
Proof.
  intros Hls -> Hpr. apply cell_steps_app_inv in Hls as (o1 & H1 & H2).
  inversion H2 as [|? ? o2 ? ? Hs _]; subst. eapply held_split; [exact H1|]. by eapply presents_held.
Qed.

End Machine.

(** ** Cells of agents

    What the lifecycle contract sees of a Go agent, and how the changes the
    stores share (the namespace step, an update, a new version) act on it.*)


Definition cell_of_agent (t : Agent) : cell :=
  MkCell (a_Status t) (a_Owner t) (a_LeaseToken t) (omget (a_Metadata t) CompletedByTokenMetadataKey).

(** An agent offered for creation: NEW and unowned. *)
Definition fresh_agent (t : Agent) : Prop :=
  a_Status t = StatusNew /\ a_Owner t = ""%string /\ a_LeaseToken t = ""%string.

#[export] Instance fresh_agent_dec t : Decision (fresh_agent t).
Proof. unfold fresh_agent. apply _. Defined.

Lemma cell_sync t : cell_of_agent (sync_namespace t) = cell_of_agent t.
Proof.
  destruct t as [? ? ? ? ? ? ? ? ? ns ? ? ? ? ? ? ? m]. unfold sync_namespace, cell_of_agent. simpl.
  assert (omget m CompletedByTokenMetadataKey = mget (default ∅ m) CompletedByTokenMetadataKey) as ->
    by (destruct m; [done|]; unfold mget; simpl; by rewrite lookup_empty).
  destruct (decide (ns <> "")%string); simpl; [|by case_decide].
  by rewrite mget_insert_ne.
Qed.

Lemma sync_lease t :
  a_ID (sync_namespace t) = a_ID t /\ a_Status (sync_namespace t) = a_Status t
  /\ a_Owner (sync_namespace t) = a_Owner t /\ a_LeaseToken (sync_namespace t) = a_LeaseToken t.
Proof. destruct t. unfold sync_namespace. simpl. by repeat case_decide. Qed.

(** An update without the three lease fields leaves the lease alone. *)
Lemma ApplyUpdates_lease t updates :
  updates !! "status"%string = None -> updates !! "owner"%string = None ->
  updates !! "lease_token"%string = None ->
  a_ID (ApplyUpdates t updates) = a_ID t /\ a_Status (ApplyUpdates t updates) = a_Status t
  /\ a_Owner (ApplyUpdates t updates) = a_Owner t
  /\ a_LeaseToken (ApplyUpdates t updates) = a_LeaseToken t.
Proof.
  intros H1 H2 H3. unfold ApplyUpdates. rewrite H1, H2, H3. cbn [update_string].
  assert (HP : forall v t, a_ID (update_payload v t) = a_ID t /\ a_Status (update_payload v t) = a_Status t
    /\ a_Owner (update_payload v t) = a_Owner t /\ a_LeaseToken (update_payload v t) = a_LeaseToken t)
    by (intros [[]|] []; done).
  assert (HT : forall v t, a_ID (update_tags v t) = a_ID t /\ a_Status (update_tags v t) = a_Status t
    /\ a_Owner (update_tags v t) = a_Owner t /\ a_LeaseToken (update_tags v t) = a_LeaseToken t)
    by (intros [[]|] []; done).
  assert (HM : forall v t, a_ID (update_metadata v t) = a_ID t /\ a_Status (update_metadata v t) = a_Status t
    /\ a_Owner (update_metadata v t) = a_Owner t /\ a_LeaseToken (update_metadata v t) = a_LeaseToken t)
    by (intros [[]|] []; done).
  assert (HO : forall v u t, let t' := update_lease_until u (update_owner_time v t) in
    a_ID t' = a_ID t /\ a_Status t' = a_Status t /\ a_Owner t' = a_Owner t
    /\ a_LeaseToken t' = a_LeaseToken t) by (intros v u []; done).
  cbn in HO. edestruct HO as (-> & -> & -> & ->). edestruct HM as (-> & -> & -> & ->).
  edestruct HT as (-> & -> & -> & ->). apply HP.
Qed.

Lemma bump_lease t now_ v :
  let t' := sync_namespace (set_Version v (set_UpdatedAt now_ t)) in
  a_ID t' = a_ID t /\ a_Status t' = a_Status t /\ a_Owner t' = a_Owner t
  /\ a_LeaseToken t' = a_LeaseToken t.
Proof.
  intros t'. unfold t'. destruct (sync_lease (set_Version v (set_UpdatedAt now_ t))) as (-> & -> & -> & ->).
  by destruct t.
Qed.
