(* ===== verification/SqliteRows.v ===== *)
(** * SQLite: tables, rows and the statements on them

    The [agents] table is a map from its primary key to rows, [agent_events]
    the list of its rows in insertion order.  The definitions follow
    [src/pkg/store/sqlite/sqlite_sql_helpers.go]: decoding a row into an agent
    or an event, and the statements that write one. *)

From S2P Require Import Prelude GoLib Agent Common Effects Sql.
From stdpp Require Import gmap strings list fin_maps sorting.
From Stdlib Require Import ZArith Lia.

Open Scope Z_scope.

(** ** Tables *)

Record Row : Type := MkRow {
  r_id : string;
  r_kind : string;
  r_status : string;
  r_payload : jcol;
  r_tags : jcol;
  r_owner : string;
  r_parent_id : string;
  r_trace_id : string;
  r_ttl_ms : Z;
  r_created_at_ms : Z;
  r_updated_at_ms : Z;
  r_owner_time_ms : option Z;
  r_lease_token : string;
  r_lease_until_ms : option Z;
  r_version : Z;
  r_metadata : jcol;
}.

Record EventRow : Type := MkEventRow {
  er_id : string;
  er_tuple_id : string;
  er_type : string;
  er_kind : string;
  er_timestamp_ms : Z;
  er_agent_id : string;
  er_trace_id : string;
  er_version : Z;
  er_data : jcol;
}.

Record DB : Type := MkDB {
  agents : gmap string Row;
  agent_events : list EventRow;
}.

Definition empty_db : DB := MkDB ∅ [].

(** ** Decoding *)

Definition null_time (ms : option Z) : Z :=
  match ms with Some ms => Time.of_UnixMilli ms | None => Time.zero_time end.

Definition scanSQLiteAgent (r : Row) : result gerror Agent :=
  match unmarshal_map (r_payload r) with
  | Err e => Err e
  | Ok payload =>
      let metadata := unmarshal_metadata (r_metadata r) in
      Ok {| a_ID := r_id r;
            a_Kind := r_kind r;
            a_Status := r_status r;
            a_ShardID := "";
            a_Payload := payload;
            a_Tags := unmarshal_tags (r_tags r);
            a_Owner := r_owner r;
            a_ParentID := r_parent_id r;
            a_TraceID := r_trace_id r;
            a_NamespaceID := omget metadata NamespaceMetadataKey;
            a_TTL := int64 (r_ttl_ms r * Time.Millisecond);
            a_CreatedAt := Time.of_UnixMilli (r_created_at_ms r);
            a_UpdatedAt := Time.of_UnixMilli (r_updated_at_ms r);
            a_OwnerTime := null_time (r_owner_time_ms r);
            a_LeaseToken := r_lease_token r;
            a_LeaseUntil := null_time (r_lease_until_ms r);
            a_Version := r_version r;
            a_Metadata := metadata |}
  end.

Definition scanSQLiteEvent (r : EventRow) : result gerror Event :=
  match unmarshal_map (er_data r) with
  | Err e => Err e
  | Ok data =>
      Ok {| e_ID := er_id r;
            e_TupleID := er_tuple_id r;
            e_Type := er_type r;
            e_Kind := er_kind r;
            e_Timestamp := Time.of_UnixMilli (er_timestamp_ms r);
            e_AgentID := er_agent_id r;
            e_Data := default ∅ data;
            e_TraceID := er_trace_id r;
            e_Version := er_version r |}
  end.

(** ** Encoding *)

Definition nullable_ms (t : Z) : option Z :=
  if Time.IsZero t then None else Some (Time.UnixMilli t).

(** The values bound to the columns of an [INSERT] or [UPDATE]. *)
Definition row_of_agent (t : Agent) : Row :=
  {| r_id := a_ID t;
     r_kind := a_Kind t;
     r_status := a_Status t;
     r_payload := marshal_payload (a_Payload t);
     r_tags := marshal_tags (a_Tags t);
     r_owner := a_Owner t;
     r_parent_id := a_ParentID t;
     r_trace_id := a_TraceID t;
     r_ttl_ms := Time.Milliseconds (a_TTL t);
     r_created_at_ms := Time.UnixMilli (a_CreatedAt t);
     r_updated_at_ms := Time.UnixMilli (a_UpdatedAt t);
     r_owner_time_ms := nullable_ms (a_OwnerTime t);
     r_lease_token := a_LeaseToken t;
     r_lease_until_ms := nullable_ms (a_LeaseUntil t);
     r_version := a_Version t;
     r_metadata := marshal_metadata (a_Metadata t) |}.

(** [(ttl_ms = 0 OR created_at_ms + ttl_ms > ?)] *)
Definition live (nowMs : Z) (r : Row) : bool :=
  bool_decide (r_ttl_ms r = 0) || bool_decide (nowMs < r_created_at_ms r + r_ttl_ms r).

(** [INSERT ... ON CONFLICT(id) DO UPDATE SET] every other column. *)
Definition upsert_stmt (r : Row) (d : DB) : DB :=
  MkDB (<[r_id r := r]> (agents d)) (agent_events d).

(** [UPDATE agents SET ... WHERE id=?]: no row, no effect. *)
Definition update_stmt (r : Row) (d : DB) : DB :=
  match agents d !! r_id r with
  | Some _ => MkDB (<[r_id r := r]> (agents d)) (agent_events d)
  | None => d
  end.

(** The claim's guarded [UPDATE] and its number of affected rows. *)
Definition claim_row (t : Agent) (r : Row) : Row :=
  {| r_id := r_id r; r_kind := r_kind r;
     r_status := a_Status t;
     r_payload := r_payload r; r_tags := r_tags r;
     r_owner := a_Owner t;
     r_parent_id := r_parent_id r; r_trace_id := r_trace_id r;
     r_ttl_ms := r_ttl_ms r; r_created_at_ms := r_created_at_ms r;
     r_updated_at_ms := Time.UnixMilli (a_UpdatedAt t);
     r_owner_time_ms := nullable_ms (a_OwnerTime t);
     r_lease_token := a_LeaseToken t;
     r_lease_until_ms := nullable_ms (a_LeaseUntil t);
     r_version := a_Version t;
     r_metadata := r_metadata r |}.

Definition claim_stmt (t : Agent) (nowMs : Z) (d : DB) : DB * Z :=
  match agents d !! a_ID t with
  | Some r =>
      if bool_decide (r_status r = StatusNew) && live nowMs r
      then (MkDB (<[a_ID t := claim_row t r]> (agents d)) (agent_events d), 1)
      else (d, 0)
  | None => (d, 0)
  end.

Definition row_of_event (e : Event) : EventRow :=
  {| er_id := e_ID e;
     er_tuple_id := e_TupleID e;
     er_type := e_Type e;
     er_kind := e_Kind e;
     er_timestamp_ms := Time.UnixMilli (e_Timestamp e);
     er_agent_id := e_AgentID e;
     er_trace_id := e_TraceID e;
     er_version := e_Version e;
     er_data := Marshal (VMap (e_Data e)) |}.

(** [INSERT INTO agent_events]: the primary key rejects a duplicate. *)
Definition insert_event_stmt (e : Event) (d : DB) : result gerror DB :=
  if decide (e_ID e ∈ (er_id <$> agent_events d))
  then Err (ESQL "UNIQUE constraint failed: agent_events.id")
  else Ok (MkDB (agents d) (agent_events d ++ [row_of_event e])).

(** ** The helpers as database calls *)

Section Helpers.
Context `{E : Env}.

Definition upsertSQLiteAgent (t : Agent) : M DB Agent :=
  let t := sync_namespace t in
  _ ← tx_exec (fun d => Ok (upsert_stmt (row_of_agent t) d, tt));
  mret t.

Definition updateSQLiteAgent (t : Agent) : M DB Agent :=
  let t := sync_namespace t in
  _ ← tx_exec (fun d => Ok (update_stmt (row_of_agent t) d, tt));
  mret t.

Definition claimSQLiteAgent (t : Agent) (nowMs : Z) : M DB bool :=
  affected ← tx_exec (fun d => Ok (claim_stmt t nowMs d));
  mret (bool_decide (0 < affected)).

Definition insertSQLiteEvent (event : Event) : M DB unit :=
  tx_exec (fun d => result_map (fun d' => (d', tt)) (insert_event_stmt event d)).

Definition sqliteIsNoRows (e : gerror) : bool :=
  match root_cause e with ENoRows => true | _ => false end.

(** [SELECT ... FROM agents WHERE id=? AND ttl], scanned. *)
Definition select_by_id (id : string) (nowMs : Z) (d : DB) : result gerror Agent :=
  match agents d !! id with
  | Some r => if live nowMs r then scanSQLiteAgent r else Err ENoRows
  | None => Err ENoRows
  end.

(** The error handling that follows each of these selects. *)
Definition not_found (id : string) (m : M DB Agent) : M DB Agent :=
  r ← try_ m;
  match r with
  | Ok t => mret t
  | Err e => if sqliteIsNoRows e then fail (ENotFound id) else fail e
  end.

End Helpers.

(** ** Invariant of the tables *)

(** Every row is stored under its own id (the primary key). *)
Definition keyed (d : DB) : Prop := forall id r, agents d !! id = Some r -> r_id r = id.

Lemma keyed_upsert r d : keyed d -> keyed (upsert_stmt r d).
Proof.
  intros H id r'. simpl. destruct (decide (r_id r = id)) as [<-|].
  - rewrite lookup_insert_eq. by intros [= <-].
  - rewrite lookup_insert_ne by done. apply H.
Qed.

Lemma keyed_update r d : keyed d -> keyed (update_stmt r d).
Proof. unfold update_stmt. intros H. destruct (agents d !! r_id r); [by apply (keyed_upsert r)|done]. Qed.

Lemma keyed_claim t nowMs d : keyed d -> keyed (claim_stmt t nowMs d).1.
Proof.
  intros H. unfold claim_stmt. destruct (agents d !! a_ID t) as [r|] eqn:Hr; [|done].
  destruct (_ && _); [|done]. intros id r'. simpl.
  destruct (decide (a_ID t = id)) as [<-|].
  - rewrite lookup_insert_eq. intros [= <-]. simpl. by apply H.
  - rewrite lookup_insert_ne by done. apply H.
Qed.
