(* ===== verification/SqliteQuery.v ===== *)
(** * SQLite: queries

    [src/pkg/store/sqlite/sqlite_query.go]: the [WHERE] clauses built from a
    query, the filters applied in Go to what the clauses cannot express, and
    [Query], [Count] and [Read].  The theorems relate them to one reference
    predicate on agents, [query_matches]. *)

From S2P Require Import Prelude GoLib Agent Common Effects Sql SqliteRows.
From stdpp Require Import gmap strings list fin_maps sorting.
From Stdlib Require Import ZArith Lia.

Open Scope Z_scope.

(** ** Clauses *)

(** A clause of the [WHERE] with the argument of its placeholder. *)
Inductive clause : Type :=
| CTTL (nowMs : Z)
| CStatus (s : string)
| CKind (s : string)
| COwner (s : string)
| CParent (s : string)
| CTrace (s : string).

Definition sat (r : Row) (c : clause) : bool :=
  match c with
  | CTTL nowMs => live nowMs r
  | CStatus s => bool_decide (r_status r = s)
  | CKind s => bool_decide (r_kind r = s)
  | COwner s => bool_decide (r_owner r = s)
  | CParent s => bool_decide (r_parent_id r = s)
  | CTrace s => bool_decide (r_trace_id r = s)
  end.

Definition unless_empty (s : string) (c : string -> clause) : list clause :=
  if decide (s = "")%string then [] else [c s].

(** A metadata criterion other than the caller's identity. *)
Definition has_metadata_filter (m : option (gmap string string)) : bool :=
  match m with
  | None => false
  | Some m => existsb (fun kv => negb (bool_decide (kv.1 = "agent_id"%string))) (map_to_list m)
  end.

Definition buildSQLiteWhereClauses (query : option Query) (forceStatusNew : bool) (nowMs : Z)
    : list clause * bool :=
  match query with
  | None => ([CTTL nowMs], false)
  | Some q =>
      (CTTL nowMs ::
         (if forceStatusNew then [CStatus StatusNew] else unless_empty (q_Status q) CStatus)
         ++ unless_empty (q_Kind q) CKind ++ unless_empty (q_Owner q) COwner
         ++ unless_empty (q_ParentID q) CParent ++ unless_empty (q_TraceID q) CTrace,
       negb (bool_decide (q_NamespaceID q = "")%string)
       || negb (bool_decide (q_Tags q = []))
       || has_metadata_filter (q_Metadata q))
  end.

(** [SELECT ... WHERE ... ORDER BY created_at_ms ASC [LIMIT ?] [OFFSET ?]];
    SQLite's grammar has no [OFFSET] without [LIMIT]. *)
Definition select_agents `{SqlOrder} (cs : list clause) (limit offset : option Z) (d : DB)
    : result gerror (list Row) :=
  match limit, offset with
  | None, Some _ => Err (ESQL "near OFFSET: syntax error")
  | _, _ =>
      Ok (sql_window limit offset
            (order_asc r_created_at_ms
               (filter (fun r => forallb (sat r) cs) (map_to_list (agents d)).*2)))
  end.

Arguments select_agents : simpl never.

Definition select_count (cs : list clause) (d : DB) : Z :=
  Z.of_nat (length (filter (fun r => forallb (sat r) cs) (map_to_list (agents d)).*2)).

(** ** Filters in Go *)

Definition metadata_matches (have : option (gmap string string)) (want : option (gmap string string)) : bool :=
  match want with
  | None => true
  | Some want =>
      forallb (fun '(k, v) =>
        bool_decide (k = "agent_id"%string)
        || match have with
           | None => false
           | Some m => bool_decide (m !! k = Some v)
           end) (map_to_list want)
  end.

Definition matchesQueryFilters (t : Agent) (query : option Query) : bool :=
  match query with
  | None => true
  | Some q =>
      (bool_decide (q_NamespaceID q = "")%string
       || bool_decide ((if decide (a_NamespaceID t = "")%string
                        then omget (a_Metadata t) NamespaceMetadataKey
                        else a_NamespaceID t) = q_NamespaceID q))
      && (bool_decide (q_Tags q = []) || forallb (containsString (a_Tags t)) (q_Tags q))
      && metadata_matches (a_Metadata t) (q_Metadata q)
  end.

(** Scan each row; skip the rows that do not decode and those the Go filter
    rejects. *)
Definition scan_rows (needsFilter : bool) (query : option Query) (rows : list Row) : list Agent :=
  omap (fun r => match scanSQLiteAgent r with
                 | Err _ => None
                 | Ok t => if needsFilter && negb (matchesQueryFilters t query) then None else Some t
                 end) rows.

(** ** Operations *)

Section Operations.
Context `{E : Env} `{Srt : SqlOrder}.

Definition query_limit (q : option Query) : Z := match q with Some q => q_Limit q | None => 0 end.
Definition query_offset (q : option Query) : Z := match q with Some q => q_Offset q | None => 0 end.

Definition Query_ (query : option Query) : M DB (list Agent) :=
  t ← now;
  let nowMs := Time.UnixMilli t in
  let '(where_, needsFilter) := buildSQLiteWhereClauses query false nowMs in
  rows ← db_read (if needsFilter then select_agents where_ None None
                  else select_agents where_ (pos_opt (query_limit query)) (pos_opt (query_offset query)));
  let found := scan_rows needsFilter query rows in
  _ ← rows_Err;
  mret (if needsFilter then paginate (query_limit query) (query_offset query) found else found).

Definition Count (query : option Query) : M DB Z :=
  t ← now;
  let nowMs := Time.UnixMilli t in
  let '(where_, needsFilter) := buildSQLiteWhereClauses query false nowMs in
  if needsFilter then
    rows ← db_read (select_agents where_ None None);
    let count := Z.of_nat (length (scan_rows true query rows)) in
    _ ← rows_Err;
    mret count
  else db_read (fun d => Ok (select_count where_ d)).

(** One poll of [Read]: the query with its limit forced to one. *)
Definition read_poll (query : option Query) : M DB (option Agent) :=
  let q := default empty_query query in
  let q := MkQuery (q_Kind q) (q_Status q) (q_Tags q) (q_Owner q) (q_ParentID q) (q_TraceID q)
             (q_NamespaceID q) (q_AgentID q) (q_Metadata q) 1 (q_Offset q) in
  found ← Query_ (Some q);
  mret (head found).

(** The polling loop of [In] and [Read]: [None] when the fuel runs out. *)
Fixpoint poll_loop (poll : M DB (option Agent)) (deadline : Z) (fuel : nat) : M DB (option Agent) :=
  match fuel with
  | O => mret None
  | S fuel =>
      t ← now;
      if decide (t < deadline) then
        found ← poll;
        match found with
        | Some a => mret (Some a)
        | None =>
            done ← select_done;
            if (done : bool) then fail ECtxDone else poll_loop poll deadline fuel
        end
      else fail ETimeout
  end.

Definition Read (fuel : nat) (query : option Query) (timeout : Z) : M DB (option Agent) :=
  t ← now;
  poll_loop (read_poll query) (Time.Add t timeout) fuel.

End Operations.

(** ** The reference predicate *)

(** What it means for an agent to match a query: every non-empty criterion
    holds.  [agent_id] in the metadata names the caller and is no criterion. *)
Definition query_matches (q : option Query) (t : Agent) : Prop :=
  match q with
  | None => True
  | Some q =>
      (q_Status q = "" \/ a_Status t = q_Status q)
      /\ (q_Kind q = "" \/ a_Kind t = q_Kind q)
      /\ (q_Owner q = "" \/ a_Owner t = q_Owner q)
      /\ (q_ParentID q = "" \/ a_ParentID t = q_ParentID q)
      /\ (q_TraceID q = "" \/ a_TraceID t = q_TraceID q)
      /\ (q_NamespaceID q = "" \/ a_NamespaceID t = q_NamespaceID q)
      /\ q_Tags q ⊆ a_Tags t
      /\ (forall k v, default ∅ (q_Metadata q) !! k = Some v -> k <> "agent_id" ->
          default ∅ (a_Metadata t) !! k = Some v)
  end%string.

(** The agents of the table that are live at [nowMs]. *)
Definition live_agents (nowMs : Z) (d : DB) : list Agent :=
  omap (fun r => match scanSQLiteAgent r with Ok t => Some t | Err _ => None end)
    (filter (fun r => live nowMs r) (map_to_list (agents d)).*2).

(** ** Clauses and filters decide the reference predicate *)

Lemma has_metadata_filter_false m :
  has_metadata_filter m = false ->
  forall k v, default ∅ m !! k = Some v -> k = "agent_id"%string.
Proof.
  destruct m as [m|]; simpl; [|intros _ k v; by rewrite lookup_empty].
  intros H k v Hk. destruct (decide (k = "agent_id"%string)) as [|Hne]; [done|].
  exfalso. assert (existsb (fun kv => negb (bool_decide (kv.1 = "agent_id"%string))) (map_to_list m) = true);
    [|congruence].
  apply existsb_exists. exists (k, v). split.
  - apply list_elem_of_In, elem_of_map_to_list, Hk.
  - simpl. by rewrite bool_decide_eq_false_2.
Qed.

Lemma metadata_matches_spec have want :
  metadata_matches have want = true <->
  (forall k v, default ∅ want !! k = Some v -> k <> "agent_id"%string ->
   default ∅ have !! k = Some v).
Proof.
  unfold metadata_matches. destruct want as [want|]; simpl; [|by split; [intros _ k v; rewrite lookup_empty|]].
  rewrite forallb_forall. split.
  - intros H k v Hk Hne. specialize (H (k, v)).
    rewrite <- list_elem_of_In, elem_of_map_to_list in H. specialize (H Hk). simpl in H.
    rewrite bool_decide_eq_false_2 in H by done. simpl in H.
    destruct have as [m|]; [|done]. by apply bool_decide_eq_true in H.
  - intros H [k v] Hk. rewrite <- list_elem_of_In, elem_of_map_to_list in Hk.
    destruct (decide (k = "agent_id"%string)) as [->|Hne]; [done|].
    rewrite bool_decide_eq_false_2 by done. simpl. specialize (H k v Hk Hne).
    destruct have as [m|]; simpl in H; [by apply bool_decide_eq_true_2|].
    by rewrite lookup_empty in H.
Qed.

Lemma unless_empty_sat r s (c : string -> clause) (f : Row -> string) :
  (forall v, sat r (c v) = bool_decide (f r = v)) ->
  forallb (sat r) (unless_empty s c) = true <-> s = ""%string \/ f r = s.
Proof.
  intros Hc. unfold unless_empty. case_decide; [naive_solver|].
  simpl. rewrite Hc, andb_true_r, bool_decide_eq_true. naive_solver.
Qed.

(** The namespace of a scanned agent is the one its metadata names. *)
Lemma scan_namespace r t :
  scanSQLiteAgent r = Ok t -> omget (a_Metadata t) NamespaceMetadataKey = a_NamespaceID t.
Proof.
  unfold scanSQLiteAgent. destruct (unmarshal_map _); [|done]. by intros [= <-].
Qed.

Lemma scan_columns r t :
  scanSQLiteAgent r = Ok t ->
  a_ID t = r_id r /\ a_Status t = r_status r /\ a_Kind t = r_kind r /\ a_Owner t = r_owner r
  /\ a_ParentID t = r_parent_id r /\ a_TraceID t = r_trace_id r
  /\ a_LeaseToken t = r_lease_token r /\ a_Version t = r_version r
  /\ a_CreatedAt t = Time.of_UnixMilli (r_created_at_ms r).
Proof.
  unfold scanSQLiteAgent. destruct (unmarshal_map _); [|done]. by intros [= <-].
Qed.

Lemma filters_spec r t q :
  scanSQLiteAgent r = Ok t ->
  matchesQueryFilters t (Some q) = true <->
  (q_NamespaceID q = ""%string \/ a_NamespaceID t = q_NamespaceID q)
  /\ q_Tags q ⊆ a_Tags t
  /\ (forall k v, default ∅ (q_Metadata q) !! k = Some v -> k <> "agent_id"%string ->
      default ∅ (a_Metadata t) !! k = Some v).
Proof.
  intros Hs. unfold matchesQueryFilters.
  rewrite !andb_true_iff, !orb_true_iff, !bool_decide_eq_true, metadata_matches_spec.
  rewrite (scan_namespace r t Hs).
  replace (if decide (a_NamespaceID t = "")%string then a_NamespaceID t else a_NamespaceID t)
    with (a_NamespaceID t) by by case_decide.
  rewrite forallb_forall. setoid_rewrite containsString_spec.
  setoid_rewrite <- list_elem_of_In.
  assert ((q_Tags q = [] \/ (forall x, x ∈ q_Tags q -> x ∈ a_Tags t)) <-> q_Tags q ⊆ a_Tags t) as ->;
    [|tauto].
  split; [|by right]. intros [->|H]; [apply list_subseteq_nil|done].
Qed.

(** Without Go filters the three filtered criteria are vacuous. *)
Lemma no_filter_vacuous q t nowMs force cs :
  buildSQLiteWhereClauses (Some q) force nowMs = (cs, false) ->
  (q_NamespaceID q = ""%string \/ a_NamespaceID t = q_NamespaceID q)
  /\ q_Tags q ⊆ a_Tags t
  /\ (forall k v, default ∅ (q_Metadata q) !! k = Some v -> k <> "agent_id"%string ->
      default ∅ (a_Metadata t) !! k = Some v).
Proof.
  intros [= _ H]. rewrite !orb_false_iff, !negb_false_iff, !bool_decide_eq_true in H.
  destruct H as [[-> ->] Hm]. split_and!; [by left|apply list_subseteq_nil|].
  intros k v Hk Hne. by destruct Hne; eapply has_metadata_filter_false.
Qed.

Lemma clauses_spec r t q nowMs :
  scanSQLiteAgent r = Ok t ->
  forallb (sat r) (buildSQLiteWhereClauses (Some q) false nowMs).1 = true <->
  live nowMs r = true
  /\ (q_Status q = "" \/ a_Status t = q_Status q)%string
  /\ (q_Kind q = "" \/ a_Kind t = q_Kind q)%string
  /\ (q_Owner q = "" \/ a_Owner t = q_Owner q)%string
  /\ (q_ParentID q = "" \/ a_ParentID t = q_ParentID q)%string
  /\ (q_TraceID q = "" \/ a_TraceID t = q_TraceID q)%string.
Proof.
  intros Hs. destruct (scan_columns r t Hs) as (_ & -> & -> & -> & -> & -> & _).
  simpl. rewrite !forallb_app, !andb_true_iff.
  rewrite (unless_empty_sat r (q_Status q) CStatus r_status) by done.
  rewrite (unless_empty_sat r (q_Kind q) CKind r_kind) by done.
  rewrite (unless_empty_sat r (q_Owner q) COwner r_owner) by done.
  rewrite (unless_empty_sat r (q_ParentID q) CParent r_parent_id) by done.
  rewrite (unless_empty_sat r (q_TraceID q) CTrace r_trace_id) by done.
  done.
Qed.

(** A row that decodes is selected and kept exactly when it is live and its
    agent matches the query. *)
Lemma select_keep_spec r t query nowMs cs needsFilter :
  buildSQLiteWhereClauses query false nowMs = (cs, needsFilter) ->
  scanSQLiteAgent r = Ok t ->
  forallb (sat r) cs = true /\ needsFilter && negb (matchesQueryFilters t query) = false <->
  live nowMs r = true /\ query_matches query t.
Proof.
  intros Hb Hs. destruct query as [q|]; simpl.
  2:{ injection Hb as <- <-. simpl. rewrite andb_true_r. tauto. }
  pose proof (clauses_spec r t q nowMs Hs) as Hc.
  pose proof (filters_spec r t q Hs) as Hf.
  pose proof (no_filter_vacuous q t nowMs false cs) as Hv.
  rewrite Hb in Hc. simpl in Hc. rewrite Hc.
  destruct needsFilter; simpl.
  - rewrite negb_false_iff, Hf. split; intros; destruct_and!; split_and!; assumption.
  - specialize (Hv Hb). split; intros; destruct_and!; split_and!; done.
Qed.

(** ** Query against the reference *)

#[export] Instance query_matches_dec q t : Decision (query_matches q t).
Proof.
  destruct q as [q|]; simpl; [|apply _].
  repeat apply and_dec; apply _.
Defined.

(** Every stored row decodes; the statements of the store only write such
    rows. *)
Definition decodable (d : DB) : Prop :=
  forall id r, agents d !! id = Some r -> exists t, scanSQLiteAgent r = Ok t.

(** The agents of the table that are live and match. *)
Definition matching (nowMs : Z) (query : option Query) (d : DB) : list Agent :=
  filter (query_matches query) (live_agents nowMs d).

(** What the store's one offset-without-limit statement cannot express. *)
Definition offset_unsupported (query : option Query) (nowMs : Z) : Prop :=
  (buildSQLiteWhereClauses query false nowMs).2 = false
  /\ query_limit query <= 0 /\ 0 < query_offset query.

Section QuerySpec.
Context `{E : Env} `{Srt : SqlOrder}.

(** The data a run of [Query_] returns when no call fails. *)
Definition query_result (nowMs : Z) (query : option Query) (d : DB) : result gerror (list Agent) :=
  let '(where_, needsFilter) := buildSQLiteWhereClauses query false nowMs in
  if needsFilter then
    result_map (fun rows => paginate (query_limit query) (query_offset query)
                              (scan_rows true query rows))
      (select_agents where_ None None d)
  else
    result_map (scan_rows false query)
      (select_agents where_ (pos_opt (query_limit query)) (pos_opt (query_offset query)) d).

Lemma Query_run query w :
  wp (Query_ query) (fun r w' =>
    w_db w' = w_db w /\ w_notified w' = w_notified w /\ w_uuid w' = w_uuid w
    /\ (aborted w r w' \/
        r = query_result (Time.UnixMilli (clock_at (w_clock w))) query (w_db w))) w.
Proof.
  unfold Query_, query_result. wp_step. wp_step.
  destruct (buildSQLiteWhereClauses _ _ _) as [cs nf]. wp_step. wp_step; simpl in *.
  { split_and!; try done. left. solve_aborted. }
  unfold wp at 1. simpl. destruct nf; simpl.
  2: match goal with |- context [select_agents ?a ?b ?c ?d] =>
         destruct (select_agents a b c d) as [rows|e] end; simpl; [|by eauto].
  all: wp_step; wp_step; simpl in *; unfold wp; simpl.
  1,3: split_and!; try done; left; solve_aborted.
  all: split_and!; try done; by right.
Qed.

Definition keep (needsFilter : bool) (query : option Query) (r : Row) : option Agent :=
  match scanSQLiteAgent r with
  | Err _ => None
  | Ok t => if needsFilter && negb (matchesQueryFilters t query) then None else Some t
  end.

(** The rows selected in order, decoded and filtered: the matching agents,
    oldest first. *)
Lemma selected_matching query nowMs cs nf d :
  buildSQLiteWhereClauses query false nowMs = (cs, nf) ->
  decodable d ->
  let l := omap (keep nf query)
             (order_asc r_created_at_ms (filter (fun r => forallb (sat r) cs) (map_to_list (agents d)).*2)) in
  l ≡ₚ matching nowMs query d /\ StronglySorted (fun x y => a_CreatedAt x <= a_CreatedAt y) l.
Proof.
  intros Hb Hd l. split.
  - unfold l, order_asc. rewrite sql_sort_perm. unfold matching, live_agents.
    erewrite (omap_filter_swap _ (live nowMs)); [reflexivity|].
    intros r Hr. assert (exists t, scanSQLiteAgent r = Ok t) as [t Ht].
    { apply list_elem_of_fmap in Hr as ([id r'] & -> & Hr%elem_of_map_to_list). by eapply Hd. }
    pose proof (select_keep_spec r t query nowMs cs nf Hb Ht) as Hk.
    unfold keep. rewrite Ht. destruct (forallb _ _), (nf && _), (live nowMs r);
      try case_decide; naive_solver.
  - eapply StronglySorted_omap; [|apply sql_sort_sorted].
    unfold keep. intros x y x' y' Hx Hy Hle.
    destruct (scanSQLiteAgent x) eqn:Ex; [|done]. destruct (scanSQLiteAgent y) eqn:Ey; [|done].
    apply scan_columns in Ex as (_ & _ & _ & _ & _ & _ & _ & _ & Ex).
    apply scan_columns in Ey as (_ & _ & _ & _ & _ & _ & _ & _ & Ey).
    destruct (nf && negb (matchesQueryFilters a query)); [done|].
    destruct (nf && negb (matchesQueryFilters a0 query)); [done|].
    simplify_eq. rewrite Ex, Ey. unfold Time.of_UnixMilli, Time.Millisecond. lia.
Qed.

Lemma query_result_spec nowMs query d :
  decodable d ->
  match query_result nowMs query d with
  | Ok res => exists l, res = paginate (query_limit query) (query_offset query) l
              /\ l ≡ₚ matching nowMs query d
              /\ StronglySorted (fun x y => a_CreatedAt x <= a_CreatedAt y) l
  | Err _ => offset_unsupported query nowMs
  end.
Proof.
  intros Hd. unfold query_result, offset_unsupported.
  destruct (buildSQLiteWhereClauses query false nowMs) as [cs nf] eqn:Hb.
  destruct (selected_matching query nowMs cs nf d Hb Hd) as [Hp Hs].
  destruct nf; simpl; [by eauto|].
  unfold select_agents, pos_opt.
  destruct (decide (0 < query_limit query)) as [Hl|Hl];
    destruct (decide (0 < query_offset query)) as [Ho|Ho]; simpl.
  3: split_and!; [done|lia|done].
  all: eexists; split_and!; [|exact Hp|exact Hs].
  all: rewrite paginate_window; unfold scan_rows; rewrite omap_window;
    [by unfold pos_opt; rewrite ?decide_True, ?decide_False by done|].
  all: apply Forall_forall; intros r; rewrite elem_of_sql_sort, list_elem_of_filter;
    intros [_ ([id r'] & -> & Hr%elem_of_map_to_list)%list_elem_of_fmap];
    destruct (Hd _ _ Hr) as [t Ht]; simpl; rewrite Ht; eauto.
Qed.

End QuerySpec.
