(* ===== verification/SqliteLifecycle.v ===== *)
(** * SQLite: the lifecycle of agents

    [src/pkg/store/sqlite/sqlite_lifecycle.go]: creating, claiming, updating,
    completing, releasing and renewing agents, each as the sequence of
    database calls the code makes, and the traversal of the parent/child
    graph.  The clock readings and UUID draws that only feed metrics are left
    out. *)

From S2P Require Import Prelude GoLib Agent Common Effects Sql SqliteRows SqliteQuery.
From stdpp Require Import gmap strings list fin_maps sorting.
From Stdlib Require Import ZArith Lia.

Open Scope Z_scope.

(** ** The changes an operation makes to an agent *)

Definition claimed_agent (t : Agent) (agentID leaseToken : string) (now_ : Z) : Agent :=
  let t := set_Status StatusInProgress t in
  let leaseUntil := Time.Add now_ (leaseDurationForAgent t) in
  let t := set_Owner agentID t in
  let t := set_OwnerTime now_ t in
  let t := set_LeaseToken leaseToken t in
  let t := set_LeaseUntil leaseUntil t in
  let t := set_UpdatedAt now_ t in
  set_Version (int64 (a_Version t + 1)) t.

(** Status, owner, token and lease are cleared together. *)
Definition unowned_agent (t : Agent) (status : string) (now_ : Z) : Agent :=
  let t := set_Status status t in
  let t := set_Owner "" t in
  let t := set_OwnerTime Time.zero_time t in
  let t := set_LeaseToken "" t in
  let t := set_LeaseUntil Time.zero_time t in
  let t := set_UpdatedAt now_ t in
  set_Version (int64 (a_Version t + 1)) t.

Definition completed_agent (t : Agent) (agentID leaseToken : string)
    (result : gmap string any) (now_ : Z) : Agent :=
  let t := set_Payload (Some (<["result" := VMap result]> (default ∅ (a_Payload t)))) t in
  let t := SetCompletionMetadata t agentID leaseToken now_ in
  unowned_agent t StatusCompleted now_.

Definition released_agent (t : Agent) (now_ : Z) : Agent := unowned_agent t StatusNew now_.

Definition renewed_agent (t : Agent) (leaseDuration now_ : Z) : Agent :=
  let t := set_OwnerTime now_ t in
  let t := set_LeaseUntil (Time.Add now_ leaseDuration) t in
  set_UpdatedAt now_ t.

Definition release_data (reason previousOwner : string) : gmap string any :=
  if decide (reason = "")%string then ∅
  else <["reap_reason" := VStr reason]> (<["previous_owner" := VStr previousOwner]> ∅).

(** What an output of [CompleteAndOut] inherits from the completed agent. *)
Definition inherit (parent out : Agent) : Agent :=
  let out := if decide (a_Status out = "")%string then set_Status StatusNew out else out in
  let out := if decide (a_TraceID out = "" /\ a_TraceID parent <> "")%string
             then set_TraceID (a_TraceID parent) out else out in
  if decide (a_ParentID out = "")%string then set_ParentID (a_ID parent) out else out.

(** ** Operations *)

Section Lifecycle.
Context `{E : Env} `{Srt : SqlOrder}.

(** [if t.ID == "" { t.ID = uuid.New() }; if t.CreatedAt.IsZero() ...]. *)
Definition fill_defaults (t : Agent) : M DB Agent :=
  id ← (if decide (a_ID t = "")%string then new_uuid else mret (a_ID t));
  created ← (if Time.IsZero (a_CreatedAt t) then now else mret (a_CreatedAt t));
  updated ← now;
  mret (out_defaults t id created updated).

(** The event holds a pointer to the agent, so it shows the namespace the
    upsert fills in. *)
Definition Out (t : Agent) : M DB Agent :=
  t ← fill_defaults t;
  eid ← new_uuid;
  timestamp ← now;
  with_tx (
    t' ← upsertSQLiteAgent t;
    let event := agent_event eid t EventCreated timestamp (omget (a_Metadata t) "agent_id")
                   {["agent" := agent_json t']} in
    _ ← insertSQLiteEvent event;
    _ ← Commit;
    _ ← notify event;
    mret t').

Definition Get (id : string) : M DB Agent :=
  t ← now;
  not_found id (db_read (select_by_id id (Time.UnixMilli t))).

(** The loop over the selected rows. *)
Fixpoint take_loop (query : option Query) (agentID : string) (needsFilter : bool) (nowMs : Z)
    (rows : list Row) : M DB (option Agent) :=
  match rows with
  | [] => _ ← rows_Err; mret None
  | r :: rows =>
      match scanSQLiteAgent r with
      | Err _ => take_loop query agentID needsFilter nowMs rows
      | Ok t =>
          if needsFilter && negb (matchesQueryFilters t query)
          then take_loop query agentID needsFilter nowMs rows
          else
            now_ ← now;
            leaseToken ← new_uuid;
            let t := claimed_agent t agentID leaseToken now_ in
            updated ← claimSQLiteAgent t nowMs;
            if (updated : bool) then
              eid ← new_uuid;
              timestamp ← now;
              let event := agent_event eid t EventClaimed timestamp agentID
                             {["agent_id" := VStr agentID]} in
              _ ← insertSQLiteEvent event;
              _ ← Commit;
              _ ← notify event;
              mret (Some t)
            else take_loop query agentID needsFilter nowMs rows
      end
  end.

Definition Take (query : option Query) : M DB (option Agent) :=
  if take_refused query then mret None
  else
    let agentID := query_agent_id query in
    with_tx (
      t ← now;
      let nowMs := Time.UnixMilli t in
      let '(where_, needsFilter) := buildSQLiteWhereClauses query true nowMs in
      rows ← tx_read (select_agents where_ (if needsFilter then None else Some 1) None);
      take_loop query agentID needsFilter nowMs rows).

(** [In]: poll [Take] until the deadline. *)
Definition In_ (fuel : nat) (query : option Query) (timeout : Z) : M DB (option Agent) :=
  t ← now;
  poll_loop (Take query) (Time.Add t timeout) fuel.

Definition UpdateAndGet (id : string) (updates : option (gmap string any)) : M DB Agent :=
  match updates with
  | None => Get id
  | Some updates =>
      t0 ← now;
      with_tx (
        t ← not_found id (tx_read (select_by_id id (Time.UnixMilli t0)));
        updated ← now;
        let t := ApplyUpdates t updates in
        let t := set_UpdatedAt updated t in
        let t := set_Version (int64 (a_Version t + 1)) t in
        t ← updateSQLiteAgent t;
        eid ← new_uuid;
        timestamp ← now;
        let event := agent_event eid t EventUpdated timestamp (GetStringFromMap updates "agent_id") updates in
        _ ← insertSQLiteEvent event;
        _ ← Commit;
        _ ← notify event;
        mret t)
  end.

Definition Update (id : string) (updates : option (gmap string any)) : M DB unit :=
  match updates with
  | None => mret tt
  | Some _ => _ ← UpdateAndGet id updates; mret tt
  end.

(** The guards of an operation that needs the lease: status, owner, token. *)
Definition check_lease (verb : string) (t : Agent) (agentID leaseToken : string) : M DB unit :=
  if decide (a_Status t <> StatusInProgress) then fail (EInvalidStatus (a_Status t))
  else if decide (a_Owner t <> agentID) then fail (EOwnedBy verb (a_Owner t) agentID)
  else if decide (a_LeaseToken t <> leaseToken) then fail ETokenMismatch
  else mret tt.

Definition require_identity {A} (agentID leaseToken : string) (m : M DB A) : M DB A :=
  if decide (agentID = "")%string then fail EAgentIDRequired
  else if decide (leaseToken = "")%string then fail ELeaseTokenRequired
  else m.

Definition CompleteAndGet (id agentID leaseToken : string) (result : option (gmap string any))
    : M DB Agent :=
  require_identity agentID leaseToken (
    t0 ← now;
    with_tx (
      t ← not_found id (tx_read (select_by_id id (Time.UnixMilli t0)));
      if decide (a_Status t = StatusCompleted) then
        if CompletionTokenMatches t leaseToken then _ ← Commit; mret t
        else fail EStaleToken
      else
        _ ← check_lease "complete" t agentID leaseToken;
        now_ ← now;
        let result := default ∅ result in
        t ← updateSQLiteAgent (completed_agent t agentID leaseToken result now_);
        eid ← new_uuid;
        let event := agent_event eid t EventCompleted now_ agentID result in
        _ ← insertSQLiteEvent event;
        _ ← Commit;
        _ ← notify event;
        mret t)).

Definition Complete (id agentID leaseToken : string) (result : option (gmap string any)) : M DB unit :=
  _ ← CompleteAndGet id agentID leaseToken result; mret tt.

(** One output of [CompleteAndOut], with its event. *)
Definition create_output (t : Agent) (agentID : string) (out : Agent) : M DB (Agent * Event) :=
  out ← fill_defaults out;
  let out := inherit t out in
  out ← wrap "failed to create output agent" (upsertSQLiteAgent out);
  eid ← new_uuid;
  timestamp ← now;
  let event := agent_event eid out EventCreated timestamp agentID
                 (<["agent" := agent_json out]> {["parent_id" := VStr (a_ID t)]}) in
  _ ← wrap "failed to create output event" (insertSQLiteEvent event);
  mret (out, event).

Definition CompleteAndOut (id agentID leaseToken : string) (result : option (gmap string any))
    (outputs : list Agent) : M DB (Agent * list Agent) :=
  require_identity agentID leaseToken (
    t0 ← now;
    with_tx (
      t ← not_found id (tx_read (select_by_id id (Time.UnixMilli t0)));
      if decide (a_Status t = StatusCompleted) then
        if CompletionTokenMatches t leaseToken then _ ← Commit; mret (t, [])
        else fail EStaleToken
      else
        _ ← check_lease "complete" t agentID leaseToken;
        now_ ← now;
        let result := default ∅ result in
        t ← updateSQLiteAgent (completed_agent t agentID leaseToken result now_);
        eid ← new_uuid;
        let completedEvent := agent_event eid t EventCompleted now_ agentID result in
        _ ← insertSQLiteEvent completedEvent;
        created ← for_each (create_output t agentID) outputs;
        _ ← Commit;
        _ ← notify completedEvent;
        _ ← for_each notify created.*2;
        mret (t, created.*1))).

Definition ReleaseAndGet (id agentID leaseToken reason : string) : M DB Agent :=
  require_identity agentID leaseToken (
    t0 ← now;
    with_tx (
      t ← not_found id (tx_read (select_by_id id (Time.UnixMilli t0)));
      _ ← check_lease "release" t agentID leaseToken;
      let previousOwner := a_Owner t in
      updated ← now;
      t ← updateSQLiteAgent (released_agent t updated);
      eid ← new_uuid;
      timestamp ← now;
      let event := agent_event eid t EventReleased timestamp agentID (release_data reason previousOwner) in
      _ ← insertSQLiteEvent event;
      _ ← Commit;
      _ ← notify event;
      mret t)).

Definition Release (id agentID leaseToken reason : string) : M DB unit :=
  _ ← ReleaseAndGet id agentID leaseToken reason; mret tt.

Definition RenewLease (id agentID leaseToken : string) (leaseDuration : Z) : M DB Agent :=
  require_identity agentID leaseToken (
    t0 ← now;
    with_tx (
      t ← not_found id (tx_read (select_by_id id (Time.UnixMilli t0)));
      _ ← check_lease "renew" t agentID leaseToken;
      let leaseDuration := if decide (leaseDuration <= 0) then leaseDurationForAgent t else leaseDuration in
      now_ ← now;
      t ← updateSQLiteAgent (renewed_agent t leaseDuration now_);
      _ ← Commit;
      mret t)).

(** ** The graph of related agents *)

(** The breadth-first loop over [queue]; [None] when the fuel runs out. *)
Fixpoint dag_loop (fuel : nat) (visited : gset string) (queue : list string) (dag : DAG)
    : M DB (option DAG) :=
  match queue with
  | [] => mret (Some dag)
  | id :: queue =>
      match fuel with
      | O => mret None
      | S fuel =>
          if decide (id ∈ visited) then dag_loop fuel visited queue dag
          else
            let visited := {[id]} ∪ visited in
            found ← try_ (Get id);
            match found with
            | Err _ => dag_loop fuel visited queue dag
            | Ok t =>
                let nodes := <[id := dag_node t]> (dag_Nodes dag) in
                let up := if decide (a_ParentID t = "")%string then []
                          else [MkEdge (a_ParentID t) (a_ID t) "parent"] in
                let queue := queue ++ (if decide (a_ParentID t = "")%string then [] else [a_ParentID t]) in
                children ← try_ (Query_ (Some (parent_query (a_ID t))));
                match children with
                | Err _ => dag_loop fuel visited queue (MkDAG nodes (dag_Edges dag ++ up))
                | Ok children =>
                    let down := (fun child => MkEdge (a_ID t) (a_ID child) "spawned") <$> children in
                    dag_loop fuel visited (queue ++ (a_ID <$> children))
                      (MkDAG nodes (dag_Edges dag ++ up ++ down))
                end
            end
      end
  end.

Definition GetDAG (fuel : nat) (rootID : string) : M DB (option DAG) :=
  dag_loop fuel ∅ [rootID] (MkDAG ∅ []).

End Lifecycle.
