(* ===== verification/SqliteCore.v ===== *)
(** * SQLite: what each operation does, as a function of the database

    For every mutating operation of [SqliteLifecycle] its effect on the tables
    as a pure function ([*_effect]: the answer, the new tables, the events
    announced), and the theorem that a run of the operation, under any
    schedule of failing calls, either is aborted without a trace or is that
    effect ([runs]). *)

From S2P Require Import Prelude GoLib Agent Common Effects Sql SqliteRows SqliteQuery SqliteLifecycle.
From stdpp Require Import gmap strings list fin_maps sorting.
From Stdlib Require Import ZArith Lia.

Open Scope Z_scope.

(** An answer, the tables after it, and the events announced. *)
Notation effect A := (result gerror (A * DB * list Event)).

Definition event_ids (d : DB) : list string := er_id <$> agent_events d.

(** ** Effects *)

Definition found (id : string) (nowMs : Z) (d : DB) : result gerror Agent :=
  match agents d !! id with
  | Some r => if live nowMs r then scanSQLiteAgent r else Err (ENotFound id)
  | None => Err (ENotFound id)
  end.

(** Who may act on a leased agent. *)
Definition lease_error (verb : string) (t : Agent) (agentID leaseToken : string) : option gerror :=
  if decide (a_Status t <> StatusInProgress) then Some (EInvalidStatus (a_Status t))
  else if decide (a_Owner t <> agentID) then Some (EOwnedBy verb (a_Owner t) agentID)
  else if decide (a_LeaseToken t <> leaseToken) then Some ETokenMismatch
  else None.

Definition identity_error (agentID leaseToken : string) : option gerror :=
  if decide (agentID = "")%string then Some EAgentIDRequired
  else if decide (leaseToken = "")%string then Some ELeaseTokenRequired
  else None.

(** Write an agent that is there and log one event. *)
Definition store_and_log {A} (a : A) (t : Agent) (event : Event) (d : DB) : effect A :=
  d' ← insert_event_stmt event (update_stmt (row_of_agent t) d);
  mret (a, d', [event]).

Definition out_effect (t : Agent) (eid : string) (timestamp : Z) (d : DB) : effect Agent :=
  let t' := sync_namespace t in
  let event := agent_event eid t EventCreated timestamp (omget (a_Metadata t) "agent_id")
                 {["agent" := agent_json t']} in
  d' ← insert_event_stmt event (upsert_stmt (row_of_agent t') d);
  mret (t', d', [event]).

Definition update_effect (nowMs now1 now2 : Z) (eid id : string) (updates : gmap string any) (d : DB)
    : effect Agent :=
  t ← found id nowMs d;
  let t := ApplyUpdates t updates in
  let t := set_UpdatedAt now1 t in
  let t := sync_namespace (set_Version (int64 (a_Version t + 1)) t) in
  store_and_log t t
    (agent_event eid t EventUpdated now2 (GetStringFromMap updates "agent_id") updates) d.

Definition complete_effect (nowMs now_ : Z) (eid id agentID leaseToken : string)
    (result : gmap string any) (d : DB) : effect Agent :=
  match identity_error agentID leaseToken with
  | Some e => Err e
  | None =>
      t ← found id nowMs d;
      if decide (a_Status t = StatusCompleted) then
        if CompletionTokenMatches t leaseToken then mret (t, d, []) else Err EStaleToken
      else match lease_error "complete" t agentID leaseToken with
      | Some e => Err e
      | None =>
          let t := sync_namespace (completed_agent t agentID leaseToken result now_) in
          store_and_log t t (agent_event eid t EventCompleted now_ agentID result) d
      end
  end.

Definition release_effect (nowMs now1 now2 : Z) (eid id agentID leaseToken reason : string) (d : DB)
    : effect Agent :=
  match identity_error agentID leaseToken with
  | Some e => Err e
  | None =>
      t ← found id nowMs d;
      match lease_error "release" t agentID leaseToken with
      | Some e => Err e
      | None =>
          let t' := sync_namespace (released_agent t now1) in
          store_and_log t' t'
            (agent_event eid t' EventReleased now2 agentID (release_data reason (a_Owner t))) d
      end
  end.

Definition renew_effect (nowMs now_ : Z) (id agentID leaseToken : string) (leaseDuration : Z) (d : DB)
    : effect Agent :=
  match identity_error agentID leaseToken with
  | Some e => Err e
  | None =>
      t ← found id nowMs d;
      match lease_error "renew" t agentID leaseToken with
      | Some e => Err e
      | None =>
          let leaseDuration := if decide (leaseDuration <= 0) then leaseDurationForAgent t
                               else leaseDuration in
          let t := sync_namespace (renewed_agent t leaseDuration now_) in
          mret (t, update_stmt (row_of_agent t) d, [])
      end
  end.

Section Take.
Context `{Srt : SqlOrder}.

(** The rows a take looks at, oldest first. *)
Definition candidates (query : option Query) (nowMs : Z) (d : DB) : list Row :=
  let '(cs, nf) := buildSQLiteWhereClauses query true nowMs in
  sql_window (if nf then None else Some 1) None
    (order_asc r_created_at_ms (filter (fun r => forallb (sat r) cs) (map_to_list (agents d)).*2)).

(** The first candidate that decodes and passes the Go filter. *)
Definition chosen (query : option Query) (nowMs : Z) (d : DB) : option Agent :=
  find_map (keep (buildSQLiteWhereClauses query true nowMs).2 query) (candidates query nowMs d).

Definition take_effect (query : option Query) (nowMs now1 now2 : Z) (token eid : string) (d : DB)
    : effect (option Agent) :=
  if take_refused query then mret (None, d, [])
  else match chosen query nowMs d with
  | None => mret (None, d, [])
  | Some t =>
      let agentID := query_agent_id query in
      let t := claimed_agent t agentID token now1 in
      let '(d', affected) := claim_stmt t nowMs d in
      if decide (0 < affected) then
        let event := agent_event eid t EventClaimed now2 agentID {["agent_id" := VStr agentID]} in
        d' ← insert_event_stmt event d';
        mret (Some t, d', [event])
      else mret (None, d, [])
  end.

End Take.

(** ** Runs *)

Section Runs.
Context `{E : Env} `{Srt : SqlOrder}.
Implicit Types w : World DB.

(** A run of [m] from [w]: aborted without a trace, or exactly the effect
    [p]; its events carry identifiers drawn during the run. *)
Definition runs {A} (m : M DB A) (w : World DB) (p : effect A) : Prop :=
  wp m (fun r w' =>
    (w_uuid w <= w_uuid w')%nat /\ (w_clock w <= w_clock w')%nat
    /\ (aborted w r w'
        \/ match p with
           | Ok (a, d', evs) =>
               r = Ok a /\ w_db w' = d' /\ w_notified w' = w_notified w ++ evs
               /\ Forall (fun e => exists j, (w_uuid w <= j < w_uuid w')%nat /\ e_ID e = uuid_at j) evs
           | Err e => r = Err e /\ w_db w' = w_db w /\ w_notified w' = w_notified w
           end)) w.

(** *** Rules for the statements *)

Ltac run_exec Hd Hf :=
  unfold wp, mbind, M_bind, tx_exec, call;
  destruct (fault_at _) eqn:?; [by apply Hf|];
  cbn [w_tx tick]; rewrite Hd.

Lemma wp_select id nowMs w d (Q : result gerror Agent -> World DB -> Prop) :
  w_tx w = Some d ->
  (forall msg, fault_at (w_call w) = Some msg -> Q (Err (EDB msg)) (tick w)) ->
  (fault_at (w_call w) = None -> Q (found id nowMs d) (tick w)) ->
  wp (not_found id (tx_read (select_by_id id nowMs))) Q w.
Proof.
  intros Hd Hf Hq. unfold not_found. do 2 wp_step. wp_step; [by simpl; apply wp_fail, Hf|].
  specialize (Hq H). unfold wp at 1. simpl. rewrite Hd.
  unfold found in Hq. unfold select_by_id.
  destruct (agents d !! id) as [r|]; [|by apply wp_fail].
  destruct (live nowMs r); [|by apply wp_fail].
  unfold scanSQLiteAgent in *. destruct (r_payload r) as [| |[]]; simpl in *; done.
Qed.

Lemma wp_update t w d (Q : result gerror Agent -> World DB -> Prop) :
  w_tx w = Some d ->
  (forall msg, fault_at (w_call w) = Some msg -> Q (Err (EDB msg)) (tick w)) ->
  (fault_at (w_call w) = None ->
   Q (Ok (sync_namespace t))
     (set_tx (Some (update_stmt (row_of_agent (sync_namespace t)) d)) (tick w))) ->
  wp (updateSQLiteAgent t) Q w.
Proof.
  intros Hd Hf Hq. unfold updateSQLiteAgent. run_exec Hd Hf. by apply Hq.
Qed.

Lemma wp_upsert t w d (Q : result gerror Agent -> World DB -> Prop) :
  w_tx w = Some d ->
  (forall msg, fault_at (w_call w) = Some msg -> Q (Err (EDB msg)) (tick w)) ->
  (fault_at (w_call w) = None ->
   Q (Ok (sync_namespace t))
     (set_tx (Some (upsert_stmt (row_of_agent (sync_namespace t)) d)) (tick w))) ->
  wp (upsertSQLiteAgent t) Q w.
Proof.
  intros Hd Hf Hq. unfold upsertSQLiteAgent. run_exec Hd Hf. by apply Hq.
Qed.

Lemma wp_claim t nowMs w d (Q : result gerror bool -> World DB -> Prop) :
  w_tx w = Some d ->
  (forall msg, fault_at (w_call w) = Some msg -> Q (Err (EDB msg)) (tick w)) ->
  (fault_at (w_call w) = None ->
   Q (Ok (bool_decide (0 < (claim_stmt t nowMs d).2)))
     (set_tx (Some (claim_stmt t nowMs d).1) (tick w))) ->
  wp (claimSQLiteAgent t nowMs) Q w.
Proof.
  intros Hd Hf Hq. unfold claimSQLiteAgent. run_exec Hd Hf. specialize (Hq eq_refl).
  by destruct (claim_stmt t nowMs d) as [d' n].
Qed.

Lemma wp_insert_event e w d (Q : result gerror unit -> World DB -> Prop) :
  w_tx w = Some d ->
  (forall msg, fault_at (w_call w) = Some msg -> Q (Err (EDB msg)) (tick w)) ->
  (fault_at (w_call w) = None ->
   match insert_event_stmt e d with
   | Ok d' => Q (Ok tt) (set_tx (Some d') (tick w))
   | Err x => Q (Err x) (tick w)
   end) ->
  wp (insertSQLiteEvent e) Q w.
Proof.
  intros Hd Hf Hq. unfold insertSQLiteEvent. run_exec Hd Hf. specialize (Hq eq_refl).
  by destruct (insert_event_stmt e d).
Qed.

Lemma wp_Commit w d (Q : result gerror unit -> World DB -> Prop) :
  w_tx w = Some d ->
  (forall msg, fault_at (w_call w) = Some msg -> Q (Err (EDB msg)) (tick w)) ->
  (fault_at (w_call w) = None -> Q (Ok tt) (set_db d (set_tx None (tick w)))) ->
  wp Commit Q w.
Proof.
  intros Hd Hf Hq. unfold Commit. run_exec Hd Hf. by apply Hq.
Qed.

End Runs.

(** The abort case of a [runs] goal. *)
Ltac run_aborts := cbn [w_uuid w_clock tick set_tx set_db]; split_and!; [lia|lia|left; solve_aborted].

(** Execute the next statement of a [runs] goal. *)
Ltac run_step :=
  lazymatch goal with
  | |- wp (_ ≫= _) _ _ => apply wp_bind; run_step
  | |- wp (not_found _ (tx_read (select_by_id _ _))) _ _ =>
      eapply wp_select; [reflexivity|intros; run_aborts|intros]
  | |- wp (updateSQLiteAgent _) _ _ => eapply wp_update; [reflexivity|intros; run_aborts|intros]
  | |- wp (upsertSQLiteAgent _) _ _ => eapply wp_upsert; [reflexivity|intros; run_aborts|intros]
  | |- wp (claimSQLiteAgent _ _) _ _ => eapply wp_claim; [reflexivity|intros; run_aborts|intros]
  | |- wp (insertSQLiteEvent _) _ _ => eapply wp_insert_event; [reflexivity|intros; run_aborts|intros]
  | |- wp Commit _ _ => eapply wp_Commit; [reflexivity|intros; run_aborts|intros]
  | |- wp (with_tx _) _ _ => apply wp_with_tx; intros; [run_aborts|]
  | |- wp rows_Err _ _ => apply wp_call; intros; [run_aborts|unfold wp at 1; cbn]
  | _ => wp_step
  end.

(** ** Every operation runs as its effect *)

Section RunTheorems.
Context `{E : Env} `{Srt : SqlOrder}.
Implicit Types w : World DB.

(** The identifiers and clock readings [fill_defaults] draws. *)
Definition ids_drawn (t : Agent) : nat := if decide (a_ID t = "")%string then 1%nat else 0%nat.
Definition clocks_drawn (t : Agent) : nat := if Time.IsZero (a_CreatedAt t) then 2%nat else 1%nat.

Definition filled (u c : nat) (t : Agent) : Agent :=
  out_defaults t
    (if decide (a_ID t = "")%string then uuid_at u else a_ID t)
    (if Time.IsZero (a_CreatedAt t) then clock_at c else a_CreatedAt t)
    (clock_at (if Time.IsZero (a_CreatedAt t) then S c else c)).

Lemma wp_fill t w (Q : result gerror Agent -> World DB -> Prop) :
  Q (Ok (filled (w_uuid w) (w_clock w) t))
    (MkWorld (w_db w) (w_tx w) (clocks_drawn t + w_clock w) (ids_drawn t + w_uuid w)
       (w_call w) (w_notified w)) ->
  wp (fill_defaults t) Q w.
Proof.
  unfold filled, clocks_drawn, ids_drawn, fill_defaults.
  destruct (decide _), (Time.IsZero _); done.
Qed.

Lemma runs_err {A} (m : M DB A) w e : m w = (Err e, w) -> runs m w (Err e).
Proof. unfold runs, wp. intros ->. repeat split; [lia..|]. by right. Qed.

(** The end of a run that commits one event. *)
Ltac run_done :=
  cbn; split_and!; [lia|lia|right; split_and!;
    [done|done|done|repeat constructor; eexists; split; [|reflexivity]; lia]].

Ltac run_fails := cbn; split_and!; [lia|lia|right; by split_and!].

Lemma Out_runs t w :
  let t' := filled (w_uuid w) (w_clock w) t in
  runs (Out t) w
    (out_effect t' (uuid_at (ids_drawn t + w_uuid w)) (clock_at (clocks_drawn t + w_clock w)) (w_db w)).
Proof.
  unfold runs, Out, out_effect. apply wp_bind, wp_fill. run_step. run_step. run_step. 
  run_step. cbn [w_uuid w_clock w_db w_tx w_call w_notified]. run_step.
  destruct (insert_event_stmt _ _) eqn:Hi; [|run_fails]. repeat run_step. run_done.
Qed.

Lemma check_lease_spec verb t who tok w (Q : result gerror unit -> World DB -> Prop) :
  (match lease_error verb t who tok with None => Q (Ok tt) w | Some e => Q (Err e) w end) ->
  wp (check_lease verb t who tok) Q w.
Proof. unfold lease_error, check_lease. by repeat case_decide. Qed.

Lemma Get_runs id w :
  runs (Get id) w
    (t ← found id (Time.UnixMilli (clock_at (w_clock w))) (w_db w); mret (t, w_db w, [])).
Proof.
  unfold runs, Get, not_found. run_step. do 2 wp_step. wp_step; [simpl; apply wp_fail; run_aborts|].
  unfold wp at 1. cbn. unfold select_by_id, found.
  destruct (agents (w_db w) !! id) as [r|]; [|apply wp_fail; run_fails].
  destruct (live _ r); [|apply wp_fail; run_fails].
  unfold scanSQLiteAgent. destruct (r_payload r) as [| |[]]; first [apply wp_ret|apply wp_fail]; cbn;
    (split_and!; [lia|lia|right; rewrite ?app_nil_r; by split_and!]).
Qed.

Lemma Update_runs id updates w :
  runs (UpdateAndGet id (Some updates)) w
    (update_effect (Time.UnixMilli (clock_at (w_clock w))) (clock_at (S (w_clock w)))
       (clock_at (S (S (w_clock w)))) (uuid_at (w_uuid w)) id updates (w_db w)).
Proof.
  unfold runs, UpdateAndGet, update_effect. run_step. run_step. run_step.
  destruct (found _ _ _) as [t|e]; [|run_fails]. cbn [mbind result_bind]. unfold store_and_log.
  do 5 run_step. destruct (insert_event_stmt _ _) eqn:Hi; [|run_fails]. repeat run_step. run_done.
Qed.

Lemma Complete_runs id who tok result w :
  runs (CompleteAndGet id who tok result) w
    (complete_effect (Time.UnixMilli (clock_at (w_clock w))) (clock_at (S (w_clock w)))
       (uuid_at (w_uuid w)) id who tok (default ∅ result) (w_db w)).
Proof.
  unfold runs, CompleteAndGet, complete_effect, require_identity, identity_error.
  destruct (decide (who = "")%string); [run_step; run_fails|].
  destruct (decide (tok = "")%string); [run_step; run_fails|].
  run_step. run_step. run_step.
  destruct (found _ _ _) as [t|e]; [|run_fails]. cbn [mbind result_bind].
  destruct (decide (a_Status t = StatusCompleted)).
  { destruct (CompletionTokenMatches t tok); [|run_step; run_fails].
    repeat run_step. cbn. rewrite app_nil_r. split_and!; [lia|lia|right; by split_and!]. }
  apply wp_bind, check_lease_spec. destruct (lease_error _ _ _ _) as [e|]; [run_fails|].
  unfold store_and_log. do 4 run_step.
  destruct (insert_event_stmt _ _) eqn:Hi; [|run_fails]. repeat run_step. run_done.
Qed.

Lemma Release_runs id who tok reason w :
  runs (ReleaseAndGet id who tok reason) w
    (release_effect (Time.UnixMilli (clock_at (w_clock w))) (clock_at (S (w_clock w)))
       (clock_at (S (S (w_clock w)))) (uuid_at (w_uuid w)) id who tok reason (w_db w)).
Proof.
  unfold runs, ReleaseAndGet, release_effect, require_identity, identity_error.
  destruct (decide (who = "")%string); [run_step; run_fails|].
  destruct (decide (tok = "")%string); [run_step; run_fails|].
  run_step. run_step. run_step.
  destruct (found _ _ _) as [t|e]; [|run_fails]. cbn [mbind result_bind].
  apply wp_bind, check_lease_spec. destruct (lease_error _ _ _ _) as [e|]; [run_fails|].
  unfold store_and_log. do 5 run_step.
  destruct (insert_event_stmt _ _) eqn:Hi; [|run_fails]. repeat run_step. run_done.
Qed.

Lemma Renew_runs id who tok dur w :
  runs (RenewLease id who tok dur) w
    (renew_effect (Time.UnixMilli (clock_at (w_clock w))) (clock_at (S (w_clock w)))
       id who tok dur (w_db w)).
Proof.
  unfold runs, RenewLease, renew_effect, require_identity, identity_error.
  destruct (decide (who = "")%string); [run_step; run_fails|].
  destruct (decide (tok = "")%string); [run_step; run_fails|].
  run_step. run_step. run_step.
  destruct (found _ _ _) as [t|e]; [|run_fails]. cbn [mbind result_bind].
  apply wp_bind, check_lease_spec. destruct (lease_error _ _ _ _) as [e|]; [run_fails|].
  do 3 run_step. run_step. cbn. rewrite app_nil_r. split_and!; [lia|lia|right; by split_and!].
Qed.

End RunTheorems.

(** ** Take *)

Section TakeRuns.
Context `{E : Env} `{Srt : SqlOrder}.
Implicit Types w : World DB.

(** A selected row as the claim's statement will find it. *)
Definition claimable (nowMs : Z) (d : DB) (r : Row) : Prop :=
  agents d !! r_id r = Some r /\ r_status r = StatusNew /\ live nowMs r = true.

(** The effect of the loop on the rows it is given. *)
Definition loop_effect (query : option Query) (who : string) (nf : bool) (nowMs now1 now2 : Z)
    (token eid : string) (rows : list Row) (d : DB) : effect (option Agent) :=
  match find_map (keep nf query) rows with
  | None => mret (None, d, [])
  | Some t =>
      let t := claimed_agent t who token now1 in
      let '(d', affected) := claim_stmt t nowMs d in
      if decide (0 < affected) then
        let event := agent_event eid t EventClaimed now2 who {["agent_id" := VStr who]} in
        d' ← insert_event_stmt event d';
        mret (Some t, d', [event])
      else mret (None, d, [])
  end.

Lemma claimed_agent_ID t who tok now_ : a_ID (claimed_agent t who tok now_) = a_ID t.
Proof. by destruct t. Qed.

Lemma claim_stmt_claimable r t who tok now_ nowMs d :
  claimable nowMs d r -> scanSQLiteAgent r = Ok t ->
  let t' := claimed_agent t who tok now_ in
  claim_stmt t' nowMs d =
    (MkDB (<[r_id r := claim_row t' r]> (agents d)) (agent_events d), 1).
Proof.
  intros (Hr & Hs & Hl) Ht. apply scan_columns in Ht as (Hid & _).
  unfold claim_stmt. rewrite claimed_agent_ID, Hid, Hr, Hs, Hl. done.
Qed.

Lemma take_loop_runs query who nf nowMs rows w :
  w_tx w = Some (w_db w) ->
  Forall (claimable nowMs (w_db w)) rows \/ (length rows <= 1)%nat ->
  runs (take_loop query who nf nowMs rows) w
    (loop_effect query who nf nowMs (clock_at (w_clock w)) (clock_at (S (w_clock w)))
       (uuid_at (w_uuid w)) (uuid_at (S (w_uuid w))) rows (w_db w)).
Proof.
  intros Htx Hok. unfold runs.
  remember (loop_effect _ _ _ _ _ _ _ _ _ _) as p eqn:Hp. revert p Hp Hok.
  induction rows as [|r rows IH]; intros p Hp Hok; simpl.
  { run_step. subst p. cbn. rewrite app_nil_r. split_and!; [lia|lia|right; by split_and!]. }
  assert (Forall (claimable nowMs (w_db w)) rows \/ (length rows <= 1)%nat) as Hrest.
  { destruct Hok as [Hok%Forall_cons|Hok]; [left; apply Hok|right; simpl in Hok; lia]. }
  unfold loop_effect in Hp, IH. simpl in Hp. unfold keep at 1 in Hp.
  destruct (scanSQLiteAgent r) as [t|] eqn:Ht; [|by apply IH].
  destruct (nf && _); [by apply IH|].
  do 2 run_step. apply wp_bind. eapply wp_claim; [exact Htx|intros; run_aborts|intros _].
  destruct (claim_stmt _ nowMs (w_db w)) as [d' n] eqn:Hc. cbn [fst snd].
  destruct (bool_decide (0 < n)) eqn:Hn.
  - apply bool_decide_eq_true in Hn. rewrite decide_True in Hp by done.
    do 3 run_step. destruct (insert_event_stmt _ _) eqn:Hi; subst p.
    + repeat run_step. cbn. split_and!; [lia|lia|right; split_and!; try done].
      repeat constructor. exists (S (w_uuid w)). split; [lia|done].
    + cbn. split_and!; [lia|lia|right; by split_and!].
  - apply bool_decide_eq_false in Hn. rewrite decide_False in Hp by done.
    destruct Hok as [[Hr _]%Forall_cons|Hok].
    { rewrite (claim_stmt_claimable r t who _ _ nowMs _ Hr Ht) in Hc. injection Hc as _ <-. lia. }
    destruct rows; [|simpl in Hok; lia]. cbn [take_loop]. repeat run_step. subst p. cbn.
    rewrite app_nil_r. split_and!; [lia|lia|right; by split_and!].
Qed.

Lemma sql_window_1 {A} (l : list A) x : x ∈ sql_window (Some 1) None l -> x ∈ l.
Proof. unfold sql_window. intros H. eapply elem_of_take in H as (i & H & _). by eapply list_elem_of_lookup_2. Qed.

(** The rows a take selects can be claimed; without a query there is at most
    one. *)
Lemma candidates_claimable query nowMs d :
  keyed d ->
  Forall (claimable nowMs d) (candidates query nowMs d) \/ (length (candidates query nowMs d) <= 1)%nat.
Proof.
  intros Hk. unfold candidates. destruct query as [q|]; simpl.
  - left. apply Forall_forall. intros r Hr.
    assert (r ∈ order_asc r_created_at_ms
              (filter (fun r => forallb (sat r) (buildSQLiteWhereClauses (Some q) true nowMs).1)
                 (map_to_list (agents d)).*2)) as Hr'.
    { simpl. destruct (_ || _); [exact Hr|by apply sql_window_1]. }
    clear Hr. unfold order_asc in Hr'. rewrite elem_of_sql_sort, list_elem_of_filter in Hr'.
    destruct Hr' as [Hs ([id r'] & -> & Hr%elem_of_map_to_list)%list_elem_of_fmap].
    simpl in Hs. rewrite !Is_true_true, !andb_true_iff, bool_decide_eq_true in Hs.
    destruct Hs as (Hl & Hs & _). simpl. split_and!; [|done|done].
    by rewrite (Hk _ _ Hr).
  - right. unfold sql_window. rewrite length_take. lia.
Qed.

Lemma Take_runs query w :
  keyed (w_db w) ->
  runs (Take query) w
    (take_effect query (Time.UnixMilli (clock_at (w_clock w))) (clock_at (S (w_clock w)))
       (clock_at (S (S (w_clock w)))) (uuid_at (w_uuid w)) (uuid_at (S (w_uuid w))) (w_db w)).
Proof.
  intros Hk. unfold runs, Take, take_effect.
  destruct (take_refused query).
  { run_step. cbn. rewrite app_nil_r. split_and!; [lia|lia|right; by split_and!]. }
  run_step. run_step. cbn [w_clock set_tx tick].
  pose proof (candidates_claimable query (Time.UnixMilli (clock_at (w_clock w))) (w_db w) Hk) as Hc.
  unfold chosen. revert Hc. unfold candidates.
  destruct (buildSQLiteWhereClauses query true _) as [cs nf] eqn:Hb. intros Hc.
  apply wp_bind, wp_call; [intros; run_aborts|intros F]. unfold wp at 1.
  cbn [w_tx set_tx tick]. unfold select_agents.
  replace (match (if nf then None else Some 1) with
           | Some _ | _ => Ok (sql_window (if nf then None else Some 1) None
               (order_asc r_created_at_ms
                  (filter (fun r => forallb (sat r) cs) (map_to_list (agents (w_db w))).*2)))
           end) with
    (@Ok gerror _ (sql_window (if nf then None else Some 1) None
       (order_asc r_created_at_ms
          (filter (fun r => forallb (sat r) cs) (map_to_list (agents (w_db w))).*2)))) by by destruct nf.
  eapply wp_mono; [apply take_loop_runs; [done|exact Hc]|].
  intros r w' (Hu & Hck & Hout). cbn in *. split_and!; [lia|lia|].
  destruct Hout as [((e & msg & n & H1 & H2 & H3 & H4) & H5 & H6)|Hout].
  - left. split_and!; [|done|done]. exists e, msg, n. split_and!; try done; cbn in *; lia.
  - right. exact Hout.
Qed.

End TakeRuns.

(** ** CompleteAndOut *)

Section CompleteAndOutRuns.
Context `{E : Env} `{Srt : SqlOrder}.
Implicit Types w : World DB.

(** The output an agent of the request becomes, with its event, given the
    next identifier and clock reading. *)
Definition output_of (parent : Agent) (who : string) (u c : nat) (out : Agent) : Agent * Event :=
  let t := sync_namespace (inherit parent (filled u c out)) in
  (t, agent_event (uuid_at (ids_drawn out + u)) t EventCreated (clock_at (clocks_drawn out + c)) who
        (<["agent" := agent_json t]> {["parent_id" := VStr (a_ID parent)]})).

(** All of them, in order: each draws one identifier for its event, and one
    for itself when it has none. *)
Fixpoint outputs_of (parent : Agent) (who : string) (u c : nat) (outs : list Agent) : list (Agent * Event) :=
  match outs with
  | [] => []
  | out :: outs =>
      output_of parent who u c out
      :: outputs_of parent who (S (ids_drawn out + u)) (S (clocks_drawn out + c)) outs
  end.

(** Write the outputs and their events. *)
Fixpoint write_outputs (os : list (Agent * Event)) (d : DB) : result gerror DB :=
  match os with
  | [] => mret d
  | (t, e) :: os =>
      match insert_event_stmt e (upsert_stmt (row_of_agent t) d) with
      | Ok d => write_outputs os d
      | Err x => Err (EWrap "failed to create output event" x)
      end
  end.

Definition complete_and_out_effect (nowMs now_ : Z) (u c : nat) (id who tok : string)
    (result : gmap string any) (outs : list Agent) (d : DB) : effect (Agent * list Agent) :=
  match identity_error who tok with
  | Some e => Err e
  | None =>
      t ← found id nowMs d;
      if decide (a_Status t = StatusCompleted) then
        if CompletionTokenMatches t tok then mret (t, [], d, []) else Err EStaleToken
      else match lease_error "complete" t who tok with
      | Some e => Err e
      | None =>
          let t := sync_namespace (completed_agent t who tok result now_) in
          let event := agent_event (uuid_at u) t EventCompleted now_ who result in
          d1 ← insert_event_stmt event (update_stmt (row_of_agent t) d);
          let os := outputs_of t who (S u) c outs in
          d2 ← write_outputs os d1;
          mret (t, os.*1, d2, event :: os.*2)
      end
  end.

(** How far the outputs move the two counters. *)
Definition uuids_after (u : nat) (outs : list Agent) : nat :=
  foldl (fun u out => S (ids_drawn out + u)) u outs.
Definition clocks_after (c : nat) (outs : list Agent) : nat :=
  foldl (fun c out => S (clocks_drawn out + c)) c outs.

Lemma uuids_after_ge u outs : (u <= uuids_after u outs)%nat.
Proof.
  unfold uuids_after. revert u. induction outs as [|o outs IH]; intros u; simpl; [lia|].
  specialize (IH (S (ids_drawn o + u))). lia.
Qed.

Lemma clocks_after_ge c outs : (c <= clocks_after c outs)%nat.
Proof.
  unfold clocks_after. revert c. induction outs as [|o outs IH]; intros c; simpl; [lia|].
  specialize (IH (S (clocks_drawn o + c))). lia.
Qed.

(** The outputs' events carry identifiers drawn for them. *)
Lemma outputs_event_ids parent who u c outs :
  Forall (fun e => exists j, (u <= j < uuids_after u outs)%nat /\ e_ID e = uuid_at j)
    (outputs_of parent who u c outs).*2.
Proof.
  revert u c. induction outs as [|o outs IH]; intros u c; simpl; constructor; simpl.
  - exists (ids_drawn o + u)%nat. split; [|done].
    unfold uuids_after. simpl. pose proof (uuids_after_ge (S (ids_drawn o + u)) outs) as H.
    unfold uuids_after in H. lia.
  - eapply Forall_impl; [apply IH|]. intros e (j & Hj & He). exists j. split; [|done].
    unfold uuids_after in *. simpl. lia.
Qed.

(** The loop over the outputs: it stops on a failing call, or writes them
    all. *)
Lemma for_each_outputs parent who outs w d :
  w_tx w = Some d ->
  wp (for_each (create_output parent who) outs) (fun r w' =>
    w_db w' = w_db w /\ w_notified w' = w_notified w
    /\ (w_uuid w <= w_uuid w')%nat /\ (w_clock w <= w_clock w')%nat /\ (w_call w <= w_call w')%nat
    /\ ((exists e msg n, r = Err e /\ root_cause e = EDB msg /\ fault_at n = Some msg
                         /\ (w_call w <= n < w_call w')%nat)
        \/ match write_outputs (outputs_of parent who (w_uuid w) (w_clock w) outs) d with
           | Ok d' => r = Ok (outputs_of parent who (w_uuid w) (w_clock w) outs)
                      /\ w_tx w' = Some d'
                      /\ w_uuid w' = uuids_after (w_uuid w) outs
           | Err e => r = Err e
           end)) w.
Proof.
  revert w d. induction outs as [|o outs IH]; intros w d Hd; simpl.
  { wp_step. split_and!; try done; try lia. by right. }
  apply wp_bind. unfold create_output. apply wp_bind, wp_fill. do 2 wp_step.
  assert (forall (x : gerror) (w' : World DB) msg, root_cause x = EDB msg ->
     fault_at (w_call w') = Some msg -> (w_call w <= w_call w')%nat -> exists e msg n,
     @Err gerror (list (Agent * Event)) x = Err e /\ root_cause e = EDB msg /\ fault_at n = Some msg
     /\ (w_call w <= n < S (w_call w'))%nat) as Habort.
  { intros x w' msg Hx Hf Hle. exists x, msg, (w_call w'). split_and!; try done; lia. }
  eapply wp_upsert; [exact Hd|intros msg Hf|intros _].
  { cbn. split_and!; try done; try lia. left. by eapply (Habort _ w). }
  do 4 wp_step. do 2 wp_step. eapply wp_insert_event; [reflexivity|intros msg Hf|intros _].
  { cbn in *. split_and!; try done; try lia. left. eapply (Habort _ (tick w)); [reflexivity|exact Hf|cbn; lia]. }
  cbn [w_uuid w_clock set_tx tick]. unfold output_of.
  destruct (insert_event_stmt _ _) as [d1|x] eqn:Hi.
  2:{ cbn. split_and!; try done; try lia. by right. }
  wp_step. wp_step. eapply wp_mono; [by eapply IH|]. cbn -[write_outputs]. cbn [write_outputs]. rewrite ?Hi.
  intros r w' (H1 & H2 & H3 & H4 & H5 & [(e & msg & n & -> & H6)|H6]); cbn -[write_outputs] in *.
  - split_and!; try done; try lia. left. exists e, msg, n.
    destruct H6 as (? & ? & ?). split_and!; try done; lia.
  - destruct (write_outputs _ d1); [destruct H6 as (-> & H6 & H7)|subst r]; cbn.
    + split_and!; try done; try lia. right. by split_and!.
    + split_and!; try done; try lia. by right.
Qed.

Lemma wp_notify_all (evs : list Event) w (Q : result gerror (list unit) -> World DB -> Prop) :
  (forall us, Q (Ok us) (MkWorld (w_db w) (w_tx w) (w_clock w) (w_uuid w) (w_call w) (w_notified w ++ evs))) ->
  wp (for_each notify evs) Q w.
Proof.
  revert w Q. induction evs as [|e evs IH]; intros w Q HQ; simpl.
  - wp_step. specialize (HQ []). rewrite app_nil_r in HQ. by destruct w.
  - do 2 wp_step. wp_step. apply IH. intros us. wp_step. cbn. rewrite <- app_assoc. apply HQ.
Qed.

Lemma CompleteAndOut_runs id who tok result outs w :
  runs (CompleteAndOut id who tok result outs) w
    (complete_and_out_effect (Time.UnixMilli (clock_at (w_clock w))) (clock_at (S (w_clock w)))
       (w_uuid w) (S (S (w_clock w))) id who tok (default ∅ result) outs (w_db w)).
Proof.
  unfold runs, CompleteAndOut, complete_and_out_effect, require_identity, identity_error.
  destruct (decide (who = "")%string); [run_step; cbn; split_and!; [lia|lia|right; by split_and!]|].
  destruct (decide (tok = "")%string); [run_step; cbn; split_and!; [lia|lia|right; by split_and!]|].
  run_step. run_step. run_step.
  destruct (found _ _ _) as [t|e]; [|cbn; split_and!; [lia|lia|right; by split_and!]].
  cbn [mbind result_bind].
  destruct (decide (a_Status t = StatusCompleted)).
  { destruct (CompletionTokenMatches t tok); [|run_step; cbn; split_and!; [lia|lia|right; by split_and!]].
    repeat run_step. cbn. rewrite app_nil_r. split_and!; [lia|lia|right; by split_and!]. }
  apply wp_bind, check_lease_spec.
  destruct (lease_error _ _ _ _) as [e|]; [cbn; split_and!; [lia|lia|right; by split_and!]|].
  do 4 run_step.
  destruct (insert_event_stmt _ _) as [d1|x] eqn:Hi; [|cbn; split_and!; [lia|lia|right; by split_and!]].
  cbn [mbind result_bind]. apply wp_bind. eapply wp_mono; [by eapply for_each_outputs|].
  cbn [w_uuid w_clock set_tx tick w_db w_notified w_call].
  intros r w' (G1 & G2 & G3 & G4 & G5 & [(e & msg & k & -> & Hr & Hf & Hk)|G6]).
  { cbn. split_and!; [lia|lia|]. left. split_and!; [|done|done]. exists e, msg, k. split_and!; try done; cbn in *; lia. }
  destruct (write_outputs _ d1) as [d2|x] eqn:Hw; [destruct G6 as (-> & Htx & Hu)|subst r].
  2:{ cbn. split_and!; [lia|lia|right; by split_and!]. }
  apply wp_bind. eapply wp_Commit; [exact Htx|intros msg Hf|intros _].
  { cbn. split_and!; [lia|lia|]. left. split_and!; [|done|done].
    exists (EDB msg), msg, (w_call w'). split_and!; try done; cbn in *; lia. }
  do 2 wp_step. apply wp_bind, wp_notify_all. intros us. wp_step. cbn.
  rewrite G2, <- app_assoc. split_and!; [lia|lia|right; split_and!; try done].
  constructor; [exists (w_uuid w); split; [lia|done]|].
  eapply Forall_impl; [apply outputs_event_ids|]. intros e (j & Hj & He). exists j.
  split; [|done]. lia.
Qed.

End CompleteAndOutRuns.
