(* ===== verification/SqliteEvents.v ===== *)
(** * SQLite: reading the event log

    [src/pkg/store/sqlite/sqlite_events.go]: the events of one agent, the
    recent events of all, and the filtered, paginated query. *)

From S2P Require Import Prelude GoLib Agent Common Effects Sql SqliteRows SqliteQuery SqliteCore.
From stdpp Require Import gmap strings list fin_maps sorting.
From Stdlib Require Import ZArith Lia.

Open Scope Z_scope.

(** ** Operations *)

(** Rows that do not decode are logged and skipped. *)
Definition scan_events (rows : list EventRow) : list Event :=
  omap (fun r => match scanSQLiteEvent r with Ok e => Some e | Err _ => None end) rows.

(** The clauses of [QueryEvents]: each non-empty criterion. *)
Definition event_clauses (q : EventQuery) (r : EventRow) : bool :=
  crit (eq_TupleID q) (er_tuple_id r) && crit (eq_AgentID q) (er_agent_id r)
  && crit (eq_Type q) (er_type r) && crit (eq_TraceID q) (er_trace_id r).

Definition empty_event_query : EventQuery := MkEventQuery "" "" "" "" 0 0 "".

Section Events.
Context `{E : Env} `{Srt : SqlOrder}.

Definition GetEvents (tupleID : string) : M DB (list Event) :=
  rows ← db_read (fun d => Ok (order_asc er_timestamp_ms
                                 (filter (fun r => bool_decide (er_tuple_id r = tupleID)) (agent_events d))));
  _ ← rows_Err;
  mret (scan_events rows).

Definition GetGlobalEvents (limit offset : Z) : M DB (list Event) :=
  let limit := if decide (limit <= 0) then 100 else limit in
  rows ← db_read (fun d => Ok (sql_window (Some limit) (Some offset)
                                 (order_desc er_timestamp_ms (agent_events d))));
  _ ← rows_Err;
  mret (scan_events rows).

(** Oldest first for one agent's events, newest first otherwise. *)
Definition event_order (q : EventQuery) (l : list EventRow) : list EventRow :=
  if decide (eq_TupleID q = "")%string then order_desc er_timestamp_ms l
  else order_asc er_timestamp_ms l.

Definition QueryEvents (query : option EventQuery) : M DB EventPage :=
  let q := default empty_event_query query in
  let limit := if decide (eq_Limit q <= 0) then 100 else eq_Limit q in
  let offset := if decide (eq_Offset q < 0) then 0 else eq_Offset q in
  rows ← db_read (fun d => Ok (sql_window (Some limit) (Some offset)
                                 (event_order q (filter (event_clauses q) (agent_events d)))));
  let events := scan_events rows in
  _ ← rows_Err;
  total ← db_read (fun d => Ok (Z.of_nat (length (filter (event_clauses q) (agent_events d)))));
  mret (MkEventPage events total "").

End Events.

(** ** What they return *)

(** The decoded form of a logged event: its instant rounded to the
    millisecond and its data as JSON. *)
Definition logged (e : Event) : Event :=
  {| e_ID := e_ID e; e_TupleID := e_TupleID e; e_Type := e_Type e; e_Kind := e_Kind e;
     e_Timestamp := Time.of_UnixMilli (Time.UnixMilli (e_Timestamp e));
     e_AgentID := e_AgentID e; e_Data := json_value <$> e_Data e;
     e_TraceID := e_TraceID e; e_Version := e_Version e |}.

Lemma scan_row_of_event e : scanSQLiteEvent (row_of_event e) = Ok (logged e).
Proof. done. Qed.

(** The log of a database all of whose events were written by the store. *)
Definition log_of (d : DB) (evs : list Event) : Prop := agent_events d = row_of_event <$> evs.

Lemma scan_events_logged evs : scan_events (row_of_event <$> evs) = logged <$> evs.
Proof. induction evs as [|e evs IH]; simpl; [done|]. by f_equal. Qed.

Definition event_matches (q : EventQuery) (e : Event) : Prop :=
  (eq_TupleID q = "" \/ e_TupleID e = eq_TupleID q)%string
  /\ (eq_AgentID q = "" \/ e_AgentID e = eq_AgentID q)%string
  /\ (eq_Type q = "" \/ e_Type e = eq_Type q)%string
  /\ (eq_TraceID q = "" \/ e_TraceID e = eq_TraceID q)%string.

#[export] Instance event_matches_dec q e : Decision (event_matches q e).
Proof. unfold event_matches. apply _. Defined.

Lemma event_clauses_spec q e : event_clauses q (row_of_event e) = true <-> event_matches q e.
Proof.
  unfold event_clauses, event_matches. rewrite !andb_true_iff, !crit_spec. simpl. tauto.
Qed.

Lemma filter_row_of_event (P : EventRow -> bool) (Q : Event -> Prop) `{!forall e, Decision (Q e)} (evs : list Event) :
  (forall e, P (row_of_event e) = true <-> Q e) ->
  filter P (row_of_event <$> evs) = row_of_event <$> filter Q evs.
Proof.
  intros HPQ. induction evs as [|e evs IH]; [done|].
  change (row_of_event <$> e :: evs) with (row_of_event e :: (row_of_event <$> evs)).
  rewrite !filter_cons, IH. specialize (HPQ e).
  destruct (P (row_of_event e)), (decide (Q e)); simpl; naive_solver.
Qed.

(** Sorting rows that come from events is sorting events. *)
Lemma sorted_preimage `{Srt : SqlOrder} (key : EventRow -> Z) evs :
  exists l, sql_sort key (row_of_event <$> evs) = row_of_event <$> l /\ l ≡ₚ evs
            /\ StronglySorted (fun x y => key (row_of_event x) <= key (row_of_event y)) l.
Proof.
  pose proof (sql_sort_perm key (row_of_event <$> evs)) as Hp.
  pose proof (sql_sort_sorted key (row_of_event <$> evs)) as Hs.
  apply Permutation_map_inv in Hp as (l & Hl & Hp).
  change (map row_of_event l) with (row_of_event <$> l) in Hl.
  exists l. split_and!; [done|by symmetry|]. rewrite Hl in Hs. clear -Hs.
  induction l as [|x l IH]; [constructor|].
  apply StronglySorted_inv in Hs as [Hs HF]. constructor; [by apply IH|].
  apply Forall_forall. intros y Hy. rewrite Forall_forall in HF. apply HF.
  apply (list_elem_of_fmap_2 row_of_event). exact Hy.
Qed.

Lemma fmap_window {A B} (f : A -> B) limit offset (l : list A) :
  sql_window limit offset (f <$> l) = f <$> sql_window limit offset l.
Proof.
  unfold sql_window. destruct limit, offset; by rewrite ?fmap_take, ?fmap_drop.
Qed.

(** Newest first, or oldest first for one agent's events. *)
Definition event_sorted (q : EventQuery) (l : list Event) : Prop :=
  StronglySorted (fun x y => if decide (eq_TupleID q = "")%string
                             then Time.UnixMilli (e_Timestamp y) <= Time.UnixMilli (e_Timestamp x)
                             else Time.UnixMilli (e_Timestamp x) <= Time.UnixMilli (e_Timestamp y)) l.

Lemma event_order_spec `{Srt : SqlOrder} q evs :
  exists l, event_order q (row_of_event <$> evs) = row_of_event <$> l /\ l ≡ₚ evs /\ event_sorted q l.
Proof.
  unfold event_order, event_sorted, order_asc, order_desc. case_decide.
  - destruct (sorted_preimage (fun x => - er_timestamp_ms x) evs) as (l & H1 & H2 & H3).
    exists l. split_and!; try done. clear -H3.
    induction H3 as [|x l H IH HF]; constructor; [done|].
    eapply Forall_impl; [exact HF|]. simpl. lia.
  - exact (sorted_preimage er_timestamp_ms evs).
Qed.
