(* ===== verification/SqliteReaper.v ===== *)
(** * SQLite: the lease reaper

    [src/pkg/store/sqlite/sqlite_reaper.go]: one pass over the agents whose
    lease has run out.  Errors are logged and swallowed, a failed statement
    skips its agent, and subscribers are notified before the commit. *)

From S2P Require Import Prelude GoLib Agent Common Effects Sql SqliteRows SqliteQuery SqliteLifecycle SqliteCore.
From stdpp Require Import gmap strings list fin_maps sorting.
From Stdlib Require Import ZArith Lia.

Open Scope Z_scope.

(** ** The pass *)

(** [status = 'IN_PROGRESS' AND lease_until_ms IS NOT NULL AND lease_until_ms < ?] *)
Definition lease_expired (nowMs : Z) (r : Row) : bool :=
  bool_decide (r_status r = StatusInProgress)
  && match r_lease_until_ms r with Some u => bool_decide (u < nowMs) | None => false end.

(** The columns the reaper's [UPDATE] sets. *)
Definition reap_row (nowMs : Z) (r : Row) : Row :=
  {| r_id := r_id r; r_kind := r_kind r;
     r_status := StatusNew;
     r_payload := r_payload r; r_tags := r_tags r;
     r_owner := "";
     r_parent_id := r_parent_id r; r_trace_id := r_trace_id r;
     r_ttl_ms := r_ttl_ms r; r_created_at_ms := r_created_at_ms r;
     r_updated_at_ms := nowMs;
     r_owner_time_ms := None;
     r_lease_token := "";
     r_lease_until_ms := None;
     r_version := r_version r + 1;
     r_metadata := r_metadata r |}.

Definition reap_stmt (nowMs : Z) (id : string) (d : DB) : DB :=
  MkDB (alter (reap_row nowMs) id (agents d)) (agent_events d).

(** The columns selected for the pass. *)
Record reapedAgent : Type := MkReaped {
  ra_id : string;
  ra_kind : string;
  ra_traceID : string;
  ra_oldOwner : string;
  ra_version : Z;
}.

Definition reaped_of_row (r : Row) : reapedAgent :=
  MkReaped (r_id r) (r_kind r) (r_trace_id r) (r_owner r) (r_version r).

Definition reap_event (eid : string) (now_ : Z) (r : reapedAgent) : Event :=
  {| e_ID := eid; e_TupleID := ra_id r; e_Type := EventReleased; e_Kind := ra_kind r;
     e_Timestamp := now_; e_AgentID := "reaper";
     e_Data := <["reap_reason" := VStr "lease_expired"]> {["previous_owner" := VStr (ra_oldOwner r)]};
     e_TraceID := ra_traceID r; e_Version := int64 (ra_version r + 1) |}.

Section Reaper.
Context `{E : Env} `{Srt : SqlOrder}.

(** The rows of the pass; without [ORDER BY] their order is the engine's. *)
Definition select_expired (nowMs : Z) (d : DB) : list reapedAgent :=
  reaped_of_row <$> sql_sort (fun _ => 0) (filter (fun r => lease_expired nowMs r) (map_to_list (agents d)).*2).

Definition reap_one (now_ nowMs : Z) (r : reapedAgent) : M DB unit :=
  updated ← try_ (tx_exec (fun d => Ok (reap_stmt nowMs (ra_id r) d, tt)));
  match updated with
  | Err _ => mret tt
  | Ok _ =>
      eid ← new_uuid;
      let event := reap_event eid now_ r in
      inserted ← try_ (insertSQLiteEvent event);
      match inserted with
      | Err _ => mret tt
      | Ok _ => notify event
      end
  end.

Definition reapExpiredLeases : M DB unit :=
  now_ ← now;
  let nowMs := Time.UnixMilli now_ in
  _ ← try_ (with_tx (
    reaped ← tx_read (fun d => Ok (select_expired nowMs d));
    _ ← rows_Err;
    match reaped with
    | [] => mret tt
    | _ => _ ← for_each (reap_one now_ nowMs) reaped; Commit
    end));
  mret tt.

End Reaper.

(** ** What a pass may do *)

Section Facts.
Context `{E : Env} `{Srt : SqlOrder}.
Implicit Types w : World DB.

Lemma elem_of_select_expired nowMs d ra :
  keyed d ->
  ra ∈ select_expired nowMs d <->
  exists r, agents d !! ra_id ra = Some r /\ lease_expired nowMs r = true /\ ra = reaped_of_row r.
Proof.
  intros Hk. unfold select_expired. rewrite list_elem_of_fmap. split.
  - intros (r & -> & Hr). rewrite elem_of_sql_sort, list_elem_of_filter in Hr.
    destruct Hr as [Hx ([id r'] & -> & Hr%elem_of_map_to_list)%list_elem_of_fmap]. simpl in *.
    exists r'. rewrite (Hk _ _ Hr). split_and!; try done. by apply Is_true_true.
  - intros (r & Hr & Hx & ->). exists r. split; [done|].
    rewrite elem_of_sql_sort, list_elem_of_filter. split; [by apply Is_true_true|].
    apply list_elem_of_fmap. exists (r_id r, r). split; [done|].
    by apply elem_of_map_to_list.
Qed.

Lemma select_expired_NoDup nowMs d : keyed d -> NoDup (ra_id <$> select_expired nowMs d).
Proof.
  intros Hk. unfold select_expired. rewrite <- list_fmap_compose.
  rewrite (sql_sort_perm (fun _ => 0)).
  change (ra_id ∘ reaped_of_row) with r_id.
  assert (H : Forall (fun kv => r_id kv.2 = kv.1) (map_to_list (agents d))).
  { apply Forall_forall. intros [id r] Hr%elem_of_map_to_list. by apply Hk. }
  pose proof (NoDup_fst_map_to_list (agents d)) as Hnd. revert H Hnd.
  induction (map_to_list (agents d)) as [|[id r] l IH]; intros HF Hnd; [constructor|].
  apply Forall_cons in HF as [Hid HF]. simpl in *. apply NoDup_cons in Hnd as [Hn Hnd].
  rewrite filter_cons. case_decide; [|by apply IH]. simpl. constructor; [|by apply IH].
  rewrite Hid. intros (r' & Hr' & Hin)%list_elem_of_fmap. apply list_elem_of_filter in Hin as [_ Hin].
  apply list_elem_of_fmap in Hin as ([id2 r2] & -> & Hin). apply Hn.
  rewrite Forall_forall in HF. specialize (HF _ Hin). simpl in *.
  apply list_elem_of_fmap. exists (id2, r2). simpl. split; [congruence|done].
Qed.

(** Reaping a list of agents, some of them skipped: exactly the rows of
    [ids] are reaped. *)
Definition reaped_db (nowMs : Z) (ids : list string) (m : gmap string Row) : gmap string Row :=
  foldl (fun m id => alter (reap_row nowMs) id m) m ids.

(** After a stretch of the pass over the agents [rs], inside a transaction
    that started it on [d]: the agents of a sublist [ids] are reaped, some of
    them logged and announced ([evs]); without failures, all of them. *)
Definition reap_post {A} (now_ nowMs : Z) (rs : list reapedAgent) (w : World DB) (d : DB)
    (r : result gerror A) (w' : World DB) : Prop :=
  exists a d' ids evs, r = Ok a /\ w_tx w' = Some d' /\ w_db w' = w_db w
    /\ (w_uuid w <= w_uuid w')%nat
    /\ ids `sublist_of` (ra_id <$> rs)
    /\ agents d' = reaped_db nowMs ids (agents d)
    /\ agent_events d' = agent_events d ++ (row_of_event <$> evs)
    /\ w_notified w' = w_notified w ++ evs
    /\ (e_TupleID <$> evs) `sublist_of` ids
    /\ Forall (fun e => exists j, (w_uuid w <= j < w_uuid w')%nat /\ e_ID e = uuid_at j) evs
    /\ (fault_free E -> FreshIds E ->
        (forall k, (w_uuid w <= k)%nat -> uuid_at k ∉ event_ids d) ->
        w_uuid w' = (length rs + w_uuid w)%nat /\ ids = ra_id <$> rs
        /\ evs = imap (fun i ra => reap_event (uuid_at (i + w_uuid w)) now_ ra) rs).

(** One agent: skipped, reaped without its event, or reaped with its event
    logged and announced. *)
Lemma reap_one_run now_ nowMs ra w d :
  w_tx w = Some d -> wp (reap_one now_ nowMs ra) (reap_post now_ nowMs [ra] w d) w.
Proof.
  intros Hd. unfold reap_one. do 2 wp_step. wp_step.
  { apply wp_ret. exists tt, d, [], []. cbn. rewrite !app_nil_r.
    split_and!; try done; [apply sublist_nil_l|]. intros HF. by rewrite HF in H. }
  unfold wp at 1. cbn [w_tx tick]. rewrite Hd. wp_step. wp_step.
  do 2 wp_step. eapply wp_insert_event; [reflexivity|intros msg Hf|intros _].
  { apply wp_ret. exists tt, (reap_stmt nowMs (ra_id ra) d), [ra_id ra], []. cbn. rewrite !app_nil_r.
    split_and!; try done; [lia|apply sublist_nil_l|]. intros HF. by rewrite HF in Hf. }
  cbn [w_uuid set_tx tick]. unfold insert_event_stmt. case_decide as Hin.
  - apply wp_ret. exists tt, (reap_stmt nowMs (ra_id ra) d), [ra_id ra], []. cbn in *. rewrite !app_nil_r.
    split_and!; try done; [lia|apply sublist_nil_l|]. intros _ _ Hn. by destruct (Hn (w_uuid w) (le_n _)).
  - apply wp_notify. eexists tt, _, [ra_id ra], [_]. cbn. split_and!; try done; [lia|].
    repeat constructor. exists (w_uuid w). split; [lia|done].
Qed.

Lemma reaped_db_app nowMs l1 l2 m :
  reaped_db nowMs (l1 ++ l2) m = reaped_db nowMs l2 (reaped_db nowMs l1 m).
Proof. unfold reaped_db. by rewrite foldl_app. Qed.

Lemma reap_post_seq {A B C} now_ nowMs rs1 rs2 w d (r1 : result gerror A) w1 d1 (r2 : result gerror B) w2
    (c : C) :
  w_tx w1 = Some d1 ->
  reap_post now_ nowMs rs1 w d r1 w1 -> reap_post now_ nowMs rs2 w1 d1 r2 w2 ->
  reap_post now_ nowMs (rs1 ++ rs2) w d (Ok c) w2.
Proof.
  intros Htx (a1 & d1' & i1 & e1 & _ & T1 & D1 & U1 & S1 & A1 & L1 & N1 & I1 & F1 & X1)
    (a2 & d2 & i2 & e2 & _ & T2 & D2 & U2 & S2 & A2 & L2 & N2 & I2 & F2 & X2).
  assert (d1' = d1) as -> by congruence.
  exists c, d2, (i1 ++ i2), (e1 ++ e2). rewrite !fmap_app. split_and!; try done.
  - congruence.
  - lia.
  - by apply sublist_app.
  - by rewrite reaped_db_app, A2, A1.
  - by rewrite L2, L1, app_assoc.
  - by rewrite N2, N1, app_assoc.
  - by apply sublist_app.
  - apply Forall_app. split; (eapply Forall_impl; [eassumption|]); intros e (j & Hj & He); exists j; split; try done; lia.
  - intros HF HI Hfr. destruct (X1 HF HI Hfr) as (U1' & -> & ->).
    destruct X2 as (U2' & -> & ->); [done|done| |].
    { intros k Hk. unfold event_ids. rewrite L1, fmap_app, not_elem_of_app. split; [apply Hfr; lia|].
      rewrite <- list_fmap_compose. intros (e & He & Hin)%list_elem_of_fmap.
      apply elem_of_lookup_imap in Hin as (i & ra & -> & Hi). simpl in He.
      apply (uuid_inj (E := E)) in He. apply lookup_lt_Some in Hi. lia. }
    rewrite length_app. split_and!; [lia|done|].
    rewrite imap_app. f_equal. rewrite U1'. apply imap_ext. intros i ra _. simpl. do 2 f_equal. lia.
Qed.

Lemma for_each_reap now_ nowMs rs w d :
  w_tx w = Some d -> wp (for_each (reap_one now_ nowMs) rs) (reap_post now_ nowMs rs w d) w.
Proof.
  revert w d. induction rs as [|ra rs IH]; intros w d Hd; simpl.
  { wp_step. exists [], d, [], []. cbn. rewrite !app_nil_r. split_and!; done. }
  wp_step. eapply wp_mono; [by apply reap_one_run|]. intros r w1 H1.
  pose proof H1 as (a1 & d1 & i1 & e1 & -> & T1 & _). wp_step.
  eapply wp_mono; [by apply (IH w1 d1)|]. intros r w2 H2.
  pose proof H2 as (a2 & d2 & i2 & e2 & -> & _). wp_step.
  by apply (reap_post_seq now_ nowMs [ra] rs w d (Ok a1) w1 d1 (Ok a2) w2).
Qed.

Lemma reaped_db_lookup nowMs ids m id :
  NoDup ids ->
  reaped_db nowMs ids m !! id = (if decide (id ∈ ids) then reap_row nowMs <$> m !! id else m !! id).
Proof.
  unfold reaped_db. revert m. induction ids as [|i ids IH]; intros m Hnd; [done|].
  apply NoDup_cons in Hnd as [Hi Hnd]. simpl. rewrite IH by done.
  destruct (decide (id = i)) as [->|Hne].
  - rewrite decide_False, decide_True by set_solver. by rewrite lookup_alter_eq.
  - rewrite lookup_alter_ne by done. destruct (decide (id ∈ ids)).
    + by rewrite decide_True by set_solver.
    + by rewrite decide_False by set_solver.
Qed.

(** The identifiers still to be drawn name no logged event. *)
Definition ids_fresh (w : World DB) : Prop :=
  forall k, (w_uuid w <= k)%nat -> uuid_at k ∉ event_ids (w_db w).

(** How a pass ends: it never fails, and it commits the reaping of some of
    the expired agents [rs], or nothing.  Without failing calls it reaps, logs
    and announces them all. *)
Definition reap_outcome (nowMs : Z) (rs : list reapedAgent) (w : World DB)
    (r : result gerror unit) (w' : World DB) : Prop :=
  r = Ok tt /\ (w_uuid w <= w_uuid w')%nat /\ exists ids evs evs',
    ids `sublist_of` (ra_id <$> rs)
    /\ agents (w_db w') = reaped_db nowMs ids (agents (w_db w))
    /\ agent_events (w_db w') = agent_events (w_db w) ++ (row_of_event <$> evs)
    /\ (e_TupleID <$> evs) `sublist_of` ids
    /\ Forall (fun e => exists j, (w_uuid w <= j < w_uuid w')%nat /\ e_ID e = uuid_at j) evs
    /\ w_notified w' = w_notified w ++ evs'
    /\ (fault_free E -> FreshIds E -> ids_fresh w ->
        ids = ra_id <$> rs /\ evs' = evs
        /\ evs = imap (fun i ra => reap_event (uuid_at (i + w_uuid w)) (clock_at (w_clock w)) ra) rs).

Lemma reap_outcome_none nowMs rs w w' evs' :
  w_db w' = w_db w -> (w_uuid w <= w_uuid w')%nat -> w_notified w' = w_notified w ++ evs' ->
  (fault_free E -> rs = [] /\ evs' = []) -> reap_outcome nowMs rs w (Ok tt) w'.
Proof.
  intros Hd Hu Hn Hrs. split_and!; [done|done|]. exists [], [], evs'. rewrite Hd, app_nil_r.
  split_and!; [apply sublist_nil_l|done..|]. intros HF HI _. by destruct (Hrs HF) as [-> ->].
Qed.

Lemma reap_run w :
  let nowMs := Time.UnixMilli (clock_at (w_clock w)) in
  wp reapExpiredLeases (reap_outcome nowMs (select_expired nowMs (w_db w)) w) w.
Proof.
  intros nowMs. unfold reapExpiredLeases.
  assert (Hnone : forall w' n msg evs', fault_at n = Some msg ->
    w_db w' = w_db w -> (w_uuid w <= w_uuid w')%nat -> w_notified w' = w_notified w ++ evs' ->
    reap_outcome nowMs (select_expired nowMs (w_db w)) w (Ok tt) w').
  { intros w' n msg evs' Hf Hd Hu Hn. eapply reap_outcome_none; try done.
    intros HF. by rewrite HF in Hf. }
  do 4 wp_step. apply wp_with_tx; [intros msg Hf|intros _].
  { apply wp_ret. eapply (Hnone _ _ _ []); [done|cbn; rewrite ?app_nil_r; done..]. }
  wp_step. apply wp_call; [intros msg Hf|intros _].
  { apply wp_ret. eapply (Hnone _ _ _ []); [done|cbn; rewrite ?app_nil_r; done..]. }
  unfold wp at 1. cbn [w_tx set_tx tick w_db w_clock]. fold nowMs.
  wp_step. apply wp_call; [intros msg Hf|intros _].
  { apply wp_ret. eapply (Hnone _ _ _ []); [done|cbn; rewrite ?app_nil_r; done..]. }
  unfold wp at 1. cbn -[for_each reap_outcome].
  destruct (select_expired nowMs (w_db w)) as [|ra rs'] eqn:Hrs.
  { apply wp_ret, wp_ret. by apply (reap_outcome_none _ _ _ _ []); cbn; rewrite ?app_nil_r. }
  apply wp_bind. eapply wp_mono; [by eapply for_each_reap|]. rewrite <- Hrs in *.
  intros r w1 (a & d' & ids & evs & -> & T & D & U & S1 & A & L & N & I & FA & X). cbn in D, U, N, FA, X.
  apply wp_call; [intros msg Hf|intros _].
  - apply wp_ret. by eapply (Hnone _ _ _ evs).
  - unfold wp at 1. cbn [w_tx tick]. rewrite T. apply wp_ret. split_and!; [done|done|].
    exists ids, evs, evs. cbn. split_and!; try done.
    intros HF HI Hfr. by destruct (X HF HI Hfr) as (_ & -> & ->).
Qed.

End Facts.
