(* ===== verification/SqliteRefine.v ===== *)
(** * SQLite implements the lifecycle contract

    A store under any sequence of requests, any schedule of failing calls and
    reaper passes in between takes exactly the steps of the machine of
    [Lease]: each answered request is a label, a failed one is no step at
    all.  Fencing and exactly-once completion follow for the store. *)

From S2P Require Import Prelude GoLib Agent Common Effects Sql Lease SharedLease SqliteRows SqliteQuery SqliteLifecycle SqliteCore SqliteReaper.
From stdpp Require Import gmap strings list fin_maps sorting.
From Stdlib Require Import ZArith Lia.

Open Scope Z_scope.

(** ** The abstraction *)

Definition done_token (r : Row) : string :=
  omget (unmarshal_metadata (r_metadata r)) CompletedByTokenMetadataKey.

Definition cell_of_row (r : Row) : cell :=
  MkCell (r_status r) (r_owner r) (r_lease_token r) (done_token r).

Definition abs (d : DB) : space := cell_of_row <$> agents d.

(** ** Requests *)

Inductive request : Type :=
| RqOut (t : Agent)
| RqTake (query : option Query)
| RqUpdate (id : string) (updates : gmap string any)
| RqComplete (id who tok : string) (res : option (gmap string any))
| RqCompleteAndOut (id who tok : string) (res : option (gmap string any)) (outs : list Agent)
| RqRelease (id who tok reason : string)
| RqRenew (id who tok : string) (dur : Z)
| RqReap.

Definition status_of (id : string) (d : DB) : string :=
  match agents d !! id with Some r => r_status r | None => ""%string end.

(** The agents a pass of the reaper took back. *)
Definition reaped_ids (d d' : DB) : list string :=
  filter (fun id => bool_decide (status_of id d = StatusInProgress)
                    && bool_decide (status_of id d' = StatusNew)) (map_to_list (agents d)).*1.

Section Requests.
Context `{E : Env} `{Srt : SqlOrder}.
Implicit Types w : World DB.

(** A completion answered for an agent that was completed before is a
    replay. *)
Definition completion_label (w : World DB) (id who tok : string) : label :=
  if decide (status_of id (w_db w) = StatusCompleted) then LReplay id tok else LComplete id who tok.

Definition on_ok {A} (f : A -> list label) (x : result gerror A * World DB) : World DB * list label :=
  match x with
  | (Ok a, w') => (w', f a)
  | (Err _, w') => (w', [])
  end.

(** Serve a request: the world after it, and what its answer tells. *)
Definition perform (rq : request) (w : World DB) : World DB * list label :=
  match rq with
  | RqOut t => on_ok (fun t' => [LCreate (a_ID t') (omget (a_Metadata t') "agent_id")]) (Out t w)
  | RqTake query =>
      on_ok (fun o => match o with
                      | Some t => [LClaim (a_ID t) (a_Owner t) (a_LeaseToken t)]
                      | None => []
                      end) (Take query w)
  | RqUpdate id updates =>
      on_ok (fun _ => [LUpdate id (GetStringFromMap updates "agent_id")])
        (UpdateAndGet id (Some updates) w)
  | RqComplete id who tok res =>
      on_ok (fun _ => [completion_label w id who tok]) (CompleteAndGet id who tok res w)
  | RqCompleteAndOut id who tok res outs =>
      on_ok (fun '(_, created) =>
               completion_label w id who tok :: ((fun o => LCreate (a_ID o) who) <$> created))
        (CompleteAndOut id who tok res outs w)
  | RqRelease id who tok reason =>
      on_ok (fun _ => [LRelease id who tok]) (ReleaseAndGet id who tok reason w)
  | RqRenew id who tok dur => on_ok (fun _ => [LRenew id who tok]) (RenewLease id who tok dur w)
  | RqReap =>
      let '(_, w') := reapExpiredLeases w in
      (w', LReap <$> reaped_ids (w_db w) (w_db w'))
  end.

(** The ids the outputs of a completion get. *)
Fixpoint output_ids (u : nat) (outs : list Agent) : list string :=
  match outs with
  | [] => []
  | out :: outs => (if decide (a_ID out = "")%string then uuid_at u else a_ID out)
                   :: output_ids (S (ids_drawn out + u)) outs
  end.

(** The discipline of the HTTP layer: agents are created NEW, unowned and
    under an unused id, and updates leave status, owner and token alone. *)
Definition well_formed (rq : request) (w : World DB) : Prop :=
  match rq with
  | RqOut t => fresh_agent t
      /\ agents (w_db w) !! (if decide (a_ID t = "")%string then uuid_at (w_uuid w) else a_ID t) = None
  | RqUpdate _ updates =>
      updates !! "status"%string = None /\ updates !! "owner"%string = None
      /\ updates !! "lease_token"%string = None
  | RqCompleteAndOut _ _ _ _ outs =>
      Forall (fun o => (a_Status o = "" \/ a_Status o = StatusNew)%string
                       /\ a_Owner o = ""%string /\ a_LeaseToken o = ""%string) outs
      /\ NoDup (output_ids (S (w_uuid w)) outs)
      /\ Forall (fun i => agents (w_db w) !! i = None) (output_ids (S (w_uuid w)) outs)
  | _ => True
  end.

(** A sequence of requests. *)
Fixpoint perform_all (rqs : list request) (w : World DB) : World DB * list label :=
  match rqs with
  | [] => (w, [])
  | rq :: rqs =>
      let '(w1, l1) := perform rq w in
      let '(w2, l2) := perform_all rqs w1 in
      (w2, l1 ++ l2)
  end.

Fixpoint well_formed_all (rqs : list request) (w : World DB) : Prop :=
  match rqs with
  | [] => True
  | rq :: rqs => well_formed rq w /\ well_formed_all rqs (perform rq w).1
  end.

End Requests.

(** ** Cells of agents and rows *)

Lemma cell_of_row_of_agent t : cell_of_row (row_of_agent t) = cell_of_agent t.
Proof.
  unfold cell_of_row, cell_of_agent, done_token. simpl. by rewrite unmarshal_marshal_metadata.
Qed.

Lemma scan_cell r t : scanSQLiteAgent r = Ok t -> cell_of_agent t = cell_of_row r.
Proof.
  unfold scanSQLiteAgent. destruct (unmarshal_map _); [|done]. by intros [= <-].
Qed.

Lemma found_spec id nowMs d t :
  keyed d -> found id nowMs d = Ok t ->
  exists r, agents d !! id = Some r /\ live nowMs r = true /\ scanSQLiteAgent r = Ok t
            /\ a_ID t = id /\ abs d !! id = Some (cell_of_agent t).
Proof.
  intros Hk. unfold found. destruct (agents d !! id) as [r|] eqn:Hr; [|done].
  destruct (live nowMs r) eqn:Hl; [|done]. intros Ht. exists r. split_and!; try done.
  - destruct (scan_columns r t Ht) as [-> _]. by apply Hk.
  - unfold abs. rewrite lookup_fmap, Hr. simpl. by rewrite (scan_cell r t Ht).
Qed.

Lemma found_status id nowMs d t :
  keyed d -> found id nowMs d = Ok t -> status_of id d = a_Status t.
Proof.
  intros Hk Hf. destruct (found_spec id nowMs d t Hk Hf) as (r & Hr & _ & Hs & _).
  unfold status_of. rewrite Hr. by destruct (scan_columns r t Hs) as (_ & -> & _).
Qed.

(** ** Statements on cells *)

Lemma abs_update t d r :
  agents d !! a_ID t = Some r ->
  abs (update_stmt (row_of_agent t) d) = <[a_ID t := cell_of_agent t]> (abs d).
Proof.
  intros Hr. unfold update_stmt. simpl. rewrite Hr. unfold abs. simpl.
  by rewrite fmap_insert, cell_of_row_of_agent.
Qed.

Lemma abs_upsert t d :
  abs (upsert_stmt (row_of_agent t) d) = <[a_ID t := cell_of_agent t]> (abs d).
Proof. unfold abs. simpl. by rewrite fmap_insert, cell_of_row_of_agent. Qed.

Lemma insert_event_abs e d d' :
  insert_event_stmt e d = Ok d' ->
  agents d' = agents d /\ agent_events d' = agent_events d ++ [row_of_event e].
Proof. unfold insert_event_stmt. case_decide; [done|]. by intros [= <-]. Qed.

(** Write and log: one cell changes, one event is appended. *)
Lemma store_and_log_spec {A} (a b : A) t e d d' evs r :
  store_and_log a t e d = Ok (b, d', evs) -> agents d !! a_ID t = Some r ->
  b = a /\ evs = [e] /\ abs d' = <[a_ID t := cell_of_agent t]> (abs d)
  /\ agent_events d' = agent_events d ++ [row_of_event e]
  /\ agents d' = <[a_ID t := row_of_agent t]> (agents d).
Proof.
  unfold store_and_log. intros H Hr.
  destruct (insert_event_stmt _ _) as [d1|] eqn:Hi; [|done]. injection H as <- <- <-.
  apply insert_event_abs in Hi as [H1 H2]. split_and!; try done.
  - unfold abs at 1. rewrite H1. by apply (abs_update t d r).
  - rewrite H2. unfold update_stmt. simpl. by rewrite Hr.
  - rewrite H1. unfold update_stmt. simpl. by rewrite Hr.
Qed.

Lemma lease_error_None verb t who tok :
  lease_error verb t who tok = None ->
  a_Status t = StatusInProgress /\ a_Owner t = who /\ a_LeaseToken t = tok.
Proof. unfold lease_error. by repeat case_decide. Qed.

Lemma identity_error_None who tok :
  identity_error who tok = None -> who <> ""%string /\ tok <> ""%string.
Proof. unfold identity_error. by repeat case_decide. Qed.

(** *** What each operation leaves in the cell *)

Lemma cell_completed t who tok res now_ :
  tok <> ""%string ->
  cell_of_agent (sync_namespace (completed_agent t who tok res now_)) = MkCell StatusCompleted "" "" tok.
Proof.
  intros Ht. rewrite cell_sync.
  set (t1 := set_Payload (Some (<["result" := VMap res]> (default ∅ (a_Payload t)))) t).
  pose proof (SetCompletionMetadata_token t1 who tok now_ Ht) as Hm.
  apply CompletionTokenMatches_spec in Hm as [_ Hm]. unfold completed_agent. fold t1. revert Hm.
  generalize (SetCompletionMetadata t1 who tok now_). intros []; simpl. by intros <-.
Qed.

Lemma cell_released t now_ :
  cell_of_agent (sync_namespace (released_agent t now_)) =
  MkCell StatusNew "" "" (c_done (cell_of_agent t)).
Proof. rewrite cell_sync. by destruct t. Qed.

Lemma cell_renewed t dur now_ : cell_of_agent (sync_namespace (renewed_agent t dur now_)) = cell_of_agent t.
Proof. rewrite cell_sync. by destruct t. Qed.

Lemma ID_completed t who tok res now_ :
  a_ID (sync_namespace (completed_agent t who tok res now_)) = a_ID t.
Proof. rewrite sync_namespace_id. by destruct t. Qed.

Lemma ID_released t now_ : a_ID (sync_namespace (released_agent t now_)) = a_ID t.
Proof. rewrite sync_namespace_id. by destruct t. Qed.

Lemma ID_renewed t dur now_ : a_ID (sync_namespace (renewed_agent t dur now_)) = a_ID t.
Proof. rewrite sync_namespace_id. by destruct t. Qed.

(** ** Simulation *)

Section Simulation.
Context `{E : Env} `{Srt : SqlOrder}.
Implicit Types w : World DB.

(** The tokens of the labels were drawn between the two worlds. *)
Definition drawn (w w' : World DB) (toks : list string) : Prop :=
  NoDup toks /\ Forall (fun tok => exists j, (w_uuid w <= j < w_uuid w')%nat /\ tok = uuid_at j) toks.

(** A request served from [w]: the world after it and its labels are steps
    of the contract. *)
Definition simulates (w : World DB) (x : World DB * list label) : Prop :=
  keyed (w_db x.1) /\ steps (abs (w_db w)) x.2 (abs (w_db x.1))
  /\ (w_uuid w <= w_uuid x.1)%nat /\ drawn w x.1 (tokens x.2).

Lemma simulates_skip w w' :
  keyed (w_db w) -> w_db w' = w_db w -> (w_uuid w <= w_uuid w')%nat -> simulates w (w', []).
Proof.
  intros Hk Hd Hu. unfold simulates. simpl. rewrite Hd. split_and!; try done; [constructor|].
  split; constructor.
Qed.

(** An operation whose effect is a list of steps. *)
Lemma on_ok_simulates {A} (m : M DB A) w (p : effect A) (f : A -> list label) :
  keyed (w_db w) -> runs m w p ->
  (forall a d' evs, p = Ok (a, d', evs) ->
     keyed d' /\ steps (abs (w_db w)) (f a) (abs d')
     /\ (tokens (f a) = [] \/ tokens (f a) = [uuid_at (w_uuid w)] /\ evs <> [])) ->
  simulates w (on_ok f (m w)).
Proof.
  intros Hk Hr Hp. unfold runs, wp in Hr. destruct (m w) as [r w'] eqn:Hm.
  destruct Hr as (Hu & _ & [((e & msg & n & -> & _) & Hd & _)|Hr]).
  { simpl. by apply simulates_skip. }
  destruct p as [[[a d'] evs]|e].
  - destruct Hr as (-> & <- & _ & HF). simpl. destruct (Hp a _ evs eq_refl) as (H1 & H2 & H3).
    unfold simulates. simpl. split_and!; try done. unfold drawn.
    destruct H3 as [->|[-> Hne]]; [split; constructor|].
    split; [apply NoDup_singleton|]. repeat constructor. exists (w_uuid w). split; [|done].
    destruct evs as [|e evs]; [done|]. apply Forall_cons in HF as [(j & Hj & _) _]. lia.
  - destruct Hr as (-> & Hd & _). simpl. by apply simulates_skip.
Qed.

Lemma keyed_insert m evs t :
  keyed (MkDB m evs) -> forall evs', keyed (MkDB (<[a_ID t := row_of_agent t]> m) evs').
Proof. intros Hk evs'. apply (keyed_upsert (row_of_agent t) (MkDB m evs')). exact Hk. Qed.

(** A stored agent rewritten with one event. *)
Lemma store_and_log_simulates {A} (a b : A) t e d d' evs id c l :
  keyed d -> store_and_log a t e d = Ok (b, d', evs) -> a_ID t = id -> abs d !! id = Some c ->
  step (abs d) l (<[id := cell_of_agent t]> (abs d)) ->
  keyed d' /\ steps (abs d) [l] (abs d').
Proof.
  intros Hk Hs <- Hc Hstep. unfold abs in Hc. rewrite lookup_fmap in Hc.
  destruct (agents d !! a_ID t) as [r|] eqn:Hr; [|done].
  destruct (store_and_log_spec a b t e d d' evs r Hs Hr) as (_ & _ & Ha & _ & Hg).
  split; [|by rewrite Ha; apply steps_one].
  destruct d as [m es], d' as [m' es']. simpl in *. subst m'. by eapply keyed_insert.
Qed.

Lemma complete_simulates id who tok res w :
  keyed (w_db w) -> simulates w (perform (RqComplete id who tok res) w).
Proof.
  intros Hk. eapply on_ok_simulates; [done|apply Complete_runs|].
  intros a d' evs Hp. unfold complete_effect in Hp.
  destruct (identity_error who tok) eqn:Hi; [done|]. apply identity_error_None in Hi as [Hw Ht].
  destruct (found _ _ _) as [t|] eqn:Hf; [|done]. cbn [mbind result_bind] in Hp.
  pose proof (found_status _ _ _ _ Hk Hf) as Hst. unfold completion_label. rewrite Hst.
  destruct (found_spec _ _ _ _ Hk Hf) as (r & Hr & _ & _ & Hid & Hc).
  destruct (decide (a_Status t = StatusCompleted)) as [Hs|Hs].
  - destruct (CompletionTokenMatches t tok) eqn:Hm; [|done]. injection Hp as <- <- <-.
    apply CompletionTokenMatches_spec in Hm as [_ Hm].
    split_and!; [done|apply steps_one; by eapply step_replay|by left].
  - destruct (lease_error _ _ _ _) eqn:Hl; [done|]. apply lease_error_None in Hl as (H1 & H2 & H3).
    apply Logic.and_assoc. split; [|by left].
    eapply store_and_log_simulates; [done|exact Hp|by rewrite ID_completed|exact Hc|].
    rewrite cell_completed by done. by eapply step_complete.
Qed.

Lemma release_simulates id who tok reason w :
  keyed (w_db w) -> simulates w (perform (RqRelease id who tok reason) w).
Proof.
  intros Hk. eapply on_ok_simulates; [done|apply Release_runs|].
  intros a d' evs Hp. unfold release_effect in Hp.
  destruct (identity_error who tok) eqn:Hi; [done|].
  destruct (found _ _ _) as [t|] eqn:Hf; [|done]. cbn [mbind result_bind] in Hp.
  destruct (found_spec _ _ _ _ Hk Hf) as (r & Hr & _ & _ & Hid & Hc).
  destruct (lease_error _ _ _ _) eqn:Hl; [done|]. apply lease_error_None in Hl as (H1 & H2 & H3).
  apply Logic.and_assoc. split; [|by left].
  eapply store_and_log_simulates; [done|exact Hp|by rewrite ID_released|exact Hc|].
  rewrite cell_released. by eapply step_release.
Qed.

Lemma renew_simulates id who tok dur w :
  keyed (w_db w) -> simulates w (perform (RqRenew id who tok dur) w).
Proof.
  intros Hk. eapply on_ok_simulates; [done|apply Renew_runs|].
  intros a d' evs Hp. unfold renew_effect in Hp.
  destruct (identity_error who tok) eqn:Hi; [done|].
  destruct (found _ _ _) as [t|] eqn:Hf; [|done]. cbn [mbind result_bind] in Hp.
  destruct (found_spec _ _ _ _ Hk Hf) as (r & Hr & _ & _ & Hid & Hc).
  destruct (lease_error _ _ _ _) eqn:Hl; [done|]. apply lease_error_None in Hl as (H1 & H2 & H3).
  injection Hp as <- <- <-. split_and!; [by apply keyed_update| |by left].
  erewrite abs_update by (rewrite ID_renewed, Hid; exact Hr).
  rewrite cell_renewed, ID_renewed, Hid, insert_id by done.
  apply steps_one. by eapply step_renew.
Qed.

Lemma update_simulates id updates w :
  keyed (w_db w) -> well_formed (RqUpdate id updates) w ->
  simulates w (perform (RqUpdate id updates) w).
Proof.
  intros Hk (U1 & U2 & U3). eapply on_ok_simulates; [done|apply Update_runs|].
  intros a d' evs Hp. unfold update_effect in Hp.
  destruct (found _ _ _) as [t|] eqn:Hf; [|done]. cbn [mbind result_bind] in Hp.
  destruct (found_spec _ _ _ _ Hk Hf) as (r & Hr & _ & _ & Hid & Hc).
  destruct (ApplyUpdates_lease t updates U1 U2 U3) as (A1 & A2 & A3 & A4).
  revert Hp A1 A2 A3 A4. generalize (ApplyUpdates t updates). intros t0 Hp A1 A2 A3 A4.
  destruct (bump_lease t0 (clock_at (S (w_clock w)))
    (int64 (a_Version (set_UpdatedAt (clock_at (S (w_clock w))) t0) + 1))) as (G1 & G2 & G3 & G4).
  apply Logic.and_assoc. split; [|by left].
  eapply store_and_log_simulates; [done|exact Hp|by rewrite G1, A1|exact Hc|].
  eapply step_update; [exact Hc|by cbn; congruence..].
Qed.

Lemma filled_fields u c t :
  a_ID (filled u c t) = (if decide (a_ID t = "")%string then uuid_at u else a_ID t)
  /\ a_Status (filled u c t) = a_Status t /\ a_Owner (filled u c t) = a_Owner t
  /\ a_LeaseToken (filled u c t) = a_LeaseToken t.
Proof. destruct t as [? ? ? ? ? ? ? ? ? ? ? ? ? ? ? ? v []]; unfold filled, out_defaults; simpl; by case_decide. Qed.

Lemma out_simulates t w :
  keyed (w_db w) -> well_formed (RqOut t) w -> simulates w (perform (RqOut t) w).
Proof.
  intros Hk ((W1 & W2 & W3) & Hnew). eapply on_ok_simulates; [done|apply Out_runs|].
  intros a d' evs Hp. unfold out_effect in Hp.
  destruct (insert_event_stmt _ _) as [d1|] eqn:Hi; [|done]. injection Hp as <- <- <-.
  apply insert_event_abs in Hi as [Ha _].
  destruct (filled_fields (w_uuid w) (w_clock w) t) as (F1 & F2 & F3 & F4).
  set (t1 := filled (w_uuid w) (w_clock w) t) in *. split_and!; [| |by left].
  - intros i r. rewrite Ha. apply keyed_upsert. exact Hk.
  - apply steps_one. unfold abs at 2. rewrite Ha. fold (abs (upsert_stmt (row_of_agent (sync_namespace t1)) (w_db w))).
    rewrite abs_upsert, sync_namespace_id, cell_sync, F1. apply step_create; simpl; try congruence.
    unfold abs. by rewrite lookup_fmap, Hnew.
Qed.

Lemma take_simulates query w :
  keyed (w_db w) -> simulates w (perform (RqTake query) w).
Proof.
  intros Hk. eapply on_ok_simulates; [done|by apply Take_runs|].
  intros a d' evs Hp. unfold take_effect in Hp.
  assert (Hskip : forall x : World DB, keyed (w_db w) /\ steps (abs (w_db w)) [] (abs (w_db w))
    /\ (tokens [] = [] \/ tokens [] = [uuid_at (w_uuid w)] /\ @nil Event <> [])).
  { intros _. split_and!; [done|constructor|by left]. }
  destruct (take_refused query); [injection Hp as <- <- <-; by apply Hskip|].
  destruct (chosen _ _ _) as [t|]; [|injection Hp as <- <- <-; by apply Hskip].
  unfold claim_stmt in Hp. rewrite claimed_agent_ID in Hp.
  destruct (agents (w_db w) !! a_ID t) as [r|] eqn:Hr; [|injection Hp as <- <- <-; by apply Hskip].
  destruct (bool_decide (r_status r = StatusNew)) eqn:Hs; [|injection Hp as <- <- <-; by apply Hskip].
  destruct (live _ r); [|injection Hp as <- <- <-; by apply Hskip]. cbn [andb] in Hp.
  apply bool_decide_eq_true in Hs. rewrite decide_True in Hp by lia.
  destruct (insert_event_stmt _ _) as [d1|] eqn:Hi; [|done]. injection Hp as <- <- <-.
  apply insert_event_abs in Hi as [Ha _]. simpl in Ha. split_and!.
  - intros i r'. rewrite Ha. destruct (decide (a_ID t = i)) as [<-|Hne].
    + rewrite lookup_insert_eq. intros [= <-]. simpl. by apply Hk.
    + rewrite lookup_insert_ne by done. apply Hk.
  - apply steps_one. unfold abs at 2. rewrite Ha, fmap_insert.
    replace (a_ID (claimed_agent t _ _ _)) with (a_ID t) by by destruct t.
    replace (cell_of_row (claim_row _ r)) with
      (MkCell StatusInProgress (query_agent_id query) (uuid_at (w_uuid w)) (c_done (cell_of_row r)))
      by by destruct t.
    replace (a_Owner (claimed_agent t _ _ _)) with (query_agent_id query) by by destruct t.
    replace (a_LeaseToken (claimed_agent t _ _ _)) with (uuid_at (w_uuid w)) by by destruct t.
    apply (step_claim _ _ _ _ (cell_of_row r)); [|done]. unfold abs. by rewrite lookup_fmap, Hr.
  - right. split; [|done]. by destruct t.
Qed.

End Simulation.

(** ** CompleteAndOut and the reaper *)

Section Compound.
Context `{E : Env} `{Srt : SqlOrder}.
Implicit Types w : World DB.

Lemma inherit_fields p o :
  a_ID (inherit p o) = a_ID o /\ a_Owner (inherit p o) = a_Owner o
  /\ a_LeaseToken (inherit p o) = a_LeaseToken o
  /\ a_Status (inherit p o) = (if decide (a_Status o = "")%string then StatusNew else a_Status o).
Proof.
  unfold inherit. destruct (decide (a_Status o = "")%string); destruct o; simpl in *;
    repeat (case_decide; simpl); done.
Qed.

Lemma outputs_of_ids p who u c outs : a_ID <$> (outputs_of p who u c outs).*1 = output_ids u outs.
Proof.
  revert u c. induction outs as [|o outs IH]; intros u c; [done|]. simpl. rewrite IH. f_equal.
  rewrite sync_namespace_id. destruct (inherit_fields p (filled u c o)) as [-> _].
  by destruct (filled_fields u c o) as [-> _].
Qed.

Lemma outputs_of_fresh p who u c outs :
  Forall (fun o => (a_Status o = "" \/ a_Status o = StatusNew)%string
                   /\ a_Owner o = ""%string /\ a_LeaseToken o = ""%string) outs ->
  Forall fresh_agent (outputs_of p who u c outs).*1.
Proof.
  intros HF. revert u c. induction HF as [|o outs (H1 & H2 & H3) HF IH]; intros u c; simpl; constructor; [|done].
  destruct (inherit_fields p (filled u c o)) as (I1 & I2 & I3 & I4).
  destruct (filled_fields u c o) as (F1 & F2 & F3 & F4). unfold fresh_agent.
  destruct (sync_lease (inherit p (filled u c o))) as (_ & -> & -> & ->).
  rewrite I2, I3, I4, F2, F3, F4. split_and!; [|done|done]. destruct H1 as [H1|H1]; rewrite H1; done.
Qed.

Lemma create_step t d :
  fresh_agent t -> agents d !! a_ID t = None -> forall by_,
  step (abs d) (LCreate (a_ID t) by_) (abs (upsert_stmt (row_of_agent t) d)).
Proof.
  intros (H1 & H2 & H3) Hn by_. rewrite abs_upsert. apply step_create; try done.
  unfold abs. by rewrite lookup_fmap, Hn.
Qed.

Lemma write_outputs_simulates who os d d2 :
  write_outputs os d = Ok d2 -> keyed d -> Forall fresh_agent os.*1 ->
  NoDup (a_ID <$> os.*1) -> Forall (fun i => agents d !! i = None) (a_ID <$> os.*1) ->
  keyed d2 /\ steps (abs d) ((fun o => LCreate (a_ID o) who) <$> os.*1) (abs d2).
Proof.
  revert d. induction os as [|[t e] os IH]; intros d Hw Hk HF Hnd Hni; simpl in *.
  { injection Hw as <-. split; [done|constructor]. }
  destruct (insert_event_stmt _ _) as [d1|] eqn:Hi; [|done].
  apply insert_event_abs in Hi as [Ha _].
  apply Forall_cons in HF as [Hf HF]. apply NoDup_cons in Hnd as [Hnot Hnd].
  apply Forall_cons in Hni as [Hn Hni].
  assert (Habs : abs d1 = abs (upsert_stmt (row_of_agent t) d)) by (unfold abs; by rewrite Ha).
  destruct (IH d1) as [Hk2 Hs]; try done.
  - intros i r. rewrite Ha. by apply keyed_upsert.
  - apply Forall_forall. intros i Hin. rewrite Ha. simpl. rewrite lookup_insert_ne by set_solver.
    rewrite Forall_forall in Hni. by apply Hni.
  - split; [done|]. eapply steps_cons; [by apply create_step|]. by rewrite <- Habs.
Qed.

Lemma tokens_creates (l : list Agent) who : tokens ((fun o => LCreate (a_ID o) who) <$> l) = [].
Proof. by induction l. Qed.

Lemma complete_and_out_simulates id who tok res outs w :
  keyed (w_db w) -> well_formed (RqCompleteAndOut id who tok res outs) w ->
  simulates w (perform (RqCompleteAndOut id who tok res outs) w).
Proof.
  intros Hk (Wf & Wnd & Wn). eapply on_ok_simulates; [done|apply CompleteAndOut_runs|].
  intros [a created] d' evs Hp. unfold complete_and_out_effect in Hp.
  destruct (identity_error who tok) eqn:Hi; [done|]. apply identity_error_None in Hi as [Hw Ht].
  destruct (found _ _ _) as [t|] eqn:Hf; [|done]. cbn [mbind result_bind] in Hp.
  pose proof (found_status _ _ _ _ Hk Hf) as Hst. unfold completion_label. rewrite Hst.
  destruct (found_spec _ _ _ _ Hk Hf) as (r & Hr & _ & _ & Hid & Hc).
  destruct (decide (a_Status t = StatusCompleted)) as [Hs|Hs].
  - destruct (CompletionTokenMatches t tok) eqn:Hm; [|done]. injection Hp as <- <- <- <-.
    apply CompletionTokenMatches_spec in Hm as [_ Hm].
    split_and!; [done|apply steps_one; by eapply step_replay|by left].
  - destruct (lease_error _ _ _ _) eqn:Hl; [done|]. apply lease_error_None in Hl as (H1 & H2 & H3).
    set (t' := sync_namespace (completed_agent _ _ _ _ _)) in *.
    assert (Ht' : a_ID t' = id) by (unfold t'; by rewrite ID_completed).
    destruct (insert_event_stmt _ _) as [d1|] eqn:Hins; [|done]. cbn [mbind result_bind] in Hp.
    destruct (write_outputs _ d1) as [d2|] eqn:Hwr; [|done]. injection Hp as <- <- <- <-.
    apply insert_event_abs in Hins as [Ha _].
    assert (Hag : agents d1 = <[id := row_of_agent t']> (agents (w_db w))).
    { rewrite Ha. unfold update_stmt. simpl. by rewrite Ht', Hr. }
    assert (Hk1 : keyed d1).
    { intros i r'. rewrite Hag, <- Ht'. apply (keyed_upsert (row_of_agent t')). exact Hk. }
    destruct (write_outputs_simulates who _ _ _ Hwr Hk1) as [Hk2 Hsteps].
    + by apply outputs_of_fresh.
    + by rewrite outputs_of_ids.
    + rewrite outputs_of_ids. apply Forall_forall. intros i Hin. rewrite Forall_forall in Wn.
      specialize (Wn i Hin). rewrite Hag, lookup_insert_ne; [done|]. by intros ->; rewrite Hr in Wn.
    + split_and!; [done| |left; by apply tokens_creates].
      eapply steps_cons; [|exact Hsteps]. unfold abs at 2. rewrite Hag, fmap_insert, cell_of_row_of_agent.
      unfold t'. rewrite cell_completed by done. by eapply step_complete.
Qed.

(** *** The reaper *)

Lemma reap_steps nowMs ids d :
  NoDup ids -> (forall id, id ∈ ids -> status_of id d = StatusInProgress) ->
  steps (abs d) (LReap <$> ids) (cell_of_row <$> reaped_db nowMs ids (agents d)).
Proof.
  induction ids as [|id ids IH] using rev_ind; intros Hnd Hst; [constructor|].
  apply NoDup_app in Hnd as (Hnd & Hdis & _). rewrite fmap_app.
  econstructor; [apply IH; [done|]; intros i Hi; apply Hst; set_solver|].
  assert (status_of id d = StatusInProgress) as Hid by (apply Hst; set_solver).
  unfold status_of in Hid. destruct (agents d !! id) as [r|] eqn:Hr; [|done].
  assert (reaped_db nowMs ids (agents d) !! id = Some r) as Hl.
  { rewrite reaped_db_lookup by done. rewrite decide_False; [done|]. intros Hin. apply (Hdis id Hin). set_solver. }
  rewrite reaped_db_app. unfold reaped_db at 2. simpl.
  replace (cell_of_row <$> alter (reap_row nowMs) id (reaped_db nowMs ids (agents d))) with
    (<[id := MkCell StatusNew "" "" (c_done (cell_of_row r))]> (cell_of_row <$> reaped_db nowMs ids (agents d))).
  - apply step_reap; [by rewrite lookup_fmap, Hl|done].
  - apply map_eq. intros i. rewrite lookup_fmap. destruct (decide (i = id)) as [->|Hne].
    + by rewrite lookup_insert_eq, lookup_alter_eq, Hl.
    + by rewrite lookup_insert_ne, lookup_alter_ne, lookup_fmap.
Qed.

Lemma reaped_db_ext nowMs l1 l2 m :
  NoDup l1 -> NoDup l2 -> (forall id, id ∈ l1 <-> id ∈ l2) -> reaped_db nowMs l1 m = reaped_db nowMs l2 m.
Proof.
  intros H1 H2 He. apply map_eq. intros i. rewrite !reaped_db_lookup by done.
  destruct (decide (i ∈ l1)), (decide (i ∈ l2)); naive_solver.
Qed.

Lemma reaped_ids_spec nowMs ids d d' :
  NoDup ids -> (forall id, id ∈ ids -> status_of id d = StatusInProgress) ->
  agents d' = reaped_db nowMs ids (agents d) ->
  forall id, id ∈ reaped_ids d d' <-> id ∈ ids.
Proof.
  intros Hnd Hst Ha id. unfold reaped_ids. rewrite list_elem_of_filter, Is_true_true, andb_true_iff, !bool_decide_eq_true.
  unfold status_of at 2. rewrite Ha, reaped_db_lookup by done. split.
  - intros [[H1 H2] _]. destruct (decide (id ∈ ids)) as [|Hn]; [done|].
    fold (status_of id d) in H2. rewrite H1 in H2. done.
  - intros Hin. rewrite decide_True by done. specialize (Hst id Hin). unfold status_of in *.
    destruct (agents d !! id) as [r|] eqn:Hr; [|done]. split; [done|].
    apply list_elem_of_fmap. exists (id, r). split; [done|]. by apply elem_of_map_to_list.
Qed.

Lemma reap_simulates w : keyed (w_db w) -> simulates w (perform RqReap w).
Proof.
  intros Hk. simpl. pose proof (reap_run w) as Hrun. cbn zeta in Hrun. unfold wp in Hrun.
  destruct (reapExpiredLeases w) as [r w']. set (nowMs := Time.UnixMilli _) in *.
  destruct Hrun as (_ & Hu & ids & evs & evs' & Hsub & Ha & _).
  assert (Hnd : NoDup ids) by (eapply sublist_NoDup; [by apply (select_expired_NoDup nowMs)|done]).
  assert (Hst : forall id, id ∈ ids -> status_of id (w_db w) = StatusInProgress).
  { intros id Hin. eapply sublist_subseteq in Hin; [|exact Hsub].
    apply list_elem_of_fmap in Hin as (ra & -> & Hra).
    apply elem_of_select_expired in Hra as (r0 & Hr0 & Hx & _); [|done].
    unfold status_of. rewrite Hr0. unfold lease_expired in Hx.
    by apply andb_true_iff in Hx as [?%bool_decide_eq_true _]. }
  pose proof (reaped_ids_spec nowMs ids _ _ Hnd Hst Ha) as Hids.
  assert (Hnd' : NoDup (reaped_ids (w_db w) (w_db w'))).
  { apply NoDup_filter, NoDup_fst_map_to_list. }
  unfold simulates. simpl. split_and!; [| |done|].
  - intros i r0. rewrite Ha, reaped_db_lookup by done.
    case_decide; [|apply Hk]. destruct (agents (w_db w) !! i) as [r1|] eqn:H1; [|done].
    simpl. intros [= <-]. simpl. by apply Hk.
  - unfold abs at 2. rewrite Ha. rewrite (reaped_db_ext nowMs ids (reaped_ids (w_db w) (w_db w')))
      by (try done; intros id; by rewrite Hids).
    apply reap_steps; [done|]. intros id Hin. apply Hst, Hids, Hin.
  - assert (tokens (LReap <$> reaped_ids (w_db w) (w_db w')) = []) as ->.
    { generalize (reaped_ids (w_db w) (w_db w')). by intros l; induction l. }
    split; constructor.
Qed.

(** *** Every request, and every sequence of them *)

Lemma perform_simulates rq w :
  keyed (w_db w) -> well_formed rq w -> simulates w (perform rq w).
Proof.
  intros Hk Hw. destruct rq.
  - by apply out_simulates.
  - by apply take_simulates.
  - by apply update_simulates.
  - by apply complete_simulates.
  - by apply complete_and_out_simulates.
  - by apply release_simulates.
  - by apply renew_simulates.
  - by apply reap_simulates.
Qed.

Lemma simulates_trans w w1 l1 w2 l2 :
  FreshIds E -> simulates w (w1, l1) -> simulates w1 (w2, l2) -> simulates w (w2, l1 ++ l2).
Proof.
  intros HI (K1 & S1 & U1 & N1 & D1) (K2 & S2 & U2 & N2 & D2). unfold simulates, tokens in *. simpl in *.
  split_and!; [done|by eapply steps_app|lia|]. unfold drawn. rewrite omap_app. split.
  - apply NoDup_app. split_and!; [done| |done]. intros tok H1 H2.
    rewrite Forall_forall in D1, D2. destruct (D1 tok H1) as (j & Hj & ->).
    destruct (D2 _ H2) as (j' & Hj' & He). apply uuid_inj in He. lia.
  - apply Forall_app. split; (eapply Forall_impl; [eassumption|]); intros tok (j & Hj & ->);
      exists j; split; try done; lia.
Qed.

Lemma perform_all_simulates rqs w :
  FreshIds E -> keyed (w_db w) -> well_formed_all rqs w -> simulates w (perform_all rqs w).
Proof.
  intros HI. revert w. induction rqs as [|rq rqs IH]; intros w Hk Hw; simpl.
  { by apply simulates_skip. }
  destruct Hw as [Hw Hws]. pose proof (perform_simulates rq w Hk Hw) as H1.
  destruct (perform rq w) as [w1 l1]. pose proof (IH w1) as H2.
  destruct (perform_all rqs w1) as [w2 l2]. eapply simulates_trans; [done|exact H1|].
  apply H2; [apply H1|done].
Qed.

(** From an empty store. *)
Lemma store_history rqs w w' ls :
  FreshIds E -> w_db w = empty_db -> well_formed_all rqs w -> perform_all rqs w = (w', ls) ->
  keyed (w_db w') /\ steps ∅ ls (abs (w_db w')) /\ NoDup (tokens ls).
Proof.
  intros HI Hd Hw Hp. pose proof (perform_all_simulates rqs w HI) as H.
  rewrite Hp in H. destruct H as (K & S0 & _ & N & _); [|done|].
  { rewrite Hd. intros id r. simpl. by rewrite lookup_empty. }
  simpl in *. rewrite Hd in S0. unfold abs at 1 in S0. simpl in S0. rewrite fmap_empty in S0. done.
Qed.

End Compound.
