(* ===== verification/SqliteDag.v ===== *)
(** * SQLite: the graph of related agents

    [GetDAG] of [src/pkg/store/sqlite/sqlite_lifecycle.go]: its breadth-first
    loop ends (a bound on its iterations), its nodes and edges are those of
    the table, and without failing calls and expiring agents its nodes are
    exactly the agents connected to the root by parent links. *)

From S2P Require Import Prelude GoLib Agent Common Effects Sql Lease SharedLease SqliteRows SqliteQuery SqliteLifecycle SqliteCore SqliteRefine.
From stdpp Require Import gmap strings list fin_maps fin_map_dom fin_sets sorting relations.
From Stdlib Require Import ZArith Lia.

Open Scope Z_scope.

(** ** The relation the loop explores *)

(** The stored agent [b] is the parent or a child of the stored agent [a]. *)
Definition neighbor (d : DB) (a b : string) : Prop :=
  exists ra rb, agents d !! a = Some ra /\ agents d !! b = Some rb
    /\ (r_parent_id ra = b \/ r_parent_id rb = a).

(** An edge of the table: from parent to child. *)
Definition sound_edge (d : DB) (e : Edge) : Prop :=
  exists r, agents d !! edge_To e = Some r /\ r_parent_id r = edge_From e.

(** The table the exact characterisation needs: every row decodes and none
    expires. *)
Definition settled (d : DB) : Prop :=
  decodable d /\ forall id r, agents d !! id = Some r -> r_ttl_ms r = 0.

(** An upper bound on the iterations: every agent is expanded once, and an
    expansion enqueues at most its parent and all agents. *)
Definition dag_fuel (d : DB) : nat := S (size (agents d) * (size (agents d) + 2)).

(** ** Reading during the loop *)

Section Dag.
Context `{E : Env} `{Srt : SqlOrder}.
Implicit Types w : World DB.

Lemma live_settled nowMs r : r_ttl_ms r = 0 -> live nowMs r = true.
Proof. intros H. unfold live. by rewrite bool_decide_eq_true_2. Qed.

Lemma wp_try_Get id w (Q : result gerror (result gerror Agent) -> World DB -> Prop) :
  keyed (w_db w) ->
  (forall r w', w_db w' = w_db w -> w_notified w' = w_notified w ->
     (forall t, r = Ok t -> exists row, agents (w_db w) !! id = Some row
                            /\ a_ID t = id /\ a_ParentID t = r_parent_id row) ->
     (fault_free E -> settled (w_db w) -> is_Some (agents (w_db w) !! id) -> exists t, r = Ok t) ->
     Q (Ok r) w') ->
  wp (try_ (Get id)) Q w.
Proof.
  intros Hk HQ. apply wp_try. eapply wp_mono; [apply Get_runs|]. cbn beta.
  intros r w' (_ & _ & [Hab|Hrun]).
  - destruct Hab as ((e & msg & n & -> & _ & Hn & _) & Hd & Hno). apply HQ; try done.
    intros HF. by rewrite HF in Hn.
  - destruct (found _ _ _) as [t|e] eqn:Hf; cbn in Hrun.
    + destruct Hrun as (-> & Hd & Hno & _). rewrite app_nil_r in Hno. apply HQ; try done; [|by eauto].
      intros t' [= <-]. destruct (found_spec _ _ _ _ Hk Hf) as (row & H1 & _ & H2 & H3 & _).
      exists row. split_and!; try done. by destruct (scan_columns row t H2) as (_ & _ & _ & _ & -> & _).
    + destruct Hrun as (-> & Hd & Hno). apply HQ; try done.
      intros _ [Hdec Httl] [row Hrow]. unfold found in Hf. rewrite Hrow in Hf.
      rewrite (live_settled _ row) in Hf by (by eapply Httl).
      destruct (Hdec _ _ Hrow) as [t Ht]. by rewrite Ht in Hf.
Qed.

(** The children query: stored agents whose parent is [id]; all of them when
    nothing fails. *)
Lemma children_spec id nowMs d l :
  keyed d -> id <> ""%string -> query_result nowMs (Some (parent_query id)) d = Ok l ->
  (length l <= size (agents d))%nat
  /\ (forall child, child ∈ l -> exists row, agents d !! a_ID child = Some row /\ r_parent_id row = id)
  /\ (settled d -> forall b row, agents d !! b = Some row -> r_parent_id row = id -> b ∈ a_ID <$> l).
Proof.
  intros Hk Hid Hq. unfold query_result in Hq. simpl in Hq.
  unfold unless_empty in Hq. simpl in Hq. rewrite (decide_False (P := id = ""%string)) in Hq by done.
  change (pos_opt 0) with (@None Z) in Hq. injection Hq as <-.
  set (rows := filter _ (map_to_list (agents d)).*2).
  assert (Hin : forall r, r ∈ sql_window None None (order_asc r_created_at_ms rows) <->
    live nowMs r = true /\ r_parent_id r = id /\ agents d !! r_id r = Some r).
  { intros r. unfold sql_window, order_asc. rewrite elem_of_sql_sort. unfold rows.
    rewrite list_elem_of_filter, Is_true_true. simpl. rewrite andb_true_r, andb_true_iff, bool_decide_eq_true.
    rewrite list_elem_of_fmap. split.
    - intros [[H1 H2] ([i r'] & -> & Hi%elem_of_map_to_list)]. simpl in *. by rewrite (Hk _ _ Hi).
    - intros (H1 & H2 & H3). split; [done|]. exists (r_id r, r). split; [done|]. by apply elem_of_map_to_list. }
  split_and!.
  - etrans; [apply length_omap_le|]. unfold sql_window, order_asc.
    rewrite (Permutation_length (sql_sort_perm _ _)). unfold rows.
    etrans; [apply length_filter|]. rewrite length_fmap, length_map_to_list. done.
  - intros child Hc. apply list_elem_of_omap in Hc as (r & Hr & Hs).
    apply Hin in Hr as (_ & Hp & Hr). destruct (scanSQLiteAgent r) as [t|] eqn:Ht; [|done].
    injection Hs as <-. destruct (scan_columns r t Ht) as [-> _]. by exists r.
  - intros [Hdec Httl] b row Hb Hp. destruct (Hdec _ _ Hb) as [t Ht].
    apply list_elem_of_fmap. exists t. destruct (scan_columns row t Ht) as [Hi _].
    split; [rewrite Hi; symmetry; by apply Hk|]. apply list_elem_of_omap. exists row.
    rewrite Ht. split; [|done]. apply Hin. split_and!; [by eapply live_settled, Httl|done|by rewrite (Hk _ _ Hb)].
Qed.

(** What holds each time the loop looks at its queue. *)
Record dag_inv (d : DB) (root : string) (visited : gset string) (queue : list string) (dag : DAG) : Prop := {
  inv_nodes : forall id n, dag_Nodes dag !! id = Some n ->
    id ∈ visited /\ is_Some (agents d !! id) /\ n_TupleID n = id;
  inv_edges : Forall (sound_edge d) (dag_Edges dag);
  inv_conn : forall id, id ∈ visited \/ id ∈ queue -> is_Some (agents d !! id) -> rtc (neighbor d) root id;
  inv_closed : fault_free E -> settled d -> forall id, id ∈ visited -> is_Some (agents d !! id) ->
    is_Some (dag_Nodes dag !! id) /\ forall b, neighbor d id b -> b ∈ visited \/ b ∈ queue;
}.

(** What is left to do: the queue, and an expansion for every agent not yet
    visited. *)
Definition dag_measure (d : DB) (visited : gset string) (queue : list string) : nat :=
  length queue + size (dom (agents d) ∖ visited) * (size (agents d) + 2).

Lemma size_visit d (visited : gset string) id :
  is_Some (agents d !! id) -> id ∉ visited ->
  S (size (dom (agents d) ∖ ({[id]} ∪ visited))) = size (dom (agents d) ∖ visited).
Proof.
  intros Hid Hn. apply elem_of_dom in Hid.
  assert (dom (agents d) ∖ visited = {[id]} ∪ (dom (agents d) ∖ ({[id]} ∪ visited))) as ->.
  { apply set_eq. intros x. destruct (decide (x = id)); set_solver. }
  rewrite (size_union {[id]} (dom (agents d) ∖ ({[id]} ∪ visited))) by set_solver. by rewrite size_singleton.
Qed.

Lemma size_visit_le d (visited : gset string) id :
  (size (dom (agents d) ∖ ({[id]} ∪ visited)) <= size (dom (agents d) ∖ visited))%nat.
Proof. apply subseteq_size. set_solver. Qed.

Lemma dag_inv_skip d root visited id queue dag :
  dag_inv d root visited (id :: queue) dag -> id ∈ visited -> dag_inv d root visited queue dag.
Proof.
  intros [H1 H2 H3 H4] Hid. split; try done.
  - intros x Hx. apply H3. set_solver.
  - intros HF Hs x Hx Hr. destruct (H4 HF Hs x Hx Hr) as [? Hb]. split; [done|].
    intros b Hn. destruct (Hb b Hn) as [?|[->|?]%elem_of_cons]; auto.
Qed.

(** A visited id that is not stored, or could not be read. *)
Lemma dag_inv_miss d root visited id queue dag :
  dag_inv d root visited (id :: queue) dag ->
  (fault_free E -> settled d -> ~ is_Some (agents d !! id)) ->
  dag_inv d root ({[id]} ∪ visited) queue dag.
Proof.
  intros [H1 H2 H3 H4] Hid. split; try done.
  - intros x n Hx. destruct (H1 x n Hx) as (? & ? & ?). split_and!; try done. set_solver.
  - intros x Hx. apply H3. set_solver.
  - intros HF Hs x Hx Hr. apply elem_of_union in Hx as [->%elem_of_singleton|Hx]; [by destruct (Hid HF Hs)|].
    destruct (H4 HF Hs x Hx Hr) as [? Hb]. split; [done|]. intros b Hn.
    destruct (Hb b Hn) as [?|[->|?]%elem_of_cons]; set_solver.
Qed.

(** An expanded agent: its node, the edge from its parent, the edges to its
    children [ids], which are enqueued. *)
Lemma dag_inv_expand d root visited id queue dag t row ids :
  keyed d ->
  dag_inv d root visited (id :: queue) dag ->
  agents d !! id = Some row -> a_ID t = id -> a_ParentID t = r_parent_id row ->
  agents d !! ""%string = None ->
  (forall b, b ∈ ids -> exists rb, agents d !! b = Some rb /\ r_parent_id rb = id) ->
  (fault_free E -> settled d ->
     forall b rb, agents d !! b = Some rb -> r_parent_id rb = id -> b ∈ ids) ->
  let parent := if decide (a_ParentID t = "")%string then [] else [a_ParentID t] in
  let up := if decide (a_ParentID t = "")%string then []
            else [MkEdge (a_ParentID t) id "parent"] in
  dag_inv d root ({[id]} ∪ visited) (queue ++ parent ++ ids)
    (MkDAG (<[id := dag_node t]> (dag_Nodes dag))
       (dag_Edges dag ++ up ++ ((fun b => MkEdge id b "spawned") <$> ids))).
Proof.
  intros Hk [H1 H2 H3 H4] Hrow Hid Hpar Hempty Hch Hall parent up.
  assert (Hroot : rtc (neighbor d) root id) by (apply H3; [set_solver|by eauto]).
  split.
  - intros x n Hx. simpl in Hx. destruct (decide (x = id)) as [->|Hne].
    + rewrite lookup_insert_eq in Hx. injection Hx as <-. split_and!; [set_solver|by eauto|done].
    + rewrite lookup_insert_ne in Hx by done. destruct (H1 x n Hx) as (? & ? & ?).
      split_and!; try done. set_solver.
  - simpl. apply Forall_app. split; [done|]. apply Forall_app. split.
    + unfold up. case_decide; constructor; [|done]. exists row. simpl. by rewrite Hpar.
    + apply Forall_fmap, Forall_forall. intros b Hb. destruct (Hch b Hb) as (rb & ? & ?).
      exists rb. simpl. split; [done|congruence].
  - intros x Hx Hr. rewrite !elem_of_app, elem_of_union, elem_of_singleton in Hx.
    destruct Hx as [[->|Hx]|[Hx|[Hx|Hx]]].
    + done.
    + apply H3; auto.
    + apply H3; [set_solver|done].
    + unfold parent in Hx. case_decide; [by apply not_elem_of_nil in Hx|].
      apply list_elem_of_singleton in Hx as ->. destruct Hr as [rp Hrp].
      eapply rtc_r; [done|]. exists row, rp. split_and!; try done. left. congruence.
    + destruct (Hch x Hx) as (rb & Hb & Hp). eapply rtc_r; [done|]. exists row, rb. auto.
  - intros HF Hs x Hx Hr. simpl. destruct (decide (x = id)) as [->|Hne].
    + rewrite lookup_insert_eq. split; [by eauto|]. intros b (ra & rb & Ha & Hb & [Hp|Hp]).
      * assert (ra = row) as -> by congruence. right. rewrite !elem_of_app. right. left.
        unfold parent. rewrite Hpar, Hp. case_decide; [exfalso; congruence|].
        by apply list_elem_of_singleton.
      * right. rewrite !elem_of_app. right. right. by eapply Hall.
    + rewrite lookup_insert_ne by done. destruct (H4 HF Hs x) as [? Hb]; [set_solver|done|].
      split; [done|]. intros b Hn. rewrite !elem_of_app.
      destruct (Hb b Hn) as [?|[->|?]%elem_of_cons]; [set_solver|set_solver|auto].
Qed.

Lemma dag_loop_spec root fuel visited queue dag w :
  keyed (w_db w) -> agents (w_db w) !! ""%string = None ->
  dag_inv (w_db w) root visited queue dag ->
  wp (dag_loop fuel visited queue dag) (fun r w' =>
    w_db w' = w_db w /\ w_notified w' = w_notified w
    /\ match r with
       | Ok (Some dag') => exists visited', visited ⊆ visited' /\ (forall x, x ∈ queue -> x ∈ visited')
                           /\ dag_inv (w_db w) root visited' [] dag'
       | Ok None => (fuel < dag_measure (w_db w) visited queue)%nat
       | Err _ => False
       end) w.
Proof.
  revert visited queue dag w. induction fuel as [|fuel IH]; intros visited queue dag w Hk He Hi.
  all: destruct queue as [|id queue]; simpl.
  1,3: apply wp_ret; split_and!; try done; exists visited; split_and!; [done|by intros ? ?%not_elem_of_nil|done].
  { apply wp_ret. split_and!; try done. unfold dag_measure. simpl. lia. }
  assert (Hweak : forall (visited' : gset string) (queue' : list string) dag' w',
    w_db w' = w_db w -> w_notified w' = w_notified w ->
    {[id]} ∪ visited ⊆ visited' -> (forall x, x ∈ queue -> x ∈ queue') ->
    dag_inv (w_db w) root visited' queue' dag' ->
    (S (dag_measure (w_db w) visited' queue') <= dag_measure (w_db w) visited (id :: queue))%nat ->
    wp (dag_loop fuel visited' queue' dag') (fun r w'' =>
      w_db w'' = w_db w /\ w_notified w'' = w_notified w
      /\ match r with
         | Ok (Some dag'') => exists visited'', visited ⊆ visited'' /\ (forall x, x ∈ id :: queue -> x ∈ visited'')
                             /\ dag_inv (w_db w) root visited'' [] dag''
         | Ok None => (S fuel < dag_measure (w_db w) visited (id :: queue))%nat
         | Err _ => False
         end) w').
  { intros visited' queue' dag' w' Hd Hn Hv Hq Hinv Hm.
    eapply wp_mono; [apply IH; rewrite Hd; done|]. rewrite Hd, Hn.
    intros [[dag''|]|] w'' (? & ? & H); split_and!; try done; [|lia].
    destruct H as (v'' & Hv'' & Hq'' & Hi''). exists v''. split_and!; [set_solver| |done].
    intros x [->|Hx]%elem_of_cons; [set_solver|]. by apply Hq'', Hq. }
  case_decide as Hvis.
  { apply Hweak; [done|done|set_solver|done|by eapply dag_inv_skip|unfold dag_measure; simpl; lia]. }
  apply wp_bind, wp_try_Get; [done|]. intros r w1 D1 N1 Hfound Hmiss.
  destruct r as [t|e].
  2:{ apply Hweak; try done.
      - apply dag_inv_miss; [done|]. intros HF Hs Hid. by destruct (Hmiss HF Hs Hid).
      - pose proof (size_visit_le (w_db w) visited id). unfold dag_measure. simpl. nia. }
  destruct (Hfound t eq_refl) as (row & Hrow & Hid & Hpar).
  assert (Hne : id <> ""%string) by (intros ->; congruence).
  pose proof (size_visit (w_db w) visited id (ex_intro _ row Hrow) Hvis) as Hsz.
  apply wp_bind, wp_try. eapply wp_mono; [apply Query_run|]. rewrite D1, N1, Hid.
  intros r w2 (D2 & N2 & _ & Hq). rewrite ?Hid in Hq. rewrite ?Hid.
  destruct r as [children|e].
  - destruct Hq as [((? & ? & ? & [=] & _) & _)|Hq]. symmetry in Hq. simpl.
    destruct (children_spec id _ (w_db w) children Hk Hne Hq) as (Hlen & Hch & Hall).
    replace ((fun child => MkEdge id (a_ID child) "spawned") <$> children) with
      ((fun b => MkEdge id b "spawned") <$> (a_ID <$> children)) by by rewrite <- list_fmap_compose.
    rewrite <- app_assoc.
    apply Hweak; [done|done|done|set_solver| |].
    + eapply (dag_inv_expand _ _ _ _ _ _ t row); [done|done|done|done|done|done| |].
      * intros b (child & -> & Hc)%list_elem_of_fmap. by apply Hch.
      * intros _ Hs b rb Hb Hp. by eapply Hall.
    + unfold dag_measure. rewrite !length_app, length_fmap. simpl. case_decide; simpl; nia.
  - simpl. pose proof (dag_inv_expand (w_db w) root visited id queue dag t row [] Hk Hi Hrow Hid Hpar He) as Hx.
    simpl in Hx. rewrite !app_nil_r in Hx.
    apply Hweak; [done|done|done|set_solver| |].
    + apply Hx; [by intros ? ?%not_elem_of_nil|]. intros HF [Hdec _].
      destruct Hq as [((? & ? & n & _ & _ & Hn & _) & _)|Hq]; [by rewrite HF in Hn|].
      pose proof (query_result_spec (Time.UnixMilli (clock_at (w_clock w1))) (Some (parent_query id)) (w_db w) Hdec) as Hs.
      rewrite <- Hq in Hs. destruct Hs as (_ & _ & Hs). simpl in Hs. lia.
    + unfold dag_measure. rewrite !length_app. simpl. case_decide; simpl; nia.
Qed.

Lemma dag_inv_start d root : dag_inv d root ∅ [root] (MkDAG ∅ []).
Proof.
  split; simpl.
  - intros id n. by rewrite lookup_empty.
  - constructor.
  - intros id [?|Hid] _; [set_solver|]. apply list_elem_of_singleton in Hid as ->. constructor.
  - intros _ _ id. set_solver.
Qed.

Lemma dag_measure_start d root : (dag_measure d ∅ [root] <= dag_fuel d)%nat.
Proof.
  unfold dag_measure, dag_fuel. simpl. rewrite difference_empty_L, size_dom. lia.
Qed.

(** At the end the nodes are the connected component. *)
Lemma dag_closed d root visited dag :
  fault_free E -> settled d -> (forall x, x ∈ [root] -> x ∈ visited) ->
  dag_inv d root visited [] dag -> forall id,
  is_Some (dag_Nodes dag !! id) <->
  is_Some (agents d !! root) /\ is_Some (agents d !! id) /\ rtc (neighbor d) root id.
Proof.
  intros HF Hs Hroot [H1 _ H3 H4] id. split.
  - intros [n Hn]. destruct (H1 id n Hn) as (Hv & Hid & _).
    assert (Hr : rtc (neighbor d) root id) by (apply H3; auto). split_and!; [|done|done].
    inversion Hr as [|? y ? Hy]; subst; [done|]. destruct Hy as (ra & _ & Ha & _). eauto.
  - intros (Hr & Hid & Hc).
    assert (id ∈ visited) as Hv; [|by destruct (H4 HF Hs id Hv Hid)].
    clear Hid. revert id Hc. apply rtc_ind_r; [by apply Hroot; left|].
    intros y z _ Hyz IH. pose proof Hyz as (ry & rz & Hy & _ & _).
    destruct (H4 HF Hs y IH (ex_intro _ ry Hy)) as [_ Hb].
    destruct (Hb z Hyz) as [?|Hn]; [done|by apply not_elem_of_nil in Hn].
Qed.

End Dag.
