(* ===== verification/SqliteLog.v ===== *)
(** * SQLite: the event log is the audit trail

    Every request the store answers appends to [agent_events], in the same
    commit, exactly the events its labels call for, and announces exactly
    those to the subscribers. *)

From S2P Require Import Prelude GoLib Agent Common Effects Sql Lease SharedLease SqliteRows SqliteQuery SqliteLifecycle SqliteCore SqliteReaper SqliteRefine.
From stdpp Require Import gmap strings list fin_maps sorting.
From Stdlib Require Import ZArith Lia.

Open Scope Z_scope.

(** ** The event a label calls for *)

Definition label_event (l : label) : option (string * string * string) :=
  match l with
  | LCreate id by_ => Some (EventCreated, id, by_)
  | LClaim id who _ => Some (EventClaimed, id, who)
  | LUpdate id by_ => Some (EventUpdated, id, by_)
  | LComplete id who _ => Some (EventCompleted, id, who)
  | LRelease id who _ => Some (EventReleased, id, who)
  | LReap id => Some (EventReleased, id, "reaper"%string)
  | LRenew _ _ _ | LReplay _ _ => None
  end.

Definition event_label (e : Event) : string * string * string :=
  (e_Type e, e_TupleID e, e_AgentID e).

Lemma event_label_agent_event eid t type ts who data :
  event_label (agent_event eid t type ts who data) = (type, a_ID t, who).
Proof. done. Qed.

Section Log.
Context `{E : Env} `{Srt : SqlOrder}.
Implicit Types w : World DB.

(** The labels of a served request, its committed events and its
    announcements tell the same. *)
Definition logs (w : World DB) (x : World DB * list label) : Prop :=
  exists evs,
    agent_events (w_db x.1) = agent_events (w_db w) ++ (row_of_event <$> evs)
    /\ w_notified x.1 = w_notified w ++ evs
    /\ event_label <$> evs = omap label_event x.2.

Lemma logs_skip w w' : w_db w' = w_db w -> w_notified w' = w_notified w -> logs w (w', []).
Proof. intros Hd Hn. exists []. simpl. rewrite Hd, Hn, !app_nil_r. done. Qed.

Lemma on_ok_logs {A} (m : M DB A) w (p : effect A) (f : A -> list label) :
  runs m w p ->
  (forall a d' evs, p = Ok (a, d', evs) ->
     agent_events d' = agent_events (w_db w) ++ (row_of_event <$> evs)
     /\ event_label <$> evs = omap label_event (f a)) ->
  logs w (on_ok f (m w)).
Proof.
  intros Hr Hp. unfold runs, wp in Hr. destruct (m w) as [r w'] eqn:Hm.
  destruct Hr as (_ & _ & [((e & msg & n & -> & _) & Hd & Hn)|Hr]); [by apply logs_skip|].
  destruct p as [[[a d'] evs]|e].
  - destruct Hr as (-> & <- & Hn & _). simpl. destruct (Hp a _ evs eq_refl) as (H1 & H2).
    by exists evs.
  - destruct Hr as (-> & Hd & Hn). by apply logs_skip.
Qed.

Lemma store_and_log_logs {A} (a b : A) t e d d' evs :
  store_and_log a t e d = Ok (b, d', evs) ->
  evs = [e] /\ agent_events d' = agent_events d ++ [row_of_event e].
Proof.
  unfold store_and_log. intros H. destruct (insert_event_stmt _ _) as [d1|] eqn:Hi; [|done].
  injection H as <- <- <-. apply insert_event_abs in Hi as [_ H2]. split; [done|]. rewrite H2.
  unfold update_stmt. by destruct (agents d !! _).
Qed.

Lemma write_outputs_logs os d d2 :
  write_outputs os d = Ok d2 -> agent_events d2 = agent_events d ++ (row_of_event <$> os.*2).
Proof.
  revert d. induction os as [|[t e] os IH]; intros d H; simpl in *.
  - injection H as <-. by rewrite app_nil_r.
  - destruct (insert_event_stmt _ _) as [d1|] eqn:Hi; [|done]. apply insert_event_abs in Hi as [_ Hi].
    rewrite (IH _ H), Hi. simpl. by rewrite <- app_assoc.
Qed.

Lemma outputs_of_labels p who u c outs :
  event_label <$> (outputs_of p who u c outs).*2 =
  omap label_event ((fun o => LCreate (a_ID o) who) <$> (outputs_of p who u c outs).*1).
Proof. revert u c. induction outs as [|o outs IH]; intros u c; simpl; [done|]. f_equal. apply IH. Qed.

Lemma sync_metadata_agent t :
  omget (a_Metadata (sync_namespace t)) "agent_id" = omget (a_Metadata t) "agent_id".
Proof.
  destruct t as [? ? ? ? ? ? ? ? ? ns ? ? ? ? ? ? ? m]. unfold sync_namespace. simpl.
  assert (omget m "agent_id" = mget (default ∅ m) "agent_id") as ->
    by (destruct m; [done|]; unfold mget; simpl; by rewrite lookup_empty).
  destruct (decide (ns <> "")%string); simpl; [|by case_decide]. by rewrite mget_insert_ne.
Qed.

Lemma out_logs t w : logs w (perform (RqOut t) w).
Proof.
  eapply on_ok_logs; [apply Out_runs|]. intros a d' evs Hp. unfold out_effect in Hp.
  destruct (insert_event_stmt _ _) as [d1|] eqn:Hi; [|done]. injection Hp as <- <- <-.
  apply insert_event_abs in Hi as [_ Hi]. split; [done|]. simpl.
  by rewrite sync_namespace_id, sync_metadata_agent.
Qed.

Lemma take_logs query w : keyed (w_db w) -> logs w (perform (RqTake query) w).
Proof.
  intros Hk. eapply on_ok_logs; [by apply Take_runs|]. intros a d' evs Hp. unfold take_effect in Hp.
  destruct (take_refused query); [injection Hp as <- <- <-; by rewrite app_nil_r|].
  destruct (chosen _ _ _) as [t|]; [|injection Hp as <- <- <-; by rewrite app_nil_r].
  destruct (claim_stmt _ _ _) as [d1 n] eqn:Hc. case_decide; [|injection Hp as <- <- <-; by rewrite app_nil_r].
  destruct (insert_event_stmt _ _) as [d2|] eqn:Hi; [|done]. injection Hp as <- <- <-.
  apply insert_event_abs in Hi as [_ Hi]. split; [|by destruct t]. rewrite Hi. unfold claim_stmt in Hc.
  destruct (agents (w_db w) !! _); [destruct (_ && _)|]; by injection Hc as <- _.
Qed.

Lemma update_logs id updates w : keyed (w_db w) -> logs w (perform (RqUpdate id updates) w).
Proof.
  intros Hk. eapply on_ok_logs; [apply Update_runs|]. intros a d' evs Hp. unfold update_effect in Hp.
  destruct (found _ _ _) as [t|] eqn:Hf; [|done]. cbn [mbind result_bind] in Hp.
  destruct (found_spec _ _ _ _ Hk Hf) as (r & _ & _ & _ & Hid & _).
  apply store_and_log_logs in Hp as [-> Hl]. split; [done|]. cbn -[event_label sync_namespace ApplyUpdates].
  rewrite event_label_agent_event.
  rewrite sync_namespace_id. revert Hid. rewrite <- (ApplyUpdates_ID t updates).
  generalize (ApplyUpdates t updates). by intros [] <-.
Qed.

Lemma complete_logs id who tok res w : keyed (w_db w) -> logs w (perform (RqComplete id who tok res) w).
Proof.
  intros Hk. eapply on_ok_logs; [apply Complete_runs|]. intros a d' evs Hp. unfold complete_effect in Hp.
  destruct (identity_error who tok) eqn:Hi; [done|].
  destruct (found _ _ _) as [t|] eqn:Hf; [|done]. cbn [mbind result_bind] in Hp.
  pose proof (found_status _ _ _ _ Hk Hf) as Hst. unfold completion_label. rewrite Hst.
  destruct (found_spec _ _ _ _ Hk Hf) as (r & _ & _ & _ & Hid & _).
  destruct (decide (a_Status t = StatusCompleted)).
  - destruct (CompletionTokenMatches t tok); [|done]. injection Hp as <- <- <-. by rewrite app_nil_r.
  - destruct (lease_error _ _ _ _); [done|]. apply store_and_log_logs in Hp as [-> Hl].
    split; [done|]. cbn -[event_label sync_namespace completed_agent].
    by rewrite event_label_agent_event, ID_completed, Hid.
Qed.

Lemma complete_and_out_logs id who tok res outs w :
  keyed (w_db w) -> logs w (perform (RqCompleteAndOut id who tok res outs) w).
Proof.
  intros Hk. eapply on_ok_logs; [apply CompleteAndOut_runs|].
  intros [a created] d' evs Hp. unfold complete_and_out_effect in Hp.
  destruct (identity_error who tok) eqn:Hi; [done|].
  destruct (found _ _ _) as [t|] eqn:Hf; [|done]. cbn [mbind result_bind] in Hp.
  pose proof (found_status _ _ _ _ Hk Hf) as Hst. unfold completion_label. rewrite Hst.
  destruct (found_spec _ _ _ _ Hk Hf) as (r & _ & _ & _ & Hid & _).
  destruct (decide (a_Status t = StatusCompleted)).
  - destruct (CompletionTokenMatches t tok); [|done]. injection Hp as <- <- <- <-. by rewrite app_nil_r.
  - destruct (lease_error _ _ _ _); [done|].
    destruct (insert_event_stmt _ _) as [d1|] eqn:Hins; [|done]. cbn [mbind result_bind] in Hp.
    destruct (write_outputs _ d1) as [d2|] eqn:Hwr; [|done]. injection Hp as <- <- <- <-.
    apply insert_event_abs in Hins as [_ Hins]. apply write_outputs_logs in Hwr. split.
    + rewrite Hwr, Hins, fmap_cons, <- app_assoc. f_equal. unfold update_stmt. by destruct (agents (w_db w) !! _).
    + rewrite fmap_cons, outputs_of_labels. cbn -[event_label sync_namespace completed_agent outputs_of].
      by rewrite event_label_agent_event, ID_completed, Hid.
Qed.

Lemma release_logs id who tok reason w : keyed (w_db w) -> logs w (perform (RqRelease id who tok reason) w).
Proof.
  intros Hk. eapply on_ok_logs; [apply Release_runs|]. intros a d' evs Hp. unfold release_effect in Hp.
  destruct (identity_error who tok) eqn:Hi; [done|].
  destruct (found _ _ _) as [t|] eqn:Hf; [|done]. cbn [mbind result_bind] in Hp.
  destruct (found_spec _ _ _ _ Hk Hf) as (r & _ & _ & _ & Hid & _).
  destruct (lease_error _ _ _ _); [done|]. apply store_and_log_logs in Hp as [-> Hl].
  split; [done|]. cbn -[event_label sync_namespace released_agent].
  by rewrite event_label_agent_event, ID_released, Hid.
Qed.

Lemma renew_logs id who tok dur w : logs w (perform (RqRenew id who tok dur) w).
Proof.
  eapply on_ok_logs; [apply Renew_runs|]. intros a d' evs Hp. unfold renew_effect in Hp.
  destruct (identity_error who tok) eqn:Hi; [done|].
  destruct (found _ _ _) as [t|] eqn:Hf; [|done]. cbn [mbind result_bind] in Hp.
  destruct (lease_error _ _ _ _); [done|]. injection Hp as <- <- <-. split; [|done].
  rewrite app_nil_r. unfold update_stmt. by destruct (agents (w_db w) !! _).
Qed.

Lemma perform_logs rq w : keyed (w_db w) -> rq <> RqReap -> logs w (perform rq w).
Proof.
  intros Hk Hne. destruct rq.
  - apply out_logs.
  - by apply take_logs.
  - by apply update_logs.
  - by apply complete_logs.
  - by apply complete_and_out_logs.
  - by apply release_logs.
  - by apply renew_logs.
  - done.
Qed.

End Log.
