(* ===== verification/SqliteSafety.v ===== *)
(** * SQLite: safety of the store

    The theorems a client of the SQLite store relies on, for any sequence of
    well-formed requests, any schedule of failing database calls and reaper
    passes at any point: the lifecycle contract, exactly-once completion,
    fencing, atomicity and the audit trail. *)

From S2P Require Import Prelude GoLib Agent Common Effects Sql Scenario Lease SharedLease SqliteRows SqliteQuery SqliteLifecycle SqliteCore SqliteReaper SqliteRefine SqliteLog.
From stdpp Require Import gmap strings list fin_maps sorting.
From Stdlib Require Import ZArith Lia.

Open Scope Z_scope.

(** ** A history to evaluate *)

#[local] Existing Instance MergeSqlOrder.

(** A lease given up, taken again by another worker, then completed; the
    first worker's late completion is refused.  The call after it fails. *)
Definition demo_requests : list request :=
  [ RqOut (offer "a" "job" [] ∅);
    RqTake (Some (by_kind "job" "alice"));
    RqRelease "a" "alice" "u1" "";
    RqTake (Some (by_kind "job" "bob"));
    RqComplete "a" "alice" "u1" None;
    RqComplete "a" "bob" "u4" None;
    RqComplete "a" "bob" "u4" None ].

Definition demo_history : list label :=
  [ LCreate "a" ""; LClaim "a" "alice" "u1"; LRelease "a" "alice" "u1";
    LClaim "a" "bob" "u4"; LComplete "a" "bob" "u4"; LReplay "a" "u4" ].

(** ** Atomicity *)

Section Atomic.
Context `{E : Env} `{Srt : SqlOrder}.

Lemma in_tx_not_found id nowMs : in_tx (not_found id (tx_read (select_by_id id nowMs))).
Proof. unfold not_found. solve_in_tx. Qed.

Lemma in_tx_update t : in_tx (updateSQLiteAgent t).
Proof. unfold updateSQLiteAgent. solve_in_tx. Qed.

Lemma in_tx_upsert t : in_tx (upsertSQLiteAgent t).
Proof. unfold upsertSQLiteAgent. solve_in_tx. Qed.

Lemma in_tx_insert_event e : in_tx (insertSQLiteEvent e).
Proof. unfold insertSQLiteEvent. solve_in_tx. Qed.

Lemma in_tx_claim t nowMs : in_tx (claimSQLiteAgent t nowMs).
Proof. unfold claimSQLiteAgent. solve_in_tx. Qed.

Lemma in_tx_check verb t who tok : in_tx (check_lease verb t who tok).
Proof. unfold check_lease. solve_in_tx. Qed.

Lemma in_tx_fill t : in_tx (fill_defaults t).
Proof. unfold fill_defaults. solve_in_tx. Qed.

#[local] Hint Resolve in_tx_not_found in_tx_update in_tx_upsert in_tx_insert_event in_tx_claim
  in_tx_check in_tx_fill : spaces.

Lemma in_tx_create_output t who o : in_tx (create_output t who o).
Proof. unfold create_output. solve_in_tx. Qed.

#[local] Hint Resolve in_tx_create_output : spaces.

(** Follow the body of a transaction down to its commit. *)
Ltac commits_step :=
  match goal with
  | |- commits (Commit ≫= _) => apply commits_now
  | |- commits (match ?x with _ => _ end) => destruct x
  | |- commits (if ?b then _ else _) => destruct b
  | |- commits (fail _) => apply commits_end, in_tx_fail
  | |- commits (mret _) => apply commits_end, in_tx_ret
  | |- commits (_ ≫= _) => apply commits_bind; [solve [solve_in_tx]|intros]
  | |- cannot_fail (notify _ ≫= _) => apply cannot_fail_notify
  | |- cannot_fail (mret _) => apply cannot_fail_ret
  end.

Ltac atomic_step :=
  match goal with
  | |- atomic (now ≫= _) => apply atomic_now_bind; intros
  | |- atomic (new_uuid ≫= _) => apply atomic_uuid_bind; intros
  | |- atomic (with_tx _) => apply with_tx_atomic
  | |- atomic (match ?x with _ => _ end) => destruct x
  | |- atomic _ => solve [eauto with spaces]
  end.

Lemma take_loop_commits query who nf nowMs rows : commits (take_loop query who nf nowMs rows).
Proof.
  induction rows as [|r rows IH]; simpl.
  - apply commits_end. solve_in_tx.
  - repeat (assumption || commits_step).
Qed.

Lemma cannot_fail_notify_all {A} (evs : list Event) (k : list unit -> M DB A) :
  (forall us, cannot_fail (k us)) -> cannot_fail (for_each notify evs ≫= k).
Proof.
  intros Hk w. apply wp_bind, wp_notify_all. intros us. apply Hk.
Qed.

Lemma atomic_fill {A} t (f : Agent -> M DB A) : (forall t, atomic (f t)) -> atomic (fill_defaults t ≫= f).
Proof. intros Hf w. apply wp_bind, wp_fill. eapply wp_mono; [apply Hf|]. by intros []. Qed.

Lemma CompleteAndOut_atomic id who tok res outs : atomic (CompleteAndOut id who tok res outs).
Proof.
  unfold CompleteAndOut, require_identity. repeat atomic_step.
  apply commits_bind; [solve_in_tx|intros t]. repeat commits_step.
  apply cannot_fail_notify_all. intros us. apply cannot_fail_ret.
Qed.

Lemma take_atomic query : atomic (Take query).
Proof.
  unfold Take. destruct (take_refused query); [apply atomic_ret|]. apply with_tx_atomic.
  apply commits_bind; [solve_in_tx|intros t0].
  destruct (buildSQLiteWhereClauses _ _ _). apply commits_bind; [solve_in_tx|intros rows].
  apply take_loop_commits.
Qed.

Lemma out_atomic t : atomic (Out t).
Proof. unfold Out. apply atomic_fill. intros t1. repeat atomic_step. repeat commits_step. Qed.

Lemma update_atomic id updates : atomic (UpdateAndGet id (Some updates)).
Proof. unfold UpdateAndGet. repeat atomic_step. repeat commits_step. Qed.

Lemma complete_atomic id who tok res : atomic (CompleteAndGet id who tok res).
Proof.
  unfold CompleteAndGet, require_identity. repeat atomic_step.
  apply commits_bind; [solve_in_tx|intros t]. repeat commits_step.
Qed.

Lemma release_atomic id who tok reason : atomic (ReleaseAndGet id who tok reason).
Proof. unfold ReleaseAndGet, require_identity. repeat atomic_step. repeat commits_step. Qed.

Lemma renew_atomic id who tok dur : atomic (RenewLease id who tok dur).
Proof. unfold RenewLease, require_identity. repeat atomic_step. repeat commits_step. Qed.

End Atomic.

(** ** The theorems *)

Section Claims.
Context `{E : Env} `{Srt : SqlOrder}.
Implicit Types w : World DB.

(** C1: the store implements the lifecycle contract.  Whatever well-formed
    requests an initially empty SQLite store serves, whichever of its database
    calls fail and wherever the reaper runs in between, the answers it gives
    are a run of the abstract lease machine that ends in the stored state, and
    no two claims ever receive the same token. *)
Theorem store_refines_contract rqs w w' ls :
  FreshIds E -> w_db w = empty_db -> well_formed_all rqs w -> perform_all rqs w = (w', ls) ->
  steps ∅ ls (abs (w_db w')) /\ NoDup (tokens ls).
Proof. intros HI Hd Hw Hp. by destruct (store_history rqs w w' ls HI Hd Hw Hp) as (_ & H1 & H2). Qed.

(** C2: an agent is completed at most once.  Take a store that started empty
    and any well-formed requests: agents are created new, without owner, and
    under ids not stored yet (the store upserts, so an id written again is a
    new agent), updates leave the lease fields alone, and fresh UUIDs differ.
    Whichever database calls fail and wherever the reaper runs, at most one of
    the requests completes a given agent (an answer to a repeated completion,
    which changes nothing, is a replay and not counted). *)
Theorem store_completes_once rqs w w' ls id :
  FreshIds E -> w_db w = empty_db -> well_formed_all rqs w -> perform_all rqs w = (w', ls) ->
  (completions id ls <= 1)%nat.
Proof.
  intros HI Hd Hw Hp. destruct (store_history rqs w w' ls HI Hd Hw Hp) as (_ & H1 & _).
  by eapply completions_le_one.
Qed.

(** C3: fencing.  Take a store that started empty and has served well-formed
    requests (as in C2), and one more.  If it completes, releases or renews
    agent [id] under token [tok], then an earlier take handed [id] to the same
    owner under that token, and since then the agent was neither completed,
    released, reaped nor claimed again: a worker whose lease was taken away
    can no longer change the agent.  A replayed completion, which answers
    success to the completer's token and changes nothing, is not meant here. *)
Theorem store_fencing rqs w w' ls rq w'' l rest id who tok :
  FreshIds E -> w_db w = empty_db -> well_formed_all rqs w -> perform_all rqs w = (w', ls) ->
  well_formed rq w' -> perform rq w' = (w'', l :: rest) ->
  l = LComplete id who tok \/ l = LRelease id who tok \/ l = LRenew id who tok ->
  exists l1 l2, ls = l1 ++ LClaim id who tok :: l2 /\ Forall (fun l => ends_claim id l = false) l2.
Proof.
  intros HI Hd Hw Hp Hrq Hp' Hl. destruct (store_history rqs w w' ls HI Hd Hw Hp) as (Hk & H1 & _).
  pose proof (perform_simulates rq w' Hk Hrq) as Hs. rewrite Hp' in Hs.
  destruct Hs as (_ & Hs & _). simpl in Hs. apply steps_cons_inv in Hs as (σ2 & Hs & _).
  apply holder_split. by eapply step_fenced.
Qed.

(** C4: atomicity.  Whichever database call of an operation fails, an
    operation that returns an error has changed nothing in the database and
    announced nothing to the subscribers. *)
Theorem operations_atomic :
  (forall t, atomic (Out t)) /\ (forall query, atomic (Take query))
  /\ (forall id updates, atomic (UpdateAndGet id (Some updates)))
  /\ (forall id who tok res, atomic (CompleteAndGet id who tok res))
  /\ (forall id who tok res outs, atomic (CompleteAndOut id who tok res outs))
  /\ (forall id who tok reason, atomic (ReleaseAndGet id who tok reason))
  /\ (forall id who tok dur, atomic (RenewLease id who tok dur)).
Proof.
  split_and!; intros.
  - apply out_atomic.
  - apply take_atomic.
  - apply update_atomic.
  - apply complete_atomic.
  - apply CompleteAndOut_atomic.
  - apply release_atomic.
  - apply renew_atomic.
Qed.

(** C5: the audit trail.  Every request other than a reaper pass appends to
    the event log, in the commit that makes the change, exactly the events its
    answer calls for, each with the right type, agent and author, and announces
    exactly those events to the subscribers, in order; a failed request appends
    and announces none. *)
Theorem store_audit_trail rq w w' ls :
  keyed (w_db w) -> rq <> RqReap -> perform rq w = (w', ls) ->
  exists evs,
    agent_events (w_db w') = agent_events (w_db w) ++ (row_of_event <$> evs)
    /\ w_notified w' = w_notified w ++ evs
    /\ event_label <$> evs = omap label_event ls.
Proof. intros Hk Hne Hp. pose proof (perform_logs rq w Hk Hne) as H. by rewrite Hp in H. Qed.

End Claims.

(** ** Witnesses *)

Definition demo_world : World DB := (@perform_all quiet MergeSqlOrder demo_requests (start empty_db)).1.

Lemma demo_well_formed : @well_formed_all quiet MergeSqlOrder demo_requests (start empty_db).
Proof. vm_compute. repeat split. Qed.

Lemma demo_run :
  @perform_all quiet MergeSqlOrder demo_requests (start empty_db) = (demo_world, demo_history).
Proof. vm_compute. reflexivity. Qed.

Lemma store_refines_contract_witness :
  steps ∅ demo_history (abs (w_db demo_world)) /\ NoDup (tokens demo_history).
Proof.
  exact (@store_refines_contract quiet MergeSqlOrder demo_requests (start empty_db) demo_world demo_history
           (demo_fresh []) eq_refl demo_well_formed demo_run).
Defined.

Lemma store_completes_once_witness : (completions "a" demo_history <= 1)%nat.
Proof.
  exact (@store_completes_once quiet MergeSqlOrder demo_requests (start empty_db) demo_world demo_history "a"
           (demo_fresh []) eq_refl demo_well_formed demo_run).
Defined.

(** The history up to bob's claim, and bob's completion after it. *)
Definition demo_prefix : list request := take 4 demo_requests.
Definition demo_prefix_world : World DB :=
  (@perform_all quiet MergeSqlOrder demo_prefix (start empty_db)).1.

Lemma store_fencing_witness :
  exists l1 l2, take 4 demo_history = l1 ++ LClaim "a" "bob" "u4" :: l2
    /\ Forall (fun l => ends_claim "a" l = false) l2.
Proof.
  eapply (@store_fencing quiet MergeSqlOrder demo_prefix (start empty_db) demo_prefix_world
           (take 4 demo_history) (RqComplete "a" "bob" "u4" None) _ (LComplete "a" "bob" "u4") [] "a" "bob" "u4").
  - exact (demo_fresh []).
  - reflexivity.
  - vm_compute. repeat split.
  - vm_compute. reflexivity.
  - exact I.
  - vm_compute. reflexivity.
  - by left.
Defined.

Lemma demo_prefix_keyed : keyed (w_db demo_prefix_world).
Proof.
  refine (proj1 (@store_history quiet MergeSqlOrder demo_prefix (start empty_db) demo_prefix_world
                   (take 4 demo_history) (demo_fresh []) eq_refl _ _)).
  - vm_compute. repeat split.
  - vm_compute. reflexivity.
Qed.

Lemma store_audit_trail_witness :
  exists w', perform (E := quiet) (Srt := MergeSqlOrder) (RqRelease "a" "bob" "u4" "later") demo_prefix_world
             = (w', [LRelease "a" "bob" "u4"])
  /\ exists evs,
    agent_events (w_db w') = agent_events (w_db demo_prefix_world) ++ (row_of_event <$> evs)
    /\ w_notified w' = w_notified demo_prefix_world ++ evs
    /\ event_label <$> evs = [(EventReleased, "a", "bob")].
Proof.
  eexists. split; [vm_compute; reflexivity|].
  refine (@store_audit_trail quiet MergeSqlOrder (RqRelease "a" "bob" "u4" "later") demo_prefix_world _
            [LRelease "a" "bob" "u4"] _ _ _).
  - exact demo_prefix_keyed.
  - done.
  - vm_compute. reflexivity.
Defined.
