(* ===== verification/SqliteBehaviour.v ===== *)
(** * SQLite: what each operation answers and changes

    The functional behaviour of the lifecycle operations when no database
    call fails: which agent a take claims, on which branch a completion ends
    and what it leaves, that the outputs of a completion come with it or not
    at all, that a created agent reads back. *)

From S2P Require Import Prelude GoLib Agent Common Effects Sql Scenario Lease SharedLease SqliteRows SqliteQuery SqliteLifecycle SqliteCore SqliteReaper SqliteRefine.
From stdpp Require Import gmap strings list fin_maps sorting.
From Stdlib Require Import ZArith Lia.

Open Scope Z_scope.

(** ** Runs without failing calls *)

Section Quiet.
Context `{E : Env} `{Srt : SqlOrder}.
Implicit Types w : World DB.

Lemma runs_quiet {A} (m : M DB A) w (p : effect A) r w' :
  runs m w p -> fault_free E -> m w = (r, w') ->
  match p with
  | Ok (a, d', evs) => r = Ok a /\ w_db w' = d' /\ w_notified w' = w_notified w ++ evs
  | Err e => r = Err e /\ w_db w' = w_db w /\ w_notified w' = w_notified w
  end.
Proof.
  intros Hr HF Hm. unfold runs, wp in Hr. rewrite Hm in Hr. destruct Hr as (_ & _ & [Hab|Hr]).
  - by destruct (aborted_fault_free w r w' HF).
  - destruct p as [[[a d'] evs]|e]; [by destruct Hr as (? & ? & ? & _)|done].
Qed.

Lemma insert_event_fresh e d :
  e_ID e ∉ event_ids d ->
  insert_event_stmt e d = Ok (MkDB (agents d) (agent_events d ++ [row_of_event e])).
Proof. intros H. unfold insert_event_stmt. by rewrite decide_False. Qed.

Lemma event_ids_update r d : event_ids (update_stmt r d) = event_ids d.
Proof. unfold update_stmt. by destruct (agents d !! _). Qed.

Lemma update_stmt_found t r d :
  agents d !! a_ID t = Some r ->
  update_stmt (row_of_agent t) d = MkDB (<[a_ID t := row_of_agent t]> (agents d)) (agent_events d).
Proof. intros Hr. unfold update_stmt. simpl. by rewrite Hr. Qed.

(** ** Take *)

(** What a take looks for: a live agent that is NEW and matches. *)
Definition eligible (q : Query) (nowMs : Z) (d : DB) (r : Row) (t : Agent) : Prop :=
  agents d !! r_id r = Some r /\ scanSQLiteAgent r = Ok t /\ live nowMs r = true
  /\ a_Status t = StatusNew /\ query_matches (Some q) t.

(** The clauses of a take are those of the query with the status NEW. *)
Lemma take_keep_spec r t q nowMs cs nf :
  buildSQLiteWhereClauses (Some q) true nowMs = (cs, nf) -> take_refused (Some q) = false ->
  scanSQLiteAgent r = Ok t ->
  forallb (sat r) cs = true /\ keep nf (Some q) r = Some t <->
  live nowMs r = true /\ a_Status t = StatusNew /\ query_matches (Some q) t.
Proof.
  intros Hb Href Hs.
  assert (Hq : buildSQLiteWhereClauses (Some q) false nowMs =
    (CTTL nowMs :: unless_empty (q_Status q) CStatus ++ unless_empty (q_Kind q) CKind
       ++ unless_empty (q_Owner q) COwner ++ unless_empty (q_ParentID q) CParent
       ++ unless_empty (q_TraceID q) CTrace, nf)) by (injection Hb as _ <-; done).
  pose proof (select_keep_spec r t (Some q) nowMs _ nf Hq Hs) as Hsel.
  unfold keep. rewrite Hs. injection Hb as <- _.
  destruct (scan_columns r t Hs) as (_ & Hst & _). rewrite Hst.
  assert (forallb (sat r) (unless_empty (q_Status q) CStatus) = true <->
    q_Status q = ""%string \/ r_status r = q_Status q) as Hu
    by (apply (unless_empty_sat r (q_Status q) CStatus r_status); done).
  assert (q_Status q = ""%string \/ q_Status q = StatusNew) as Hqs.
  { unfold take_refused in Href. apply andb_false_iff in Href as [H|H];
      apply negb_false_iff, bool_decide_eq_true in H; auto. }
  revert Hsel. generalize (query_matches (Some q) t). intros QM.
  cbn [forallb sat]. rewrite !forallb_app. cbn [forallb sat].
  rewrite !andb_true_iff, Hu, bool_decide_eq_true.
  destruct (nf && negb (matchesQueryFilters t (Some q))); intros Hsel.
  - split; [by intros [_ ?]|]. intros (H1 & _ & H3). by destruct (proj2 Hsel (conj H1 H3)).
  - split.
    + intros ((H1 & H2 & H3) & _). destruct (proj1 Hsel) as [? ?]; [|done].
      split_and!; try done; try apply H3. destruct Hqs; [by left|right; congruence].
    + intros (H1 & H2 & H3). destruct (proj2 Hsel (conj H1 H3)) as ((_ & _ & H4) & _). done.
Qed.

Lemma selected_elem (cs : list clause) d r :
  keyed d ->
  r ∈ order_asc r_created_at_ms (filter (fun r => forallb (sat r) cs) (map_to_list (agents d)).*2) <->
  forallb (sat r) cs = true /\ agents d !! r_id r = Some r.
Proof.
  intros Hk. unfold order_asc. rewrite elem_of_sql_sort, list_elem_of_filter, Is_true_true, list_elem_of_fmap.
  split.
  - intros [H ([i r'] & -> & Hi%elem_of_map_to_list)]. simpl in *. by rewrite (Hk _ _ Hi).
  - intros [H Hr]. split; [done|]. exists (r_id r, r). split; [done|]. by apply elem_of_map_to_list.
Qed.

(** The chosen agent is eligible and no eligible one is older; none is chosen
    only if none is eligible. *)
Lemma chosen_spec q nowMs d :
  keyed d -> decodable d -> take_refused (Some q) = false ->
  match chosen (Some q) nowMs d with
  | Some t => exists r, eligible q nowMs d r t
                /\ forall r2 t2, eligible q nowMs d r2 t2 -> r_created_at_ms r <= r_created_at_ms r2
  | None => forall r t, ~ eligible q nowMs d r t
  end.
Proof.
  intros Hk Hdec Href. unfold chosen, candidates.
  destruct (buildSQLiteWhereClauses (Some q) true nowMs) as [cs nf] eqn:Hb. cbn [snd].
  set (l := order_asc r_created_at_ms _).
  assert (Hel : forall r t, eligible q nowMs d r t <-> r ∈ l /\ keep nf (Some q) r = Some t).
  { intros r t. unfold eligible, l. rewrite selected_elem by done. split.
    - intros (H1 & H2 & H3). rewrite <- (take_keep_spec r t q nowMs cs nf Hb Href H2) in H3. naive_solver.
    - intros [[H1 H2] H3]. assert (scanSQLiteAgent r = Ok t) as Ht.
      { unfold keep in H3. destruct (scanSQLiteAgent r); [|done]. by destruct (nf && _); simplify_eq. }
      split_and!; [done|done|..]; by apply (take_keep_spec r t q nowMs cs nf Hb Href Ht). }
  assert (Hwin : find_map (keep nf (Some q)) (sql_window (if nf then None else Some 1) None l) =
                 find_map (keep nf (Some q)) l).
  { destruct nf; [done|]. unfold sql_window. change (Z.to_nat 1) with 1%nat.
    destruct l as [|r l'] eqn:Hl; [done|]. simpl. assert (Hr : r ∈ l) by (rewrite Hl; left).
    unfold l in Hr. apply selected_elem in Hr as [_ Hr]; [|done].
    destruct (Hdec _ _ Hr) as [t Ht]. unfold keep. by rewrite Ht. }
  rewrite Hwin. destruct (find_map (keep nf (Some q)) l) as [t|] eqn:Hf.
  - apply find_map_Some in Hf as (l1 & r & l2 & Hl & Hr & HF). exists r. split.
    { apply Hel. split; [|done]. rewrite Hl. set_solver. }
    intros r2 t2 [Hin Hk2]%Hel. rewrite Hl in Hin. apply elem_of_app in Hin as [Hin|[->|Hin]%elem_of_cons].
    + rewrite Forall_forall in HF. by rewrite (HF _ Hin) in Hk2.
    + done.
    + unfold l, order_asc in Hl. by eapply sql_sort_head.
  - intros r t [Hin Hr]%Hel. rewrite find_map_None, Forall_forall in Hf. by rewrite (Hf _ Hin) in Hr.
Qed.

Lemma eligible_claimable q nowMs d r t : eligible q nowMs d r t -> claimable nowMs d r.
Proof.
  intros (H1 & H2 & H3 & H4 & _). split_and!; try done.
  by destruct (scan_columns r t H2) as (_ & <- & _).
Qed.

Lemma take_outcome q w r w' :
  FreshIds E -> fault_free E -> keyed (w_db w) -> decodable (w_db w) -> ids_fresh w ->
  take_refused (Some q) = false -> Take (Some q) w = (r, w') ->
  let nowMs := Time.UnixMilli (clock_at (w_clock w)) in
  (r = Ok None /\ w_db w' = w_db w /\ (forall row t, ~ eligible q nowMs (w_db w) row t))
  \/ exists row t, eligible q nowMs (w_db w) row t
     /\ (forall row2 t2, eligible q nowMs (w_db w) row2 t2 -> r_created_at_ms row <= r_created_at_ms row2)
     /\ let t' := claimed_agent t (query_agent_id (Some q)) (uuid_at (w_uuid w)) (clock_at (S (w_clock w))) in
        r = Ok (Some t')
        /\ agents (w_db w') = <[r_id row := claim_row t' row]> (agents (w_db w)).
Proof.
  intros HI HF Hk Hdec Hfr Href Hrun nowMs.
  pose proof (runs_quiet _ _ _ _ _ (Take_runs (Some q) w Hk) HF Hrun) as H. unfold take_effect in H.
  rewrite Href in H. fold nowMs in H. pose proof (chosen_spec q nowMs (w_db w) Hk Hdec Href) as Hc.
  destruct (chosen (Some q) nowMs (w_db w)) as [t|].
  - destruct Hc as (row & Hel & Hold). right. exists row, t. split_and!; [done|done|].
    pose proof Hel as (H1 & Ht & _). cbn zeta.
    rewrite (claim_stmt_claimable row t _ _ _ nowMs (w_db w) (eligible_claimable _ _ _ _ _ Hel) Ht) in H.
    rewrite decide_True in H by lia. rewrite insert_event_fresh in H.
    + simpl in H. destruct H as (-> & -> & _). done.
    + cbn. apply Hfr. lia.
  - left. destruct H as (-> & -> & _). done.
Qed.

(** ** Completion *)

(** What a completed agent is, compared with the one it was. *)
Definition completion_of (t t' : Agent) (who tok : string) (res : gmap string any) : Prop :=
  a_ID t' = a_ID t /\ a_Status t' = StatusCompleted /\ a_Owner t' = ""%string
  /\ a_LeaseToken t' = ""%string /\ a_LeaseUntil t' = Time.zero_time /\ a_OwnerTime t' = Time.zero_time
  /\ a_Payload t' = Some (<["result" := VMap res]> (default ∅ (a_Payload t)))
  /\ CompletionTokenMatches t' tok = true
  /\ omget (a_Metadata t') CompletedByMetadataKey = who
  /\ a_Version t' = int64 (a_Version t + 1)
  /\ a_Kind t' = a_Kind t /\ a_Tags t' = a_Tags t /\ a_ParentID t' = a_ParentID t
  /\ a_TraceID t' = a_TraceID t /\ a_CreatedAt t' = a_CreatedAt t /\ a_TTL t' = a_TTL t.

Lemma sync_other t :
  let t' := sync_namespace t in
  a_LeaseUntil t' = a_LeaseUntil t /\ a_OwnerTime t' = a_OwnerTime t /\ a_Payload t' = a_Payload t
  /\ a_Version t' = a_Version t /\ a_Kind t' = a_Kind t /\ a_Tags t' = a_Tags t
  /\ a_ParentID t' = a_ParentID t /\ a_TraceID t' = a_TraceID t /\ a_CreatedAt t' = a_CreatedAt t
  /\ a_TTL t' = a_TTL t /\ a_UpdatedAt t' = a_UpdatedAt t
  /\ forall k, k <> NamespaceMetadataKey -> omget (a_Metadata t') k = omget (a_Metadata t) k.
Proof.
  destruct t as [? ? ? ? ? ? ? ? ? ns ? ? ? ? ? ? ? m]. unfold sync_namespace. simpl.
  assert (Hm : forall k, omget m k = mget (default ∅ m) k)
    by (intros k; destruct m; [done|]; unfold mget; simpl; by rewrite lookup_empty).
  destruct (decide (ns <> "")%string); simpl.
  - split_and!; try done. intros k Hk. by rewrite mget_insert_ne, Hm.
  - case_decide; simpl; split_and!; try done; intros k Hk; by rewrite Hm.
Qed.

Lemma completed_completion t who tok res now_ :
  who <> ""%string -> tok <> ""%string ->
  completion_of t (sync_namespace (completed_agent t who tok res now_)) who tok res.
Proof.
  intros Hw Ht. set (t' := completed_agent t who tok res now_).
  destruct (sync_lease t') as (S1 & S2 & S3 & S4).
  destruct (sync_other t') as (O1 & O2 & O3 & O4 & O5 & O6 & O7 & O8 & O9 & O10 & _ & OM).
  assert (Htok : omget (a_Metadata t') CompletedByTokenMetadataKey = tok
                 /\ omget (a_Metadata t') CompletedByMetadataKey = who).
  { unfold t'. destruct t. simpl. unfold insert_unless_empty. rewrite !decide_False by done.
    destruct (Time.IsZero now_); autorewrite with spaces; done. }
  unfold completion_of. rewrite S1, S2, S3, S4, O1, O2, O3, O4, O5, O6, O7, O8, O9, O10.
  rewrite CompletionTokenMatches_spec, !OM by done. destruct Htok as [-> ->].
  unfold t'. by destruct t.
Qed.

Lemma complete_outcome id who tok res w r w' row t :
  FreshIds E -> fault_free E -> keyed (w_db w) -> ids_fresh w ->
  who <> ""%string -> tok <> ""%string ->
  agents (w_db w) !! id = Some row -> live (Time.UnixMilli (clock_at (w_clock w))) row = true ->
  scanSQLiteAgent row = Ok t ->
  CompleteAndGet id who tok res w = (r, w') ->
  if decide (a_Status t = StatusCompleted) then
    r = (if CompletionTokenMatches t tok then Ok t else Err EStaleToken) /\ w_db w' = w_db w
  else match lease_error "complete" t who tok with
  | Some e => r = Err e /\ w_db w' = w_db w
  | None => exists t', r = Ok t' /\ completion_of t t' who tok (default ∅ res)
            /\ agents (w_db w') = <[id := row_of_agent t']> (agents (w_db w))
  end.
Proof.
  intros HI HF Hk Hfr Hw Ht Hrow Hlive Hs Hrun.
  pose proof (runs_quiet _ _ _ _ _ (Complete_runs id who tok res w) HF Hrun) as H.
  unfold complete_effect, identity_error in H. rewrite !decide_False in H by done.
  assert (Hf : found id (Time.UnixMilli (clock_at (w_clock w))) (w_db w) = Ok t)
    by (unfold found; by rewrite Hrow, Hlive). rewrite Hf in H. cbn [mbind result_bind] in H.
  destruct (found_spec _ _ _ _ Hk Hf) as (_ & _ & _ & _ & Hid & _).
  case_decide.
  - destruct (CompletionTokenMatches t tok); naive_solver.
  - destruct (lease_error _ _ _ _) as [e|]; [naive_solver|]. unfold store_and_log in H.
    rewrite insert_event_fresh in H by (rewrite event_ids_update; apply Hfr; lia).
    destruct H as (-> & -> & _). eexists. split_and!; [done|by apply completed_completion|].
    destruct (completed_completion t who tok (default ∅ res) (clock_at (S (w_clock w))) Hw Ht) as [C1 _].
    rewrite (update_stmt_found _ row) by (rewrite C1, Hid; exact Hrow).
    cbn [agents]. by rewrite C1, Hid.
Qed.

(** *** Completion with outputs *)

Lemma write_outputs_lookup os d d2 :
  write_outputs os d = Ok d2 -> NoDup (a_ID <$> os.*1) ->
  (forall o, o ∈ os.*1 -> agents d2 !! a_ID o = Some (row_of_agent o))
  /\ (forall i, i ∉ a_ID <$> os.*1 -> agents d2 !! i = agents d !! i).
Proof.
  revert d. induction os as [|[t e] os IH]; intros d H Hnd; simpl in *.
  { injection H as <-. split; [|done]. intros o Ho. by apply not_elem_of_nil in Ho. }
  destruct (insert_event_stmt _ _) as [d1|] eqn:Hi; [|done].
  apply insert_event_abs in Hi as [Ha _]. apply NoDup_cons in Hnd as [Hn Hnd].
  destruct (IH d1 H Hnd) as [H1 H2]. split.
  - intros o [->|Ho]%elem_of_cons; [|by apply H1]. rewrite H2, Ha by done. simpl. by rewrite lookup_insert_eq.
  - intros i Hi. apply not_elem_of_cons in Hi as [? ?]. rewrite H2, Ha by done. simpl.
    by rewrite lookup_insert_ne.
Qed.

Lemma outputs_length p who u c outs : length (outputs_of p who u c outs).*1 = length outs.
Proof.
  revert u c. induction outs as [|o outs IH]; intros u c; [done|]. simpl. f_equal. apply IH.
Qed.

(** An output is linked to what it came from. *)
Definition output_of_parent (p o : Agent) : Prop :=
  a_Status o <> ""%string /\ (a_ParentID o <> ""%string \/ a_ID p = ""%string)
  /\ (a_TraceID o <> ""%string \/ a_TraceID p = ""%string).

Lemma outputs_linked p who u c outs : Forall (output_of_parent p) (outputs_of p who u c outs).*1.
Proof.
  revert u c. induction outs as [|o outs IH]; intros u c; simpl; constructor; [|done].
  destruct (sync_lease (inherit p (filled u c o))) as (_ & Hs & _).
  destruct (sync_other (inherit p (filled u c o))) as (_ & _ & _ & _ & _ & _ & Hp & Ht & _).
  unfold output_of_parent. rewrite Hs, Hp, Ht. generalize (filled u c o). intros o'. clear.
  unfold inherit. destruct o' as [? ? st ? ? ? ? pa tr]. cbn [a_Status].
  destruct (decide (st = "")%string); cbn;
    (destruct (decide (tr = "" /\ a_TraceID p <> "")%string) as [[? ?]|Hn]; cbn);
    (destruct (decide (pa = "")%string); cbn; split_and!; try done; try (by left)).
  all: first
    [ by left | by right
    | by destruct (decide (Agent.a_ID p = "")%string); [right|left]
    | destruct (decide (tr = "")%string); [|by left]; right; apply dec_stable; by intros ?; apply Hn ].
Qed.

Lemma complete_and_out_outcome id who tok res outs w r w' :
  keyed (w_db w) -> well_formed (RqCompleteAndOut id who tok res outs) w ->
  CompleteAndOut id who tok res outs w = (r, w') ->
  match r with
  | Err _ => w_db w' = w_db w /\ w_notified w' = w_notified w
  | Ok (t', created) =>
      (status_of id (w_db w) = StatusCompleted /\ created = [] /\ w_db w' = w_db w)
      \/ (status_of id (w_db w) = StatusInProgress
          /\ a_Status t' = StatusCompleted /\ agents (w_db w') !! id = Some (row_of_agent t')
          /\ length created = length outs
          /\ Forall (fun o => agents (w_db w') !! a_ID o = Some (row_of_agent o) /\ output_of_parent t' o) created
          /\ (forall i, i <> id -> i ∉ a_ID <$> created -> agents (w_db w') !! i = agents (w_db w) !! i))
  end.
Proof.
  intros Hk (_ & Hnd & Hnew) Hrun. pose proof (CompleteAndOut_runs id who tok res outs w) as H.
  unfold runs, wp in H. rewrite Hrun in H.
  destruct H as (_ & _ & [((e & ? & ? & -> & _) & H1 & H2)|H]); [done|].
  unfold complete_and_out_effect in H.
  destruct (identity_error who tok) eqn:Hi; [by destruct H as (-> & ? & ?)|].
  apply identity_error_None in Hi as [Hw Ht].
  destruct (found _ _ _) as [t|] eqn:Hf; [|by destruct H as (-> & ? & ?)]. cbn [mbind result_bind] in H.
  destruct (found_spec _ _ _ _ Hk Hf) as (row & Hrow & _ & _ & Hid & _).
  rewrite (found_status _ _ _ _ Hk Hf).
  destruct (decide (a_Status t = StatusCompleted)).
  { destruct (CompletionTokenMatches t tok); [|by destruct H as (-> & ? & ?)].
    destruct H as (-> & ? & _). by left. }
  destruct (lease_error _ _ _ _) eqn:Hl; [by destruct H as (-> & ? & ?)|].
  apply lease_error_None in Hl as (L1 & _ & _).
  destruct (insert_event_stmt _ _) as [d1|] eqn:Hins; [|by destruct H as (-> & ? & ?)].
  cbn [mbind result_bind] in H.
  destruct (write_outputs _ d1) as [d2|] eqn:Hwr; [|by destruct H as (-> & ? & ?)].
  destruct H as (-> & -> & _). right. apply insert_event_abs in Hins as [Ha _].
  destruct (completed_completion t who tok (default ∅ res) (clock_at (S (w_clock w))) Hw Ht) as (C1 & C2 & _).
  apply write_outputs_lookup in Hwr as [W1 W2]; [|by rewrite outputs_of_ids].
  set (t' := sync_namespace _) in *. set (os := outputs_of _ _ _ _ _) in *.
  assert (Hout : forall i, i ∈ a_ID <$> os.*1 -> agents (w_db w) !! i = None).
  { intros i. unfold os. rewrite outputs_of_ids. intros Hin. rewrite Forall_forall in Hnew. by apply Hnew. }
  assert (Hag : agents d1 = <[id := row_of_agent t']> (agents (w_db w))).
  { rewrite Ha. unfold update_stmt. simpl. by rewrite C1, Hid, Hrow. }
  split_and!; [done|done| |apply outputs_length| |].
  - rewrite W2, Hag, lookup_insert_eq; [done|]. intros Hin. by rewrite (Hout _ Hin) in Hrow.
  - apply Forall_forall. intros o Ho. split; [by apply W1|].
    pose proof (outputs_linked t' who (S (w_uuid w)) (S (S (w_clock w))) outs) as HL.
    rewrite Forall_forall in HL. by apply HL.
  - intros i Hne Hn. by rewrite W2, Hag, lookup_insert_ne.
Qed.

(** ** Reading back *)

(** An agent as the table keeps it: instants to the millisecond, a TTL in
    whole milliseconds, the payload as JSON, no shard. *)
Definition rounded (t : Agent) : Agent :=
  let instant z := if Time.IsZero z then Time.zero_time else Time.of_UnixMilli (Time.UnixMilli z) in
  {| a_ID := a_ID t; a_Kind := a_Kind t; a_Status := a_Status t; a_ShardID := "";
     a_Payload := (fun m : gmap string any => json_value <$> m) <$> a_Payload t;
     a_Tags := a_Tags t; a_Owner := a_Owner t; a_ParentID := a_ParentID t; a_TraceID := a_TraceID t;
     a_NamespaceID := a_NamespaceID t;
     a_TTL := Time.Milliseconds (a_TTL t) * Time.Millisecond;
     a_CreatedAt := Time.of_UnixMilli (Time.UnixMilli (a_CreatedAt t));
     a_UpdatedAt := Time.of_UnixMilli (Time.UnixMilli (a_UpdatedAt t));
     a_OwnerTime := instant (a_OwnerTime t); a_LeaseToken := a_LeaseToken t;
     a_LeaseUntil := instant (a_LeaseUntil t); a_Version := a_Version t; a_Metadata := a_Metadata t |}.

Lemma sync_namespace_agrees t :
  omget (a_Metadata (sync_namespace t)) NamespaceMetadataKey = a_NamespaceID (sync_namespace t).
Proof.
  destruct t as [? ? ? ? ? ? ? ? ? ns ? ? ? ? ? ? ? m]. unfold sync_namespace. simpl.
  destruct (decide (ns <> "")%string) as [|Hn]; simpl; [by rewrite mget_insert_eq|].
  case_decide as Hm; [done|]. simpl. apply dec_stable in Hn. congruence.
Qed.

Lemma ttl_exact z : in_int64 z ->
  int64 (Time.Milliseconds z * Time.Millisecond) = Time.Milliseconds z * Time.Millisecond.
Proof.
  intros H. apply int64_small. unfold in_int64, Time.Milliseconds, Time.Millisecond, min_int64, max_int64 in *.
  pose proof (Z.quot_rem z 1000000) as Hq. pose proof (Z.rem_bound_abs z 1000000) as Hb.
  pose proof (Z.rem_sign_nz z 1000000) as Hsg.
  destruct (Z.eq_dec (Z.rem z 1000000) 0) as [He|He]; [lia|].
  specialize (Hsg ltac:(lia) He). lia.
Qed.

Lemma scan_row_of_agent t :
  omget (a_Metadata t) NamespaceMetadataKey = a_NamespaceID t -> in_int64 (a_TTL t) ->
  scanSQLiteAgent (row_of_agent t) = Ok (rounded t).
Proof.
  intros Hns Httl. unfold scanSQLiteAgent, row_of_agent.
  cbn [r_id r_kind r_status r_payload r_tags r_owner r_parent_id r_trace_id r_ttl_ms r_created_at_ms
       r_updated_at_ms r_owner_time_ms r_lease_token r_lease_until_ms r_version r_metadata].
  rewrite unmarshal_marshal_payload, unmarshal_marshal_metadata, Hns, ttl_exact by done.
  rewrite unmarshal_marshal_tags. unfold rounded, nullable_ms, null_time.
  by destruct (Time.IsZero (a_OwnerTime t)), (Time.IsZero (a_LeaseUntil t)).
Qed.

Lemma out_outcome t w r w' :
  FreshIds E -> fault_free E -> ids_fresh w -> Out t w = (r, w') ->
  let t' := sync_namespace (filled (w_uuid w) (w_clock w) t) in
  r = Ok t' /\ agents (w_db w') = <[a_ID t' := row_of_agent t']> (agents (w_db w)).
Proof.
  intros HI HF Hfr Hrun t'.
  pose proof (runs_quiet _ _ _ _ _ (Out_runs t w) HF Hrun) as H. unfold out_effect in H.
  rewrite insert_event_fresh in H by (cbn; apply Hfr; lia). fold t' in H.
  by destruct H as (-> & -> & _).
Qed.

Lemma get_outcome id w r w' row :
  fault_free E -> agents (w_db w) !! id = Some row ->
  live (Time.UnixMilli (clock_at (w_clock w))) row = true ->
  Get id w = (r, w') -> r = scanSQLiteAgent row /\ w_db w' = w_db w.
Proof.
  intros HF Hrow Hl Hrun. pose proof (runs_quiet _ _ _ _ _ (Get_runs id w) HF Hrun) as H.
  unfold found in H. rewrite Hrow, Hl in H.
  destruct (scanSQLiteAgent row) as [t|e]; cbn in H; by destruct H as (-> & -> & _).
Qed.

Lemma out_get_outcome t w r w1 r2 w2 :
  FreshIds E -> fault_free E -> ids_fresh w -> Out t w = (r, w1) -> in_int64 (a_TTL t) ->
  let t' := sync_namespace (filled (w_uuid w) (w_clock w) t) in
  live (Time.UnixMilli (clock_at (w_clock w1))) (row_of_agent t') = true ->
  Get (a_ID t') w1 = (r2, w2) ->
  r = Ok t' /\ r2 = Ok (rounded t').
Proof.
  intros HI HF Hfr Hrun Httl t' Hl Hget.
  destruct (out_outcome t w r w1 HI HF Hfr Hrun) as [Hr Ha]. fold t' in Hr, Ha. split; [done|].
  destruct (get_outcome (a_ID t') w1 r2 w2 (row_of_agent t')) as [-> _]; try done.
  { by rewrite Ha, lookup_insert_eq. }
  apply scan_row_of_agent; [apply sync_namespace_agrees|].
  unfold t'. destruct (sync_other (filled (w_uuid w) (w_clock w) t)) as (_ & _ & _ & _ & _ & _ & _ & _ & _ & -> & _).
  clear - Httl. unfold filled, out_defaults.
  destruct t as [? ? ? ? ? ? ? ? ? ? ? ? ? ? ? ? v []]; cbn in *; by case_decide.
Qed.

(** ** Renewal *)

Lemma renew_outcome id who tok dur w r w' row t :
  fault_free E -> keyed (w_db w) -> who <> ""%string -> tok <> ""%string ->
  agents (w_db w) !! id = Some row -> live (Time.UnixMilli (clock_at (w_clock w))) row = true ->
  scanSQLiteAgent row = Ok t -> RenewLease id who tok dur w = (r, w') ->
  let now_ := clock_at (S (w_clock w)) in
  match lease_error "renew" t who tok with
  | Some e => r = Err e /\ w_db w' = w_db w
  | None => exists t', r = Ok t' /\ agents (w_db w') = <[id := row_of_agent t']> (agents (w_db w))
      /\ a_LeaseUntil t' = now_ + (if decide (dur <= 0) then leaseDurationForAgent t else dur)
      /\ a_OwnerTime t' = now_ /\ a_Status t' = StatusInProgress /\ a_Owner t' = who
      /\ a_LeaseToken t' = tok /\ a_Version t' = a_Version t /\ a_Payload t' = a_Payload t
  end.
Proof.
  intros HF Hk Hw Ht Hrow Hlive Hs Hrun now_.
  pose proof (runs_quiet _ _ _ _ _ (Renew_runs id who tok dur w) HF Hrun) as H.
  unfold renew_effect, identity_error in H. rewrite !decide_False in H by done.
  assert (Hf : found id (Time.UnixMilli (clock_at (w_clock w))) (w_db w) = Ok t)
    by (unfold found; by rewrite Hrow, Hlive). rewrite Hf in H. cbn [mbind result_bind] in H.
  destruct (found_spec _ _ _ _ Hk Hf) as (_ & _ & _ & _ & Hid & _).
  destruct (lease_error _ _ _ _) as [e|] eqn:Hl; [naive_solver|].
  apply lease_error_None in Hl as (L1 & L2 & L3). fold now_ in H.
  destruct H as (-> & -> & _). set (d := if decide _ then _ else _). eexists. split; [done|].
  pose proof (ID_renewed t d now_) as HID. rewrite Hid in HID.
  destruct (sync_lease (renewed_agent t d now_)) as (_ & -> & -> & ->).
  destruct (sync_other (renewed_agent t d now_)) as (-> & -> & -> & -> & _).
  rewrite (update_stmt_found _ row) by (rewrite HID; exact Hrow).
  split; [cbn [agents]; by rewrite HID|]. clear - L1 L2 L3. by destruct t.
Qed.

End Quiet.

(** ** Deciding the invariants of a concrete store *)

Definition keyed_check (d : DB) : bool :=
  forallb (fun '(id, r) => bool_decide (r_id r = id)) (map_to_list (agents d)).
Definition decodable_check (d : DB) : bool :=
  forallb (fun '(_, r) => is_ok (scanSQLiteAgent r)) (map_to_list (agents d)).

Lemma keyed_checked d : keyed_check d = true -> keyed d.
Proof.
  intros H id r Hr. unfold keyed_check in H. rewrite forallb_forall in H.
  specialize (H (id, r)). rewrite <- list_elem_of_In, elem_of_map_to_list in H.
  specialize (H Hr). by apply bool_decide_eq_true in H.
Qed.

Lemma decodable_checked d : decodable_check d = true -> decodable d.
Proof.
  intros H id r Hr. unfold decodable_check in H. rewrite forallb_forall in H.
  specialize (H (id, r)). rewrite <- list_elem_of_In, elem_of_map_to_list in H.
  specialize (H Hr). simpl in H. destruct (scanSQLiteAgent r); [by eauto|done].
Qed.

(** Every logged event carries an identifier drawn before. *)
Definition ids_check `{E : Env} (w : World DB) : bool :=
  forallb (fun i => existsb (fun j => bool_decide (i = uuid_at j)) (seq 0 (w_uuid w))) (event_ids (w_db w)).

Lemma ids_checked `{E : Env} w : FreshIds E -> ids_check w = true -> ids_fresh w.
Proof.
  intros HI H k Hk Hin. unfold ids_check in H. rewrite forallb_forall in H.
  specialize (H _ (proj1 (list_elem_of_In _ _) Hin)). apply existsb_exists in H as (j & Hj & He).
  apply bool_decide_eq_true, uuid_inj in He. apply in_seq in Hj. lia.
Qed.

(** ** The theorems *)

Section Claims.
Context `{E : Env} `{Srt : SqlOrder}.
Implicit Types w : World DB.

(** C6: take claims the oldest eligible agent.  Without failing calls,
    [Take] with a query answers nothing, and changes nothing, exactly when no
    live NEW agent matches the query; otherwise it answers an eligible agent
    such that no eligible agent was created earlier, now IN_PROGRESS under the
    caller, with a token drawn for this claim, the lease its metadata asks for
    and its version raised by one, and stores exactly that change. *)
Theorem Take_claims_oldest q w r w' :
  FreshIds E -> fault_free E -> keyed (w_db w) -> decodable (w_db w) -> ids_fresh w ->
  take_refused (Some q) = false -> Take (Some q) w = (r, w') ->
  let nowMs := Time.UnixMilli (clock_at (w_clock w)) in
  (r = Ok None /\ w_db w' = w_db w /\ (forall row t, ~ eligible q nowMs (w_db w) row t))
  \/ exists row t, eligible q nowMs (w_db w) row t
     /\ (forall row2 t2, eligible q nowMs (w_db w) row2 t2 -> r_created_at_ms row <= r_created_at_ms row2)
     /\ let t' := claimed_agent t (query_agent_id (Some q)) (uuid_at (w_uuid w)) (clock_at (S (w_clock w))) in
        r = Ok (Some t')
        /\ agents (w_db w') = <[r_id row := claim_row t' row]> (agents (w_db w)).
Proof. apply take_outcome. Qed.

(** Every branch of a completion.  Without failing calls, completing a
    live agent answers: for a COMPLETED one, the agent itself if the token is
    the one recorded by its completion and a stale-token error otherwise; else
    the error of the first guard that fails, in the order status, owner, token;
    else the agent, completed: unowned, with the result in its payload, the
    completion recorded in its metadata and its version raised by one.  Only
    the last case changes the table, and only this row. *)
Theorem CompleteAndGet_branches id who tok res w r w' row t :
  FreshIds E -> fault_free E -> keyed (w_db w) -> ids_fresh w ->
  who <> ""%string -> tok <> ""%string ->
  agents (w_db w) !! id = Some row -> live (Time.UnixMilli (clock_at (w_clock w))) row = true ->
  scanSQLiteAgent row = Ok t ->
  CompleteAndGet id who tok res w = (r, w') ->
  if decide (a_Status t = StatusCompleted) then
    r = (if CompletionTokenMatches t tok then Ok t else Err EStaleToken) /\ w_db w' = w_db w
  else match lease_error "complete" t who tok with
  | Some e => r = Err e /\ w_db w' = w_db w
  | None => exists t', r = Ok t' /\ completion_of t t' who tok (default ∅ res)
            /\ agents (w_db w') = <[id := row_of_agent t']> (agents (w_db w))
  end.
Proof. apply complete_outcome. Qed.

(** C7: completion and outputs come together.  Under any failing calls,
    [CompleteAndOut] either changes and announces nothing, or completes the
    agent and stores every output, each with a status, linked to the completed
    agent and its trace, leaving every other agent alone; a replay creates
    nothing. *)
Theorem CompleteAndOut_all_or_nothing id who tok res outs w r w' :
  keyed (w_db w) -> well_formed (RqCompleteAndOut id who tok res outs) w ->
  CompleteAndOut id who tok res outs w = (r, w') ->
  match r with
  | Err _ => w_db w' = w_db w /\ w_notified w' = w_notified w
  | Ok (t', created) =>
      (status_of id (w_db w) = StatusCompleted /\ created = [] /\ w_db w' = w_db w)
      \/ (status_of id (w_db w) = StatusInProgress
          /\ a_Status t' = StatusCompleted /\ agents (w_db w') !! id = Some (row_of_agent t')
          /\ length created = length outs
          /\ Forall (fun o => agents (w_db w') !! a_ID o = Some (row_of_agent o) /\ output_of_parent t' o) created
          /\ (forall i, i <> id -> i ∉ a_ID <$> created -> agents (w_db w') !! i = agents (w_db w) !! i))
  end.
Proof. apply complete_and_out_outcome. Qed.

(** C8: a created agent reads back.  Without failing calls, an agent written
    with [Out] and still live is what [Get] answers next, with its defaults
    filled in and its namespace in its metadata, its instants rounded down to
    the millisecond, its TTL to whole milliseconds and its payload as JSON. *)
Theorem Out_then_Get t w r w1 r2 w2 :
  FreshIds E -> fault_free E -> ids_fresh w -> Out t w = (r, w1) -> in_int64 (a_TTL t) ->
  let t' := sync_namespace (filled (w_uuid w) (w_clock w) t) in
  live (Time.UnixMilli (clock_at (w_clock w1))) (row_of_agent t') = true ->
  Get (a_ID t') w1 = (r2, w2) ->
  r = Ok t' /\ r2 = Ok (rounded t').
Proof. apply out_get_outcome. Qed.

(** Renewal extends the caller's own lease and nothing else.  Without
    failing calls, renewing a live agent answers the error of the first guard
    that fails, or moves the lease to the requested duration from now (the one
    the agent's metadata asks for when the request is not positive), keeping
    status, owner, token, version and payload. *)
Theorem RenewLease_extends id who tok dur w r w' row t :
  fault_free E -> keyed (w_db w) -> who <> ""%string -> tok <> ""%string ->
  agents (w_db w) !! id = Some row -> live (Time.UnixMilli (clock_at (w_clock w))) row = true ->
  scanSQLiteAgent row = Ok t -> RenewLease id who tok dur w = (r, w') ->
  let now_ := clock_at (S (w_clock w)) in
  match lease_error "renew" t who tok with
  | Some e => r = Err e /\ w_db w' = w_db w
  | None => exists t', r = Ok t' /\ agents (w_db w') = <[id := row_of_agent t']> (agents (w_db w))
      /\ a_LeaseUntil t' = now_ + (if decide (dur <= 0) then leaseDurationForAgent t else dur)
      /\ a_OwnerTime t' = now_ /\ a_Status t' = StatusInProgress /\ a_Owner t' = who
      /\ a_LeaseToken t' = tok /\ a_Version t' = a_Version t /\ a_Payload t' = a_Payload t
  end.
Proof. apply renew_outcome. Qed.

End Claims.

(** ** Witnesses *)

(** Two jobs and a mail, the mail first. *)
Definition stocked : World DB :=
  (@perform_all quiet MergeSqlOrder
     [RqOut (offer "m" "mail" [] ∅); RqOut (offer "a" "job" ["urgent"] ∅); RqOut (offer "b" "job" [] ∅)]
     (start empty_db)).1.

Definition urgent_job : Query := MkQuery "job" "" ["urgent"] "" "" "" "" "alice" None 0 0.

(** The urgent job after alice took it. *)
Definition taken : World DB := (@Take quiet MergeSqlOrder (Some urgent_job) stocked).2.

Lemma stocked_ok :
  keyed (w_db stocked) /\ decodable (w_db stocked) /\ ids_fresh (E := quiet) stocked.
Proof.
  split_and!; [apply keyed_checked|apply decodable_checked|apply ids_checked; [exact (demo_fresh [])|]];
    vm_compute; reflexivity.
Qed.

Lemma taken_ok : keyed (w_db taken) /\ ids_fresh (E := quiet) taken.
Proof.
  split; [apply keyed_checked|apply ids_checked; [exact (demo_fresh [])|]]; vm_compute; reflexivity.
Qed.

Lemma Take_claims_oldest_witness :
  exists t w', @Take quiet MergeSqlOrder (Some (by_kind "job" "alice")) stocked = (Ok (Some t), w')
  /\ a_ID t = "a"%string
  /\ exists row t0, eligible (by_kind "job" "alice") 1700000000009 (w_db stocked) row t0
     /\ (forall row2 t2, eligible (by_kind "job" "alice") 1700000000009 (w_db stocked) row2 t2 ->
         r_created_at_ms row <= r_created_at_ms row2).
Proof.
  destruct (@Take quiet MergeSqlOrder (Some (by_kind "job" "alice")) stocked) as [r w'] eqn:Hrun.
  pose proof (@Take_claims_oldest quiet MergeSqlOrder (by_kind "job" "alice") stocked r w' (demo_fresh [])
    quiet_fault_free (proj1 stocked_ok) (proj1 (proj2 stocked_ok)) (proj2 (proj2 stocked_ok))
    eq_refl Hrun) as H.
  cbn zeta in H. replace (Time.UnixMilli _) with 1700000000009 in H by (vm_compute; reflexivity).
  assert (Hv : exists t, r = Ok (Some t) /\ a_ID t = "a"%string).
  { replace r with (@Take quiet MergeSqlOrder (Some (by_kind "job" "alice")) stocked).1
      by (rewrite Hrun; reflexivity). eexists. vm_compute. split; reflexivity. }
  destruct Hv as (t & -> & Ht). exists t, w'. split; [reflexivity|]. split; [exact Ht|].
  destruct H as [(H & _)|(row & t0 & H1 & H2 & _)]; [discriminate H|]. exists row, t0. split; assumption.
Defined.

Lemma CompleteAndGet_branches_witness :
  exists t' w', @CompleteAndGet quiet "a" "alice" "u3" None taken = (Ok t', w')
  /\ a_Status t' = StatusCompleted /\ CompletionTokenMatches t' "u3" = true.
Proof.
  destruct (agents (w_db taken) !! "a"%string) as [row|] eqn:Hrow; [|vm_compute in Hrow; discriminate Hrow].
  assert (Hl : live (Time.UnixMilli (clock_at (Env := quiet) (w_clock taken))) row = true).
  { vm_compute in Hrow. injection Hrow as <-. vm_compute. reflexivity. }
  destruct (scanSQLiteAgent row) as [t|] eqn:Hs;
    [|vm_compute in Hrow; injection Hrow as <-; vm_compute in Hs; discriminate Hs].
  destruct (@CompleteAndGet quiet "a" "alice" "u3" None taken) as [r w'] eqn:Hrun.
  pose proof (@CompleteAndGet_branches quiet "a" "alice" "u3" None taken r w' row t (demo_fresh [])
    quiet_fault_free (proj1 taken_ok) (proj2 taken_ok)
    ltac:(discriminate) ltac:(discriminate) Hrow Hl Hs Hrun) as H.
  vm_compute in Hrow. injection Hrow as <-. vm_compute in Hs. injection Hs as <-.
  match type of H with if ?d then _ else _ => destruct d as [e|_]; [vm_compute in e; discriminate e|] end.
  match type of H with match ?l with _ => _ end =>
    destruct l as [x|] eqn:Hle; [vm_compute in Hle; discriminate Hle|] end.
  destruct H as (t' & -> & (_ & H1 & _ & _ & _ & _ & _ & H2 & _) & _).
  exists t', w'. split; [reflexivity|]. split; [exact H1|exact H2].
Defined.

Lemma CompleteAndOut_all_or_nothing_witness :
  exists t' o w', @CompleteAndOut quiet "a" "alice" "u3" None [offer "" "next" [] ∅] taken = (Ok (t', [o]), w')
  /\ agents (w_db w') !! "a"%string = Some (row_of_agent t') /\ agents (w_db w') !! a_ID o = Some (row_of_agent o).
Proof.
  destruct (@CompleteAndOut quiet "a" "alice" "u3" None [offer "" "next" [] ∅] taken) as [r w'] eqn:Hrun.
  pose proof (@CompleteAndOut_all_or_nothing quiet "a" "alice" "u3" None [offer "" "next" [] ∅] taken r w'
    (proj1 taken_ok)) as H.
  assert (Hv : exists t' o, r = Ok (t', [o])).
  { replace r with (@CompleteAndOut quiet "a" "alice" "u3" None [offer "" "next" [] ∅] taken).1
      by (rewrite Hrun; reflexivity). eexists _, _. vm_compute. reflexivity. }
  destruct Hv as (t' & o & ->). destruct H as [(H & _)|(_ & _ & H1 & _ & H2 & _)].
  - split; [|split].
    + constructor; [split; [right; reflexivity|split; reflexivity]|constructor].
    + vm_compute. repeat constructor. intros H0. inversion H0.
    + vm_compute. repeat constructor.
  - exact Hrun.
  - vm_compute in H. discriminate H.
  - exists t', o, w'. split; [reflexivity|]. split; [exact H1|]. inversion H2 as [|? ? [H3 _] _]. exact H3.
Defined.

Lemma Out_then_Get_witness :
  exists t w1 w2, @Out quiet (offer "x" "job" ["t"] ∅) (start empty_db) = (Ok t, w1)
  /\ @Get quiet "x" w1 = (Ok (rounded t), w2).
Proof.
  destruct (@Out quiet (offer "x" "job" ["t"] ∅) (start empty_db)) as [r w1] eqn:Hout.
  destruct (@Get quiet "x" w1) as [r2 w2] eqn:Hget.
  destruct (@Out_then_Get quiet (offer "x" "job" ["t"] ∅) (start empty_db) r w1 r2 w2 (demo_fresh [])
    quiet_fault_free (ids_checked (E := quiet) (start empty_db) (demo_fresh []) eq_refl) Hout) as [-> ->].
  - split; vm_compute; discriminate.
  - vm_compute in Hout. injection Hout as <- <-. vm_compute. reflexivity.
  - exact Hget.
  - eexists _, w1, w2. split; [reflexivity|exact Hget].
Defined.

Lemma RenewLease_extends_witness :
  exists t' w', @RenewLease quiet "a" "alice" "u3" (7 * Time.Minute) taken = (Ok t', w')
  /\ a_LeaseUntil t' = a_OwnerTime t' + 7 * Time.Minute /\ a_LeaseToken t' = "u3"%string.
Proof.
  destruct (agents (w_db taken) !! "a"%string) as [row|] eqn:Hrow; [|vm_compute in Hrow; discriminate Hrow].
  assert (Hl : live (Time.UnixMilli (clock_at (Env := quiet) (w_clock taken))) row = true).
  { vm_compute in Hrow. injection Hrow as <-. vm_compute. reflexivity. }
  destruct (scanSQLiteAgent row) as [t|] eqn:Hs;
    [|vm_compute in Hrow; injection Hrow as <-; vm_compute in Hs; discriminate Hs].
  destruct (@RenewLease quiet "a" "alice" "u3" (7 * Time.Minute) taken) as [r w'] eqn:Hrun.
  pose proof (@RenewLease_extends quiet "a" "alice" "u3" (7 * Time.Minute) taken r w' row t
    quiet_fault_free (proj1 taken_ok) ltac:(discriminate) ltac:(discriminate) Hrow Hl Hs Hrun) as H.
  vm_compute in Hrow. injection Hrow as <-. vm_compute in Hs. injection Hs as <-.
  cbn zeta in H.
  match type of H with match ?l with _ => _ end =>
    destruct l as [x|] eqn:Hle; [vm_compute in Hle; discriminate Hle|] end.
  destruct H as (t' & -> & _ & H1 & H2 & _ & _ & H3 & _).
  exists t', w'. split; [reflexivity|]. rewrite H2. split; [exact H1|exact H3].
Defined.
