(* ===== verification/SqliteReads.v ===== *)
(** * SQLite: queries, the reaper, the graph and polling

    What the reading operations answer, which agents a reaper pass takes back,
    that the graph traversal and the polling loops end and what they return. *)

From S2P Require Import Prelude GoLib Agent Common Effects Sql Scenario Lease SharedLease SqliteRows SqliteQuery SqliteLifecycle SqliteCore SqliteEvents SqliteReaper SqliteRefine SqliteDag SqliteBehaviour.
From stdpp Require Import gmap strings list fin_maps fin_map_dom sorting relations.
From Stdlib Require Import ZArith Lia.

Open Scope Z_scope.

(** A database call when none fails. *)
Ltac quiet_call HF :=
  apply wp_call; [let H := fresh in intros ? H; by rewrite HF in H|intros _].

Section Facts.
Context `{E : Env} `{Srt : SqlOrder}.
Implicit Types w : World DB.

(** ** Counting *)

Lemma count_matching query nowMs cs nf d :
  buildSQLiteWhereClauses query false nowMs = (cs, nf) -> decodable d ->
  (if nf then match select_agents cs None None d with
              | Ok rows => Z.of_nat (length (scan_rows true query rows))
              | Err _ => 0
              end
   else select_count cs d) = Z.of_nat (length (matching nowMs query d)).
Proof.
  intros Hb Hd. destruct (selected_matching query nowMs cs nf d Hb Hd) as [Hp _].
  rewrite <- (Permutation_length Hp). destruct nf; [done|].
  unfold select_count, order_asc. f_equal.
  assert (HF : Forall (fun r => is_Some (keep false query r))
    (filter (fun r => forallb (sat r) cs) (map_to_list (agents d)).*2)).
  { apply Forall_forall. intros r [_ ([i r'] & -> & Hi%elem_of_map_to_list)%list_elem_of_fmap]%list_elem_of_filter.
    destruct (Hd _ _ Hi) as [t Ht]. unfold keep. cbn [snd]. rewrite Ht. simpl. eauto. }
  rewrite (Permutation_length (omap_Permutation (keep false query) _ _ (sql_sort_perm r_created_at_ms _))).
  clear Hp. induction HF as [|r l [t Ht] HF IH]; [done|]. cbn [length]. rewrite IH.
  change (omap (keep false query) (r :: l)) with
    (match keep false query r with Some y => y :: omap (keep false query) l | None => omap (keep false query) l end).
  by rewrite Ht.
Qed.

Lemma count_outcome query w r w' :
  fault_free E -> decodable (w_db w) -> Count query w = (r, w') ->
  r = Ok (Z.of_nat (length (matching (Time.UnixMilli (clock_at (w_clock w))) query (w_db w)))) /\ w_db w' = w_db w.
Proof.
  intros HF Hd Hrun. refine (wp_run (Count query) (fun r w' => r = Ok _ /\ w_db w' = w_db w) w r w' _ Hrun).
  unfold Count. do 2 wp_step.
  set (nowMs := Time.UnixMilli (clock_at (w_clock w))).
  destruct (buildSQLiteWhereClauses query false nowMs) as [cs nf] eqn:Hb.
  pose proof (count_matching query nowMs cs nf (w_db w) Hb Hd) as Hc.
  destruct nf.
  - wp_step. quiet_call HF. unfold wp at 1. cbn -[select_agents] in Hc |- *.
    unfold select_agents in *. wp_step. quiet_call HF. unfold wp. cbn [w_db tick mret M_ret]. split; [f_equal; exact Hc|reflexivity].
  - quiet_call HF. unfold wp. cbn [w_db tick mret M_ret]. split; [f_equal; exact Hc|reflexivity].
Qed.

(** ** Event pages *)

Lemma query_events_outcome query w r w' evs :
  fault_free E -> log_of (w_db w) evs -> QueryEvents query w = (r, w') ->
  let q := default empty_event_query query in
  exists l, l ≡ₚ filter (event_matches q) evs /\ event_sorted q l
    /\ r = Ok (MkEventPage (logged <$> sql_window (Some (if decide (eq_Limit q <= 0) then 100 else eq_Limit q))
                                         (Some (Z.max 0 (eq_Offset q))) l)
                           (Z.of_nat (length l)) "").
Proof.
  intros HF Hlog Hrun q.
  eapply (wp_run (QueryEvents query) (fun r _ => exists l, l ≡ₚ filter (event_matches q) evs /\ event_sorted q l
    /\ r = Ok (MkEventPage (logged <$> sql_window (Some (if decide (eq_Limit q <= 0) then 100 else eq_Limit q))
                                         (Some (Z.max 0 (eq_Offset q))) l)
                           (Z.of_nat (length l)) ""))); [|exact Hrun].
  unfold QueryEvents. fold q. wp_step. quiet_call HF. unfold wp at 1. cbn [fst snd].
  wp_step. quiet_call HF. unfold wp at 1. wp_step. quiet_call HF. unfold wp. cbn [w_db tick mret M_ret].
  unfold log_of in Hlog. rewrite Hlog.
  rewrite (filter_row_of_event _ (event_matches q)) by apply event_clauses_spec.
  destruct (event_order_spec q (filter (event_matches q) evs)) as (l & H1 & H2 & H3).
  exists l. split_and!; [done|done|]. rewrite H1, fmap_window, scan_events_logged, length_fmap.
  rewrite (Permutation_length H2). replace (Z.max 0 (eq_Offset q)) with (if decide (eq_Offset q < 0) then 0 else eq_Offset q) by (case_decide; lia).
  done.
Qed.

(** ** The reaper *)

Lemma reap_outcome_rows w w' r nowMs :
  keyed (w_db w) -> reap_outcome nowMs (select_expired nowMs (w_db w)) w r w' ->
  forall id, agents (w_db w') !! id = agents (w_db w) !! id
    \/ exists row, agents (w_db w) !! id = Some row /\ lease_expired nowMs row = true
                   /\ agents (w_db w') !! id = Some (reap_row nowMs row).
Proof.
  intros Hk (_ & _ & ids & evs & evs' & Hsub & Ha & _) id.
  assert (Hnd : NoDup ids) by (eapply sublist_NoDup; [by apply (select_expired_NoDup nowMs)|done]).
  rewrite Ha, reaped_db_lookup by done. case_decide as Hin; [|by left].
  eapply sublist_subseteq in Hin; [|exact Hsub].
  apply list_elem_of_fmap in Hin as (ra & -> & Hra).
  apply elem_of_select_expired in Hra as (row & Hrow & Hx & _); [|done].
  right. exists row. by rewrite Hrow.
Qed.

Lemma reap_exact w w' r nowMs :
  FreshIds E -> fault_free E -> keyed (w_db w) -> ids_fresh w ->
  reap_outcome nowMs (select_expired nowMs (w_db w)) w r w' ->
  (forall id, agents (w_db w') !! id =
     match agents (w_db w) !! id with
     | Some row => Some (if lease_expired nowMs row then reap_row nowMs row else row)
     | None => None
     end)
  /\ exists evs, agent_events (w_db w') = agent_events (w_db w) ++ (row_of_event <$> evs)
     /\ w_notified w' = w_notified w ++ evs
     /\ e_TupleID <$> evs = ra_id <$> select_expired nowMs (w_db w)
     /\ Forall (fun e => e_Type e = EventReleased /\ e_AgentID e = "reaper"%string) evs.
Proof.
  intros HI HF Hk Hfr (_ & _ & ids & evs & evs' & Hsub & Ha & Hl & _ & _ & Hn & X).
  destruct (X HF HI Hfr) as (-> & -> & Hevs).
  pose proof (select_expired_NoDup nowMs (w_db w) Hk) as Hnd. split.
  - intros id. rewrite Ha, reaped_db_lookup by done. case_decide as Hin.
    + apply list_elem_of_fmap in Hin as (ra & -> & Hra).
      apply elem_of_select_expired in Hra as (row & Hrow & Hx & _); [|done]. by rewrite Hrow, Hx.
    + destruct (agents (w_db w) !! id) as [row|] eqn:Hrow; [|done].
      destruct (lease_expired nowMs row) eqn:Hx; [|done]. destruct Hin.
      apply list_elem_of_fmap. exists (reaped_of_row row). split; [simpl; symmetry; by apply Hk|].
      apply elem_of_select_expired; [done|]. exists row. split_and!; try done. simpl. by rewrite (Hk _ _ Hrow).
  - exists evs. split_and!; try done.
    + rewrite Hevs. rewrite fmap_imap. clear. generalize (w_uuid w). generalize (select_expired nowMs (w_db w)).
      intros l n. apply list_eq. intros i. rewrite list_lookup_imap, list_lookup_fmap. by destruct (l !! i).
    + rewrite Hevs. apply Forall_forall. intros e (i & ra & -> & _)%elem_of_lookup_imap. done.
Qed.

(** ** Polling *)

(** A poll that does not turn the clock back, as long as an invariant of the
    database holds that it keeps: the loop around it ends. *)
Lemma poll_loop_ends (I : DB -> Prop) poll deadline fuel N w :
  (forall w, I (w_db w) -> wp poll (fun _ w' => I (w_db w') /\ (w_clock w <= w_clock w')%nat) w) ->
  (forall n, (N <= n)%nat -> deadline <= clock_at n) ->
  I (w_db w) -> (0 < fuel)%nat -> (N < fuel + w_clock w)%nat ->
  wp (poll_loop poll deadline fuel) (fun r _ => r <> Ok None) w.
Proof.
  intros Hpoll Hlate. revert w. induction fuel as [|fuel IH]; intros w Hi H0 Hf; [lia|].
  cbn [poll_loop]. do 2 wp_step. case_decide as Hlt; [|by apply wp_fail].
  assert (w_clock w < N)%nat by (apply Nat.lt_nge; intros Hge; specialize (Hlate _ Hge); lia).
  wp_step. eapply wp_mono; [by apply Hpoll|]. cbn. intros [[a|]|e] w1 [Hi1 Hc]; [done| |done].
  apply wp_bind. unfold wp at 1. cbn. destruct (ctx_done_at _); [by apply wp_fail|].
  apply IH; cbn; [done|lia|lia].
Qed.

Lemma take_keeps query w :
  keyed (w_db w) -> wp (Take query) (fun _ w' => keyed (w_db w') /\ (w_clock w <= w_clock w')%nat) w.
Proof.
  intros Hk. pose proof (Take_runs query w Hk) as Hr. pose proof (take_simulates query w Hk) as Hs.
  unfold runs, wp in *. simpl in Hs. destruct (Take query w) as [r w'].
  destruct Hr as (_ & Hc & _). split; [|done]. destruct Hs as (Hk' & _). by destruct r.
Qed.

Lemma in_ends fuel query timeout N w :
  keyed (w_db w) -> (0 < fuel)%nat ->
  (forall n, (N <= n)%nat -> Time.Add (clock_at (w_clock w)) timeout <= clock_at n) ->
  (N < fuel + S (w_clock w))%nat ->
  wp (In_ fuel query timeout) (fun r _ => r <> Ok None) w.
Proof.
  intros Hk H0 Hlate Hf. unfold In_. do 2 wp_step.
  eapply (poll_loop_ends keyed); [apply take_keeps|exact Hlate|done|done|done].
Qed.

End Facts.

(** ** The theorems *)

Section Claims.
Context `{E : Env} `{Srt : SqlOrder}.
Implicit Types w : World DB.

(** C9: a query answers exactly the matching agents.  Without failing calls
    and with every row decodable, [Query] answers the requested page of the
    live agents that satisfy every criterion of the query, oldest first; SQL
    clauses and Go filters together decide the reference predicate, and paging
    in SQL equals paging in Go.  The one query it cannot express (an offset
    without a limit or a Go-side filter) is an error. *)
Theorem Query_answers_matching query w r w' :
  fault_free E -> decodable (w_db w) -> Query_ query w = (r, w') ->
  let nowMs := Time.UnixMilli (clock_at (w_clock w)) in
  match r with
  | Ok res => exists l, res = paginate (query_limit query) (query_offset query) l
              /\ l ≡ₚ matching nowMs query (w_db w)
              /\ StronglySorted (fun x y => a_CreatedAt x <= a_CreatedAt y) l
  | Err _ => offset_unsupported query nowMs
  end.
Proof.
  intros HF Hd Hrun nowMs. pose proof (Query_run query w) as H. unfold wp in H. rewrite Hrun in H.
  destruct H as (_ & _ & _ & [Hab| ->]); [by destruct (aborted_fault_free w r w' HF)|].
  by apply query_result_spec.
Qed.

(** A count is the length of the unpaginated answer: without failing
    calls and with every row decodable, [Count] answers the number of live
    agents that match, whether it counts in SQL or in Go. *)
Theorem Count_counts_matching query w r w' :
  fault_free E -> decodable (w_db w) -> Count query w = (r, w') ->
  r = Ok (Z.of_nat (length (matching (Time.UnixMilli (clock_at (w_clock w))) query (w_db w))))
  /\ w_db w' = w_db w.
Proof. apply count_outcome. Qed.

(** An event page.  Without failing calls, over a log written by the
    store, [QueryEvents] answers the requested window of the events that match
    every given criterion, newest first or, for one agent, oldest first, with
    the number of all matching events as the total. *)
Theorem QueryEvents_page query w r w' evs :
  fault_free E -> log_of (w_db w) evs -> QueryEvents query w = (r, w') ->
  let q := default empty_event_query query in
  exists l, l ≡ₚ filter (event_matches q) evs /\ event_sorted q l
    /\ r = Ok (MkEventPage (logged <$> sql_window (Some (if decide (eq_Limit q <= 0) then 100 else eq_Limit q))
                                         (Some (Z.max 0 (eq_Offset q))) l)
                           (Z.of_nat (length l)) "").
Proof. apply query_events_outcome. Qed.

(** The reaper takes back exactly the expired leases.  Without failing
    calls, a pass turns every IN_PROGRESS agent whose lease ran out into an
    unowned NEW one with its version raised, leaves every other agent as it is,
    and logs and announces one RELEASED event by "reaper" for each. *)
Theorem reaper_reaps_expired w r w' :
  FreshIds E -> fault_free E -> keyed (w_db w) -> ids_fresh w -> reapExpiredLeases w = (r, w') ->
  let nowMs := Time.UnixMilli (clock_at (w_clock w)) in
  (forall id, agents (w_db w') !! id =
     match agents (w_db w) !! id with
     | Some row => Some (if lease_expired nowMs row then reap_row nowMs row else row)
     | None => None
     end)
  /\ exists evs, agent_events (w_db w') = agent_events (w_db w) ++ (row_of_event <$> evs)
     /\ w_notified w' = w_notified w ++ evs
     /\ e_TupleID <$> evs = ra_id <$> select_expired nowMs (w_db w)
     /\ Forall (fun e => e_Type e = EventReleased /\ e_AgentID e = "reaper"%string) evs.
Proof.
  intros HI HF Hk Hfr Hrun nowMs. eapply reap_exact; try done.
  pose proof (reap_run w) as H. cbn zeta in H. unfold wp in H. by rewrite Hrun in H.
Qed.

(** The reaper never touches a lease in force.  Whatever database calls
    fail, after a pass each agent is as it was, or it was IN_PROGRESS with a
    lease that had run out and is now NEW and unowned. *)
Theorem reaper_spares_live_leases w r w' :
  keyed (w_db w) -> reapExpiredLeases w = (r, w') ->
  let nowMs := Time.UnixMilli (clock_at (w_clock w)) in
  forall id, agents (w_db w') !! id = agents (w_db w) !! id
    \/ exists row, agents (w_db w) !! id = Some row /\ lease_expired nowMs row = true
                   /\ agents (w_db w') !! id = Some (reap_row nowMs row).
Proof.
  intros Hk Hrun nowMs. eapply reap_outcome_rows; [done|].
  pose proof (reap_run w) as H. cbn zeta in H. unfold wp in H. by rewrite Hrun in H.
Qed.

(** C10: the graph traversal ends.  Whatever database calls fail, [GetDAG]
    returns after at most [n (n + 2) + 1] iterations on a table of [n] agents;
    every node it returns is a stored agent, every edge goes from the parent of
    a stored agent to that agent, and the database is untouched. *)
Theorem GetDAG_terminates fuel root w r w' :
  keyed (w_db w) -> agents (w_db w) !! ""%string = None -> (dag_fuel (w_db w) <= fuel)%nat ->
  GetDAG fuel root w = (r, w') ->
  w_db w' = w_db w /\ exists dag, r = Ok (Some dag)
    /\ (forall id n, dag_Nodes dag !! id = Some n -> is_Some (agents (w_db w) !! id) /\ n_TupleID n = id)
    /\ Forall (sound_edge (w_db w)) (dag_Edges dag).
Proof.
  intros Hk He Hf Hrun. unfold GetDAG in Hrun.
  pose proof (dag_loop_spec root fuel ∅ [root] (MkDAG ∅ []) w Hk He (dag_inv_start _ root)) as H.
  unfold wp in H. rewrite Hrun in H. destruct H as (Hd & _ & H). split; [done|].
  destruct r as [[dag|]|e]; [|pose proof (dag_measure_start (w_db w) root); lia|done].
  destruct H as (v & _ & _ & [H1 H2 _ _]). exists dag. split_and!; [done| |done].
  intros id n Hn. by destruct (H1 id n Hn) as (_ & ? & ?).
Qed.

(** C11: the graph is the connected component of the root.  Without failing
    calls, on a table whose rows all decode, have no TTL and are stored under
    their ids, none of them empty, and with the iterations C10 shows enough,
    [GetDAG] answers, and its nodes are exactly the stored agents connected
    to a stored root through parent links, followed in either direction. *)
Theorem GetDAG_component fuel root w r w' :
  fault_free E -> settled (w_db w) -> keyed (w_db w) -> agents (w_db w) !! ""%string = None ->
  (dag_fuel (w_db w) <= fuel)%nat -> GetDAG fuel root w = (r, w') ->
  exists dag, r = Ok (Some dag) /\ forall id,
    is_Some (dag_Nodes dag !! id) <->
    is_Some (agents (w_db w) !! root) /\ is_Some (agents (w_db w) !! id) /\ rtc (neighbor (w_db w)) root id.
Proof.
  intros HF Hs Hk He Hf Hrun. unfold GetDAG in Hrun.
  pose proof (dag_loop_spec root fuel ∅ [root] (MkDAG ∅ []) w Hk He (dag_inv_start _ root)) as H.
  unfold wp in H. rewrite Hrun in H. destruct H as (Hd & _ & H).
  destruct r as [[dag|]|e]; [|pose proof (dag_measure_start (w_db w) root); lia|done].
  destruct H as (v & _ & Hv & Hi). exists dag. split; [done|]. by eapply dag_closed.
Qed.

(** The blocking take ends.  If from some clock reading on the deadline
    has passed, [In] returns within as many iterations: it answers an agent or
    an error, never nothing. *)
Theorem In_ends fuel query timeout N w r w' :
  keyed (w_db w) -> (0 < fuel)%nat ->
  (forall n, (N <= n)%nat -> Time.Add (clock_at (w_clock w)) timeout <= clock_at n) ->
  (N < fuel + S (w_clock w))%nat -> In_ fuel query timeout w = (r, w') ->
  (exists t, r = Ok (Some t)) \/ exists e, r = Err e.
Proof.
  intros Hk H0 Hl Hf Hrun. pose proof (in_ends fuel query timeout N w Hk H0 Hl Hf) as H.
  unfold wp in H. rewrite Hrun in H. destruct r as [[t|]|e]; [by eauto|done|by eauto].
Qed.

End Claims.

(** ** Witnesses *)

Lemma Query_answers_matching_witness :
  exists res w', @Query_ quiet MergeSqlOrder (Some urgent_job) stocked = (Ok res, w')
  /\ a_ID <$> res = ["a"%string]
  /\ exists l, res = paginate 0 0 l
     /\ l ≡ₚ matching 1700000000009 (Some urgent_job) (w_db stocked)
     /\ StronglySorted (fun x y => a_CreatedAt x <= a_CreatedAt y) l.
Proof.
  destruct (@Query_ quiet MergeSqlOrder (Some urgent_job) stocked) as [r w'] eqn:Hrun.
  pose proof (@Query_answers_matching quiet MergeSqlOrder (Some urgent_job) stocked r w' quiet_fault_free
    (proj1 (proj2 stocked_ok)) Hrun) as H.
  cbn zeta in H. replace (Time.UnixMilli _) with 1700000000009 in H by (vm_compute; reflexivity).
  assert (Hv : exists res, r = Ok res /\ a_ID <$> res = ["a"%string]).
  { replace r with (@Query_ quiet MergeSqlOrder (Some urgent_job) stocked).1 by (rewrite Hrun; reflexivity).
    eexists. vm_compute. split; reflexivity. }
  destruct Hv as (res & -> & Hid). exists res, w'. split; [reflexivity|]. split; [exact Hid|exact H].
Defined.

Lemma Count_counts_matching_witness :
  exists w', @Count quiet MergeSqlOrder (Some (by_kind "job" "")) stocked = (Ok 2, w')
  /\ length (matching 1700000000009 (Some (by_kind "job" "")) (w_db stocked)) = 2%nat.
Proof.
  destruct (@Count quiet MergeSqlOrder (Some (by_kind "job" "")) stocked) as [r w'] eqn:Hrun.
  destruct (@Count_counts_matching quiet MergeSqlOrder (Some (by_kind "job" "")) stocked r w' quiet_fault_free
    (proj1 (proj2 stocked_ok)) Hrun) as [H _].
  replace (Time.UnixMilli _) with 1700000000009 in H by (vm_compute; reflexivity).
  assert (Hv : r = Ok 2).
  { replace r with (@Count quiet MergeSqlOrder (Some (by_kind "job" "")) stocked).1 by (rewrite Hrun; reflexivity).
    vm_compute. reflexivity. }
  exists w'. split; [rewrite Hv; reflexivity|]. rewrite Hv in H. revert H.
  generalize (matching 1700000000009 (Some (by_kind "job" "")) (w_db stocked)).
  intros l H. injection H as H. lia.
Defined.

(** The events announced so far are the log of a store that had no failure. *)
Lemma taken_log : log_of (w_db taken) (w_notified taken).
Proof. vm_compute. reflexivity. Qed.

Lemma QueryEvents_page_witness :
  exists page w', @QueryEvents quiet MergeSqlOrder (Some (MkEventQuery "a" "" "" "" 0 0 "")) taken = (Ok page, w')
  /\ ep_Total page = 2
  /\ exists l, l ≡ₚ filter (event_matches (MkEventQuery "a" "" "" "" 0 0 "")) (w_notified taken)
     /\ ep_Events page = logged <$> sql_window (Some 100) (Some 0) l.
Proof.
  destruct (@QueryEvents quiet MergeSqlOrder (Some (MkEventQuery "a" "" "" "" 0 0 "")) taken) as [r w'] eqn:Hrun.
  destruct (@QueryEvents_page quiet MergeSqlOrder (Some (MkEventQuery "a" "" "" "" 0 0 "")) taken r w'
    (w_notified taken) quiet_fault_free taken_log Hrun) as (l & H1 & _ & ->).
  eexists _, w'. split; [reflexivity|]. split.
  - cbn [ep_Total]. rewrite (Permutation_length H1). vm_compute. reflexivity.
  - exists l. split; [exact H1|reflexivity].
Defined.

(** A job whose lease lasts one millisecond, taken. *)
Definition overdue : World DB :=
  (@perform_all quiet MergeSqlOrder
     [RqOut (offer "a" "job" [] {["lease_ms" := "1"]}); RqOut (offer "b" "job" [] ∅);
      RqTake (Some (by_kind "job" "alice")); RqTake (Some (by_kind "job" "bob"))] (start empty_db)).1.

Lemma overdue_ok : keyed (w_db overdue) /\ ids_fresh (E := quiet) overdue.
Proof.
  split; [apply keyed_checked|apply ids_checked; [exact (demo_fresh [])|]]; vm_compute; reflexivity.
Qed.

Lemma reaper_reaps_expired_witness :
  exists w', @reapExpiredLeases quiet MergeSqlOrder overdue = (Ok tt, w')
  /\ status_of "a" (w_db w') = StatusNew /\ status_of "b" (w_db w') = StatusInProgress.
Proof.
  destruct (@reapExpiredLeases quiet MergeSqlOrder overdue) as [r w'] eqn:Hrun.
  destruct (@reaper_reaps_expired quiet MergeSqlOrder overdue r w' (demo_fresh []) quiet_fault_free
    (proj1 overdue_ok) (proj2 overdue_ok) Hrun) as [H _].
  assert (Hr : r = Ok tt).
  { replace r with (@reapExpiredLeases quiet MergeSqlOrder overdue).1 by (rewrite Hrun; reflexivity).
    vm_compute. reflexivity. }
  subst r. exists w'. split; [reflexivity|]. unfold status_of. rewrite !H.
  vm_compute. split; reflexivity.
Defined.

Lemma reaper_spares_live_leases_witness :
  exists r w', @reapExpiredLeases (demo_env [30%nat; 31%nat; 32%nat; 33%nat]) MergeSqlOrder overdue = (r, w')
  /\ agents (w_db w') !! "b"%string = agents (w_db overdue) !! "b"%string.
Proof.
  destruct (@reapExpiredLeases (demo_env [30%nat; 31%nat; 32%nat; 33%nat]) MergeSqlOrder overdue) as [r w'] eqn:Hrun.
  exists r, w'. split; [reflexivity|].
  destruct (@reaper_spares_live_leases (demo_env [30%nat; 31%nat; 32%nat; 33%nat]) MergeSqlOrder overdue r w'
    (proj1 overdue_ok) Hrun "b"%string) as [H|(row & H1 & H2 & _)]; [exact H|].
  exfalso. vm_compute in H1. injection H1 as <-. vm_compute in H2. discriminate H2.
Defined.

(** A parent with two children, and a stranger. *)
Definition family : World DB :=
  (@perform_all quiet MergeSqlOrder
     [RqOut (offer "p" "plan" [] ∅); RqOut (WithParentID "p" (offer "x" "job" [] ∅));
      RqOut (WithParentID "p" (offer "y" "job" [] ∅)); RqOut (offer "z" "job" [] ∅)] (start empty_db)).1.

Lemma family_ok : keyed (w_db family) /\ settled (w_db family) /\ agents (w_db family) !! ""%string = None.
Proof.
  split; [apply keyed_checked; vm_compute; reflexivity|]. split; [|vm_compute; reflexivity].
  split; [apply decodable_checked; vm_compute; reflexivity|].
  assert (H : forallb (fun '(_, r) => bool_decide (r_ttl_ms r = 0)) (map_to_list (agents (w_db family))) = true)
    by (vm_compute; reflexivity).
  intros id r Hr. rewrite forallb_forall in H. specialize (H (id, r)).
  rewrite <- list_elem_of_In, elem_of_map_to_list in H. by apply bool_decide_eq_true in H.
Qed.

Lemma GetDAG_terminates_witness :
  exists dag w', @GetDAG quiet MergeSqlOrder (dag_fuel (w_db family)) "p" family = (Ok (Some dag), w')
  /\ Forall (sound_edge (w_db family)) (dag_Edges dag).
Proof.
  destruct (@GetDAG quiet MergeSqlOrder (dag_fuel (w_db family)) "p" family) as [r w'] eqn:Hrun.
  destruct (@GetDAG_terminates quiet MergeSqlOrder (dag_fuel (w_db family)) "p" family r w'
    (proj1 family_ok) (proj2 (proj2 family_ok)) (le_n _) Hrun) as (_ & dag & -> & _ & H).
  exists dag, w'. split; [reflexivity|exact H].
Defined.

Lemma GetDAG_component_witness :
  exists dag w', @GetDAG quiet MergeSqlOrder (dag_fuel (w_db family)) "x" family = (Ok (Some dag), w')
  /\ is_Some (dag_Nodes dag !! "y"%string) /\ rtc (neighbor (w_db family)) "x" "y".
Proof.
  destruct (@GetDAG quiet MergeSqlOrder (dag_fuel (w_db family)) "x" family) as [r w'] eqn:Hrun.
  destruct (@GetDAG_component quiet MergeSqlOrder (dag_fuel (w_db family)) "x" family r w' quiet_fault_free
    (proj1 (proj2 family_ok)) (proj1 family_ok) (proj2 (proj2 family_ok)) (le_n _) Hrun) as (dag & -> & H).
  exists dag, w'. split; [reflexivity|].
  assert (Hn : is_Some (dag_Nodes dag !! "y"%string)).
  { assert (Hv : (@GetDAG quiet MergeSqlOrder (dag_fuel (w_db family)) "x" family).1 = Ok (Some dag))
      by (rewrite Hrun; reflexivity).
    vm_compute in Hv. injection Hv as <-. vm_compute. eexists. reflexivity. }
  split; [exact Hn|]. by apply H in Hn as (_ & _ & Hn).
Defined.

Lemma In_ends_witness :
  exists r w', @In_ quiet MergeSqlOrder 20 (Some (by_kind "none" "alice")) (8 * Time.Millisecond) (start empty_db) = (r, w')
  /\ ((exists t, r = Ok (Some t)) \/ exists e, r = Err e).
Proof.
  destruct (@In_ quiet MergeSqlOrder 20 (Some (by_kind "none" "alice")) (8 * Time.Millisecond) (start empty_db))
    as [r w'] eqn:Hrun.
  exists r, w'. split; [reflexivity|].
  apply (@In_ends quiet MergeSqlOrder 20 (Some (by_kind "none" "alice")) (8 * Time.Millisecond) 8
    (start empty_db) r w'); [apply keyed_checked; reflexivity|lia| |cbn; lia|exact Hrun].
  intros n Hn. cbv [clock_at quiet demo_env w_clock start Time.Add Time.Second Time.Millisecond]. lia.
Defined.
