(* ===== verification/PgRows.v ===== *)
(** * Postgres: tables, rows and the statements on them

    The tables of [src/pkg/store/migrations/postgres] and the helpers of
    [src/pkg/store/postgres/postgres_sql_helpers.go] and [config.go]:
    [timestamptz] columns in microseconds, [jsonb] columns holding any JSON
    value, the [queue], [namespace_id] and [shard_id] columns, the daily
    partitions of [agent_events], and the arithmetic the server does for a
    claim (the lease of a row, the next version).  A rejection by the server
    is [ESQL] with its SQLSTATE. *)

From S2P Require Import Prelude GoLib Agent Common Effects Sql.
From stdpp Require Import gmap strings list fin_maps sorting.
From Stdlib Require Import ZArith Lia Ascii.

Open Scope Z_scope.

(** ** Configuration *)

Inductive QueueClaimMode : Type := QueueClaimModeStrict | QueueClaimModeParallel.

#[export] Instance QueueClaimMode_eq_dec : EqDecision QueueClaimMode.
Proof. solve_decision. Defined.

(** The empty mode is strict. *)
Definition ParseQueueClaimMode (raw : string) : result gerror QueueClaimMode :=
  let mode := Strings.ToLower (Strings.TrimSpace raw) in
  if decide (mode = "")%string then Ok QueueClaimModeStrict
  else if decide (mode = "strict")%string then Ok QueueClaimModeStrict
  else if decide (mode = "parallel")%string then Ok QueueClaimModeParallel
  else Err (EInvalidMode raw).

(** The fields of [PostgresStore] the operations read. *)
Record PgStore : Type := MkPgStore {
  s_shardID : string;
  s_slimEvents : bool;
  s_deferEvents : bool;
  s_queueClaimMode : QueueClaimMode;
  s_leaseDuration : Z;
  s_prefetch : bool;
  s_eventBatchSize : nat;
  s_bufferSize : nat;
  s_batchSize : Z;
}.

(** ** Instants *)

Module Pg.

(** A [timestamptz] is a number of microseconds; [pgx] drops the rest of a
    [time.Time]. *)
Definition timestamptz (t : Z) : Z := t `div` Time.Microsecond.
Definition to_time (us : Z) : Z := us * Time.Microsecond.
Definition nullable (t : Z) : option Z := if Time.IsZero t then None else Some (timestamptz t).
Definition null_time (us : option Z) : Z :=
  match us with Some us => to_time us | None => Time.zero_time end.

Lemma timestamptz_to_time us : timestamptz (to_time us) = us.
Proof. unfold timestamptz, to_time, Time.Microsecond. by rewrite Z.div_mul. Qed.

(** SQLSTATE codes. *)
Definition numeric_value_out_of_range : string := "22003".
Definition datetime_field_overflow : string := "22008".
Definition invalid_parameter_value : string := "22023".
Definition invalid_text_representation : string := "22P02".
Definition unique_violation : string := "23505".
Definition no_partition : string := "23514".
Definition invalid_row_count_offset : string := "2201X".

(** [version + 1] on a [bigint]. *)
Definition succ (v : Z) : result gerror Z :=
  if decide (v + 1 <= max_int64) then Ok (v + 1) else Err (ESQL numeric_value_out_of_range).

(** [column ->> key]: the text of a string or number; the text of any other
    kind is not a run of digits, which is all the statements test for. *)
Definition text_of (column : gmap string any) (key : string) : option string :=
  match column !! key with
  | Some (VStr s) | Some (VNum s) => Some s
  | _ => None
  end.

(** The value of an entry that matches [^[0-9]+$]. *)
Definition digits_entry (column : gmap string any) (key : string) : option Z :=
  s ← text_of column key; Strconv.digits (bytes s).

End Pg.

(** What the statements rely on of the server.  Its arithmetic: adding a
    number of microseconds, computed as [bigint * interval], to an instant is
    exact up to 2{^53} microseconds (285 years), and may be rounded or out of
    range beyond.  Its collation: a total order on text, equal only for equal
    text, which the database's locale determines. *)
Class PgServer : Type := {
  plus_interval : Z -> Z -> option Z;
  plus_interval_exact now us :
    0 <= now <= 2 ^ 60 -> 0 <= us <= 2 ^ 53 -> plus_interval now us = Some (now + us);
  text_le : string -> string -> Prop;
  text_le_dec :: RelDecision text_le;
  text_le_trans :: Transitive text_le;
  text_le_total :: Total text_le;
  text_le_antisymm :: AntiSymm (=) text_le;
}.

(** ** Tables *)

(** A row of [agents] without its primary key, under which it is stored.  The
    [metadata] column is [jsonb] and holds an object: every statement of the
    store writes one, and the column's default is one. *)
Record PgRow : Type := MkPgRow {
  g_kind : string;
  g_status : string;
  g_payload : any;
  g_tags : list string;
  g_owner : string;
  g_parent_id : string;
  g_trace_id : string;
  g_queue : string;
  g_namespace_id : string;
  g_shard_id : option string;
  g_ttl_ms : Z;
  g_created_at : Z;
  g_updated_at : Z;
  g_owner_time : option Z;
  g_lease_token : string;
  g_lease_until : option Z;
  g_version : Z;
  g_metadata : gmap string any;
}.

Record PgEventRow : Type := MkPgEventRow {
  v_id : string;
  v_tuple_id : string;
  v_type : string;
  v_kind : string;
  v_timestamp : Z;
  v_agent_id : string;
  v_trace_id : string;
  v_version : Z;
  v_data : any;
  v_namespace_id : string;
  v_shard_id : string;
}.

(** [pg_partitions]: the days (counted from the epoch) for which
    [agent_events] has a partition. *)
Record PgDB : Type := MkPgDB {
  pg_agents : gmap string PgRow;
  pg_events : list PgEventRow;
  pg_partitions : list Z;
}.

(** ** Decoding *)

(** A row written before the [shard_id] column existed holds NULL there,
    which does not scan into a string. *)
Definition scanAgent (row : string * PgRow) : result gerror Agent :=
  let '(id, r) := row in
  match g_shard_id r with
  | None => Err (EDB "cannot scan NULL into *string")
  | Some shard =>
      match unmarshal_map (J (g_payload r)) with
      | Err e => Err e
      | Ok payload =>
          let metadata := unmarshal_metadata (J (VMap (g_metadata r))) in
          Ok {| a_ID := id;
                a_Kind := g_kind r;
                a_Status := g_status r;
                a_ShardID := shard;
                a_Payload := payload;
                a_Tags := g_tags r;
                a_Owner := g_owner r;
                a_ParentID := g_parent_id r;
                a_TraceID := g_trace_id r;
                a_NamespaceID := if decide (g_namespace_id r = "")%string
                                 then omget metadata NamespaceMetadataKey else g_namespace_id r;
                a_TTL := int64 (g_ttl_ms r * Time.Millisecond);
                a_CreatedAt := Pg.to_time (g_created_at r);
                a_UpdatedAt := Pg.to_time (g_updated_at r);
                a_OwnerTime := Pg.null_time (g_owner_time r);
                a_LeaseToken := g_lease_token r;
                a_LeaseUntil := Pg.null_time (g_lease_until r);
                a_Version := g_version r;
                a_Metadata := metadata |}
      end
  end.

Arguments scanAgent : simpl never.

Definition scanEvent (r : PgEventRow) : result gerror Event :=
  match unmarshal_map (J (v_data r)) with
  | Err e => Err e
  | Ok data =>
      Ok {| e_ID := v_id r;
            e_TupleID := v_tuple_id r;
            e_Type := v_type r;
            e_Kind := v_kind r;
            e_Timestamp := Pg.to_time (v_timestamp r);
            e_AgentID := v_agent_id r;
            e_Data := default ∅ data;
            e_TraceID := v_trace_id r;
            e_Version := v_version r |}
  end.

(** ** Encoding *)

Definition payload_json (p : option (gmap string any)) : any :=
  json_value (match p with Some m => VMap m | None => VNil end).
(** The metadata is never nil when it is written: the namespace step before
    makes it a map. *)
Definition metadata_json (m : option (gmap string string)) : gmap string any := VStr <$> default ∅ m.

(** The values [upsertAgent] and [updateAgentRow] bind, after the namespace
    and its metadata entry were made to agree.  A nil slice of tags, which the
    driver sends as NULL and the column refuses, is not told from an empty
    one. *)
Definition pg_row_of (t : Agent) : PgRow :=
  {| g_kind := a_Kind t;
     g_status := a_Status t;
     g_payload := payload_json (a_Payload t);
     g_tags := a_Tags t;
     g_owner := a_Owner t;
     g_parent_id := a_ParentID t;
     g_trace_id := a_TraceID t;
     g_queue := omget (a_Metadata t) QueueMetadataKey;
     g_namespace_id := a_NamespaceID t;
     g_shard_id := Some (a_ShardID t);
     g_ttl_ms := Time.Milliseconds (a_TTL t);
     g_created_at := Pg.timestamptz (a_CreatedAt t);
     g_updated_at := Pg.timestamptz (a_UpdatedAt t);
     g_owner_time := Pg.nullable (a_OwnerTime t);
     g_lease_token := a_LeaseToken t;
     g_lease_until := Pg.nullable (a_LeaseUntil t);
     g_version := a_Version t;
     g_metadata := metadata_json (a_Metadata t) |}.

Definition pg_event_row (e : Event) (namespaceID shardID : string) : PgEventRow :=
  {| v_id := e_ID e;
     v_tuple_id := e_TupleID e;
     v_type := e_Type e;
     v_kind := e_Kind e;
     v_timestamp := Pg.timestamptz (e_Timestamp e);
     v_agent_id := e_AgentID e;
     v_trace_id := e_TraceID e;
     v_version := e_Version e;
     v_data := json_value (VMap (e_Data e));
     v_namespace_id := namespaceID;
     v_shard_id := shardID |}.

(** ** Row changes of the statements *)

(** [(ttl_ms = 0 OR created_at + ttl_ms * interval '1 millisecond' > now())];
    [ttl_ms] comes from a Go duration, at most 2{^63} nanoseconds. *)
Definition ttlClause (now : Z) (r : PgRow) : bool :=
  bool_decide (g_ttl_ms r = 0) || bool_decide (now < g_created_at r + g_ttl_ms r * 1000).

Section Statements.
Context `{PgServer}.

(** One [WHEN] of the lease's [CASE]: digits that overflow the [bigint] cast
    or the interval fail the statement. *)
Definition lease_when (now : Z) (metadata : gmap string any) (key : string) (unit_ : Z)
    (otherwise : result gerror Z) : result gerror Z :=
  match Pg.digits_entry metadata key with
  | Some n =>
      if decide (max_int64 < n) then Err (ESQL Pg.numeric_value_out_of_range)
      else if decide (0 < n) then
        match plus_interval now (n * unit_) with
        | Some u => Ok u
        | None => Err (ESQL Pg.datetime_field_overflow)
        end
      else otherwise
  | None => otherwise
  end.

(** The [CASE] of the claiming and renewing statements. *)
Definition lease_case (now : Z) (metadata : gmap string any) (defaultLeaseMs : Z) : result gerror Z :=
  lease_when now metadata "lease_sec" 1000000
    (lease_when now metadata "lease_ms" 1000
       (match plus_interval now (defaultLeaseMs * 1000) with
        | Some u => Ok u
        | None => Err (ESQL Pg.datetime_field_overflow)
        end)).

(** [SET status, owner, owner_time, lease_token, lease_until, updated_at,
    version] of a claim. *)
Definition claim_set (owner leaseToken : string) (now defaultLeaseMs : Z) (r : PgRow)
    : result gerror PgRow :=
  match lease_case now (g_metadata r) defaultLeaseMs, Pg.succ (g_version r) with
  | Ok until, Ok version =>
      Ok {| g_kind := g_kind r;
            g_status := StatusInProgress;
            g_payload := g_payload r; g_tags := g_tags r;
            g_owner := owner;
            g_parent_id := g_parent_id r; g_trace_id := g_trace_id r; g_queue := g_queue r;
            g_namespace_id := g_namespace_id r; g_shard_id := g_shard_id r;
            g_ttl_ms := g_ttl_ms r; g_created_at := g_created_at r;
            g_updated_at := now;
            g_owner_time := Some now;
            g_lease_token := leaseToken;
            g_lease_until := Some until;
            g_version := version;
            g_metadata := g_metadata r |}
  | Err e, _ => Err e
  | _, Err e => Err e
  end.

(** [SET owner_time, lease_until, updated_at] of a renewal. *)
Definition renew_set (now defaultLeaseMs : Z) (r : PgRow) : result gerror PgRow :=
  match lease_case now (g_metadata r) defaultLeaseMs with
  | Ok until =>
      Ok {| g_kind := g_kind r; g_status := g_status r;
            g_payload := g_payload r; g_tags := g_tags r; g_owner := g_owner r;
            g_parent_id := g_parent_id r; g_trace_id := g_trace_id r; g_queue := g_queue r;
            g_namespace_id := g_namespace_id r; g_shard_id := g_shard_id r;
            g_ttl_ms := g_ttl_ms r; g_created_at := g_created_at r;
            g_updated_at := now;
            g_owner_time := Some now;
            g_lease_token := g_lease_token r;
            g_lease_until := Some until;
            g_version := g_version r;
            g_metadata := g_metadata r |}
  | Err e => Err e
  end.

End Statements.

(** [UPDATE ... SET status, owner, owner_time, lease_token, lease_until,
    updated_at, version] of the legacy claim, whose lease was computed in
    Go. *)
Definition legacy_claim_set (owner leaseToken : string) (now leaseUntil : Z) (r : PgRow)
    : result gerror PgRow :=
  match Pg.succ (g_version r) with
  | Ok version =>
      Ok {| g_kind := g_kind r;
            g_status := StatusInProgress;
            g_payload := g_payload r; g_tags := g_tags r;
            g_owner := owner;
            g_parent_id := g_parent_id r; g_trace_id := g_trace_id r; g_queue := g_queue r;
            g_namespace_id := g_namespace_id r; g_shard_id := g_shard_id r;
            g_ttl_ms := g_ttl_ms r; g_created_at := g_created_at r;
            g_updated_at := now;
            g_owner_time := Some now;
            g_lease_token := leaseToken;
            g_lease_until := Some leaseUntil;
            g_version := version;
            g_metadata := g_metadata r |}
  | Err e => Err e
  end.

(** Status, owner, token and lease cleared together, the version stepped. *)
Definition clear_set (status : string) (now : Z) (payload : any) (metadata : gmap string any) (r : PgRow)
    : result gerror PgRow :=
  match Pg.succ (g_version r) with
  | Ok version =>
      Ok {| g_kind := g_kind r;
            g_status := status;
            g_payload := payload; g_tags := g_tags r;
            g_owner := "";
            g_parent_id := g_parent_id r; g_trace_id := g_trace_id r; g_queue := g_queue r;
            g_namespace_id := g_namespace_id r; g_shard_id := g_shard_id r;
            g_ttl_ms := g_ttl_ms r; g_created_at := g_created_at r;
            g_updated_at := now;
            g_owner_time := None;
            g_lease_token := "";
            g_lease_until := None;
            g_version := version;
            g_metadata := metadata |}
  | Err e => Err e
  end.

Definition release_set (now : Z) (r : PgRow) : result gerror PgRow :=
  clear_set StatusNew now (g_payload r) (g_metadata r) r.

(** [jsonb_set(payload, '{result}', v, true)]: an object gets the entry, an
    array rejects the text path element, a scalar (JSON null included) rejects
    any path. *)
Definition jsonb_set_result (payload v : any) : result gerror any :=
  match payload with
  | VMap m => Ok (VMap (<["result" := v]> m))
  | VList _ => Err (ESQL Pg.invalid_text_representation)
  | _ => Err (ESQL Pg.invalid_parameter_value)
  end.

(** [metadata || patch]: the entries of the right operand win. *)
Definition jsonb_concat (metadata patch : gmap string any) : gmap string any := patch ∪ metadata.

(** [SET ...] of a completion. *)
Definition complete_set (now : Z) (res : gmap string any) (patch : gmap string any) (r : PgRow)
    : result gerror PgRow :=
  match jsonb_set_result (g_payload r) (json_value (VMap res)) with
  | Ok payload => clear_set StatusCompleted now payload (jsonb_concat (g_metadata r) patch) r
  | Err e => Err e
  end.

(** [SET ...] of [updateAgentCompletionRow]: the columns a completion
    changes, from the agent; the others are left as they are. *)
Definition completion_row_set (t : Agent) (r : PgRow) : PgRow :=
  {| g_kind := g_kind r;
     g_status := a_Status t;
     g_payload := payload_json (a_Payload t); g_tags := g_tags r;
     g_owner := a_Owner t;
     g_parent_id := g_parent_id r; g_trace_id := g_trace_id r; g_queue := g_queue r;
     g_namespace_id := a_NamespaceID t; g_shard_id := g_shard_id r;
     g_ttl_ms := g_ttl_ms r; g_created_at := g_created_at r;
     g_updated_at := Pg.timestamptz (a_UpdatedAt t);
     g_owner_time := Pg.nullable (a_OwnerTime t);
     g_lease_token := a_LeaseToken t;
     g_lease_until := Pg.nullable (a_LeaseUntil t);
     g_version := a_Version t;
     g_metadata := metadata_json (a_Metadata t) |}.

(** ** The event table *)

(** The day a partition covers. *)
Definition us_per_day : Z := 86400000000.
Definition day_of (us : Z) : Z := us `div` us_per_day.

(** [INSERT INTO agent_events]: the row needs a partition, and its key
    (timestamp, id) must be new. *)
Definition insert_event_check (d : PgDB) (pending : list PgEventRow) (r : PgEventRow) : result gerror unit :=
  if decide (day_of (v_timestamp r) ∉ pg_partitions d) then Err (ESQL Pg.no_partition)
  else if existsb (fun r' => bool_decide (v_timestamp r' = v_timestamp r) && bool_decide (v_id r' = v_id r))
            (pg_events d ++ pending)
  then Err (ESQL Pg.unique_violation)
  else Ok tt.
