(* ===== verification/PgEffects.v ===== *)
(** * Postgres: sessions, transactions and the other sessions

    The Postgres store runs its transactions at READ COMMITTED beside those of
    other sessions.  The committed tables are shared: between any two database
    calls of this session the others may commit any change to rows this
    session has not locked.  A transaction keeps the rows it wrote in front of
    the committed ones; a statement sees that view, and runs when it has the
    row locks it asks for, except under SKIP LOCKED, which passes over rows
    locked elsewhere.  A failed statement changes nothing, and a transaction
    that is not committed leaves no trace. *)

From S2P Require Import Prelude GoLib Agent Common Effects Sql PgRows.
From stdpp Require Import gmap strings list fin_maps sorting.
From Stdlib Require Import ZArith Lia.

Open Scope Z_scope.

(** ** The environment *)

(** The readings of [time.Now()] and the UUIDs (Go's and the server's), the
    outcome of each database call, and what the n-th call finds: the server's
    [now()] in microseconds, the rows locked by other sessions, whether a
    try-lock succeeds, and what the other sessions have committed just
    before. *)
Class PgEnv : Type := {
  pclock_at : nat -> Z;
  puuid_at : nat -> string;
  pfault_at : nat -> option gerror;
  server_now_at : nat -> Z;
  locked_at : nat -> string -> bool;
  advisory_at : nat -> bool;
  others_at : nat -> PgDB -> PgDB;
  pctx_done_at : nat -> bool;
}.

(** Nobody else is connected and nothing fails. *)
Definition alone (E : PgEnv) : Prop :=
  (forall n, pfault_at n = None) /\ (forall n id, locked_at n id = false)
  /\ (forall n, advisory_at n = true) /\ (forall n d, others_at n d = d).

(** ** The session *)

Record PTx : Type := MkPTx {
  tx_rows : gmap string PgRow;
  tx_locks : gset string;
  tx_events : list PgEventRow;
  tx_notifies : list string;
  tx_now : Z;
}.

Record pendingEvent : Type := MkPendingEvent {
  pe_event : Event;
  pe_namespaceID : string;
  pe_shardID : string;
}.

(** One queue's prefetcher: its buffered candidate ids, the ids its
    goroutine is still waiting to push, and when it was last asked. *)
Record queuePrefetcher : Type := MkPrefetcher {
  pf_namespaceID : string;
  pf_queueName : string;
  pf_candidates : list string;
  pf_waiting : list string;
  pf_lastAccess : Z;
}.

(** The committed tables, the open transaction, the counters into the
    environment, the events handed to subscribers, the deferred-event queue,
    the NOTIFY payloads sent, how often [signalWakeups] ran, and the
    prefetchers. *)
Record PW : Type := MkPW {
  pw_db : PgDB;
  pw_tx : option PTx;
  pw_clock : nat;
  pw_uuid : nat;
  pw_call : nat;
  pw_notified : list Event;
  pw_queue : list pendingEvent;
  pw_sent : list string;
  pw_signals : nat;
  pw_prefetch : gmap string queuePrefetcher;
}.

Definition pset_db (d : PgDB) (w : PW) : PW :=
  MkPW d (pw_tx w) (pw_clock w) (pw_uuid w) (pw_call w) (pw_notified w) (pw_queue w) (pw_sent w)
    (pw_signals w) (pw_prefetch w).
Definition pset_tx (tx : option PTx) (w : PW) : PW :=
  MkPW (pw_db w) tx (pw_clock w) (pw_uuid w) (pw_call w) (pw_notified w) (pw_queue w) (pw_sent w)
    (pw_signals w) (pw_prefetch w).
Definition pset_sent (sent : list string) (w : PW) : PW :=
  MkPW (pw_db w) (pw_tx w) (pw_clock w) (pw_uuid w) (pw_call w) (pw_notified w) (pw_queue w) sent
    (pw_signals w) (pw_prefetch w).
Definition pset_queue (q : list pendingEvent) (w : PW) : PW :=
  MkPW (pw_db w) (pw_tx w) (pw_clock w) (pw_uuid w) (pw_call w) (pw_notified w) q (pw_sent w)
    (pw_signals w) (pw_prefetch w).
Definition pset_prefetch (p : gmap string queuePrefetcher) (w : PW) : PW :=
  MkPW (pw_db w) (pw_tx w) (pw_clock w) (pw_uuid w) (pw_call w) (pw_notified w) (pw_queue w) (pw_sent w)
    (pw_signals w) p.
Definition ptick (w : PW) : PW :=
  MkPW (pw_db w) (pw_tx w) (pw_clock w) (pw_uuid w) (S (pw_call w)) (pw_notified w) (pw_queue w)
    (pw_sent w) (pw_signals w) (pw_prefetch w).

(** ** The monad *)

Definition PM (A : Type) : Type := PW -> result gerror A * PW.

#[export] Instance PM_ret : MRet PM := fun A a w => (Ok a, w).
#[export] Instance PM_bind : MBind PM := fun A B f m w =>
  match m w with
  | (Ok a, w) => f a w
  | (Err e, w) => (Err e, w)
  end.

Definition pfail {A} (e : gerror) : PM A := fun w => (Err e, w).

Definition ptry {A} (m : PM A) : PM (result gerror A) := fun w =>
  let '(r, w) := m w in (Ok r, w).

Definition pwrap {A} (context : string) (m : PM A) : PM A := fun w =>
  match m w with
  | (Ok a, w) => (Ok a, w)
  | (Err e, w) => (Err (EWrap context e), w)
  end.

Fixpoint pfor_each {A B} (f : A -> PM B) (l : list A) : PM (list B) :=
  match l with
  | [] => mret []
  | x :: l => y ← f x; ys ← pfor_each f l; mret (y :: ys)
  end.

(** Code that works on the store's own fields. *)
Definition local {A} (f : PW -> A * PW) : PM A := fun w => let '(a, w) := f w in (Ok a, w).

Definition of_result {A} (r : result gerror A) : PM A := fun w => (r, w).

(** ** Other sessions *)

(** The tables after the others moved them from [d] to [d']: the rows in
    [locks] are out of their reach. *)
Definition interfere (locks : gset string) (d d' : PgDB) : PgDB :=
  MkPgDB (filter (fun kv => kv.1 ∈ locks) (pg_agents d) ∪ filter (fun kv => kv.1 ∉ locks) (pg_agents d'))
    (pg_events d') (pg_partitions d').

Definition held (w : PW) : gset string :=
  match pw_tx w with Some tx => tx_locks tx | None => ∅ end.

(** What a transaction sees of the agents. *)
Definition view (d : PgDB) (tx : PTx) : gmap string PgRow := tx_rows tx ∪ pg_agents d.

Section Primitives.
Context `{E : PgEnv}.

Definition pnow : PM Z := fun w =>
  (Ok (pclock_at (pw_clock w)),
   MkPW (pw_db w) (pw_tx w) (S (pw_clock w)) (pw_uuid w) (pw_call w) (pw_notified w) (pw_queue w)
     (pw_sent w) (pw_signals w) (pw_prefetch w)).

Definition pnew_uuid : PM string := fun w =>
  (Ok (puuid_at (pw_uuid w)),
   MkPW (pw_db w) (pw_tx w) (pw_clock w) (S (pw_uuid w)) (pw_call w) (pw_notified w) (pw_queue w)
     (pw_sent w) (pw_signals w) (pw_prefetch w)).

Definition notifySubscribers (e : Event) : PM unit := fun w =>
  (Ok tt, MkPW (pw_db w) (pw_tx w) (pw_clock w) (pw_uuid w) (pw_call w) (pw_notified w ++ [e])
            (pw_queue w) (pw_sent w) (pw_signals w) (pw_prefetch w)).

(** Close the wakeup channel and make a new one. *)
Definition signalWakeups : PM unit := fun w =>
  (Ok tt, MkPW (pw_db w) (pw_tx w) (pw_clock w) (pw_uuid w) (pw_call w) (pw_notified w)
            (pw_queue w) (pw_sent w) (S (pw_signals w)) (pw_prefetch w)).

Definition pselect_done : PM bool := fun w => (Ok (pctx_done_at (pw_call w)), ptick w).

(** The world in which the next call runs: the others have moved. *)
Definition advance (w : PW) : PW :=
  pset_db (interfere (held w) (pw_db w) (others_at (pw_call w) (pw_db w))) (ptick w).

(** One database call, given its number. *)
Definition pcall {A} (m : nat -> PM A) : PM A := fun w =>
  match pfault_at (pw_call w) with
  | Some e => (Err e, advance w)
  | None => m (pw_call w) (advance w)
  end.

(** A statement on the pool, outside any transaction of this session. *)
Definition pool_read {A} (f : Z -> PgDB -> result gerror A) : PM A :=
  pcall (fun n w => (f (server_now_at n) (pw_db w), w)).

(** [rows.Err()] after the iteration. *)
Definition pg_rows_Err : PM unit := pcall (fun _ w => (Ok tt, w)).

Definition PBegin : PM unit :=
  pcall (fun n w => (Ok tt, pset_tx (Some (MkPTx ∅ ∅ [] [] (server_now_at n))) w)).

(** A statement of the transaction: from the transaction's [now()], the rows
    locked elsewhere and the view, the rows it writes, the rows it locks
    besides, and its result. *)
Definition tx_stmt {A} (f : Z -> (string -> bool) -> gmap string PgRow ->
                            result gerror (gmap string PgRow * gset string * A)) : PM A :=
  pcall (fun n w =>
    match pw_tx w with
    | None => (Err ETxDone, w)
    | Some tx =>
        match f (tx_now tx) (locked_at n) (view (pw_db w) tx) with
        | Err e => (Err e, w)
        | Ok (rows, locks, a) =>
            (Ok a, pset_tx (Some (MkPTx (rows ∪ tx_rows tx) (dom rows ∪ locks ∪ tx_locks tx)
                                    (tx_events tx) (tx_notifies tx) (tx_now tx))) w)
        end
    end).

(** [INSERT INTO agent_events] in the transaction. *)
Definition tx_insert_event (r : PgEventRow) : PM unit :=
  pcall (fun _ w =>
    match pw_tx w with
    | None => (Err ETxDone, w)
    | Some tx =>
        match insert_event_check (pw_db w) (tx_events tx) r with
        | Err e => (Err e, w)
        | Ok _ => (Ok tt, pset_tx (Some (MkPTx (tx_rows tx) (tx_locks tx) (tx_events tx ++ [r])
                                           (tx_notifies tx) (tx_now tx))) w)
        end
    end).

(** [SELECT pg_notify(channel, payload)]: sent when the transaction commits. *)
Definition tx_pg_notify (payload : string) : PM unit :=
  pcall (fun _ w =>
    match pw_tx w with
    | None => (Err ETxDone, w)
    | Some tx => (Ok tt, pset_tx (Some (MkPTx (tx_rows tx) (tx_locks tx) (tx_events tx)
                                          (tx_notifies tx ++ [payload]) (tx_now tx))) w)
    end).

(** [SELECT pg_try_advisory_xact_lock(...)]. *)
Definition try_advisory_lock : PM bool := pcall (fun n w => (Ok (advisory_at n), w)).

(** Insert a batch of events one after the other. *)
Fixpoint insert_batch (d : PgDB) (rows : list PgEventRow) : result gerror PgDB :=
  match rows with
  | [] => Ok d
  | r :: rows =>
      match insert_event_check d [] r with
      | Err e => Err e
      | Ok _ => insert_batch (MkPgDB (pg_agents d) (pg_events d ++ [r]) (pg_partitions d)) rows
      end
  end.

(** [pool.SendBatch] of event inserts: the batch is one implicit
    transaction. *)
Definition SendBatch (rows : list PgEventRow) : PM unit :=
  pcall (fun _ w =>
    match insert_batch (pw_db w) rows with
    | Err e => (Err e, w)
    | Ok d => (Ok tt, pset_db d w)
    end).

Definition apply_tx (tx : PTx) (d : PgDB) : PgDB :=
  MkPgDB (view d tx) (pg_events d ++ tx_events tx) (pg_partitions d).

Definition PCommit : PM unit :=
  pcall (fun _ w =>
    match pw_tx w with
    | None => (Err ETxDone, w)
    | Some tx => (Ok tt, pset_sent (pw_sent w ++ tx_notifies tx)
                           (pset_db (apply_tx tx (pw_db w)) (pset_tx None w)))
    end).

(** [defer tx.Rollback(ctx)]. *)
Definition pdeferred_rollback {A} (body : PM A) : PM A := fun w =>
  let '(r, w) := body w in (r, pset_tx None w).

Definition pwith_tx {A} (body : PM A) : PM A :=
  _ ← PBegin; pdeferred_rollback body.

End Primitives.
