(* ===== verification/PgQuery.v ===== *)
(** * Postgres: queries

    [src/pkg/store/postgres/postgres_query.go]: the [WHERE] clauses built from
    a query with their numbered placeholders, the strict-head clauses and the
    renumbering that lets both stand in one statement, and [query], [count],
    [countByStatus], [in] and [read]. *)

From S2P Require Import Prelude GoLib Agent Common Effects Sql PgRows PgEffects.
From stdpp Require Import gmap strings list fin_maps sorting.
From Stdlib Require Import ZArith Lia Ascii.

Open Scope Z_scope.

(** ** Clauses *)

(** A clause of the [WHERE] with the argument bound to its placeholder. *)
Inductive pclause : Type :=
| PTTL
| PStatus (s : string)
| PKind (s : string)
| POwner (s : string)
| PParent (s : string)
| PTrace (s : string)
| PNamespace (s : string)
| PTags (l : list string)
| PQueue (s : string)
| PMeta (k v : string).

Definition psat (now : Z) (r : PgRow) (c : pclause) : bool :=
  match c with
  | PTTL => ttlClause now r
  | PStatus s => bool_decide (g_status r = s)
  | PKind s => bool_decide (g_kind r = s)
  | POwner s => bool_decide (g_owner r = s)
  | PParent s => bool_decide (g_parent_id r = s)
  | PTrace s => bool_decide (g_trace_id r = s)
  | PNamespace s => bool_decide (g_namespace_id r = s)
  | PTags l => forallb (containsString (g_tags r)) l
  | PQueue s => bool_decide (g_queue r = s)
  | PMeta k v => match g_metadata r !! k with Some (VStr s) => bool_decide (s = v) | _ => false end
  end.

Definition psat_all (now : Z) (cs : list pclause) (r : PgRow) : bool := forallb (psat now r) cs.

Definition punless_empty (s : string) (c : string -> pclause) : list pclause :=
  if decide (s = "")%string then [] else [c s].

(** The clauses of the query's metadata, in the order the map is walked. *)
Definition metadata_clauses (m : option (gmap string string)) : list pclause :=
  match m with
  | None => []
  | Some m =>
      omap (fun '(k, v) => if decide (k = "agent_id")%string then None
                           else if decide (k = QueueMetadataKey) then Some (PQueue v)
                           else Some (PMeta k v)) (map_to_list m)
  end.

Definition buildWhereClauses (query : option Query) (forceStatusNew : bool) : list pclause :=
  match query with
  | None => [PTTL]
  | Some q =>
      PTTL ::
        (if forceStatusNew then [PStatus StatusNew] else punless_empty (q_Status q) PStatus)
        ++ punless_empty (q_Kind q) PKind ++ punless_empty (q_Owner q) POwner
        ++ punless_empty (q_ParentID q) PParent ++ punless_empty (q_TraceID q) PTrace
        ++ punless_empty (q_NamespaceID q) PNamespace
        ++ (if decide (q_Tags q = []) then [] else [PTags (q_Tags q)])
        ++ metadata_clauses (q_Metadata q)
  end.

Definition buildStrictQueueHeadWhereClauses (query : option Query) : list pclause :=
  match query with
  | None => [PTTL; PStatus StatusNew]
  | Some q =>
      [PTTL; PStatus StatusNew] ++ punless_empty (q_NamespaceID q) PNamespace
      ++ punless_empty (Strings.TrimSpace (omget (q_Metadata q) QueueMetadataKey)) PQueue
  end.

(** ** Their text *)

(** The argument a clause binds, if it has a placeholder. *)
Definition clause_arg (c : pclause) : option any :=
  match c with
  | PTTL => None
  | PStatus s | PKind s | POwner s | PParent s | PTrace s | PNamespace s | PQueue s => Some (VStr s)
  | PTags l => Some (VStrs l)
  | PMeta k v => Some (VStrMap {[k := v]})
  end.

Definition clause_args (cs : list pclause) : list any := omap clause_arg cs.

(** What stands before and after the placeholder. *)
Definition clause_lit (c : pclause) : string * string :=
  match c with
  | PTTL => ("(ttl_ms = 0 OR created_at + (ttl_ms * interval '1 millisecond') > now())", "")
  | PStatus _ => ("status = ", "")
  | PKind _ => ("kind = ", "")
  | POwner _ => ("owner = ", "")
  | PParent _ => ("parent_id = ", "")
  | PTrace _ => ("trace_id = ", "")
  | PNamespace _ => ("namespace_id = ", "")
  | PTags _ => ("tags @> ", "")
  | PQueue _ => ("queue = ", "")
  | PMeta _ _ => ("metadata @> ", "::jsonb")
  end%string.

Definition clause_text (idx : Z) (c : pclause) : list ascii :=
  bytes (clause_lit c).1
  ++ (match clause_arg c with Some _ => "$"%char :: bytes (Strconv.FormatInt idx) | None => [] end)
  ++ bytes (clause_lit c).2.

(** The clauses numbered from [idx]. *)
Fixpoint clause_texts (idx : Z) (cs : list pclause) : list (list ascii) :=
  match cs with
  | [] => []
  | c :: cs => clause_text idx c
               :: clause_texts (match clause_arg c with Some _ => idx + 1 | None => idx end) cs
  end.

(** [strings.Join(clauses, " AND ")]. *)
Definition where_text (idx : Z) (cs : list pclause) : string :=
  of_bytes (Strings.join_bytes (bytes " AND ") (clause_texts idx cs)).

(** What replaces a match of [\$(\d+)]; a lone dollar is no match. *)
Definition shift_match (offset : Z) (ds : list ascii) : list ascii :=
  "$"%char :: match Strconv.Atoi (of_bytes ds) with
              | Some index => bytes (Strconv.FormatInt (index + offset))
              | None => ds
              end.

Definition is_digit (c : ascii) : bool :=
  match Strconv.digit_val c with Some _ => true | None => false end.

(** Scan for matches; [acc] holds the digits read after a dollar sign. *)
Fixpoint shift_go (offset : Z) (acc : option (list ascii)) (l : list ascii) : list ascii :=
  match l with
  | [] => match acc with None => [] | Some ds => shift_match offset ds end
  | c :: l =>
      match acc with
      | None => if decide (c = "$"%char) then shift_go offset (Some []) l else c :: shift_go offset None l
      | Some ds =>
          if is_digit c then shift_go offset (Some (ds ++ [c])) l
          else shift_match offset ds
               ++ (if decide (c = "$"%char) then shift_go offset (Some []) l
                   else c :: shift_go offset None l)
      end
  end.

Definition shiftPlaceholders (clause : string) (offset : Z) : string :=
  if decide (offset = 0 \/ clause = ""%string) then clause
  else of_bytes (shift_go offset None (bytes clause)).

(** ** Selections *)

Definition rows_where (now : Z) (cs : list pclause) (rows : gmap string PgRow)
    : list (string * PgRow) :=
  filter (fun p => psat_all now cs p.2) (map_to_list rows).

(** [ORDER BY created_at ASC, id ASC]. *)
Definition row_le `{PgServer} (p q : string * PgRow) : Prop :=
  g_created_at p.2 < g_created_at q.2 \/ (g_created_at p.2 = g_created_at q.2 /\ text_le p.1 q.1).

#[export] Instance row_le_dec `{PgServer} : RelDecision row_le.
Proof. intros p q. unfold row_le. apply _. Defined.

#[export] Instance row_le_trans `{PgServer} : Transitive row_le.
Proof.
  intros p q r [H1|[H1 T1]] [H2|[H2 T2]]; [left; lia..|]. right. split; [lia|]. by etrans.
Qed.

#[export] Instance row_le_total `{PgServer} : Total row_le.
Proof.
  intros p q. unfold row_le. destruct (Z.lt_total (g_created_at p.2) (g_created_at q.2)) as [|[|]]; [tauto| |tauto].
  destruct (total text_le p.1 q.1); [left|right]; right; by split.
Qed.

Definition by_creation `{PgServer} (l : list (string * PgRow)) : list (string * PgRow) :=
  merge_sort row_le l.

Lemma by_creation_sorted `{PgServer} l : StronglySorted row_le (by_creation l).
Proof. apply (StronglySorted_merge_sort _). Qed.

Lemma by_creation_perm `{PgServer} l : by_creation l ≡ₚ l.
Proof. apply merge_sort_Permutation. Qed.

Lemma elem_of_by_creation `{PgServer} l p : p ∈ by_creation l <-> p ∈ l.
Proof. by rewrite by_creation_perm. Qed.

(** [SELECT ... WHERE ... ORDER BY created_at ASC, id ASC [LIMIT] [OFFSET]]. *)
Definition pg_select `{PgServer} (now : Z) (cs : list pclause) (limit offset : option Z)
    (rows : gmap string PgRow) : list (string * PgRow) :=
  sql_window limit offset (by_creation (rows_where now cs rows)).

(** Rows in an order of the server's choosing. *)
Definition any_order `{SqlOrder} {A} (l : list A) : list A := sql_sort (fun _ => 0) l.

(** The loop over the selected rows: a row whose JSON does not decode is
    logged and skipped; a column that does not scan ends the iteration, and
    [rows.Err()] reports it. *)
Fixpoint scan_agents (rows : list (string * PgRow)) : list Agent * option gerror :=
  match rows with
  | [] => ([], None)
  | r :: rows =>
      match scanAgent r with
      | Ok t => let '(ts, e) := scan_agents rows in (t :: ts, e)
      | Err (EDB msg) => ([], Some (EDB msg))
      | Err _ => scan_agents rows
      end
  end.

(** ** Operations *)

Section Operations.
Context `{E : PgEnv} `{Srv : PgServer}.

Definition query (q : option Query) : PM (list Agent) :=
  let where_ := buildWhereClauses q false in
  rows ← pool_read (fun now d => Ok (pg_select now where_ (q ≫= fun q => pos_opt (q_Limit q))
                                       (q ≫= fun q => pos_opt (q_Offset q)) (pg_agents d)));
  let '(found, bad) := scan_agents rows in
  match bad with
  | Some e => pfail e
  | None => _ ← pg_rows_Err; mret found
  end.

Definition count (q : option Query) : PM Z :=
  let where_ := buildWhereClauses q false in
  pool_read (fun now d => Ok (Z.of_nat (length (rows_where now where_ (pg_agents d))))).

(** [SELECT status, COUNT( * ) ... GROUP BY status], laid over zeros. *)
Definition group_by_status (rows : list (string * PgRow)) : gmap string Z :=
  foldr (fun p acc => <[g_status p.2 := default 0 (acc !! g_status p.2) + 1]> acc) ∅ rows.

Definition zero_counts : gmap string Z :=
  list_to_map ((fun s => (s, 0)) <$> [StatusNew; StatusInProgress; StatusCompleted; StatusFailed; StatusCancelled]).

Definition countByStatus (q : option Query) : PM (gmap string Z) :=
  let q := match q with
           | None => empty_query
           | Some q => MkQuery (q_Kind q) "" (q_Tags q) (q_Owner q) (q_ParentID q) (q_TraceID q)
                         (q_NamespaceID q) (q_AgentID q) (q_Metadata q) 0 0
           end in
  let where_ := buildWhereClauses (Some q) false in
  groups ← pool_read (fun now d => Ok (group_by_status (rows_where now where_ (pg_agents d))));
  _ ← pg_rows_Err;
  mret (groups ∪ zero_counts).

(** One poll of [read]. *)
Definition pread_poll (q : option Query) : PM (option Agent) :=
  let q := default empty_query q in
  let q := MkQuery (q_Kind q) (q_Status q) (q_Tags q) (q_Owner q) (q_ParentID q) (q_TraceID q)
             (q_NamespaceID q) (q_AgentID q) (q_Metadata q) 1 (q_Offset q) in
  found ← query (Some q);
  mret (head found).

(** The polling loop of [in] and [read]; [None] when the fuel runs out.
    Waking up early or on the poll interval only brings the next turn. *)
Fixpoint ppoll_loop (poll : PM (option Agent)) (deadline : Z) (fuel : nat) : PM (option Agent) :=
  match fuel with
  | O => mret None
  | S fuel =>
      t ← pnow;
      if decide (t < deadline) then
        found ← poll;
        match found with
        | Some a => mret (Some a)
        | None =>
            done ← pselect_done;
            if (done : bool) then pfail ECtxDone else ppoll_loop poll deadline fuel
        end
      else pfail ETimeout
  end.

Definition read (fuel : nat) (q : option Query) (timeout : Z) : PM (option Agent) :=
  t ← pnow;
  ppoll_loop (pread_poll q) (Time.Add t timeout) fuel.

End Operations.

(** ** Postgres: reading the event log

    [src/pkg/store/postgres/postgres_events.go]: the events of one agent, the
    recent events of all, and the filtered, paginated query. *)

(** Rows whose data does not decode are logged and skipped. *)
Definition pscan_events (rows : list PgEventRow) : list Event :=
  omap (fun r => match scanEvent r with Ok e => Some e | Err _ => None end) rows.

(** The clauses of [queryEvents]: each non-empty criterion. *)
Definition pevent_clauses (q : EventQuery) (r : PgEventRow) : bool :=
  crit (eq_TupleID q) (v_tuple_id r) && crit (eq_AgentID q) (v_agent_id r)
  && crit (eq_Type q) (v_type r) && crit (eq_TraceID q) (v_trace_id r).

(** [LIMIT $ OFFSET $]: a negative offset is rejected. *)
Definition pg_window {A} (limit offset : Z) (l : list A) : result gerror (list A) :=
  if decide (offset < 0) then Err (ESQL Pg.invalid_row_count_offset)
  else Ok (sql_window (Some limit) (Some offset) l).

Section Events.
Context `{E : PgEnv} `{Srt : SqlOrder}.

Definition getEvents (tupleID : string) : PM (list Event) :=
  rows ← pool_read (fun _ d => Ok (order_asc v_timestamp
                                     (filter (fun r => bool_decide (v_tuple_id r = tupleID)) (pg_events d))));
  _ ← pg_rows_Err;
  mret (pscan_events rows).

Definition getGlobalEvents (limit offset : Z) : PM (list Event) :=
  let limit := if decide (limit <= 0) then 100 else limit in
  rows ← pool_read (fun _ d => pg_window limit offset (order_desc v_timestamp (pg_events d)));
  _ ← pg_rows_Err;
  mret (pscan_events rows).

(** Oldest first for one agent's events, newest first otherwise. *)
Definition pevent_order (q : EventQuery) (l : list PgEventRow) : list PgEventRow :=
  if decide (eq_TupleID q = "")%string then order_desc v_timestamp l else order_asc v_timestamp l.

Definition queryEvents (query : option EventQuery) : PM EventPage :=
  let q := default (MkEventQuery "" "" "" "" 0 0 "") query in
  let limit := if decide (eq_Limit q <= 0) then 100 else eq_Limit q in
  let offset := if decide (eq_Offset q < 0) then 0 else eq_Offset q in
  rows ← pool_read (fun _ d => pg_window limit offset
                                 (pevent_order q (filter (pevent_clauses q) (pg_events d))));
  let events := pscan_events rows in
  _ ← pg_rows_Err;
  total ← pool_read (fun _ d => Ok (Z.of_nat (length (filter (pevent_clauses q) (pg_events d)))));
  mret (MkEventPage events total "").

End Events.
