(* ===== verification/PgPlaceholders.v ===== *)
(** * Postgres: renumbering placeholders

    The strict claim puts the head clauses and the match clauses into one
    statement and shifts the placeholders of the latter past the arguments of
    the former, by rewriting the text of the [WHERE].  The theorem: the shifted
    text is the text of the same clauses numbered from there on. *)

From S2P Require Import Prelude GoLib Agent Common Effects Sql PgRows PgQuery.
From stdpp Require Import gmap strings list pretty.
From Stdlib Require Import ZArith Lia Ascii.

Open Scope Z_scope.

(** ** Decimal text *)

Lemma digit_char (x : N) :
  (x < 10)%N -> Strconv.digit_val (pretty_N_char x) = Some (Z.of_N x).
Proof.
  intros H. assert (x = 0 \/ x = 1 \/ x = 2 \/ x = 3 \/ x = 4 \/ x = 5 \/ x = 6 \/ x = 7 \/ x = 8 \/ x = 9)%N
    as Hx by lia.
  by repeat (destruct Hx as [->|Hx]; [reflexivity|]); subst.
Qed.

(** The digits [pretty] puts in front: their value, and that they are
    digits. *)
Lemma pretty_go_digits (x : N) (t : string) :
  exists l, bytes (pretty_N_go x t) = l ++ bytes t /\ Forall (fun c => is_digit c = true) l
    /\ ((0 < x)%N -> l <> [])
    /\ forall acc r, Strconv.digits_from acc (l ++ r)
                     = Strconv.digits_from (acc * 10 ^ Z.of_nat (length l) + Z.of_N x) r.
Proof.
  revert t. induction (N.lt_wf_0 x) as [x _ IH]; intros t.
  assert (x = 0 \/ 0 < x)%N as [->|Hx] by lia.
  { exists []. split_and!; [done|constructor|done|]. intros acc r. simpl. f_equal. lia. }
  rewrite pretty_N_go_step by done.
  destruct (IH (x `div` 10)%N ltac:(by apply N.div_lt) (String (pretty_N_char (x `mod` 10)) t))
    as (l & Hl & Hd & _ & Hv).
  assert (Hlt : (x `mod` 10 < 10)%N) by (by apply N.mod_lt).
  exists (l ++ [pretty_N_char (x `mod` 10)]). split_and!.
  - rewrite Hl, <- app_assoc. done.
  - apply Forall_app. split; [done|]. constructor; [|done]. unfold is_digit. by rewrite digit_char.
  - by destruct l.
  - intros acc r. rewrite <- app_assoc, Hv. cbn [app Strconv.digits_from]. rewrite digit_char by done.
    f_equal. rewrite length_app. cbn [length]. rewrite Nat2Z.inj_add, Z.pow_add_r by lia.
    pose proof (N.div_mod x 10 ltac:(done)) as Hdm.
    assert (Z.of_N x = 10 * Z.of_N (x `div` 10) + Z.of_N (x `mod` 10)) by lia.
    change (10 ^ Z.of_nat 1) with 10. lia.
Qed.

(** [strconv.FormatInt] of a positive number. *)
Lemma FormatInt_digits n :
  0 < n -> exists l, bytes (Strconv.FormatInt n) = l /\ l <> [] /\ Forall (fun c => is_digit c = true) l
                     /\ Strconv.digits l = Some n.
Proof.
  intros Hn. destruct n as [|p|p]; [lia| |lia].
  destruct (pretty_go_digits (Npos p) "") as (l & Hl & Hd & Hne & Hv). specialize (Hne ltac:(lia)).
  exists l. split_and!; [|done|done|].
  - change (Strconv.FormatInt (Zpos p)) with (pretty (Npos p)). unfold pretty, pretty_N.
    rewrite decide_False by done. rewrite Hl. apply app_nil_r.
  - specialize (Hv 0 []). rewrite app_nil_r in Hv. unfold Strconv.digits. destruct l; [done|].
    rewrite Hv. simpl. f_equal; lia.
Qed.

Lemma Atoi_FormatInt n : 0 < n <= max_int64 -> Strconv.Atoi (Strconv.FormatInt n) = Some n.
Proof.
  intros Hn. destruct (FormatInt_digits n ltac:(lia)) as (l & <- & _ & _ & Hd).
  apply Strconv.Atoi_digits; [done|]. unfold in_int64, min_int64. lia.
Qed.

(** ** The scan *)

(** Text without a dollar sign is copied. *)
Lemma shift_plain off l r :
  "$"%char ∉ l -> shift_go off None (l ++ r) = l ++ shift_go off None r.
Proof.
  induction l as [|c l IH]; simpl; [done|]. intros Hn. rewrite decide_False by set_solver.
  f_equal. apply IH. set_solver.
Qed.

(** A run of digits after a dollar is collected. *)
Lemma shift_digits off ds l r :
  Forall (fun c => is_digit c = true) l ->
  shift_go off (Some ds) (l ++ r) = shift_go off (Some (ds ++ l)) r.
Proof.
  intros Hl. revert ds. induction Hl as [|c l Hc _ IH]; intros ds; simpl; [by rewrite app_nil_r|].
  rewrite Hc, IH. by rewrite <- app_assoc.
Qed.

(** What follows a placeholder in the clauses: the end, or something that is
    neither a digit nor a dollar sign. *)
Definition stops (r : list ascii) : Prop :=
  match r with [] => True | c :: _ => is_digit c = false /\ c <> "$"%char end.

Lemma shift_stop off ds r :
  stops r -> shift_go off (Some ds) r = shift_match off ds ++ shift_go off None r.
Proof.
  destruct r as [|c r]; simpl; [by rewrite app_nil_r|]. intros [Hc Hd].
  rewrite Hc. by rewrite decide_False.
Qed.

Lemma shift_placeholder off n r :
  0 < n -> n <= max_int64 -> stops r ->
  shift_go off None ("$"%char :: bytes (Strconv.FormatInt n) ++ r)
  = "$"%char :: bytes (Strconv.FormatInt (n + off)) ++ shift_go off None r.
Proof.
  intros Hn Hle Hr. cbn [shift_go]. rewrite decide_True by done.
  destruct (FormatInt_digits n Hn) as (l & Hl & _ & Hd & _). rewrite Hl.
  rewrite shift_digits by done. rewrite shift_stop by done. cbn [app]. unfold shift_match.
  rewrite <- Hl, of_bytes_bytes, Atoi_FormatInt by lia. done.
Qed.

(** ** The clauses *)

Lemma clause_lit_plain c : "$"%char ∉ bytes (clause_lit c).1 /\ "$"%char ∉ bytes (clause_lit c).2.
Proof. destruct c; split; apply (bool_decide_unpack _); vm_compute; exact I. Qed.

Lemma clause_lit_stops c r : stops r -> stops (bytes (clause_lit c).2 ++ r).
Proof. destruct c; simpl; try done. Qed.

(** How many placeholders the clauses use. *)
Definition arity (cs : list pclause) : Z := Z.of_nat (length (clause_args cs)).

Lemma shift_clause off idx c r :
  0 < idx -> idx <= max_int64 -> stops r ->
  shift_go off None (clause_text idx c ++ r) = clause_text (idx + off) c ++ shift_go off None r.
Proof.
  intros H1 H2 Hr. destruct (clause_lit_plain c) as [Hp1 Hp2]. unfold clause_text.
  rewrite <- !app_assoc. rewrite shift_plain by done. f_equal.
  pose proof (clause_lit_stops c r Hr) as Hs. destruct (clause_arg c).
  - cbn [app]. rewrite shift_placeholder by done. rewrite shift_plain by done.
    by rewrite <- ?app_assoc.
  - cbn [app]. by rewrite shift_plain.
Qed.

Lemma shift_texts off idx cs :
  0 < idx -> idx + arity cs <= max_int64 ->
  shift_go off None (Strings.join_bytes (bytes " AND ") (clause_texts idx cs))
  = Strings.join_bytes (bytes " AND ") (clause_texts (idx + off) cs).
Proof.
  revert idx. induction cs as [|c cs IH]; intros idx H1 H2; [done|].
  unfold arity, clause_args in *. cbn [omap list_omap] in H2. cbn [clause_texts].
  set (idx' := match clause_arg c with Some _ => idx + 1 | None => idx end).
  assert (Hoff : match clause_arg c with Some _ => idx + off + 1 | None => idx + off end = idx' + off)
    by (unfold idx'; destruct (clause_arg c); lia).
  rewrite Hoff.
  assert (Hidx : 0 < idx' /\ idx' + Z.of_nat (length (omap clause_arg cs)) <= max_int64 /\ idx <= max_int64).
  { unfold idx'. destruct (clause_arg c); cbn [length] in H2; lia. }
  destruct Hidx as (Hi1 & Hi2 & Hi3). destruct cs as [|c' cs].
  - cbn [clause_texts Strings.join_bytes]. rewrite <- (app_nil_r (clause_text idx c)).
    rewrite shift_clause by done. by rewrite app_nil_r.
  - specialize (IH idx' Hi1 Hi2). cbn [clause_texts] in *. cbn [Strings.join_bytes].
    rewrite shift_clause by done. f_equal. rewrite (shift_plain off (bytes " AND ")) by
      (apply (bool_decide_unpack _); vm_compute; exact I).
    f_equal. exact IH.
Qed.

(** ** The theorem *)

(** C15: renumbering is right.  Shifting the text of any clauses, numbered
    from one, by the number of arguments that come before them yields the text
    of the same clauses numbered from there on: each placeholder of the
    combined statement refers to the argument its clause was built with. *)
Theorem shiftPlaceholders_renumbers cs off :
  0 <= off -> 1 + arity cs <= max_int64 ->
  shiftPlaceholders (where_text 1 cs) off = where_text (1 + off) cs.
Proof.
  intros Ho Hc. unfold shiftPlaceholders. case_decide as Hd.
  - destruct Hd as [->|Hd]; [done|]. unfold where_text in *. rewrite <- (shift_texts off 1 cs) by lia.
    by destruct (Strings.join_bytes (bytes " AND ") (clause_texts 1 cs)).
  - unfold where_text at 1. rewrite bytes_of_bytes. rewrite shift_texts by lia. done.
Qed.

Lemma shiftPlaceholders_renumbers_witness :
  shiftPlaceholders (where_text 1 [PTTL; PStatus "NEW"; PKind "job"; PMeta "k" "v"]) 3
  = where_text 4 [PTTL; PStatus "NEW"; PKind "job"; PMeta "k" "v"].
Proof. apply (shiftPlaceholders_renumbers [PTTL; PStatus "NEW"; PKind "job"; PMeta "k" "v"] 3); vm_compute; discriminate. Defined.

Example where_text_example :
  where_text 1 [PTTL; PStatus "NEW"; PMeta "k" "v"]
  = "(ttl_ms = 0 OR created_at + (ttl_ms * interval '1 millisecond') > now()) AND status = $1 AND metadata @> $2::jsonb"%string.
Proof. vm_compute. reflexivity. Qed.
