(* ===== verification/PgEngine.v ===== *)
(** * Postgres: the engine around the operations

    Events and notifications on their way to the database
    ([postgres_engine.go], [postgres_notify.go], the event helpers of
    [postgres_sql_helpers.go]), the deferred event writer, the daily
    partitions of the event table ([postgres_partitions.go]) and the
    prefetchers ([postgres_prefetch.go]).  Background goroutines are modelled
    by the step they take each time they wake up. *)

From S2P Require Import Prelude GoLib Agent Common Effects Sql PgRows PgEffects PgQuery.
From stdpp Require Import gmap strings list fin_maps sorting.
From Stdlib Require Import ZArith Lia Ascii.

Open Scope Z_scope.

(** ** Partitions *)

(** [ensureDailyPartitions]: the day of [start] and the following ones;
    [CREATE TABLE IF NOT EXISTS] leaves an existing partition alone. *)
Definition partition_days (start totalDays : Z) : list Z :=
  (fun i => start + Z.of_nat i) <$> seq 0 (Z.to_nat totalDays).

(** [truncateToUTCDate(now)], as a day number. *)
Definition truncateToUTCDate (t : Z) : Z := t `div` (86400 * Time.Second).

Definition ensureEventPartitions (now totalDays : Z) (d : PgDB) : PgDB :=
  let totalDays := if decide (totalDays <= 0) then 1 else totalDays in
  MkPgDB (pg_agents d) (pg_events d)
    (pg_partitions d ++ filter (fun day => day ∉ pg_partitions d)
                          (partition_days (truncateToUTCDate now) totalDays)).

(** What [initSchema] does to the event table when the store starts and its
    statements succeed.  Left out are the schema mode it runs first (see
    [SchemaActions]) and the partitions of the span table
    (see [TelemetrySpans]). *)
Definition initSchema (now : Z) (d : PgDB) : PgDB := ensureEventPartitions now 8 d.

(** ** Notifications *)

Definition buildWakeupPayload (namespaceID queue : string) : string :=
  (Strings.TrimSpace namespaceID +:+ "|" +:+ Strings.TrimSpace queue)%string.

(** The capacity of [eventQueue]. *)
Definition eventQueue_cap : nat := 100 * 100.

Section Engine.
Context `{E : PgEnv} (s : PgStore).

Definition insertEvent (event : Event) (namespaceID shardID : string) : PM unit :=
  tx_insert_event (pg_event_row event namespaceID shardID).

Definition queueWakeupNotify (namespaceID queue : string) : PM unit :=
  tx_pg_notify (buildWakeupPayload namespaceID queue).

Definition pending_row (pe : pendingEvent) : PgEventRow :=
  pg_event_row (pe_event pe) (pe_namespaceID pe) (pe_shardID pe).

(** Push on the queue, or write through when it is full; a failing write is
    logged. *)
Definition enqueueEvent (ev : Event) (namespaceID : string) : PM unit := fun w =>
  let pe := MkPendingEvent ev namespaceID (s_shardID s) in
  if decide (length (pw_queue w) < eventQueue_cap)%nat
  then (Ok tt, pset_queue (pw_queue w ++ [pe]) w)
  else (_ ← ptry (SendBatch [pending_row pe]); mret tt) w.

(** *** The writer *)

Definition flushEvents (pending : list pendingEvent) : PM unit :=
  match pending with
  | [] => mret tt
  | _ => _ ← ptry (SendBatch (pending_row <$> pending)); mret tt
  end.

(** What wakes the writer: an event in the queue, its ticker, the end of the
    store's context. *)
Inductive writer_input : Type := WRecv | WTick | WDone.

(** One turn of [eventWriterLoop] with its buffer; [None] when it returns. *)
Definition writer_turn (input : writer_input) (buf : list pendingEvent) : PM (option (list pendingEvent)) :=
  fun w =>
  match input with
  | WRecv =>
      match pw_queue w with
      | [] => (Ok (Some buf), w)
      | pe :: queue =>
          let w := pset_queue queue w in
          let buf := buf ++ [pe] in
          if decide (s_eventBatchSize s <= length buf)%nat
          then (_ ← flushEvents buf; mret (Some [])) w
          else (Ok (Some buf), w)
      end
  | WTick => (_ ← flushEvents buf; mret (Some [])) w
  | WDone => (_ ← flushEvents (buf ++ pw_queue w); mret None) (pset_queue [] w)
  end.

Fixpoint eventWriterLoop (inputs : list writer_input) (buf : list pendingEvent)
    : PM (option (list pendingEvent)) :=
  match inputs with
  | [] => mret (Some buf)
  | input :: inputs =>
      o ← writer_turn input buf;
      match o with
      | Some buf => eventWriterLoop inputs buf
      | None => mret None
      end
  end.

(** ** Prefetchers *)

Definition prefetchKey (namespaceID queue : string) : string := (namespaceID +:+ "|" +:+ queue)%string.

(** The registry's prefetcher of a queue, started if needed; its access time
    is set. *)
Definition getOrStart (namespaceID queue : string) : PM queuePrefetcher :=
  t ← pnow;
  local (fun w =>
    let key := prefetchKey namespaceID queue in
    let pf := match pw_prefetch w !! key with
              | Some pf => MkPrefetcher (pf_namespaceID pf) (pf_queueName pf) (pf_candidates pf)
                             (pf_waiting pf) t
              | None => MkPrefetcher namespaceID queue [] [] t
              end in
    (pf, pset_prefetch (<[key := pf]> (pw_prefetch w)) w)).

(** Receive from the buffer without blocking; the goroutine then pushes what
    it was waiting with. *)
Definition tryGet (namespaceID queue : string) : PM string :=
  pf ← getOrStart namespaceID queue;
  local (fun w =>
    match pf_candidates pf with
    | [] => (""%string, w)
    | id :: rest =>
        let filled := rest ++ take 1 (pf_waiting pf) in
        let pf := MkPrefetcher (pf_namespaceID pf) (pf_queueName pf) filled (drop 1 (pf_waiting pf))
                    (pf_lastAccess pf) in
        (id, pset_prefetch (<[prefetchKey namespaceID queue := pf]> (pw_prefetch w)) w)
    end).

Context `{Srv : PgServer}.

Definition fetchCandidateIDs (pf : queuePrefetcher) (limit : Z) : PM (list string) :=
  ids ← pool_read (fun now d =>
    Ok (pg_select now [PStatus StatusNew; PNamespace (pf_namespaceID pf); PQueue (pf_queueName pf); PTTL]
          (Some limit) None (pg_agents d)).*1);
  _ ← pg_rows_Err;
  mret ids.

(** One tick of the prefetcher under [key]: nothing while its buffer is half
    full or it is still pushing; else it fetches and pushes what fits. *)
Definition prefetch_tick (key : string) : PM unit := fun w =>
  match pw_prefetch w !! key with
  | None => (Ok tt, w)
  | Some pf =>
      if decide (pf_waiting pf <> [] \/ s_bufferSize s / 2 <= length (pf_candidates pf))%nat then (Ok tt, w)
      else
        (r ← ptry (fetchCandidateIDs pf (s_batchSize s));
         local (fun w =>
           match r with
           | Err _ => (tt, w)
           | Ok ids =>
               let room := (s_bufferSize s - length (pf_candidates pf))%nat in
               let pf := MkPrefetcher (pf_namespaceID pf) (pf_queueName pf)
                           (pf_candidates pf ++ take room ids) (drop room ids) (pf_lastAccess pf) in
               (tt, pset_prefetch (<[key := pf]> (pw_prefetch w)) w)
           end)) w
  end.

Definition prefetchIdleTimeout : Z := 30 * Time.Second.

(** Evict the prefetchers not asked for thirty seconds. *)
Definition evictIdle : PM unit :=
  t ← pnow;
  local (fun w => (tt, pset_prefetch (filter (fun kv => t - pf_lastAccess kv.2 <= prefetchIdleTimeout)
                                        (pw_prefetch w)) w)).

Definition evictAll : PM unit := local (fun w => (tt, pset_prefetch ∅ w)).

End Engine.
