(* ===== verification/PgLifecycle.v ===== *)
(** * Postgres: the lifecycle of agents

    [src/pkg/store/postgres/postgres_lifecycle.go]: creating, claiming (four
    claiming paths), updating, completing, releasing and renewing agents, each
    as the sequence of statements the code issues, and the lease reaper of
    [postgres_reaper.go].  Clock readings that only feed metrics are left
    out. *)

From S2P Require Import Prelude GoLib Agent Common Effects Sql PgRows PgEffects PgQuery PgEngine.
From stdpp Require Import gmap strings list fin_maps sorting.
From Stdlib Require Import ZArith Lia Ascii.

Open Scope Z_scope.

(** ** Pure parts *)

(** The data of an event under [slimEvents]. *)
Definition slim_data (t : Agent) (status : string) : gmap string any :=
  <["tuple_id" := VStr (a_ID t)]> (<["kind" := VStr (a_Kind t)]> {["status" := VStr status]}).

Definition event_data (s : PgStore) (t : Agent) (status : string) (full : gmap string any) : gmap string any :=
  if s_slimEvents s then slim_data t status else full.

(** The default lease in milliseconds, falling back on the built-in one. *)
Definition defaultLeaseMs (s : PgStore) : Z :=
  let ms := Time.Milliseconds (s_leaseDuration s) in
  if decide (ms <= 0) then Time.Milliseconds (LeaseDuration DefaultLeaseOptions) else ms.

(** The metadata a completion adds. *)
Definition completion_patch (agentID leaseToken : string) (now_ : Z) : gmap string string :=
  default ∅ (a_Metadata (SetCompletionMetadata
    (MkAgent "" "" "" "" None [] "" "" "" "" 0 0 0 0 "" 0 0 (Some ∅)) agentID leaseToken now_)).

Definition set_shard (s : PgStore) (t : Agent) : Agent :=
  if decide (a_ShardID t = "" /\ s_shardID s <> "")%string then set_ShardID (s_shardID s) t else t.

(** What an output of [CompleteAndOut] gets from the completed agent. *)
Definition pg_inherit (s : PgStore) (parent out : Agent) : Agent :=
  let out := if decide (a_Status out = "")%string then set_Status StatusNew out else out in
  let out := set_shard s out in
  let out := if decide (a_TraceID out = "" /\ a_TraceID parent <> "")%string
             then set_TraceID (a_TraceID parent) out else out in
  let out := if decide (a_NamespaceID out = "" /\ a_NamespaceID parent <> "")%string
             then set_NamespaceID (a_NamespaceID parent) out else out in
  if decide (a_ParentID out = "")%string then set_ParentID (a_ID parent) out else out.

(** The namespace a deferred output event is written under. *)
Definition output_namespace (t : Agent) (outs : list Agent) (e : Event) : string :=
  match find_map (fun o => if decide (a_ID o = e_TupleID e) then Some (a_NamespaceID o) else None) outs with
  | Some ns => ns
  | None => a_NamespaceID t
  end.

Definition takeClaimSQLState (e : gerror) : string :=
  match root_cause e with ESQL code => code | _ => ""%string end.

Definition shouldFallbackToLegacyTake (e : gerror) : bool :=
  let sqlState := takeClaimSQLState e in
  if decide (sqlState = "")%string then false
  else Strings.HasPrefix sqlState "42" || bool_decide (sqlState = "0A000")%string.

Definition errorsIsNoRows (e : gerror) : bool := match e with ENoRows => true | _ => false end.

(** ** Conflicts *)

Definition classifyCompletionConflict (current : Agent) (agentID leaseToken : string) : option gerror :=
  if decide (a_Status current = StatusCompleted) then
    if CompletionTokenMatches current leaseToken then None else Some EStaleToken
  else if decide (a_Status current <> StatusInProgress) then Some (EInvalidStatus (a_Status current))
  else if decide (a_Owner current <> agentID) then Some (EOwnedBy "complete" (a_Owner current) agentID)
  else if decide (a_LeaseToken current <> leaseToken) then Some ETokenMismatch
  else Some (ERejected "complete").

Definition classifyReleaseConflict (current : Agent) (agentID leaseToken : string) : gerror :=
  if decide (a_Status current <> StatusInProgress) then EInvalidStatus (a_Status current)
  else if decide (a_Owner current <> agentID) then EOwnedBy "release" (a_Owner current) agentID
  else if decide (a_LeaseToken current <> leaseToken) then ETokenMismatch
  else ERejected "release".

Definition classifyRenewConflict (current : Agent) (agentID leaseToken : string) : gerror :=
  if decide (a_Status current <> StatusInProgress) then EInvalidStatus (a_Status current)
  else if decide (a_Owner current <> agentID) then EOwnedBy "renew" (a_Owner current) agentID
  else if decide (a_LeaseToken current <> leaseToken) then ETokenMismatch
  else ERejected "renew".

(** ** Statements *)

Inductive lockClause : Type := ForUpdate | ForUpdateSkipLocked.

Notation stmt A :=
  (Z -> (string -> bool) -> gmap string PgRow -> result gerror (gmap string PgRow * gset string * A))
  (only parsing).

(** [UPDATE agents SET ... WHERE id = $ AND guard RETURNING ...]. *)
Definition update_by_id (id : string) (guard : Z -> PgRow -> bool) (set_ : PgRow -> result gerror PgRow)
    : stmt (option (string * PgRow)) := fun now _ rows =>
  match rows !! id with
  | Some r => if guard now r
              then match set_ r with
                   | Ok r' => Ok ({[id := r']}, ∅, Some (id, r'))
                   | Err e => Err e
                   end
              else Ok (∅, ∅, None)
  | None => Ok (∅, ∅, None)
  end.

(** The guard of the statements that need the lease. *)
Definition leased_to (agentID leaseToken : string) (now : Z) (r : PgRow) : bool :=
  bool_decide (g_status r = StatusInProgress) && bool_decide (g_owner r = agentID)
  && bool_decide (g_lease_token r = leaseToken) && ttlClause now r.

(** [SELECT ... WHERE id = $1 AND ttl FOR UPDATE]. *)
Definition select_for_update (id : string) : stmt (option (string * PgRow)) := fun now _ rows =>
  match rows !! id with
  | Some r => if ttlClause now r then Ok (∅, {[id]}, Some (id, r)) else Ok (∅, ∅, None)
  | None => Ok (∅, ∅, None)
  end.

(** [INSERT ... ON CONFLICT (id) DO UPDATE SET] every other column. *)
Definition upsert (t : Agent) : stmt unit := fun _ _ _ => Ok ({[a_ID t := pg_row_of t]}, ∅, tt).

(** [UPDATE agents SET every column WHERE id = $19]. *)
Definition update_row (id : string) (f : PgRow -> PgRow) : stmt unit := fun _ _ rows =>
  match rows !! id with
  | Some r => Ok ({[id := f r]}, ∅, tt)
  | None => Ok (∅, ∅, tt)
  end.

Section Candidates.
Context `{Srt : SqlOrder} `{Srv : PgServer}.

(** SKIP LOCKED passes over the rows locked elsewhere. *)
Definition available (lock : lockClause) (locked : string -> bool) (id : string) : bool :=
  match lock with ForUpdate => true | ForUpdateSkipLocked => negb (locked id) end.

(** [SELECT ... WHERE ... ORDER BY created_at ASC, id ASC lock]. *)
Definition candidates (now : Z) (locked : string -> bool) (lock : lockClause) (cs : list pclause)
    (rows : gmap string PgRow) : list (string * PgRow) :=
  filter (fun p => available lock locked p.1) (by_creation (rows_where now cs rows)).

(** [WITH candidate AS (... LIMIT 1 lock), claimed AS (UPDATE ... FROM
    candidate WHERE id matches [AND match]) SELECT ... FROM claimed]. *)
Definition claim_candidate (lock : lockClause) (cs match_ : list pclause) (owner leaseToken : string)
    (now_ dflt : Z) : stmt (option (string * PgRow)) := fun now locked rows =>
  match head (candidates now locked lock cs rows) with
  | None => Ok (∅, ∅, None)
  | Some (id, r) =>
      if psat_all now match_ r then
        match claim_set owner leaseToken now_ dflt r with
        | Ok r' => Ok ({[id := r']}, ∅, Some (id, r'))
        | Err e => Err e
        end
      else Ok (∅, {[id]}, None)
  end.

(** The legacy selection, which locks its candidate. *)
Definition select_candidate (lock : lockClause) (cs : list pclause) : stmt (option (string * PgRow)) :=
  fun now locked rows =>
  match head (candidates now locked lock cs rows) with
  | None => Ok (∅, ∅, None)
  | Some (id, r) => Ok (∅, {[id]}, Some (id, r))
  end.

(** Claim each candidate under its own token. *)
Fixpoint claim_each (owner : string) (now_ dflt : Z) (tokens : list string) (l : list (string * PgRow))
    : result gerror (list (string * PgRow)) :=
  match l, tokens with
  | (id, r) :: l, tok :: tokens =>
      match claim_set owner tok now_ dflt r, claim_each owner now_ dflt tokens l with
      | Ok r', Ok l' => Ok ((id, r') :: l')
      | Err e, _ => Err e
      | _, Err e => Err e
      end
  | _, _ => Ok []
  end.

(** The batch claim; its rows are returned in no particular order. *)
Definition claim_batch (cs : list pclause) (owner : string) (now_ dflt : Z) (tokens : list string)
    (limit : Z) : stmt (list (string * PgRow)) := fun now locked rows =>
  match claim_each owner now_ dflt tokens
          (take (Z.to_nat limit) (candidates now locked ForUpdateSkipLocked cs rows)) with
  | Ok l => Ok (list_to_map l, ∅, any_order l)
  | Err e => Err e
  end.

End Candidates.

(** ** Operations *)

Section Lifecycle.
Context `{E : PgEnv} `{Srt : SqlOrder} `{Srv : PgServer} (s : PgStore).

Definition upsertAgent (t : Agent) : PM Agent :=
  let t := sync_namespace t in
  _ ← tx_stmt (upsert t);
  mret t.

Definition updateAgentRow (t : Agent) : PM Agent :=
  let t := sync_namespace t in
  _ ← tx_stmt (update_row (a_ID t) (fun _ => pg_row_of t));
  mret t.

Definition updateAgentCompletionRow (t : Agent) : PM Agent :=
  let t := sync_namespace t in
  _ ← tx_stmt (update_row (a_ID t) (completion_row_set t));
  mret t.

(** The returned row, scanned; [None] for no row. *)
Definition scan_opt (row : option (string * PgRow)) : PM (option Agent) :=
  match row with
  | None => mret None
  | Some r => t ← of_result (scanAgent r); mret (Some t)
  end.

(** The end of a transition: the event inside the transaction, or queued
    after the commit. *)
Definition commit_with (event : Event) (namespaceID : string) : PM unit :=
  if s_deferEvents s then
    _ ← PCommit; enqueueEvent s event namespaceID
  else
    _ ← insertEvent event namespaceID (s_shardID s); PCommit.

Definition pfill_defaults (t : Agent) : PM Agent :=
  id ← (if decide (a_ID t = "")%string then pnew_uuid else mret (a_ID t));
  created ← (if Time.IsZero (a_CreatedAt t) then pnow else mret (a_CreatedAt t));
  updated ← pnow;
  mret (out_defaults t id created updated).

Definition out (t : Agent) : PM Agent :=
  t ← pfill_defaults t;
  let t := set_shard s t in
  eid ← pnew_uuid;
  timestamp ← pnow;
  pwith_tx (
    t' ← upsertAgent t;
    let event := agent_event eid t EventCreated timestamp (omget (a_Metadata t) "agent_id")
                   (event_data s t (a_Status t) {["agent" := agent_json t']}) in
    _ ← (if s_deferEvents s then mret tt else insertEvent event (a_NamespaceID t') (s_shardID s));
    _ ← queueWakeupNotify (a_NamespaceID t') (omget (a_Metadata t') QueueMetadataKey);
    _ ← PCommit;
    _ ← (if s_deferEvents s then enqueueEvent s event (a_NamespaceID t') else mret tt);
    _ ← notifySubscribers event;
    _ ← signalWakeups;
    mret t').

(** [SELECT ... WHERE id=$1 AND ttl] on the pool. *)
Definition get (id : string) : PM Agent :=
  r ← ptry (pool_read (fun now d =>
        match pg_agents d !! id with
        | Some r => if ttlClause now r then scanAgent (id, r) else Err ENoRows
        | None => Err ENoRows
        end));
  match r with
  | Ok t => mret t
  | Err e => if errorsIsNoRows e then pfail (ENotFound id) else pfail e
  end.

(** *** Claims *)

Definition claimed_event (t : Agent) (agentID : string) (eid : string) (timestamp : Z) : Event :=
  agent_event eid t EventClaimed timestamp agentID
    (event_data s t StatusInProgress {["agent_id" := VStr agentID]}).

Definition claimByID (candidateID agentID : string) : PM (option Agent) :=
  now_ ← pnow;
  leaseToken ← pnew_uuid;
  pwith_tx (
    row ← tx_stmt (update_by_id candidateID
                     (fun now r => bool_decide (g_status r = StatusNew) && ttlClause now r)
                     (claim_set agentID leaseToken (Pg.timestamptz now_) (defaultLeaseMs s)));
    o ← scan_opt row;
    match o with
    | None => mret None
    | Some t =>
        eid ← pnew_uuid;
        timestamp ← pnow;
        let event := claimed_event t agentID eid timestamp in
        _ ← commit_with event (a_NamespaceID t);
        _ ← notifySubscribers event;
        mret (Some t)
    end).

(** Three tries with the prefetched candidates. *)
Fixpoint prefetched_tries (n : nat) (namespaceID queue agentID : string) : PM (option Agent) :=
  match n with
  | O => mret None
  | S n =>
      candidateID ← tryGet namespaceID queue;
      if decide (candidateID = "")%string then mret None
      else
        o ← claimByID candidateID agentID;
        match o with
        | Some t => mret (Some t)
        | None => prefetched_tries n namespaceID queue agentID
        end
  end.

Definition takePrefetched (namespaceID queue agentID : string) : PM (option Agent) :=
  prefetched_tries 3 namespaceID queue agentID.

Definition resolveTakeLockClause (queue : string) : PM (option lockClause) :=
  if decide (queue <> "" /\ s_queueClaimMode s = QueueClaimModeStrict)%string then
    locked ← try_advisory_lock;
    mret (if (locked : bool) then Some ForUpdate else None)
  else mret (Some ForUpdateSkipLocked).

Definition takeWithStrategy (queue agentID : string) (claimFn : lockClause -> PM (option Agent))
    : PM (option Agent) :=
  pwith_tx (
    lock ← resolveTakeLockClause queue;
    match lock with
    | None => mret None
    | Some lock =>
        o ← claimFn lock;
        match o with
        | None => mret None
        | Some t =>
            eid ← pnew_uuid;
            timestamp ← pnow;
            let event := claimed_event t agentID eid timestamp in
            _ ← commit_with event (a_NamespaceID t);
            _ ← notifySubscribers event;
            mret (Some t)
        end
    end).

Definition takeStrictHeadClaim (query : option Query) (agentID : string) (lock : lockClause)
    : PM (option Agent) :=
  now_ ← pnow;
  leaseToken ← pnew_uuid;
  pwrap "postgres take strict queue head claim failed" (
    row ← tx_stmt (claim_candidate lock (buildStrictQueueHeadWhereClauses query) (buildWhereClauses query true)
                     agentID leaseToken (Pg.timestamptz now_) (defaultLeaseMs s));
    scan_opt row).

Definition takeStrictQueueHead (query : option Query) (queue agentID : string) : PM (option Agent) :=
  takeWithStrategy queue agentID (takeStrictHeadClaim query agentID).

Definition takeAtomicClaim (where_ : list pclause) (agentID : string) (lock : lockClause) : PM (option Agent) :=
  now_ ← pnow;
  leaseToken ← pnew_uuid;
  pwrap "postgres take atomic claim failed" (
    row ← tx_stmt (claim_candidate lock where_ [] agentID leaseToken (Pg.timestamptz now_) (defaultLeaseMs s));
    scan_opt row).

(** The agent as the legacy claim returns it. *)
Definition legacy_claimed (t : Agent) (agentID leaseToken : string) (now_ leaseUntil : Z) : Agent :=
  let t := set_Status StatusInProgress t in
  let t := set_Owner agentID t in
  let t := set_OwnerTime now_ t in
  let t := set_LeaseToken leaseToken t in
  let t := set_LeaseUntil leaseUntil t in
  let t := set_UpdatedAt now_ t in
  set_Version (int64 (a_Version t + 1)) t.

Definition takeLegacyClaim (where_ : list pclause) (agentID : string) (lock : lockClause) : PM (option Agent) :=
  pwrap "postgres take legacy claim failed" (
    row ← tx_stmt (select_candidate lock where_);
    o ← scan_opt row;
    match o with
    | None => mret None
    | Some t =>
        now_ ← pnow;
        leaseToken ← pnew_uuid;
        let leaseUntil := Time.Add now_ (leaseDurationForAgent t) in
        updated ← tx_stmt (update_by_id (a_ID t) (fun _ _ => true)
                             (legacy_claim_set agentID leaseToken (Pg.timestamptz now_)
                                (Pg.timestamptz leaseUntil)));
        match updated with
        | None => mret None
        | Some _ => mret (Some (legacy_claimed t agentID leaseToken now_ leaseUntil))
        end
    end).

Definition query_queue (query : option Query) : string :=
  match query with Some q => omget (q_Metadata q) QueueMetadataKey | None => ""%string end.

(** The claiming statement, and the two-step claim when the server rejects
    its syntax. *)
Definition take_claim (query : option Query) (queue agentID : string) : PM (option Agent) :=
  let where_ := buildWhereClauses query true in
  r ← ptry (takeWithStrategy queue agentID (takeAtomicClaim where_ agentID));
  match r with
  | Ok o => mret o
  | Err e =>
      if shouldFallbackToLegacyTake e then
        pwrap "postgres take fallback failed after atomic error"
          (takeWithStrategy queue agentID (takeLegacyClaim where_ agentID))
      else pfail e
  end.

Definition take_ (query : option Query) : PM (option Agent) :=
  if take_refused query then mret None
  else
    let agentID := query_agent_id query in
    let queue := query_queue query in
    if decide (queue <> "" /\ s_queueClaimMode s = QueueClaimModeStrict)%string then
      takeStrictQueueHead query queue agentID
    else if decide (queue <> "" /\ s_prefetch s = true)%string then
      r ← ptry (takePrefetched (match query with Some q => q_NamespaceID q | None => ""%string end)
                  queue agentID);
      match r with
      | Ok (Some t) => mret (Some t)
      | _ => take_claim query queue agentID
      end
    else take_claim query queue agentID.

(** [in]: poll [take_] until the deadline. *)
Definition in_ (fuel : nat) (query : option Query) (timeout : Z) : PM (option Agent) :=
  t ← pnow;
  ppoll_loop (take_ query) (Time.Add t timeout) fuel.

(** The events of a batch claim, each queued or written on its own. *)
Definition batch_event (agentID : string) (now_ : Z) (t : Agent) : PM unit :=
  eid ← pnew_uuid;
  let event := claimed_event t agentID eid now_ in
  _ ← (if s_deferEvents s then enqueueEvent s event (a_NamespaceID t)
       else _ ← ptry (SendBatch [pg_event_row event (a_NamespaceID t) (s_shardID s)]); mret tt);
  notifySubscribers event.

(** The server draws a token per claimed row; as many as [limit] are
    reserved. *)
Fixpoint draw_uuids (n : nat) : PM (list string) :=
  match n with
  | O => mret []
  | S n => u ← pnew_uuid; us ← draw_uuids n; mret (u :: us)
  end.

Definition batchTake (query : option Query) (limit : Z) : PM (list Agent) :=
  if decide (limit <= 0) then mret []
  else if take_refused query then mret []
  else
    let agentID := query_agent_id query in
    let where_ := buildWhereClauses query true in
    now_ ← pnow;
    pwith_tx (
      tokens ← draw_uuids (Z.to_nat limit);
      rows ← pwrap "postgres batch take failed"
               (tx_stmt (claim_batch where_ agentID (Pg.timestamptz now_) (defaultLeaseMs s) tokens limit));
      claimed ← pwrap "postgres batch take scan failed" (pfor_each (fun r => of_result (scanAgent r)) rows);
      _ ← pg_rows_Err;
      match claimed with
      | [] => mret []
      | _ =>
          _ ← PCommit;
          _ ← pfor_each (batch_event agentID now_) claimed;
          mret claimed
      end).

(** *** Updates *)

(** [SELECT ... FOR UPDATE], scanned. *)
Definition lock_agent (id : string) : PM Agent :=
  row ← tx_stmt (select_for_update id);
  match row with
  | None => pfail (ENotFound id)
  | Some r => of_result (scanAgent r)
  end.

Definition updateAndGet (id : string) (updates : option (gmap string any)) : PM Agent :=
  match updates with
  | None => get id
  | Some updates =>
      pwith_tx (
        t ← lock_agent id;
        updated ← pnow;
        let t := ApplyUpdates t updates in
        let t := set_UpdatedAt updated t in
        let t := set_Version (int64 (a_Version t + 1)) t in
        t ← updateAgentRow t;
        eid ← pnew_uuid;
        timestamp ← pnow;
        let event := agent_event eid t EventUpdated timestamp (GetStringFromMap updates "agent_id") updates in
        _ ← commit_with event (a_NamespaceID t);
        _ ← notifySubscribers event;
        mret t)
  end.

Definition update (id : string) (updates : option (gmap string any)) : PM unit :=
  match updates with
  | None => mret tt
  | Some _ => _ ← updateAndGet id updates; mret tt
  end.

(** *** Completion, release, renewal *)

Definition prequire_identity {A} (agentID leaseToken : string) (m : PM A) : PM A :=
  if decide (agentID = "")%string then pfail EAgentIDRequired
  else if decide (leaseToken = "")%string then pfail ELeaseTokenRequired
  else m.

Definition completeAndGet (id agentID leaseToken : string) (result : option (gmap string any)) : PM Agent :=
  prequire_identity agentID leaseToken (
    pwith_tx (
      now_ ← pnow;
      let result := default ∅ result in
      row ← tx_stmt (update_by_id id (leased_to agentID leaseToken)
                       (complete_set (Pg.timestamptz now_) result
                          (VStr <$> completion_patch agentID leaseToken now_)));
      o ← scan_opt row;
      match o with
      | None =>
          current ← get id;
          match classifyCompletionConflict current agentID leaseToken with
          | Some e => pfail e
          | None => mret current
          end
      | Some t =>
          eid ← pnew_uuid;
          let event := agent_event eid t EventCompleted now_ agentID
                         (event_data s t StatusCompleted result) in
          _ ← commit_with event (a_NamespaceID t);
          _ ← notifySubscribers event;
          mret t
      end)).

(** The agent [CompleteAndOut] writes. *)
Definition pg_completed (t : Agent) (agentID leaseToken : string) (result : gmap string any) (now_ : Z) : Agent :=
  let t := set_Payload (Some (<["result" := VMap result]> (default ∅ (a_Payload t)))) t in
  let t := SetCompletionMetadata t agentID leaseToken now_ in
  let t := set_Status StatusCompleted t in
  let t := set_Owner "" t in
  let t := set_OwnerTime Time.zero_time t in
  let t := set_LeaseToken "" t in
  let t := set_LeaseUntil Time.zero_time t in
  let t := set_UpdatedAt now_ t in
  set_Version (int64 (a_Version t + 1)) t.

(** One output with its event. *)
Definition pcreate_output (t : Agent) (agentID : string) (out : Agent) : PM (Agent * Event) :=
  out ← pfill_defaults out;
  let out := pg_inherit s t out in
  out ← pwrap "failed to create output agent" (upsertAgent out);
  _ ← pwrap "failed to queue output wakeup"
        (queueWakeupNotify (a_NamespaceID out) (omget (a_Metadata out) QueueMetadataKey));
  eid ← pnew_uuid;
  timestamp ← pnow;
  let event := agent_event eid out EventCreated timestamp agentID
                 (event_data s out (a_Status out)
                    (<["agent" := agent_json out]> {["parent_id" := VStr (a_ID t)]})) in
  _ ← (if s_deferEvents s then mret tt
       else pwrap "failed to create output event" (insertEvent event (a_NamespaceID out) (s_shardID s)));
  mret (out, event).

(** The guards on the locked agent. *)
Definition pcheck_lease (t : Agent) (agentID leaseToken : string) : PM unit :=
  if decide (a_Status t <> StatusInProgress) then pfail (EInvalidStatus (a_Status t))
  else if decide (a_Owner t <> agentID) then pfail (EOwnedBy "complete" (a_Owner t) agentID)
  else if decide (a_LeaseToken t <> leaseToken) then pfail ETokenMismatch
  else mret tt.

Definition completeAndOut (id agentID leaseToken : string) (result : option (gmap string any))
    (outputs : list Agent) : PM (Agent * list Agent) :=
  prequire_identity agentID leaseToken (
    pwith_tx (
      t ← lock_agent id;
      if decide (a_Status t = StatusCompleted) then
        if CompletionTokenMatches t leaseToken then _ ← PCommit; mret (t, [])
        else pfail EStaleToken
      else
        _ ← pcheck_lease t agentID leaseToken;
        now_ ← pnow;
        let result := default ∅ result in
        t ← updateAgentCompletionRow (pg_completed t agentID leaseToken result now_);
        eid ← pnew_uuid;
        let completedEvent := agent_event eid t EventCompleted now_ agentID
                                (event_data s t StatusCompleted result) in
        _ ← (if s_deferEvents s then mret tt
             else insertEvent completedEvent (a_NamespaceID t) (s_shardID s));
        created ← pfor_each (pcreate_output t agentID) outputs;
        _ ← PCommit;
        _ ← (if s_deferEvents s then
               _ ← enqueueEvent s completedEvent (a_NamespaceID t);
               _ ← pfor_each (fun e => enqueueEvent s e (output_namespace t created.*1 e)) created.*2;
               mret tt
             else mret tt);
        _ ← notifySubscribers completedEvent;
        _ ← pfor_each notifySubscribers created.*2;
        _ ← signalWakeups;
        mret (t, created.*1))).

Definition prelease_data (reason agentID : string) : gmap string any :=
  let data := {["previous_owner" := VStr agentID]} in
  if decide (reason = "")%string then data else <["reap_reason" := VStr reason]> data.

Definition releaseAndGet (id agentID leaseToken reason : string) : PM Agent :=
  prequire_identity agentID leaseToken (
    pwith_tx (
      now_ ← pnow;
      row ← tx_stmt (update_by_id id (leased_to agentID leaseToken) (release_set (Pg.timestamptz now_)));
      o ← scan_opt row;
      match o with
      | None => current ← get id; pfail (classifyReleaseConflict current agentID leaseToken)
      | Some t =>
          eid ← pnew_uuid;
          timestamp ← pnow;
          let event := agent_event eid t EventReleased timestamp agentID (prelease_data reason agentID) in
          _ ← (if s_deferEvents s then mret tt else insertEvent event (a_NamespaceID t) (s_shardID s));
          _ ← queueWakeupNotify (a_NamespaceID t) (omget (a_Metadata t) QueueMetadataKey);
          _ ← PCommit;
          _ ← (if s_deferEvents s then enqueueEvent s event (a_NamespaceID t) else mret tt);
          _ ← notifySubscribers event;
          _ ← signalWakeups;
          mret t
      end)).

Definition renewLease (id agentID leaseToken : string) (leaseDuration : Z) : PM Agent :=
  prequire_identity agentID leaseToken (
    pwith_tx (
      now_ ← pnow;
      let ms := Time.Milliseconds leaseDuration in
      let ms := if decide (ms <= 0) then Time.Milliseconds (s_leaseDuration s) else ms in
      row ← tx_stmt (update_by_id id (leased_to agentID leaseToken) (renew_set (Pg.timestamptz now_) ms));
      o ← scan_opt row;
      match o with
      | None => current ← get id; pfail (classifyRenewConflict current agentID leaseToken)
      | Some t => _ ← PCommit; mret t
      end)).

(** *** The reaper *)

(** [lease_until IS NOT NULL AND lease_until < $2] of an IN_PROGRESS row. *)
Definition lease_expired (now : Z) (r : PgRow) : bool :=
  bool_decide (g_status r = StatusInProgress)
  && match g_lease_until r with Some u => bool_decide (u < now) | None => false end.

(** Release each row; what is returned of it: the row before and after. *)
Fixpoint release_each (now : Z) (l : list (string * PgRow)) : result gerror (list (string * (PgRow * PgRow))) :=
  match l with
  | [] => Ok []
  | (id, r) :: l =>
      match release_set now r, release_each now l with
      | Ok r', Ok l' => Ok ((id, (r, r')) :: l')
      | Err e, _ => Err e
      | _, Err e => Err e
      end
  end.

Definition reap_stmt (now : Z) : stmt (list (string * (PgRow * PgRow))) := fun _ locked rows =>
  match release_each now (filter (fun p => negb (locked p.1) && lease_expired now p.2) (map_to_list rows)) with
  | Ok l => Ok (list_to_map ((fun x => (x.1, x.2.2)) <$> l), ∅, any_order l)
  | Err e => Err e
  end.

Definition reap_event (eid : string) (now : Z) (x : string * (PgRow * PgRow)) : Event :=
  let '(id, (old, new)) := x in
  {| e_ID := eid; e_TupleID := id; e_Type := EventReleased; e_Kind := g_kind new;
     e_Timestamp := now; e_AgentID := "reaper";
     e_Data := <["reap_reason" := VStr "lease_expired"]> {["previous_owner" := VStr (g_owner old)]};
     e_TraceID := g_trace_id old; e_Version := g_version new |}.

(** The event and the notification of one reaped agent, in the batch. *)
Definition reap_one (now : Z) (x : string * (PgRow * PgRow)) : PM Event :=
  eid ← pnew_uuid;
  let event := reap_event eid now x in
  _ ← insertEvent event (g_namespace_id x.2.1) (s_shardID s);
  _ ← queueWakeupNotify (g_namespace_id x.2.1) (g_queue x.2.1);
  mret event.

(** Failures are logged; the pass then ends without a commit. *)
Definition reapExpiredLeases : PM unit :=
  now_ ← pnow;
  r ← ptry (pwith_tx (
    reaped ← tx_stmt (reap_stmt (Pg.timestamptz now_));
    match reaped with
    | [] => mret tt
    | _ =>
        events ← pfor_each (reap_one now_) reaped;
        _ ← PCommit;
        _ ← pfor_each notifySubscribers events;
        signalWakeups
    end));
  mret tt.

(** *** The graph of related agents *)

Fixpoint pdag_loop (fuel : nat) (visited : gset string) (queue : list string) (dag : DAG) : PM (option DAG) :=
  match queue with
  | [] => mret (Some dag)
  | id :: queue =>
      match fuel with
      | O => mret None
      | S fuel =>
          if decide (id ∈ visited) then pdag_loop fuel visited queue dag
          else
            let visited := {[id]} ∪ visited in
            found ← ptry (get id);
            match found with
            | Err _ => pdag_loop fuel visited queue dag
            | Ok t =>
                let nodes := <[id := dag_node t]> (dag_Nodes dag) in
                let up := if decide (a_ParentID t = "")%string then []
                          else [MkEdge (a_ParentID t) (a_ID t) "parent"] in
                let queue := queue ++ (if decide (a_ParentID t = "")%string then [] else [a_ParentID t]) in
                children ← ptry (PgQuery.query (Some (parent_query (a_ID t))));
                match children with
                | Err _ => pdag_loop fuel visited queue (MkDAG nodes (dag_Edges dag ++ up))
                | Ok children =>
                    let down := (fun child => MkEdge (a_ID t) (a_ID child) "spawned") <$> children in
                    pdag_loop fuel visited (queue ++ (a_ID <$> children))
                      (MkDAG nodes (dag_Edges dag ++ up ++ down))
                end
            end
      end
  end.

Definition getDAG (fuel : nat) (rootID : string) : PM (option DAG) :=
  pdag_loop fuel ∅ [rootID] (MkDAG ∅ []).

End Lifecycle.
