(* ===== verification/PgLogic.v ===== *)
(** * Postgres: reasoning beside other sessions

    Rules in the style of rely/guarantee.  What the other sessions commit
    between two calls is any function of the tables, the environment's
    [others_at]; [moves] records where those changes and this session's own
    commits have taken the tables.  What is tracked of this session: the
    labels its open transaction amounts to, and the rows it has locked and
    seen, which stay as seen until it ends ([holds]). *)

From S2P Require Import Prelude GoLib Agent Common Effects Sql Lease SharedLease PgRows PgEffects.
From stdpp Require Import gmap strings list fin_maps sorting.
From Stdlib Require Import ZArith Lia.

Open Scope Z_scope.

(** ** The abstraction *)

Definition pdone (m : gmap string any) : string :=
  match m !! CompletedByTokenMetadataKey with Some v => string_or_zero v | None => ""%string end.

Definition cell_of (r : PgRow) : cell :=
  MkCell (g_status r) (g_owner r) (g_lease_token r) (pdone (g_metadata r)).

Definition cell_at (d : PgDB) (id : string) : option cell := cell_of <$> pg_agents d !! id.

(** Where the tables stand: the number of the next database call, and what
    is committed. *)
Notation place := (nat * PgDB)%type.

(** One commit of this session: each agent goes along its labels in [ls],
    and a row no label is about stays as it is. *)
Definition commits (ls : list label) (d d' : PgDB) : Prop :=
  forall id, cell_steps id (cell_at d id) (about id ls) (cell_at d' id)
          /\ (about id ls = [] -> pg_agents d' !! id = pg_agents d !! id).

Section Moves.
Context `{E : PgEnv}.

(** The agents' rows went from one place to another by what really ran: at
    call [n] the other sessions made of the tables what the environment says
    they make of them, the rows this session had locked apart; the rest are
    this session's own commits, of the labels [own] in this order. *)
Inductive moves : list label -> place -> place -> Prop :=
| moves_none p : moves [] p p
| moves_others own p n d locks d' :
    moves own p (n, d) ->
    pg_agents d' = pg_agents (interfere locks d (others_at n d)) ->
    moves own p (S n, d')
| moves_own own p n d ls d' :
    moves own p (n, d) -> commits ls d d' -> moves (own ++ ls) p (n, d').

Lemma moves_app o1 o2 p q r : moves o1 p q -> moves o2 q r -> moves (o1 ++ o2) p r.
Proof.
  intros H1 H2. revert p o1 H1. induction H2; intros p0 o1 H1.
  - by rewrite app_nil_r.
  - eapply moves_others; eauto.
  - rewrite app_assoc. eapply moves_own; eauto.
Qed.

(** Changing the event list alone changes no agent. *)
Lemma moves_agents own p n d d' :
  moves own p (n, d) -> pg_agents d' = pg_agents d -> moves own p (n, d').
Proof.
  intros H Heq. rewrite <- (app_nil_r own). eapply moves_own; [exact H|].
  intros id. unfold cell_at. rewrite Heq. split; [constructor|done].
Qed.

End Moves.

(** ** What is known of the session *)

Inductive status : Type :=
| InTx (own : list label) (seen : gmap string PgRow)
| Idle (own : list label).

(** The transaction's writes are the labels [own] of the rows it holds. *)
Definition tx_ok (d : PgDB) (tx : PTx) (own : list label) : Prop :=
  forall id, (id ∈ tx_locks tx ->
              cell_steps id (cell_at d id) (about id own) (cell_of <$> view d tx !! id))
          /\ (id ∉ tx_locks tx -> tx_rows tx !! id = None /\ about id own = [])
          /\ (about id own = [] -> tx_rows tx !! id = None).

Definition sees (d : PgDB) (tx : PTx) (seen : gmap string PgRow) : Prop :=
  forall id r, seen !! id = Some r -> id ∈ tx_locks tx /\ view d tx !! id = Some r.

Definition place_of (w : PW) : place := (pw_call w, pw_db w).

Definition holds `{E : PgEnv} (d0 : place) (st : status) (w : PW) : Prop :=
  match st with
  | InTx own seen => exists tx, pw_tx w = Some tx /\ moves [] d0 (place_of w)
                                /\ tx_ok (pw_db w) tx own /\ sees (pw_db w) tx seen
  | Idle own => pw_tx w = None /\ moves own d0 (place_of w)
  end.

Arguments holds : simpl never.

(** A transaction that will be rolled back. *)
Definition unfinished `{E : PgEnv} (d0 : place) (w : PW) : Prop := exists own seen, holds d0 (InTx own seen) w.

(** ** Running *)

Definition pwp {A} (m : PM A) (Q : result gerror A -> PW -> Prop) (w : PW) : Prop :=
  let '(r, w') := m w in Q r w'.

Lemma pwp_mono {A} (m : PM A) (P Q : result gerror A -> PW -> Prop) w :
  pwp m P w -> (forall r w', P r w' -> Q r w') -> pwp m Q w.
Proof. unfold pwp. destruct (m w). auto. Qed.

Lemma pwp_run {A} (m : PM A) (Q : result gerror A -> PW -> Prop) w r w' : pwp m Q w -> m w = (r, w') -> Q r w'.
Proof. unfold pwp. intros H E. by rewrite E in H. Qed.

Lemma pwp_ret {A} (a : A) Q w : Q (Ok a) w -> pwp (mret a) Q w.
Proof. done. Qed.

Lemma pwp_fail {A} e (Q : result gerror A -> PW -> Prop) w : Q (Err e) w -> pwp (pfail e) Q w.
Proof. done. Qed.

Lemma pwp_result {A} (x : result gerror A) Q w : Q x w -> pwp (of_result x) Q w.
Proof. done. Qed.

Lemma pwp_bind {A B} (m : PM A) (f : A -> PM B) Q w :
  pwp m (fun r w' => match r with Ok a => pwp (f a) Q w' | Err e => Q (Err e) w' end) w ->
  pwp (m ≫= f) Q w.
Proof. unfold pwp, mbind, PM_bind. destruct (m w) as [[a|e] w']; auto. Qed.

Lemma pwp_try {A} (m : PM A) Q w : pwp m (fun r w' => Q (Ok r) w') w -> pwp (ptry m) Q w.
Proof. unfold pwp, ptry. by destruct (m w). Qed.

Lemma pwp_wrap {A} c (m : PM A) Q w :
  pwp m (fun r w' => match r with Ok a => Q (Ok a) w' | Err e => Q (Err (EWrap c e)) w' end) w ->
  pwp (pwrap c m) Q w.
Proof. unfold pwp, pwrap. by destruct (m w) as [[]]. Qed.

(** ** Facts about views and interference *)

Lemma interfere_lookup locks d d' id :
  pg_agents (interfere locks d d') !! id =
  if decide (id ∈ locks) then pg_agents d !! id else pg_agents d' !! id.
Proof.
  unfold interfere. simpl. rewrite lookup_union.
  destruct (decide (id ∈ locks)) as [Hin|Hin].
  - destruct (pg_agents d !! id) as [r|] eqn:Hr.
    + rewrite (map_lookup_filter_Some_2 _ _ id r Hr Hin). by destruct (filter _ (pg_agents d') !! id).
    + rewrite (proj2 (map_lookup_filter_None _ _ id) (or_introl Hr)), left_id_L by apply _.
      apply map_lookup_filter_None. right. intros r _ Hn. by apply Hn.
  - rewrite (proj2 (map_lookup_filter_None _ (pg_agents d) id)), left_id_L by
      (try apply _; right; intros r _ Hn; by apply Hin).
    destruct (pg_agents d' !! id) as [r|] eqn:Hr.
    + by apply map_lookup_filter_Some_2.
    + apply map_lookup_filter_None. by left.
Qed.

Lemma about_app id l1 l2 : about id (l1 ++ l2) = about id l1 ++ about id l2.
Proof. apply filter_app. Qed.

Section Rules.
Context `{E : PgEnv}.

Lemma moves_advance own p w : moves own p (place_of w) -> moves own p (place_of (advance w)).
Proof. intros H. eapply moves_others; [exact H|reflexivity]. Qed.

(** What is known survives what the others do. *)
Lemma holds_advance d0 st w : holds d0 st w -> holds d0 st (advance w).
Proof.
  destruct st as [own seen|own]; unfold holds.
  - intros (tx & Htx & Hev & Hok & Hsee). exists tx. unfold advance, held. simpl. rewrite Htx.
    set (d' := interfere _ _ _).
    assert (Hcell : forall id, id ∈ tx_locks tx -> pg_agents d' !! id = pg_agents (pw_db w) !! id).
    { intros id Hid. unfold d'. rewrite interfere_lookup. by rewrite decide_True. }
    assert (Hview : forall id, id ∈ tx_locks tx -> view d' tx !! id = view (pw_db w) tx !! id).
    { intros id Hid. unfold view. by rewrite !lookup_union, Hcell. }
    split_and!; [done|by eapply moves_others| |].
    + intros id. destruct (Hok id) as (H1 & H2 & H3). split_and!; [|done|done].
      intros Hid. unfold cell_at. rewrite Hview, Hcell by done. by apply H1.
    + intros id r Hr. destruct (Hsee id r Hr) as [Hid Hv]. split; [done|]. by rewrite Hview.
  - intros [Htx Hev]. split; [done|]. by apply moves_advance.
Qed.

(** *** Rules that leave what is known as it is *)

Lemma pwp_pnow d0 st w Q :
  holds d0 st w -> (forall z w', holds d0 st w' -> Q (Ok z) w') -> pwp pnow Q w.
Proof. intros H HQ. apply HQ. by destruct st. Qed.

Lemma pwp_uuid d0 st w Q :
  holds d0 st w -> (forall z w', holds d0 st w' -> Q (Ok z) w') -> pwp pnew_uuid Q w.
Proof. intros H HQ. apply HQ. by destruct st. Qed.

Lemma pwp_pnotify d0 st w e Q :
  holds d0 st w -> (forall w', holds d0 st w' -> Q (Ok tt) w') -> pwp (notifySubscribers e) Q w.
Proof. intros H HQ. apply HQ. by destruct st. Qed.

Lemma pwp_signal d0 st w Q :
  holds d0 st w -> (forall w', holds d0 st w' -> Q (Ok tt) w') -> pwp signalWakeups Q w.
Proof. intros H HQ. apply HQ. by destruct st. Qed.

(** A call that does not write the agents. *)
Lemma pwp_pcall {A} d0 st w (m : nat -> PM A) Q :
  holds d0 st w ->
  (forall e w', holds d0 st w' -> Q (Err e) w') ->
  (forall n w', holds d0 st w' -> pwp (m n) Q w') ->
  pwp (pcall m) Q w.
Proof.
  intros H HE HQ. apply holds_advance in H. unfold pwp, pcall.
  destruct (pfault_at (pw_call w)); [by apply HE|]. by apply HQ.
Qed.

Lemma pwp_pool_read {A} d0 st w (f : Z -> PgDB -> result gerror A) Q :
  holds d0 st w ->
  (forall e w', holds d0 st w' -> Q (Err e) w') ->
  (forall now w' a, holds d0 st w' -> f now (pw_db w') = Ok a -> Q (Ok a) w') ->
  pwp (pool_read f) Q w.
Proof.
  intros H HE HQ. eapply pwp_pcall; [exact H|exact HE|].
  intros n w' H'. unfold pwp. destruct (f _ _) eqn:Hf; [by eapply HQ|by apply HE].
Qed.

Lemma pwp_rows_Err d0 st w Q :
  holds d0 st w -> (forall e w', holds d0 st w' -> Q (Err e) w') ->
  (forall w', holds d0 st w' -> Q (Ok tt) w') -> pwp pg_rows_Err Q w.
Proof. intros H HE HQ. eapply pwp_pcall; [exact H|exact HE|]. intros n w' H'. by apply HQ. Qed.

Lemma pwp_advisory d0 st w Q :
  holds d0 st w -> (forall e w', holds d0 st w' -> Q (Err e) w') ->
  (forall b w', holds d0 st w' -> Q (Ok b) w') -> pwp try_advisory_lock Q w.
Proof. intros H HE HQ. eapply pwp_pcall; [exact H|exact HE|]. intros n w' H'. by apply HQ. Qed.

Lemma insert_batch_agents d rows d' : insert_batch d rows = Ok d' -> pg_agents d' = pg_agents d.
Proof.
  revert d. induction rows as [|r rows IH]; simpl; intros d; [by intros [= <-]|].
  destruct (insert_event_check d [] r); [|done]. intros H. by rewrite (IH _ H).
Qed.

Lemma pwp_batch d0 own w rows Q :
  holds d0 (Idle own) w -> (forall e w', holds d0 (Idle own) w' -> Q (Err e) w') ->
  (forall w', holds d0 (Idle own) w' -> Q (Ok tt) w') -> pwp (SendBatch rows) Q w.
Proof.
  intros H HE HQ. eapply pwp_pcall; [exact H|exact HE|]. intros n w' [Htx Hev]. unfold pwp.
  destruct (insert_batch _ _) as [d|e] eqn:Hd; [|by apply HE]. apply HQ. split; [done|].
  eapply moves_agents; [exact Hev|]. simpl. by eapply insert_batch_agents.
Qed.

(** *** Rules for transactions *)

Lemma pwp_insert_event d0 own seen w r Q :
  holds d0 (InTx own seen) w -> (forall e w', holds d0 (InTx own seen) w' -> Q (Err e) w') ->
  (forall w', holds d0 (InTx own seen) w' -> Q (Ok tt) w') -> pwp (tx_insert_event r) Q w.
Proof.
  intros H HE HQ. eapply pwp_pcall; [exact H|exact HE|].
  intros n w' H'. pose proof H' as (tx & Htx & Hev & Hok & Hsee). unfold pwp. rewrite Htx.
  destruct (insert_event_check _ _ _); [|by apply HE]. apply HQ.
  eexists. split_and!; [done|done|exact Hok|exact Hsee].
Qed.

Lemma pwp_pg_notify d0 own seen w p Q :
  holds d0 (InTx own seen) w -> (forall e w', holds d0 (InTx own seen) w' -> Q (Err e) w') ->
  (forall w', holds d0 (InTx own seen) w' -> Q (Ok tt) w') -> pwp (tx_pg_notify p) Q w.
Proof.
  intros H HE HQ. eapply pwp_pcall; [exact H|exact HE|].
  intros n w' H'. pose proof H' as (tx & Htx & Hev & Hok & Hsee). unfold pwp. rewrite Htx.
  apply HQ. eexists. split_and!; [done|done|exact Hok|exact Hsee].
Qed.

(** What a statement must do: the rows it writes or locks go along [ls]. *)
Definition stmt_ok (rows new : gmap string PgRow) (locks : gset string) (ls : list label) : Prop :=
  forall id, (id ∈ dom new ∪ locks ->
              cell_steps id (cell_of <$> rows !! id) (about id ls) (cell_of <$> (new ∪ rows) !! id))
          /\ (id ∉ dom new ∪ locks -> about id ls = [])
          /\ (about id ls = [] -> new !! id = None).

(** The rows of [seen] after a statement. *)
Definition seen_ok (rows new : gmap string PgRow) (locks : gset string) (seen seen' : gmap string PgRow) : Prop :=
  forall id r, seen' !! id = Some r ->
    (id ∈ dom new ∪ locks \/ is_Some (seen !! id)) /\ (new ∪ rows) !! id = Some r.

Lemma tx_ok_stmt d tx own new locks ls :
  tx_ok d tx own -> stmt_ok (view d tx) new locks ls ->
  tx_ok d (MkPTx (new ∪ tx_rows tx) (dom new ∪ locks ∪ tx_locks tx) (tx_events tx) (tx_notifies tx) (tx_now tx))
    (own ++ ls).
Proof.
  intros Hok Hst id. destruct (Hok id) as (H1 & H2 & H5), (Hst id) as (H3 & H4 & H6). rewrite about_app.
  assert (Hview : view d (MkPTx (new ∪ tx_rows tx) (dom new ∪ locks ∪ tx_locks tx) (tx_events tx)
                            (tx_notifies tx) (tx_now tx)) = new ∪ view d tx).
  { unfold view. simpl. by rewrite map_union_assoc. }
  rewrite Hview. simpl. split_and!.
  - intros Hid. destruct (decide (id ∈ tx_locks tx)) as [Hl|Hl].
    + eapply cell_steps_app; [by apply H1|].
      destruct (decide (id ∈ dom new ∪ locks)) as [Hn|Hn]; [by apply H3|].
      rewrite H4 by done. rewrite lookup_union_r; [constructor|]. apply not_elem_of_dom. set_solver.
    + destruct (H2 Hl) as [Hr ->]. simpl.
      assert (Hv : cell_at d id = cell_of <$> view d tx !! id).
      { unfold cell_at, view. by rewrite lookup_union, Hr, left_id_L by apply _. }
      rewrite Hv. apply H3. set_solver.
  - intros Hid. destruct H2 as [Hr ->]; [set_solver|]. rewrite H4 by set_solver. split; [|done].
    rewrite lookup_union, Hr, right_id_L by apply _. apply not_elem_of_dom. set_solver.
  - intros [Ho Hl]%app_eq_nil. by rewrite lookup_union, H5, H6 by done.
Qed.

Lemma pwp_stmt {A} d0 own seen w
    (f : Z -> (string -> bool) -> gmap string PgRow -> result gerror (gmap string PgRow * gset string * A))
    (L : A -> list label) (S : A -> gmap string PgRow) Q :
  holds d0 (InTx own seen) w ->
  (forall now locked rows new locks a,
     f now locked rows = Ok (new, locks, a) -> seen ⊆ rows ->
     stmt_ok rows new locks (L a) /\ seen_ok rows new locks seen (S a)) ->
  (forall e w', holds d0 (InTx own seen) w' -> Q (Err e) w') ->
  (forall now locked rows new locks a w',
     f now locked rows = Ok (new, locks, a) -> seen ⊆ rows ->
     holds d0 (InTx (own ++ L a) (S a)) w' -> Q (Ok a) w') ->
  pwp (tx_stmt f) Q w.
Proof.
  intros H Hst HE HQ. eapply pwp_pcall; [exact H|exact HE|].
  intros n w' H'. pose proof H' as (tx & Htx & Hev & Hok & Hsee). unfold pwp. rewrite Htx.
  destruct (f _ _ _) as [[[new locks] a]|e] eqn:Hf; [|by apply HE].
  assert (Hsub : seen ⊆ view (pw_db w') tx).
  { apply map_subseteq_spec. intros id r Hr. by apply Hsee. }
  destruct (Hst _ _ _ _ _ _ Hf Hsub) as [Hs1 Hs2].
  eapply HQ; [exact Hf|exact Hsub|]. eexists. split_and!; [done|exact Hev|by apply tx_ok_stmt|].
  intros id r Hr. destruct (Hs2 id r Hr) as [Hin Hv]. unfold view. simpl. split.
  - destruct Hin as [Hin|[r0 Hr0]]; [set_solver|]. destruct (Hsee id r0 Hr0). set_solver.
  - by rewrite <- map_union_assoc.
Qed.

Lemma pwp_commit d0 own seen w Q :
  holds d0 (InTx own seen) w -> (forall e w', holds d0 (InTx own seen) w' -> Q (Err e) w') ->
  (forall w', holds d0 (Idle own) w' -> Q (Ok tt) w') -> pwp PCommit Q w.
Proof.
  intros H HE HQ. eapply pwp_pcall; [exact H|exact HE|].
  intros n w' (tx & Htx & Hev & Hok & Hsee). unfold pwp. rewrite Htx. apply HQ. split; [done|].
  rewrite <- (app_nil_l own). eapply moves_own; [exact Hev|]. intros id. simpl.
  destruct (Hok id) as (H1 & H2 & H3). unfold cell_at at 2, apply_tx, view. simpl.
  split; [destruct (decide (id ∈ tx_locks tx)) as [Hl|Hl]; [by apply H1|]|intros Hn].
  - destruct (H2 Hl) as [Hr ->]. rewrite lookup_union, Hr, left_id_L by apply _. constructor.
  - by rewrite lookup_union, H3, left_id_L by (try apply _; done).
Qed.

(** A body that ends inside its transaction is rolled back; one that has
    committed keeps its labels. *)
Lemma pwp_with_tx {A} d0 w (body : PM A) Q :
  holds d0 (Idle []) w ->
  (forall e w', holds d0 (Idle []) w' -> Q (Err e) w') ->
  (forall w1, holds d0 (InTx [] ∅) w1 -> pwp body (fun r w2 => Q r (pset_tx None w2)) w1) ->
  pwp (pwith_tx body) Q w.
Proof.
  intros H HE HQ. unfold pwith_tx. apply pwp_bind. eapply pwp_pcall; [exact H|exact HE|].
  intros n w' [Htx Hev]. unfold pwp, pdeferred_rollback at 1. simpl.
  specialize (HQ (pset_tx (Some (MkPTx ∅ ∅ [] [] (server_now_at n))) w')).
  unfold pwp in HQ. destruct (body _) as [r w2]. apply HQ.
  eexists. split_and!; [done|done| |].
  - intros id. split_and!; [set_solver|by intros _; split|done].
  - by intros id row ?.
Qed.

Lemma rolled_back d0 w : unfinished d0 w -> holds d0 (Idle []) (pset_tx None w).
Proof. intros (own & seen & tx & Htx & Hev & _). by split. Qed.

Lemma committed d0 own w : holds d0 (Idle own) w -> holds d0 (Idle own) (pset_tx None w).
Proof. intros [_ Hev]. by split. Qed.

(** An agent the others leave alone goes along this session's labels and no
    others. *)
Lemma moves_undisturbed own p p' id :
  moves own p p' -> (forall n d, pg_agents (others_at n d) !! id = pg_agents d !! id) ->
  cell_steps id (cell_at p.2 id) (about id own) (cell_at p'.2 id).
Proof.
  intros H Halone. induction H as [p|own p n d locks d' H IH Hd|own p n d ls d' H IH Hc]; cbn [snd] in *.
  - constructor.
  - replace (cell_at d' id) with (cell_at d id); [exact IH|]. unfold cell_at. f_equal.
    rewrite Hd, interfere_lookup. case_decide; [done|]. by rewrite Halone.
  - rewrite about_app. eapply cell_steps_app; [exact IH|]. by apply Hc.
Qed.

End Rules.
