(* ===== verification/PgAlone.v ===== *)
(** * Postgres: a session by itself

    Exact rules for a session with no other session connected and no failing
    call: the world after each primitive.  The functional theorems about single
    operations are proved with them. *)

From S2P Require Import Prelude GoLib Agent Common Effects Sql Lease SharedLease PgRows PgEffects PgQuery PgEngine PgLifecycle PgLogic.
From stdpp Require Import gmap strings list fin_maps sorting.
From Stdlib Require Import ZArith Lia.

Open Scope Z_scope.

Lemma interfere_self locks d : interfere locks d d = d.
Proof.
  destruct d as [rows evs parts]. unfold interfere. simpl. f_equal.
  apply map_filter_union_complement.
Qed.

Section Alone.
Context `{E : PgEnv}.
Hypothesis HA : alone E.

Lemma alone_advance w : advance w = ptick w.
Proof.
  destruct HA as (_ & _ & _ & Ho). unfold advance. rewrite Ho, interfere_self. by destruct w.
Qed.

Lemma a_call {A} (m : nat -> PM A) Q w : pwp (m (pw_call w)) Q (ptick w) -> pwp (pcall m) Q w.
Proof.
  destruct HA as (Hf & _). unfold pwp, pcall. by rewrite Hf, alone_advance.
Qed.

Lemma a_with_tx {A} (body : PM A) Q w :
  pwp body (fun r w2 => Q r (pset_tx None w2))
    (pset_tx (Some (MkPTx ∅ ∅ [] [] (server_now_at (pw_call w)))) (ptick w)) ->
  pwp (pwith_tx body) Q w.
Proof.
  intros H. unfold pwith_tx. apply pwp_bind, a_call. unfold pwp, pdeferred_rollback in *. simpl.
  by destruct (body _).
Qed.

Lemma a_stmt {A} (f : Z -> (string -> bool) -> gmap string PgRow ->
                      result gerror (gmap string PgRow * gset string * A)) Q w tx :
  pw_tx w = Some tx ->
  match f (tx_now tx) (locked_at (pw_call w)) (view (pw_db w) tx) with
  | Err e => Q (Err e) (ptick w)
  | Ok (rows, locks, a) =>
      Q (Ok a) (pset_tx (Some (MkPTx (rows ∪ tx_rows tx) (dom rows ∪ locks ∪ tx_locks tx)
                                 (tx_events tx) (tx_notifies tx) (tx_now tx))) (ptick w))
  end -> pwp (tx_stmt f) Q w.
Proof.
  intros Htx H. apply a_call. unfold pwp. simpl. rewrite Htx.
  by destruct (f _ _ _) as [[[rows locks] a]|e].
Qed.

Lemma a_insert r Q w tx :
  pw_tx w = Some tx ->
  match insert_event_check (pw_db w) (tx_events tx) r with
  | Err e => Q (Err e) (ptick w)
  | Ok _ => Q (Ok tt) (pset_tx (Some (MkPTx (tx_rows tx) (tx_locks tx) (tx_events tx ++ [r])
                                        (tx_notifies tx) (tx_now tx))) (ptick w))
  end -> pwp (tx_insert_event r) Q w.
Proof.
  intros Htx H. apply a_call. unfold pwp. simpl. rewrite Htx. by destruct (insert_event_check _ _ _).
Qed.

Lemma a_notify p Q w tx :
  pw_tx w = Some tx ->
  Q (Ok tt) (pset_tx (Some (MkPTx (tx_rows tx) (tx_locks tx) (tx_events tx)
                              (tx_notifies tx ++ [p]) (tx_now tx))) (ptick w)) ->
  pwp (tx_pg_notify p) Q w.
Proof. intros Htx H. apply a_call. unfold pwp. simpl. by rewrite Htx. Qed.

Lemma a_commit Q w tx :
  pw_tx w = Some tx ->
  Q (Ok tt) (pset_sent (pw_sent w ++ tx_notifies tx) (pset_db (apply_tx tx (pw_db w)) (pset_tx None (ptick w)))) ->
  pwp PCommit Q w.
Proof. intros Htx H. apply a_call. unfold pwp. simpl. by rewrite Htx. Qed.

Lemma a_pool_read {A} (f : Z -> PgDB -> result gerror A) Q w :
  Q (f (server_now_at (pw_call w)) (pw_db w)) (ptick w) -> pwp (pool_read f) Q w.
Proof. intros H. apply a_call. exact H. Qed.

Lemma a_rows_Err Q w : Q (Ok tt) (ptick w) -> pwp pg_rows_Err Q w.
Proof. intros H. apply a_call. exact H. Qed.

Lemma a_advisory Q w : Q (Ok true) (ptick w) -> pwp try_advisory_lock Q w.
Proof. intros H. apply a_call. destruct HA as (_ & _ & Hadv & _). unfold pwp. by rewrite Hadv. Qed.

Lemma a_batch rows Q w :
  match insert_batch (pw_db w) rows with
  | Err e => Q (Err e) (ptick w)
  | Ok d => Q (Ok tt) (pset_db d (ptick w))
  end -> pwp (SendBatch rows) Q w.
Proof. intros H. apply a_call. unfold pwp. simpl. by destruct (insert_batch _ _). Qed.

Lemma a_now Q w :
  Q (Ok (pclock_at (pw_clock w)))
    (MkPW (pw_db w) (pw_tx w) (S (pw_clock w)) (pw_uuid w) (pw_call w) (pw_notified w) (pw_queue w)
       (pw_sent w) (pw_signals w) (pw_prefetch w)) -> pwp pnow Q w.
Proof. done. Qed.

Lemma a_uuid Q w :
  Q (Ok (puuid_at (pw_uuid w)))
    (MkPW (pw_db w) (pw_tx w) (pw_clock w) (S (pw_uuid w)) (pw_call w) (pw_notified w) (pw_queue w)
       (pw_sent w) (pw_signals w) (pw_prefetch w)) -> pwp pnew_uuid Q w.
Proof. done. Qed.

Lemma a_pnotify e Q w :
  Q (Ok tt) (MkPW (pw_db w) (pw_tx w) (pw_clock w) (pw_uuid w) (pw_call w) (pw_notified w ++ [e]) (pw_queue w)
               (pw_sent w) (pw_signals w) (pw_prefetch w)) -> pwp (notifySubscribers e) Q w.
Proof. done. Qed.

Lemma a_signal Q w :
  Q (Ok tt) (MkPW (pw_db w) (pw_tx w) (pw_clock w) (pw_uuid w) (pw_call w) (pw_notified w) (pw_queue w)
               (pw_sent w) (S (pw_signals w)) (pw_prefetch w)) -> pwp signalWakeups Q w.
Proof. done. Qed.

End Alone.

Lemma view_begun d locks evs ns n : view d (MkPTx ∅ locks evs ns n) = pg_agents d.
Proof. unfold view. simpl. apply (left_id_L ∅ (∪)). Qed.

Lemma view_one d id r locks evs ns n :
  view d (MkPTx ({[id := r]} ∪ ∅) locks evs ns n) = <[id := r]> (pg_agents d).
Proof. unfold view. simpl. by rewrite (right_id_L ∅ (∪)), insert_union_singleton_l. Qed.

(** Reduce the fields of the worlds that arise. *)
Ltac a_cbn :=
  cbn beta iota zeta delta [pw_db pw_tx pw_clock pw_uuid pw_call pw_notified pw_queue pw_sent pw_signals
    pw_prefetch pset_db pset_tx pset_sent pset_queue pset_prefetch ptick tx_rows tx_locks tx_events tx_notifies
    tx_now].

(** Symbolic execution of a session by itself. *)
Ltac a_step HA :=
  match goal with
  | |- pwp (mret _) _ _ => apply pwp_ret
  | |- pwp (pfail _) _ _ => apply pwp_fail
  | |- pwp (of_result _) _ _ => apply pwp_result
  | |- pwp (_ ≫= _) _ _ => apply pwp_bind
  | |- pwp (ptry _) _ _ => apply pwp_try
  | |- pwp (pwrap _ _) _ _ => apply pwp_wrap
  | |- pwp pnow _ _ => apply a_now
  | |- pwp pnew_uuid _ _ => apply a_uuid
  | |- pwp (pwith_tx _) _ _ => apply (a_with_tx HA)
  | |- pwp (pool_read _) _ _ => apply (a_pool_read HA)
  | |- pwp pg_rows_Err _ _ => apply (a_rows_Err HA)
  | |- pwp try_advisory_lock _ _ => apply (a_advisory HA)
  | |- pwp (tx_stmt _) _ _ => eapply (a_stmt HA); [reflexivity|]
  | |- pwp (insertEvent _ _ _) _ _ => eapply (a_insert HA); [reflexivity|]
  | |- pwp (queueWakeupNotify _ _) _ _ => eapply (a_notify HA); [reflexivity|]
  | |- pwp PCommit _ _ => eapply (a_commit HA); [reflexivity|]
  | |- pwp (SendBatch _) _ _ => apply (a_batch HA)
  | |- pwp (notifySubscribers _) _ _ => apply a_pnotify
  | |- pwp signalWakeups _ _ => apply a_signal
  end; a_cbn.

Ltac a_run HA := a_cbn; repeat (a_step HA).

(** Turn a goal about the outcome of a run into one to be executed. *)
Ltac a_start Hrun :=
  match type of Hrun with
  | ?m ?w = (?r, ?w') => pattern r, w'; refine (pwp_run m _ w r w' _ Hrun); clear Hrun r w'
  end.
