(* ===== verification/PgScenario.v ===== *)
(** * Concrete Postgres environments

    A clock that advances by one millisecond per reading, numbered
    identifiers, a server that computes exactly, and other sessions that do
    nothing or claim a given agent at a given moment: the environments in
    which the witnesses evaluate the operations. *)

From S2P Require Import Prelude GoLib GoSort Agent Common Effects Sql Lease SharedLease Scenario PgRows PgEffects PgEngine PgLogic.
From stdpp Require Import gmap strings list pretty.
From Stdlib Require Import ZArith Lia Ascii.

Open Scope Z_scope.

(** Exact arithmetic up to the largest [timestamptz]. *)
Definition exact_plus (now us : Z) : option Z :=
  if decide (now + us < 9224318016000000000) then Some (now + us) else None.

(** The "C" collation: byte by byte. *)
#[export] Instance ExactServer : PgServer.
Proof.
  refine {| plus_interval := exact_plus;
            text_le t u := bytes_le (text_val t) (text_val u) = true;
            text_le_dec t u := decide (bytes_le (text_val t) (text_val u) = true) |}.
  - intros now us H1 H2. unfold exact_plus. rewrite decide_True; [done|]. lia.
  - intros t u v. apply bytes_le_trans.
  - intros t u. apply bytes_le_total.
  - intros t u H1 H2. apply text_val_inj, bytes_le_antisymm; done.
Defined.

(** The calls in [faults] fail with the given error; [others] is what the
    other sessions do before each call. *)
Definition pg_demo (faults : nat -> option gerror) (others : nat -> PgDB -> PgDB) : PgEnv := {|
  pclock_at n := 1700000000 * Time.Second + Z.of_nat n * Time.Millisecond;
  puuid_at n := ("u" +:+ pretty n)%string;
  pfault_at := faults;
  server_now_at n := 1700000000 * 1000000 + Z.of_nat n;
  locked_at _ _ := false;
  advisory_at _ := true;
  others_at := others;
  pctx_done_at _ := false;
|}.

Definition pg_alone : PgEnv := pg_demo (fun _ => None) (fun _ d => d).

Lemma pg_alone_alone : alone pg_alone.
Proof. by split_and!. Qed.

Lemma pg_alone_fresh n m : puuid_at (PgEnv := pg_alone) n = puuid_at (PgEnv := pg_alone) m -> n = m.
Proof. simpl. intros H. injection H as H. exact (pretty_nat_inj _ _ H). Qed.

(** Another session's claim of one agent, if it is NEW. *)
Definition foreign_claim (id who tok : string) (d : PgDB) : PgDB :=
  MkPgDB (alter (fun r => if decide (g_status r = StatusNew)
                          then default r (match claim_set who tok 0 1000 r with Ok r' => Some r' | Err _ => None end)
                          else r) id (pg_agents d))
    (pg_events d) (pg_partitions d).

(** Before call [n], that claim. *)
Definition pg_rival (n : nat) (id who tok : string) : PgEnv :=
  pg_demo (fun _ => None) (fun m d => if decide (m = n) then foreign_claim id who tok d else d).

(** The step that claim amounts to on [d]. *)
Definition foreign_labels (id who tok : string) (d : PgDB) : list label :=
  match pg_agents d !! id with
  | Some r =>
      if decide (g_status r = StatusNew)
      then match claim_set who tok 0 1000 r with Ok _ => [LClaim id who tok] | Err _ => [] end
      else []
  | None => []
  end.

Lemma foreign_claim_steps id who tok d id' :
  cell_steps id' (cell_at d id') (about id' (foreign_labels id who tok d))
    (cell_at (foreign_claim id who tok d) id').
Proof.
  unfold cell_at, foreign_claim, foreign_labels. simpl. destruct (decide (id' = id)) as [->|Hne].
  2:{ rewrite lookup_alter_ne by done.
      assert (about id' [LClaim id who tok] = []) as Ha
        by (unfold about; rewrite filter_cons_False by (simpl; congruence); done).
      repeat case_match; rewrite ?Ha; constructor. }
  rewrite lookup_alter_eq. destruct (pg_agents d !! id) as [r|]; [|constructor]. simpl.
  destruct (decide (g_status r = StatusNew)) as [Hn|]; [|constructor].
  destruct (claim_set who tok 0 1000 r) as [r'|] eqn:Hc; [|constructor]. simpl.
  unfold about. rewrite filter_cons_True by done. apply cell_steps_one.
  assert (cell_of r' = MkCell StatusInProgress who tok (c_done (cell_of r))) as ->; [|by apply cell_claim].
  unfold claim_set in Hc. repeat case_match; try done. by injection Hc as <-.
Qed.

(** A store in parallel mode with events in the transaction. *)
Definition demo_store : PgStore :=
  MkPgStore "" false false QueueClaimModeParallel (5 * Time.Minute) false 100 64 32.

(** The same in strict mode. *)
Definition strict_store : PgStore :=
  MkPgStore "" false false QueueClaimModeStrict (5 * Time.Minute) false 100 64 32.

(** A freshly migrated database with partitions for the next eight days. *)
Definition fresh_pg : PgDB := initSchema (1700000000 * Time.Second) (MkPgDB ∅ [] []).

Definition pg_start (d : PgDB) : PW := MkPW d None 0 0 0 [] [] [] 0 ∅.
