(* ===== verification/PgStatements.v ===== *)
(** * Postgres: what each statement does to the contract's cells

    Every statement the store issues on [agents] is, for each row it writes,
    one step of the contract's machine, and for the others none. *)

From S2P Require Import Prelude GoLib Agent Common Effects Sql Lease SharedLease PgRows PgEffects PgQuery PgEngine PgLifecycle PgLogic.
From stdpp Require Import gmap strings list fin_maps sorting.
From Stdlib Require Import ZArith Lia.

Open Scope Z_scope.

(** ** Cells of rows *)

Lemma cell_pg_row_of t : cell_of (pg_row_of t) = cell_of_agent t.
Proof.
  unfold cell_of, cell_of_agent, pdone. simpl. f_equal. unfold metadata_json, omget, mget.
  rewrite lookup_fmap. destruct (a_Metadata t) as [m|]; simpl.
  - by destruct (m !! CompletedByTokenMetadataKey).
  - by rewrite lookup_empty.
Qed.

Lemma cell_completion_row t r : cell_of (completion_row_set t r) = cell_of_agent t.
Proof. exact (cell_pg_row_of t). Qed.

Lemma scan_fields id r t :
  scanAgent (id, r) = Ok t -> a_ID t = id /\ cell_of_agent t = cell_of r.
Proof.
  unfold scanAgent. destruct (g_shard_id r); [|done]. destruct (unmarshal_map _); [|done].
  intros [= <-]. split; [done|]. unfold cell_of_agent, cell_of, pdone, omget, mget. simpl. f_equal.
  unfold unmarshal_metadata. rewrite lookup_fmap. by destruct (g_metadata r !! CompletedByTokenMetadataKey).
Qed.

Lemma cell_claim_set `{PgServer} owner tok now dflt r r' :
  claim_set owner tok now dflt r = Ok r' ->
  cell_of r' = MkCell StatusInProgress owner tok (c_done (cell_of r)).
Proof.
  unfold claim_set. intros Hc. repeat case_match; try done. by injection Hc as <-.
Qed.

Lemma cell_legacy_claim_set owner tok now until r r' :
  legacy_claim_set owner tok now until r = Ok r' ->
  cell_of r' = MkCell StatusInProgress owner tok (c_done (cell_of r)).
Proof. unfold legacy_claim_set. destruct (Pg.succ _); [|done]. by intros [= <-]. Qed.

Lemma cell_renew_set `{PgServer} now dflt r r' : renew_set now dflt r = Ok r' -> cell_of r' = cell_of r.
Proof. unfold renew_set. intros Hc. case_match; [|done]. by injection Hc as <-. Qed.

Lemma cell_release_set now r r' :
  release_set now r = Ok r' -> cell_of r' = MkCell StatusNew "" "" (c_done (cell_of r)).
Proof. unfold release_set, clear_set. destruct (Pg.succ _); [|done]. by intros [= <-]. Qed.

Lemma completion_patch_token who tok now_ :
  tok <> ""%string -> completion_patch who tok now_ !! CompletedByTokenMetadataKey = Some tok.
Proof.
  intros Ht. unfold completion_patch, SetCompletionMetadata, insert_unless_empty. simpl.
  rewrite (decide_False (P := tok = _)) by done.
  destruct (Time.IsZero now_); [|rewrite lookup_insert_ne by done]; apply lookup_insert_eq.
Qed.

Lemma cell_complete_set now res who tok now_ r r' :
  tok <> ""%string ->
  complete_set now res (VStr <$> completion_patch who tok now_) r = Ok r' ->
  cell_of r' = MkCell StatusCompleted "" "" tok.
Proof.
  intros Ht. unfold complete_set, clear_set. destruct (jsonb_set_result _ _); [|done].
  destruct (Pg.succ _); [|done]. intros [= <-]. unfold cell_of, pdone, jsonb_concat. simpl.
  erewrite (lookup_union_Some_l _ _ _ (VStr tok)); [reflexivity|].
  rewrite lookup_fmap, completion_patch_token by done. done.
Qed.

Lemma cell_pg_completed t who tok res now_ :
  tok <> ""%string ->
  cell_of_agent (sync_namespace (pg_completed t who tok res now_)) = MkCell StatusCompleted "" "" tok.
Proof.
  intros Ht. rewrite cell_sync.
  set (t1 := set_Payload (Some (<["result" := VMap res]> (default ∅ (a_Payload t)))) t).
  pose proof (SetCompletionMetadata_token t1 who tok now_ Ht) as Hm.
  apply CompletionTokenMatches_spec in Hm as [_ Hm]. unfold pg_completed. fold t1. revert Hm.
  generalize (SetCompletionMetadata t1 who tok now_). intros []; simpl. by intros <-.
Qed.

Lemma ID_pg_completed t who tok res now_ :
  a_ID (sync_namespace (pg_completed t who tok res now_)) = a_ID t.
Proof. rewrite sync_namespace_id. by destruct t. Qed.

Lemma leased_cell who tok now r :
  leased_to who tok now r = true ->
  c_status (cell_of r) = StatusInProgress /\ c_owner (cell_of r) = who /\ c_token (cell_of r) = tok.
Proof. unfold leased_to. rewrite !andb_true_iff, !bool_decide_eq_true. simpl. tauto. Qed.

(** ** Shapes of statements *)

Lemma about_one l : about (label_id l) [l] = [l].
Proof. unfold about. rewrite filter_cons_True by done. done. Qed.

Lemma about_other id l : label_id l <> id -> about id [l] = [].
Proof. intros H. unfold about. by rewrite filter_cons_False. Qed.

(** A statement that writes nothing. *)
Lemma stmt_quiet rows locks : stmt_ok rows ∅ locks [].
Proof. intros id. split_and!; [|done|done]. intros _. rewrite left_id_L by apply _. constructor. Qed.

Lemma stmt_single rows id r' l :
  label_id l = id -> cell_step id (cell_of <$> rows !! id) l (Some (cell_of r')) ->
  stmt_ok rows {[id := r']} ∅ [l].
Proof.
  intros Hl Hs id'. split_and!.
  - intros Hin. assert (id' = id) as -> by set_solver. rewrite lookup_union, lookup_singleton_eq.
    assert (about id [l] = [l]) as -> by (rewrite <- Hl; apply about_one).
    rewrite union_Some_l. by apply cell_steps_one.
  - intros Hin. apply about_other. set_solver.
  - intros Hn. apply lookup_singleton_None. intros <-. rewrite <- Hl, about_one in Hn. done.
Qed.

(** A statement that writes several rows, one step each. *)
Lemma about_each (lab : string * PgRow -> label) l id :
  (forall p, label_id (lab p) = p.1) -> NoDup l.*1 ->
  about id (lab <$> l) = match (list_to_map l : gmap string PgRow) !! id with
                         | Some r => [lab (id, r)]
                         | None => []
                         end.
Proof.
  intros Hlab. induction l as [|[id' r'] l IH]; [done|].
  rewrite !fmap_cons, list_to_map_cons. intros [Hn Hnd]%NoDup_cons. specialize (IH Hnd).
  unfold about in *. destruct (decide (id' = id)) as [->|Hne].
  - rewrite lookup_insert_eq, filter_cons_True by (by rewrite Hlab).
    rewrite IH. rewrite not_elem_of_list_to_map_1 by done. done.
  - rewrite lookup_insert_ne, filter_cons_False by (rewrite ?Hlab; done). done.
Qed.

Lemma stmt_many rows (lab : string * PgRow -> label) l :
  (forall p, label_id (lab p) = p.1) -> NoDup l.*1 ->
  (forall p, p ∈ l -> cell_step p.1 (cell_of <$> rows !! p.1) (lab p) (Some (cell_of p.2))) ->
  stmt_ok rows (list_to_map l) ∅ (lab <$> l).
Proof.
  intros Hlab Hnd Hs id. rewrite about_each by done. split_and!.
  - intros Hin. destruct (list_to_map l !! id) as [r|] eqn:Hr.
    + rewrite (lookup_union_Some_l _ _ _ _ Hr). apply cell_steps_one.
      apply elem_of_list_to_map_2 in Hr. exact (Hs _ Hr).
    + apply not_elem_of_dom in Hr. set_solver.
  - intros Hin. assert ((list_to_map l : gmap string PgRow) !! id = None) as ->; [|done].
    apply not_elem_of_dom. set_solver.
  - by destruct (list_to_map l !! id).
Qed.

(** ** The statements *)

Definition none_seen : gmap string PgRow := ∅.

Lemma seen_nothing rows new locks seen : seen_ok rows new locks seen none_seen.
Proof. by intros id r ?. Qed.

Lemma upsert_ok t by_ now locked rows new locks a :
  upsert t now locked rows = Ok (new, locks, a) -> fresh_agent t ->
  stmt_ok rows new locks [LCreate (a_ID t) by_].
Proof.
  intros [= <- <- _] (H1 & H2 & H3). apply stmt_single; [done|].
  rewrite cell_pg_row_of. by apply cell_create.
Qed.

(** The label of an update by id. *)
Definition if_some {A} (l : label) (a : option A) : list label :=
  match a with Some _ => [l] | None => [] end.

Lemma update_by_id_ok id guard set_ l now locked rows new locks a :
  update_by_id id guard set_ now locked rows = Ok (new, locks, a) ->
  label_id l = id ->
  (forall r r', rows !! id = Some r -> guard now r = true -> set_ r = Ok r' ->
     cell_step id (Some (cell_of r)) l (Some (cell_of r'))) ->
  stmt_ok rows new locks (if_some l a).
Proof.
  intros H Hl Hs. unfold update_by_id in H. destruct (rows !! id) as [r|] eqn:Hr; simpl in H.
  - destruct (guard now r) eqn:Hg; [destruct (set_ r) as [r'|] eqn:He|]; simplify_eq; simpl.
    + apply stmt_single; [done|]. rewrite Hr. by apply Hs.
    + apply stmt_quiet.
  - simplify_eq. apply stmt_quiet.
Qed.

Lemma update_by_id_result id guard set_ now locked rows new locks a :
  update_by_id id guard set_ now locked rows = Ok (new, locks, Some a) ->
  exists r r', rows !! id = Some r /\ guard now r = true /\ set_ r = Ok r' /\ a = (id, r').
Proof.
  unfold update_by_id. destruct (rows !! id) as [r|]; [|done].
  destruct (guard now r) eqn:Hg; [|done]. destruct (set_ r) as [r'|] eqn:He; [|done].
  intros [= _ _ <-]. by exists r, r'.
Qed.

Lemma select_for_update_ok id now locked rows new locks a :
  select_for_update id now locked rows = Ok (new, locks, a) ->
  stmt_ok rows new locks []
  /\ match a with
     | Some (id', r) => id' = id /\ seen_ok rows new locks none_seen {[id := r]}
     | None => True
     end.
Proof.
  unfold select_for_update. destruct (rows !! id) as [r|] eqn:Hr; [|intros [= <- <- <-]; split; [apply stmt_quiet|done]].
  destruct (ttlClause now r); intros [= <- <- <-]; (split; [apply stmt_quiet|]); [|done].
  split; [done|]. intros id' r' [<- <-]%lookup_singleton_Some. split; [left; set_solver|].
  by rewrite left_id_L by apply _.
Qed.

Section Candidates.
Context `{Srt : SqlOrder} `{Srv : PgServer}.

(** A candidate is a row of the view that satisfies the clauses. *)
Lemma candidates_elem now locked lock cs rows p :
  p ∈ candidates now locked lock cs rows ->
  rows !! p.1 = Some p.2 /\ psat_all now cs p.2 = true /\ available lock locked p.1 = true.
Proof.
  unfold candidates. rewrite list_elem_of_filter, elem_of_by_creation. unfold rows_where.
  rewrite list_elem_of_filter. intros (H1 & H2 & H3). destruct p as [id r].
  rewrite elem_of_map_to_list in H3. split_and!; [done|by apply Is_true_true..].
Qed.

Lemma candidates_NoDup now locked lock cs rows : NoDup (candidates now locked lock cs rows).*1.
Proof.
  assert (Hnd : NoDup (rows_where now cs rows).*1).
  { unfold rows_where. eapply sublist_NoDup; [apply (NoDup_fst_map_to_list rows)|].
    apply fmap_sublist, sublist_filter. }
  unfold candidates. eapply sublist_NoDup; [|apply fmap_sublist, sublist_filter].
  by rewrite by_creation_perm.
Qed.

Lemma StronglySorted_filter {A} (R : A -> A -> Prop) (P : A -> Prop) `{!forall x, Decision (P x)} l :
  StronglySorted R l -> StronglySorted R (filter P l).
Proof.
  induction 1 as [|x l Hs IH HF]; [constructor|]. rewrite filter_cons. destruct (decide (P x)); [|done].
  constructor; [done|]. apply Forall_forall. intros y [_ Hy]%list_elem_of_filter.
  rewrite Forall_forall in HF. by apply HF.
Qed.

Lemma candidates_elem_2 now locked lock cs rows id r :
  rows !! id = Some r -> psat_all now cs r = true -> available lock locked id = true ->
  (id, r) ∈ candidates now locked lock cs rows.
Proof.
  intros H1 H2 H3. unfold candidates. rewrite list_elem_of_filter, elem_of_by_creation.
  split; [simpl; by rewrite H3|]. unfold rows_where. rewrite list_elem_of_filter.
  split; [simpl; by rewrite H2|]. by apply elem_of_map_to_list.
Qed.

(** The candidate is the oldest of those available. *)
Lemma head_oldest now locked lock cs rows p id r :
  head (candidates now locked lock cs rows) = Some p ->
  rows !! id = Some r -> psat_all now cs r = true -> available lock locked id = true ->
  p = (id, r) \/ row_le p (id, r).
Proof.
  intros Hh H1 H2 H3. pose proof (candidates_elem_2 now locked lock cs rows id r H1 H2 H3) as Hin.
  assert (Hs : StronglySorted row_le (candidates now locked lock cs rows))
    by apply StronglySorted_filter, by_creation_sorted.
  destruct (candidates now locked lock cs rows) as [|p' l]; [done|]. injection Hh as ->.
  apply StronglySorted_inv in Hs as [_ HF]. apply elem_of_cons in Hin as [<-|Hin]; [by left|].
  right. rewrite Forall_forall in HF. exact (HF _ Hin).
Qed.

Lemma head_none now locked lock cs rows id r :
  head (candidates now locked lock cs rows) = None ->
  rows !! id = Some r -> psat_all now cs r = true -> available lock locked id = true -> False.
Proof.
  intros Hh H1 H2 H3. pose proof (candidates_elem_2 now locked lock cs rows id r H1 H2 H3) as Hin.
  destruct (candidates now locked lock cs rows); [by apply not_elem_of_nil in Hin|done].
Qed.

Lemma head_elem {A} (l : list A) x : head l = Some x -> x ∈ l.
Proof. destruct l; simpl; [done|]. intros [= ->]. set_solver. Qed.

(** The label of a claim as its row tells it. *)
Definition claim_label (p : string * PgRow) : label := LClaim p.1 (g_owner p.2) (g_lease_token p.2).

Definition claim_labels (a : option (string * PgRow)) : list label :=
  match a with Some p => [claim_label p] | None => [] end.

(** Clauses that only let NEW rows through. *)
Definition only_new (cs : list pclause) : Prop := PStatus StatusNew ∈ cs.

Lemma only_new_status now cs r : only_new cs -> psat_all now cs r = true -> g_status r = StatusNew.
Proof.
  intros Hin Hs. unfold psat_all in Hs. rewrite forallb_forall in Hs.
  apply (bool_decide_eq_true (g_status r = StatusNew)), (Hs (PStatus StatusNew)).
  by apply list_elem_of_In.
Qed.

Lemma claim_step owner tok now dflt (rows : gmap string PgRow) id r r' :
  rows !! id = Some r -> g_status r = StatusNew -> claim_set owner tok now dflt r = Ok r' ->
  cell_step id (cell_of <$> rows !! id) (claim_label (id, r')) (Some (cell_of r')).
Proof.
  intros Hr Hn Hc. rewrite Hr. pose proof (cell_claim_set _ _ _ _ _ _ Hc) as Hcell.
  unfold claim_label. simpl. replace (g_owner r') with owner by (injection Hcell; done).
  replace (g_lease_token r') with tok by (injection Hcell; done). rewrite Hcell.
  by apply cell_claim.
Qed.

Lemma claim_candidate_ok lock cs match_ owner tok now_ dflt now locked rows new locks a :
  claim_candidate lock cs match_ owner tok now_ dflt now locked rows = Ok (new, locks, a) ->
  only_new cs ->
  stmt_ok rows new locks (claim_labels a)
  /\ match a with
     | Some (id, r') => g_owner r' = owner /\ g_lease_token r' = tok
     | None => True
     end.
Proof.
  intros H Hnew. unfold claim_candidate in H.
  destruct (head _) as [[id r]|] eqn:Hh; [|by simplify_eq; split; [apply stmt_quiet|]].
  apply head_elem, candidates_elem in Hh as (Hr & Hs & _). simpl in *.
  destruct (psat_all now match_ r); [|by simplify_eq; split; [apply stmt_quiet|]].
  destruct (claim_set _ _ _ _ _) as [r'|] eqn:Hc; [|done]. simplify_eq. simpl. split.
  - apply stmt_single; [done|]. eapply claim_step; eauto using only_new_status.
  - pose proof (cell_claim_set _ _ _ _ _ _ Hc) as Hcell. by injection Hcell.
Qed.

Lemma select_candidate_ok lock cs now locked rows new locks a :
  select_candidate lock cs now locked rows = Ok (new, locks, a) -> only_new cs ->
  stmt_ok rows new locks []
  /\ match a with
     | Some (id, r) => g_status r = StatusNew /\ seen_ok rows new locks none_seen {[id := r]}
     | None => True
     end.
Proof.
  intros H Hnew. unfold select_candidate in H.
  destruct (head _) as [[id r]|] eqn:Hh; simplify_eq; [|split; [apply stmt_quiet|done]].
  apply head_elem, candidates_elem in Hh as (Hr & Hs & _). simpl in *.
  split; [apply stmt_quiet|]. split; [by eapply only_new_status|].
  intros id' r' [<- <-]%lookup_singleton_Some. split; [left; set_solver|].
  by rewrite left_id_L by apply _.
Qed.

Lemma claim_each_elem owner now_ dflt tokens l l' :
  claim_each owner now_ dflt tokens l = Ok l' ->
  (exists n, l'.*1 = take n l.*1)
  /\ Forall (fun p => exists r tok, (p.1, r) ∈ l /\ tok ∈ tokens
                      /\ claim_set owner tok now_ dflt r = Ok p.2) l'.
Proof.
  revert tokens l'. induction l as [|[id r] l IH]; intros [|tok tokens] l' H; simpl in H; simplify_eq;
    try (split; [by exists 0%nat|constructor]).
  destruct (claim_set _ _ _ _ _) as [r'|] eqn:Hc; [|done].
  destruct (claim_each _ _ _ _ _) as [l1|] eqn:He; [|done]. simplify_eq.
  destruct (IH _ _ He) as [[n Hn] HF]. split.
  - exists (S n). by rewrite !fmap_cons, Hn.
  - constructor; [exists r, tok; set_solver|]. eapply Forall_impl; [exact HF|].
    intros p (r0 & tok0 & H1 & H2 & H3). exists r0, tok0. set_solver.
Qed.

Lemma any_order_map {B} (l : list (string * B)) :
  NoDup l.*1 -> (list_to_map l : gmap string B) = list_to_map (any_order l).
Proof. intros Hnd. apply list_to_map_proper; [done|]. symmetry. apply sql_sort_perm. Qed.

Lemma claim_batch_ok cs owner now_ dflt tokens limit now locked rows new locks a :
  claim_batch cs owner now_ dflt tokens limit now locked rows = Ok (new, locks, a) -> only_new cs ->
  stmt_ok rows new locks (claim_label <$> a).
Proof.
  intros H Hnew. unfold claim_batch in H. destruct (claim_each _ _ _ _ _) as [l|] eqn:He; [|done].
  simplify_eq. destruct (claim_each_elem _ _ _ _ _ _ He) as [[n Hn] HF].
  assert (Hnd : NoDup l.*1).
  { rewrite Hn. eapply sublist_NoDup; [apply (candidates_NoDup now locked ForUpdateSkipLocked cs rows)|].
    etrans; [apply sublist_take|]. apply fmap_sublist, sublist_take. }
  rewrite any_order_map by done. apply stmt_many; [done|unfold any_order; by rewrite (sql_sort_perm (fun _ => 0))|].
  intros p Hp%elem_of_sql_sort. rewrite Forall_forall in HF.
  destruct (HF p Hp) as (r & tok & H1 & _ & H3). apply elem_of_take in H1 as (i & H1 & _).
  apply list_elem_of_lookup_2, candidates_elem in H1 as (Hr & Hs & _). simpl in *. destruct p as [id r'].
  eapply claim_step; eauto using only_new_status.
Qed.

Lemma release_each_elem now l l' :
  release_each now l = Ok l' ->
  l'.*1 = l.*1 /\ Forall (fun x => (x.1, x.2.1) ∈ l /\ release_set now x.2.1 = Ok x.2.2) l'.
Proof.
  revert l'. induction l as [|[id r] l IH]; intros l' H; simpl in H; [by simplify_eq|].
  destruct (release_set now r) as [r'|] eqn:Hr; [|done].
  destruct (release_each now l) as [l1|] eqn:He; [|done]. simplify_eq.
  destruct (IH _ eq_refl) as [Hid HF]. split; [simpl; by f_equal|].
  constructor; [split; [set_solver|done]|]. eapply Forall_impl; [exact HF|].
  intros x [H1 H2]. split; [set_solver|done].
Qed.

Definition reap_labels (l : list (string * (PgRow * PgRow))) : list label := (fun x => LReap x.1) <$> l.

Lemma reap_stmt_ok now_ now locked rows new locks a :
  reap_stmt now_ now locked rows = Ok (new, locks, a) -> stmt_ok rows new locks (reap_labels a).
Proof.
  intros H. unfold reap_stmt in H. destruct (release_each _ _) as [l|] eqn:He; [|done].
  simplify_eq. destruct (release_each_elem _ _ _ He) as [Hid HF].
  assert (Hnd : NoDup l.*1).
  { rewrite Hid. eapply sublist_NoDup; [apply (NoDup_fst_map_to_list rows)|].
    apply fmap_sublist, sublist_filter. }
  set (g := fun x : string * (PgRow * PgRow) => (x.1, x.2.2)).
  assert (Hfst : forall k : list (string * (PgRow * PgRow)), (g <$> k).*1 = k.*1)
    by (intros k; by rewrite <- list_fmap_compose).
  assert (Hmap : (list_to_map (g <$> l) : gmap string PgRow) = list_to_map (g <$> any_order l)).
  { apply list_to_map_proper; [by rewrite Hfst|]. apply Permutation_map. symmetry. apply sql_sort_perm. }
  rewrite Hmap. unfold reap_labels.
  replace ((fun x : string * (PgRow * PgRow) => LReap x.1) <$> any_order l)
    with ((fun p : string * PgRow => LReap p.1) <$> (g <$> any_order l)) by (by rewrite <- list_fmap_compose).
  apply stmt_many; [done|rewrite Hfst; unfold any_order; by rewrite (sql_sort_perm (fun _ => 0))|].
  intros p (x & -> & Hx%elem_of_sql_sort)%list_elem_of_fmap. rewrite Forall_forall in HF.
  destruct (HF x Hx) as [Hin Hrel]. apply list_elem_of_filter in Hin as [Hexp Hin].
  rewrite elem_of_map_to_list in Hin. simpl. rewrite Hin. simpl.
  rewrite (cell_release_set _ _ _ Hrel). apply cell_reap. simpl in *.
  apply Is_true_true, andb_true_iff in Hexp as [_ Hexp]. unfold lease_expired in Hexp.
  apply andb_true_iff in Hexp as [Hexp _]. by apply bool_decide_eq_true in Hexp.
Qed.

End Candidates.

(** The clauses of a take only let NEW rows through, except for the take
    without a query. *)
Lemma where_only_new q : only_new (buildWhereClauses (Some q) true).
Proof. unfold only_new. simpl. set_solver. Qed.

Lemma head_only_new query : only_new (buildStrictQueueHeadWhereClauses query).
Proof. unfold only_new. destruct query; simpl; set_solver. Qed.
