(* ===== verification/PgRefine.v ===== *)
(** * Postgres implements the contract beside other sessions

    Each operation of the Postgres store, run while other sessions commit
    whatever they like in between, commits contract steps of its own at one
    point of the execution; its answer tells which they were, and a failed
    operation took none and left every row to the others. *)

From S2P Require Import Prelude GoLib Agent Common Effects Sql Lease SharedLease PgRows PgEffects PgQuery PgEngine PgLifecycle PgLogic PgStatements.
From stdpp Require Import gmap strings list fin_maps sorting.
From Stdlib Require Import ZArith Lia.

Open Scope Z_scope.

(** ** Serving *)

(** [answers L r own]: the labels [own] fit the answer [r]; a failure has
    none. *)
Definition answers {A} (L : A -> list label -> Prop) (r : result gerror A) (own : list label) : Prop :=
  match r with Ok a => L a own | Err _ => own = [] end.

Section Serves.
Context `{E : PgEnv}.

Definition served {A} (d0 : place) (L : A -> list label -> Prop) (r : result gerror A) (w : PW) : Prop :=
  exists own, answers L r own /\ holds d0 (Idle own) w.

(** [serves m L]: started outside a transaction, [m] takes the steps its
    answer tells. *)
Definition serves {A} (m : PM A) (L : A -> list label -> Prop) : Prop :=
  forall d0 w, holds d0 (Idle []) w -> pwp m (served d0 L) w.

(** How a body may end, before the deferred rollback. *)
Lemma served_rollback {A} d0 (L : A -> list label -> Prop) r w :
  unfinished d0 w -> answers L r [] -> served d0 L r (pset_tx None w).
Proof. intros H1 H2. exists []. split; [done|by apply rolled_back]. Qed.

Lemma served_commit {A} d0 (L : A -> list label -> Prop) r own w :
  holds d0 (Idle own) w -> answers L r own -> served d0 L r (pset_tx None w).
Proof. intros H1 H2. exists own. split; [done|by apply committed]. Qed.

Lemma served_idle {A} d0 (L : A -> list label -> Prop) r own w :
  holds d0 (Idle own) w -> answers L r own -> served d0 L r w.
Proof. intros H1 H2. by exists own. Qed.

Lemma holds_unfinished d0 own seen w : holds d0 (InTx own seen) w -> unfinished d0 w.
Proof. intros H. by exists own, seen. Qed.

End Serves.

(** ** Symbolic execution *)

Ltac pg_step :=
  match goal with
  | |- pwp (mret _) _ _ => apply pwp_ret
  | |- pwp (pfail _) _ _ => apply pwp_fail
  | |- pwp (of_result ?x) _ _ => apply pwp_result
  | |- pwp (_ ≫= _) _ _ => apply pwp_bind
  | |- pwp (ptry _) _ _ => apply pwp_try
  | |- pwp (pwrap _ _) _ _ => apply pwp_wrap
  | H : holds _ _ ?w |- pwp pnow _ ?w => apply (pwp_pnow _ _ _ _ H); clear H; intros ? ? H
  | H : holds _ _ ?w |- pwp pnew_uuid _ ?w => apply (pwp_uuid _ _ _ _ H); clear H; intros ? ? H
  | H : holds _ _ ?w |- pwp (notifySubscribers _) _ ?w =>
      apply (pwp_pnotify _ _ _ _ _ H); clear H; intros ? H
  | H : holds _ _ ?w |- pwp signalWakeups _ ?w => apply (pwp_signal _ _ _ _ H); clear H; intros ? H
  | H : holds _ _ ?w |- pwp pg_rows_Err _ ?w =>
      apply (pwp_rows_Err _ _ _ _ H); clear H; [intros ? ? H|intros ? H]
  | H : holds _ _ ?w |- pwp (tx_insert_event _) _ ?w =>
      apply (pwp_insert_event _ _ _ _ _ _ H); clear H; [intros ? ? H|intros ? H]
  | H : holds _ _ ?w |- pwp (insertEvent _ _ _) _ ?w =>
      apply (pwp_insert_event _ _ _ _ _ _ H); clear H; [intros ? ? H|intros ? H]
  | H : holds _ _ ?w |- pwp (queueWakeupNotify _ _) _ ?w =>
      apply (pwp_pg_notify _ _ _ _ _ _ H); clear H; [intros ? ? H|intros ? H]
  | H : holds _ _ ?w |- pwp PCommit _ ?w =>
      apply (pwp_commit _ _ _ _ _ H); clear H; [intros ? ? H|intros ? H]
  | H : holds _ _ ?w |- pwp try_advisory_lock _ ?w =>
      apply (pwp_advisory _ _ _ _ H); clear H; [intros ? ? H|intros ? ? H]
  | H : holds _ _ ?w |- pwp (pwith_tx _) _ ?w =>
      apply (pwp_with_tx _ _ _ _ H); clear H; [intros ? ? H|intros ? H]
  end.

(** The end of a run. *)
Ltac pg_end :=
  cbn beta iota;
  match goal with
  | H : holds _ (InTx _ _) ?w |- served _ _ _ (pset_tx None ?w) =>
      apply served_rollback; [exact (holds_unfinished _ _ _ _ H)|done]
  | H : holds _ (Idle _) ?w |- served _ _ _ (pset_tx None ?w) => apply (served_commit _ _ _ _ _ H)
  | H : holds _ (Idle _) ?w |- served _ _ _ ?w => apply (served_idle _ _ _ _ _ H)
  end; try done.

Ltac pg := repeat (cbn beta iota zeta; pg_step); cbn beta iota zeta; try solve [pg_end].

Section Operations.
Context `{E : PgEnv} `{Srt : SqlOrder} `{Srv : PgServer} (s : PgStore).

(** ** Parts shared by the operations *)

Lemma pwp_enqueue d0 own w e ns Q :
  holds d0 (Idle own) w -> (forall w', holds d0 (Idle own) w' -> Q (Ok tt) w') ->
  pwp (enqueueEvent s e ns) Q w.
Proof.
  intros H HQ. unfold enqueueEvent, pwp. case_decide; [apply HQ; exact H|].
  change (pwp (_ ← ptry (SendBatch [pending_row (MkPendingEvent e ns (s_shardID s))]); mret tt) Q w).
  apply pwp_bind, pwp_try. apply (pwp_batch _ _ _ _ _ H); intros; apply pwp_ret, HQ; done.
Qed.

Lemma pwp_commit_with d0 own seen w e ns Q :
  holds d0 (InTx own seen) w -> (forall e w', holds d0 (InTx own seen) w' -> Q (Err e) w') ->
  (forall w', holds d0 (Idle own) w' -> Q (Ok tt) w') -> pwp (commit_with s e ns) Q w.
Proof.
  intros H HE HQ. unfold commit_with. destruct (s_deferEvents s); pg; auto.
  eapply pwp_enqueue; eauto.
Qed.

Lemma pwp_scan_opt (row : option (string * PgRow)) Q w :
  (forall e, Q (Err e) w) -> (row = None -> Q (Ok None) w) ->
  (forall id r t, row = Some (id, r) -> a_ID t = id -> cell_of_agent t = cell_of r -> Q (Ok (Some t)) w) ->
  pwp (scan_opt row) Q w.
Proof.
  intros HE HN HS. destruct row as [[id r]|]; cbn [scan_opt]; [|by apply HN].
  apply pwp_bind, pwp_result. destruct (scanAgent (id, r)) as [t|e] eqn:Hs; [|apply HE].
  apply pwp_ret. destruct (scan_fields _ _ _ Hs). by eapply HS.
Qed.

(** Deferred work after the commit. *)
Lemma pwp_maybe_enqueue (b : bool) d0 own w e ns Q :
  holds d0 (Idle own) w -> (forall w', holds d0 (Idle own) w' -> Q (Ok tt) w') ->
  pwp (if b then enqueueEvent s e ns else mret tt) Q w.
Proof. intros H HQ. destruct b; [by eapply pwp_enqueue|by apply HQ]. Qed.

(** An event written inside the transaction unless events are deferred. *)
Lemma pwp_maybe_insert (b : bool) d0 own seen w e ns sh Q :
  holds d0 (InTx own seen) w -> (forall e w', holds d0 (InTx own seen) w' -> Q (Err e) w') ->
  (forall w', holds d0 (InTx own seen) w' -> Q (Ok tt) w') ->
  pwp (if b then mret tt else insertEvent e ns sh) Q w.
Proof. intros H HE HQ. destruct b; pg; auto. Qed.

Lemma pwp_fill d0 st w t Q :
  holds d0 st w ->
  (forall t' w', holds d0 st w' -> a_Status t' = a_Status t -> a_Owner t' = a_Owner t ->
     a_LeaseToken t' = a_LeaseToken t -> Q (Ok t') w') ->
  pwp (pfill_defaults t) Q w.
Proof.
  intros H HQ. unfold pfill_defaults. apply pwp_bind.
  assert (Hpure : forall id c u, a_Status (out_defaults t id c u) = a_Status t
    /\ a_Owner (out_defaults t id c u) = a_Owner t /\ a_LeaseToken (out_defaults t id c u) = a_LeaseToken t).
  { intros id c u. destruct t as [? ? ? ? ? ? ? ? ? ? ? ? ? ? ? ? v [m|]]; unfold out_defaults; simpl;
      case_decide; done. }
  destruct (decide (a_ID t = "")%string); pg; (destruct (Time.IsZero (a_CreatedAt t)); pg);
    apply HQ; try done; apply Hpure.
Qed.

Lemma fresh_set_shard t : fresh_agent t -> fresh_agent (set_shard s t).
Proof. unfold set_shard. case_decide; [|done]. by destruct t. Qed.

Lemma fresh_sync t : fresh_agent t -> fresh_agent (sync_namespace t).
Proof. unfold fresh_agent. by destruct (sync_lease t) as (_ & -> & -> & ->). Qed.

Lemma pwp_upsert d0 own seen w t by_ Q :
  holds d0 (InTx own seen) w -> fresh_agent t ->
  (forall e w', unfinished d0 w' -> Q (Err e) w') ->
  (forall t' w', holds d0 (InTx (own ++ [LCreate (a_ID t') by_]) none_seen) w' ->
     t' = sync_namespace t -> Q (Ok t') w') ->
  pwp (upsertAgent t) Q w.
Proof.
  intros H Hf HE HQ. unfold upsertAgent. apply pwp_bind.
  eapply (pwp_stmt _ _ _ _ _ (fun _ => [LCreate (a_ID (sync_namespace t)) by_]) (fun _ => none_seen) _ H).
  - intros now locked rows new locks a Hst _. split; [|apply seen_nothing].
    eapply upsert_ok; [exact Hst|]. by apply fresh_sync.
  - intros e w' H'. apply HE. eapply holds_unfinished; exact H'.
  - intros now locked rows new locks a w' _ _ H'. apply pwp_ret. by apply HQ.
Qed.

(** ** Creation *)

Definition out_labels (t : Agent) (own : list label) : Prop :=
  exists by_, own = [LCreate (a_ID t) by_].

Lemma out_serves t : fresh_agent t -> serves (out s t) out_labels.
Proof.
  intros Hf d0 w H. unfold out. apply pwp_bind. eapply pwp_fill; [exact H|]. clear w H.
  intros t1 w H H1 H2 H3. cbn beta iota.
  assert (Hf1 : fresh_agent t1) by (unfold fresh_agent in *; rewrite H1, H2, H3; done).
  pg. eapply (pwp_upsert _ _ _ _ _ (omget (a_Metadata t1) "agent_id")); [exact H|by apply fresh_set_shard| |].
  { intros e wx Hu. by apply served_rollback. }
  clear H. intros t' wx H ->. cbn beta iota. apply pwp_bind.
  eapply pwp_maybe_insert; [exact H|intros; pg_end|]. clear H. intros w2 H. pg.
  eapply pwp_maybe_enqueue; [exact H|]. clear H. intros w3 H. pg.
  pg_end. simpl. by eexists.
Qed.

(** ** Reads *)

Lemma get_serves_at d0 st w id Q :
  holds d0 st w -> (forall e wx, holds d0 st wx -> Q (Err e) wx) ->
  (forall wx r t, holds d0 st wx -> pg_agents (pw_db wx) !! id = Some r -> scanAgent (id, r) = Ok t ->
     Q (Ok t) wx) ->
  pwp (get id) Q w.
Proof.
  intros H HE HQ. unfold get. apply pwp_bind, pwp_try.
  eapply pwp_pool_read; [exact H|intros e wx H'; cbn beta iota; destruct (errorsIsNoRows e); by apply HE|].
  intros now wx t H' Hf. cbn beta iota. destruct (pg_agents (pw_db wx) !! id) as [r|] eqn:Hr; [|done].
  destruct (ttlClause now r); [|done]. apply pwp_ret. by eapply HQ.
Qed.

(** ** Claims *)

Definition claim_answer (o : option Agent) (own : list label) : Prop :=
  own = match o with Some t => [LClaim (a_ID t) (a_Owner t) (a_LeaseToken t)] | None => [] end.

Lemma claim_label_agent id r t :
  a_ID t = id -> cell_of_agent t = cell_of r ->
  claim_label (id, r) = LClaim (a_ID t) (a_Owner t) (a_LeaseToken t).
Proof. intros <- Hcell. injection Hcell as _ Ho Ht _. unfold claim_label. simpl. by rewrite Ho, Ht. Qed.

(** The rest of a claim once its row was written. *)
Lemma claim_tail d0 w t who :
  holds d0 (InTx [LClaim (a_ID t) (a_Owner t) (a_LeaseToken t)] none_seen) w ->
  pwp (eid ← pnew_uuid;
       timestamp ← pnow;
       _ ← commit_with s (claimed_event s t who eid timestamp) (a_NamespaceID t);
       _ ← notifySubscribers (claimed_event s t who eid timestamp);
       mret (Some t)) (fun r w' => served d0 claim_answer r (pset_tx None w')) w.
Proof.
  intros H. pg. eapply pwp_commit_with; [exact H|intros; pg_end|].
  clear H. intros wx H. pg.
Qed.

Lemma claimByID_serves cid who : serves (claimByID s cid who) claim_answer.
Proof.
  intros d0 w H. unfold claimByID. pg.
  eapply (pwp_stmt _ _ _ _ _ claim_labels (fun _ => none_seen) _ H).
  - intros now locked rows new locks a Hst _. split; [|apply seen_nothing].
    replace (claim_labels a) with (if_some (LClaim cid who z0) a).
    + eapply update_by_id_ok; [exact Hst|done|]. intros r r' Hr Hg Hc.
      apply andb_true_iff in Hg as [Hg%bool_decide_eq_true _].
      rewrite (cell_claim_set _ _ _ _ _ _ Hc). by apply cell_claim.
    + destruct a as [p|]; [|done].
      destruct (update_by_id_result _ _ _ _ _ _ _ _ _ Hst) as (r & r' & _ & _ & Hc & ->).
      apply cell_claim_set in Hc. injection Hc as _ Ho Ht _. unfold claim_labels, claim_label. simpl.
      by rewrite Ho, Ht.
  - intros; pg_end.
  - clear H. intros now locked rows new locks a wx _ _ H. cbn beta iota. apply pwp_bind.
    apply pwp_scan_opt; [intros; pg_end|intros ->; cbn beta iota; pg|].
    intros id r t -> Hid Hcell. cbn [claim_labels app] in H.
    rewrite (claim_label_agent _ _ t Hid Hcell) in H. by apply claim_tail.
Qed.

(** Any way of claiming inside a transaction. *)
Definition claims (m : PM (option Agent)) : Prop :=
  forall d0 w, holds d0 (InTx [] ∅) w ->
  pwp m (fun r w' => match r with
                     | Ok (Some t) =>
                         holds d0 (InTx [LClaim (a_ID t) (a_Owner t) (a_LeaseToken t)] none_seen) w'
                     | _ => unfinished d0 w'
                     end) w.

Lemma pwp_resolve d0 st w queue Q :
  holds d0 st w -> (forall e w', holds d0 st w' -> Q (Err e) w') ->
  (forall o w', holds d0 st w' -> Q (Ok o) w') -> pwp (resolveTakeLockClause s queue) Q w.
Proof. intros H HE HQ. unfold resolveTakeLockClause. case_decide; pg; auto. Qed.

Lemma takeWithStrategy_serves queue who claimFn :
  (forall lock, claims (claimFn lock)) -> serves (takeWithStrategy s queue who claimFn) claim_answer.
Proof.
  intros Hcl d0 w H. unfold takeWithStrategy. pg.
  assert (Hrest : forall lock w, holds d0 (InTx [] ∅) w ->
    pwp (o ← claimFn lock;
         match o with
         | None => mret None
         | Some t => eid ← pnew_uuid; timestamp ← pnow;
                     _ ← commit_with s (claimed_event s t who eid timestamp) (a_NamespaceID t);
                     _ ← notifySubscribers (claimed_event s t who eid timestamp);
                     mret (Some t)
         end) (fun r w2 => served d0 claim_answer r (pset_tx None w2)) w).
  { clear H. intros lock wy H. apply pwp_bind. eapply pwp_mono; [apply Hcl, H|]. clear H.
    intros [[t|]|e] w2 H; cbn beta iota; [|pg; by apply served_rollback|by apply served_rollback].
    by apply claim_tail. }
  eapply pwp_resolve; [exact H|intros; pg_end|]. clear H. intros [lock|] wx H; cbn beta iota; [|pg].
  by apply Hrest.
Qed.

Lemma claim_candidate_claims lock cs match_ who tok now_ dflt :
  only_new cs -> claims (row ← tx_stmt (claim_candidate lock cs match_ who tok now_ dflt); scan_opt row).
Proof.
  intros Hnew d0 w H. apply pwp_bind.
  eapply (pwp_stmt _ _ _ _ _ claim_labels (fun _ => none_seen) _ H).
  - intros now locked rows new locks a Hst _. split; [|apply seen_nothing].
    by eapply claim_candidate_ok.
  - intros e wx H'. by eapply holds_unfinished.
  - clear H. intros now locked rows new locks a wx _ _ H. cbn beta iota.
    apply pwp_scan_opt; [intros; by eapply holds_unfinished|intros; by eapply holds_unfinished|].
    intros id r t -> Hid Hcell. cbn [claim_labels app] in H.
    by rewrite (claim_label_agent _ _ t Hid Hcell) in H.
Qed.

Lemma claims_wrap c m : claims m -> claims (pwrap c m).
Proof. intros Hm d0 w H. apply pwp_wrap. eapply pwp_mono; [by apply Hm|]. by intros [[t|]|e] wx. Qed.

Lemma claims_now (k : Z -> PM (option Agent)) : (forall z, claims (k z)) -> claims (pnow ≫= k).
Proof. intros Hk d0 w H. pg. by apply Hk. Qed.

Lemma claims_uuid (k : string -> PM (option Agent)) : (forall z, claims (k z)) -> claims (pnew_uuid ≫= k).
Proof. intros Hk d0 w H. pg. by apply Hk. Qed.

Lemma takeAtomicClaim_claims cs who lock : only_new cs -> claims (takeAtomicClaim s cs who lock).
Proof.
  intros Hnew. unfold takeAtomicClaim. apply claims_now. intros z. apply claims_uuid. intros tok.
  by apply claims_wrap, claim_candidate_claims.
Qed.

Lemma takeStrictHeadClaim_claims query who lock : claims (takeStrictHeadClaim s query who lock).
Proof.
  unfold takeStrictHeadClaim. apply claims_now. intros z. apply claims_uuid. intros tok.
  apply claims_wrap, claim_candidate_claims, head_only_new.
Qed.

(** The legacy claim locks its candidate first; it stays as it was seen. *)
Lemma takeLegacyClaim_claims cs who lock : only_new cs -> claims (takeLegacyClaim cs who lock).
Proof.
  intros Hnew. unfold takeLegacyClaim. apply claims_wrap. intros d0 w H. apply pwp_bind.
  eapply (pwp_stmt _ _ _ _ _ (fun _ => [])
            (fun a => match a with Some (id, r) => {[id := r]} | None => ∅ end) _ H).
  - intros now locked rows new locks a Hst _.
    destruct (select_candidate_ok _ _ _ _ _ _ _ _ Hst Hnew) as [H1 H2].
    split; [done|]. destruct a as [[id r]|]; [apply H2|apply seen_nothing].
  - intros e wx H'. by eapply holds_unfinished.
  - clear H. intros now locked rows new locks a wx Hst _ H.
    destruct (select_candidate_ok _ _ _ _ _ _ _ _ Hst Hnew) as [_ H2]. cbn beta iota. apply pwp_bind.
    apply pwp_scan_opt; [intros; by eapply holds_unfinished|intros; pg; by eapply holds_unfinished|].
    intros id r t -> <- Hcell. destruct H2 as [Hn _]. pg.
    eapply (pwp_stmt _ _ _ _ _ (if_some (LClaim (a_ID t) who z0)) (fun _ => none_seen) _ H).
    + intros now1 locked1 rows1 new1 locks1 a1 Hst1 Hsub. split; [|apply seen_nothing].
      eapply update_by_id_ok; [exact Hst1|done|]. intros r0 r' Hr0 _ Hc.
      assert (r0 = r) as -> by (eapply lookup_weaken in Hsub; [|apply lookup_singleton_eq]; congruence).
      rewrite (cell_legacy_claim_set _ _ _ _ _ _ Hc). by apply cell_claim.
    + intros e w1 H1. by eapply holds_unfinished.
    + clear H. intros now1 locked1 rows1 new1 locks1 a1 w1 _ _ H. cbn beta iota.
      destruct a1 as [p|]; pg; [|by eapply holds_unfinished].
      destruct t. exact H.
Qed.

(** *** Prefetched candidates *)

Lemma pwp_tryGet d0 st w ns queue Q :
  holds d0 st w -> (forall id w', holds d0 st w' -> Q (Ok id) w') -> pwp (tryGet ns queue) Q w.
Proof.
  intros H HQ. unfold tryGet, getOrStart. pg. unfold pwp, local at 1. cbn beta iota.
  match goal with |- context [pf_candidates ?pf] => destruct (pf_candidates pf) end;
    apply HQ; by destruct st.
Qed.

Lemma prefetched_serves n ns queue who : serves (prefetched_tries s n ns queue who) claim_answer.
Proof.
  induction n as [|n IH]; intros d0 w H; simpl; [pg|].
  apply pwp_bind. eapply pwp_tryGet; [exact H|]. clear H. intros cid wx H. cbn beta iota.
  case_decide; [pg|]. apply pwp_bind. eapply pwp_mono; [by apply claimByID_serves|].
  intros [[t|]|e] wy (own & Hown & H'); cbn beta iota; unfold answers, claim_answer in Hown; subst own.
  - pg.
  - by apply IH.
  - by apply (served_idle _ _ _ _ _ H').
Qed.

(** *** Takes *)

Lemma take_claim_serves q queue who : serves (take_claim s (Some q) queue who) claim_answer.
Proof.
  intros d0 w H. unfold take_claim. cbn zeta. apply pwp_bind, pwp_try.
  eapply pwp_mono; [apply takeWithStrategy_serves; [|exact H]|].
  { intros lock. apply takeAtomicClaim_claims, where_only_new. }
  clear H. intros [o|e] wx (own & Hown & H); cbn beta iota; simpl in Hown.
  - pg.
  - subst own. destruct (shouldFallbackToLegacyTake e); [|pg]. apply pwp_wrap.
    eapply pwp_mono; [apply takeWithStrategy_serves; [|exact H]|].
    { intros lock. apply takeLegacyClaim_claims, where_only_new. }
    by intros [o|e1] wy.
Qed.

Lemma take_serves q : serves (take_ s (Some q)) claim_answer.
Proof.
  intros d0 w H. unfold take_. destruct (take_refused (Some q)); [pg|]. cbn zeta.
  case_decide; [|case_decide].
  - apply takeWithStrategy_serves; [|exact H]. intros lock. apply takeStrictHeadClaim_claims.
  - apply pwp_bind, pwp_try. eapply pwp_mono; [by apply prefetched_serves|].
    intros [[t|]|e] wx (own & Hown & H'); cbn beta iota; unfold answers, claim_answer in Hown; subst own.
    + pg.
    + by apply take_claim_serves.
    + by apply take_claim_serves.
  - by apply take_claim_serves.
Qed.

(** *** Batches *)

Definition batch_answer (ts : list Agent) (own : list label) : Prop :=
  own = (fun t => LClaim (a_ID t) (a_Owner t) (a_LeaseToken t)) <$> ts.

Lemma pwp_draw d0 st w n Q :
  holds d0 st w -> (forall us w', holds d0 st w' -> Q (Ok us) w') -> pwp (draw_uuids n) Q w.
Proof.
  intros H. revert w H Q. induction n as [|n IH]; intros w H Q HQ; simpl; pg; [by apply HQ|].
  eapply IH; [exact H|]. intros us w2 H2. pg. by apply HQ.
Qed.

Lemma pwp_scan_each rows Q w :
  (forall e, Q (Err e) w) ->
  (forall ts, claim_label <$> rows = (fun t => LClaim (a_ID t) (a_Owner t) (a_LeaseToken t)) <$> ts ->
     Q (Ok ts) w) ->
  pwp (pfor_each (fun r => of_result (scanAgent r)) rows) Q w.
Proof.
  revert Q. induction rows as [|[id r] rows IH]; intros Q HE HQ; simpl; [by apply (HQ [])|].
  apply pwp_bind, pwp_result. destruct (scanAgent (id, r)) as [t|e] eqn:Hs; [|apply HE].
  destruct (scan_fields _ _ _ Hs) as [Hid Hcell]. apply pwp_bind. apply IH; [apply HE|].
  intros ts Hts. pg. apply HQ. rewrite !fmap_cons, Hts. by rewrite (claim_label_agent id r t Hid Hcell).
Qed.

(** Work after the commit that cannot fail. *)
Lemma pwp_each_idle {A B} (f : A -> PM B) d0 own l Q w :
  (forall x w Q, holds d0 (Idle own) w -> (forall b w', holds d0 (Idle own) w' -> Q (Ok b) w') -> pwp (f x) Q w) ->
  holds d0 (Idle own) w -> (forall bs w', holds d0 (Idle own) w' -> Q (Ok bs) w') -> pwp (pfor_each f l) Q w.
Proof.
  intros Hf. revert Q w. induction l as [|x l IH]; intros Q w H HQ; simpl; [by apply (HQ [])|].
  apply pwp_bind. apply Hf; [done|]. intros b w1 H1. apply pwp_bind. apply IH; [done|].
  intros bs w2 H2. by apply HQ.
Qed.

Lemma pwp_batch_event d0 own who now_ t w Q :
  holds d0 (Idle own) w -> (forall b w', holds d0 (Idle own) w' -> Q (Ok b) w') ->
  pwp (batch_event s who now_ t) Q w.
Proof.
  intros H HQ. unfold batch_event. pg. destruct (s_deferEvents s).
  - eapply pwp_enqueue; [exact H|]. clear H. intros w1 H. pg. by apply HQ.
  - apply pwp_bind, pwp_try. apply (pwp_batch _ _ _ _ _ H); clear H; intros; pg; by apply HQ.
Qed.

Lemma batchTake_serves q limit : serves (batchTake s (Some q) limit) batch_answer.
Proof.
  intros d0 w H. unfold batchTake. case_decide; [pg|]. destruct (take_refused (Some q)); [pg|]. pg.
  eapply pwp_draw; [exact H|]. clear H. intros tokens wx H. pg.
  eapply (pwp_stmt _ _ _ _ _ (fun a => claim_label <$> a) (fun _ => none_seen) _ H).
  - intros now locked rows new locks a Hst _. split; [|apply seen_nothing].
    eapply claim_batch_ok; [exact Hst|apply where_only_new].
  - intros; pg_end.
  - clear H. intros now locked rows new locks a wy _ _ H. pg.
    apply pwp_scan_each; [intros; pg_end|]. intros ts Hts. cbn beta iota. rewrite Hts in H. clear Hts. pg.
    destruct ts as [|t ts]; [pg|]. pg.
    eapply pwp_each_idle; [intros; by eapply pwp_batch_event|exact H|]. clear H. intros bs wz H. pg.
Qed.

(** ** Updates *)

Lemma pwp_lock d0 w id Q :
  holds d0 (InTx [] ∅) w -> (forall e w', unfinished d0 w' -> Q (Err e) w') ->
  (forall r t w', holds d0 (InTx [] {[id := r]}) w' -> scanAgent (id, r) = Ok t -> Q (Ok t) w') ->
  pwp (lock_agent id) Q w.
Proof.
  intros H HE HQ. unfold lock_agent. apply pwp_bind.
  eapply (pwp_stmt _ _ _ _ _ (fun _ => [])
            (fun a => match a with Some (_, r) => {[id := r]} | None => ∅ end) _ H).
  - intros now locked rows new locks a Hst _.
    destruct (select_for_update_ok _ _ _ _ _ _ _ Hst) as [H1 H2]. split; [done|].
    destruct a as [[id' r]|]; [apply H2|apply seen_nothing].
  - intros e w' H'. apply HE. by eapply holds_unfinished.
  - clear H. intros now locked rows new locks [[id' r]|] w' Hst _ H; cbn beta iota.
    + destruct (select_for_update_ok _ _ _ _ _ _ _ Hst) as [_ [-> _]]. apply pwp_result.
      destruct (scanAgent (id, r)) as [t|e] eqn:Hs; [by eapply HQ|]. apply HE. by eapply holds_unfinished.
    + apply pwp_fail, HE. by eapply holds_unfinished.
Qed.

(** Write a locked row. *)
Lemma pwp_update_row d0 seen w id r f l Q :
  holds d0 (InTx [] seen) w -> seen !! id = Some r -> label_id l = id ->
  cell_step id (Some (cell_of r)) l (Some (cell_of (f r))) ->
  (forall e w', unfinished d0 w' -> Q (Err e) w') ->
  (forall w', holds d0 (InTx [l] none_seen) w' -> Q (Ok tt) w') ->
  pwp (tx_stmt (update_row id f)) Q w.
Proof.
  intros H Hsee Hl Hs HE HQ. eapply (pwp_stmt _ _ _ _ _ (fun _ => [l]) (fun _ => none_seen) _ H).
  - intros now locked rows new locks [] Hst Hsub. split; [|apply seen_nothing].
    unfold update_row in Hst. pose proof (lookup_weaken _ _ _ _ Hsee Hsub) as Hr. rewrite Hr in Hst.
    simplify_eq. apply stmt_single; [done|]. by rewrite Hr.
  - intros e w' H'. apply HE. by eapply holds_unfinished.
  - intros now locked rows new locks [] w' _ _ H'. by apply HQ.
Qed.

Lemma update_serves id updates :
  updates !! "status"%string = None -> updates !! "owner"%string = None ->
  updates !! "lease_token"%string = None ->
  serves (updateAndGet s id (Some updates))
    (fun _ own => own = [LUpdate id (GetStringFromMap updates "agent_id")]).
Proof.
  intros H1 H2 H3 d0 w H. unfold updateAndGet. pg.
  eapply pwp_lock; [exact H|intros; by apply served_rollback|]. clear H. intros r t wx H Hscan. pg.
  destruct (scan_fields _ _ _ Hscan) as [Hid Hcell].
  destruct (ApplyUpdates_lease t updates H1 H2 H3) as (A1 & A2 & A3 & A4).
  unfold updateAgentRow. cbn zeta.
  match goal with |- context [set_Version ?v (set_UpdatedAt ?u (ApplyUpdates t updates))] =>
    destruct (bump_lease (ApplyUpdates t updates) u v) as (B1 & B2 & B3 & B4);
    set (t2 := sync_namespace (set_Version v (set_UpdatedAt u (ApplyUpdates t updates)))) in * end.
  clearbody t2. apply pwp_bind. rewrite B1, A1, Hid.
  eapply (pwp_update_row _ _ _ _ r _ (LUpdate id (GetStringFromMap updates "agent_id")));
    [exact H|apply lookup_singleton_eq|done| |intros; by apply served_rollback|].
  - rewrite cell_pg_row_of. injection Hcell as C1 C2 C3 C4. apply cell_update; simpl; congruence.
  - clear H. intros wy H. pg. eapply pwp_commit_with; [exact H|intros; pg_end|]. clear H. intros wz H. pg.
Qed.

(** ** Completion *)

Definition complete_answer (id who tok : string) (own : list label) : Prop :=
  own = [LComplete id who tok] \/ own = [LReplay id tok].

(** A replay reads a completed agent: a step that stays where it is. *)
Lemma replayed d0 w id tok r :
  unfinished d0 w -> pg_agents (pw_db w) !! id = Some r ->
  c_status (cell_of r) = StatusCompleted -> c_done (cell_of r) = tok -> tok <> ""%string ->
  holds d0 (Idle [LReplay id tok]) (pset_tx None w).
Proof.
  intros (own & seen & tx & _ & Hev & _) Hr Hc Hd Ht. split; [done|].
  rewrite <- (app_nil_l [_]). eapply moves_own; [exact Hev|]. intros id'. split; [|done].
  destruct (decide (id' = id)) as [->|Hne].
  - change (about id [LReplay id tok]) with (about (label_id (LReplay id tok)) [LReplay id tok]).
    rewrite about_one. unfold cell_at. simpl. rewrite Hr. apply cell_steps_one.
    by apply cell_replay.
  - rewrite about_other by (simpl; congruence). constructor.
Qed.

Lemma replay_scan id r t tok :
  scanAgent (id, r) = Ok t -> a_Status t = StatusCompleted -> CompletionTokenMatches t tok = true ->
  c_status (cell_of r) = StatusCompleted /\ c_done (cell_of r) = tok /\ tok <> ""%string.
Proof.
  intros Hs Hst Hm. destruct (scan_fields _ _ _ Hs) as [_ Hcell].
  apply CompletionTokenMatches_spec in Hm as [Ht Hm]. injection Hcell as C1 C2 C3 C4. simpl.
  split_and!; congruence.
Qed.

Lemma identity_serves {A} who tok (m : PM A) L :
  (who <> ""%string -> tok <> ""%string -> serves m L) -> serves (prequire_identity who tok m) L.
Proof.
  intros Hm d0 w H. unfold prequire_identity. case_decide; [pg|]. case_decide; [pg|]. by apply Hm.
Qed.

Lemma complete_serves id who tok res :
  serves (completeAndGet s id who tok res) (fun t => complete_answer id who tok).
Proof.
  apply identity_serves. intros _ Ht d0 w H. pg.
  eapply (pwp_stmt _ _ _ _ _ (if_some (LComplete id who tok)) (fun _ => none_seen) _ H).
  - intros now locked rows new locks a Hst _. split; [|apply seen_nothing].
    eapply update_by_id_ok; [exact Hst|done|]. intros r r' Hr Hg Hc.
    destruct (leased_cell _ _ _ _ Hg) as (L1 & L2 & L3).
    rewrite (cell_complete_set _ _ _ _ _ _ _ Ht Hc). by apply cell_complete.
  - intros; pg_end.
  - clear H. intros now locked rows new locks a wx _ _ H. pg.
    apply pwp_scan_opt; [intros; pg_end| |].
    + intros ->. pg. eapply get_serves_at; [exact H|intros; pg_end|]. clear H.
      intros wy r t H Hr Hs. cbn beta iota. unfold classifyCompletionConflict.
      case_decide; [destruct (CompletionTokenMatches t tok) eqn:Hm|repeat case_decide]; pg.
      destruct (replay_scan _ _ _ _ Hs ltac:(done) Hm) as (R1 & R2 & R3).
      exists [LReplay id tok]. split; [by right|].
      eapply replayed; eauto. by eapply holds_unfinished.
    + intros id' r t -> _ _. cbn [if_some app] in H. pg.
      eapply pwp_commit_with; [exact H|intros; pg_end|]. clear H. intros wy H. pg. pg_end. by left.
Qed.

Lemma release_serves id who tok reason :
  serves (releaseAndGet s id who tok reason) (fun _ own => own = [LRelease id who tok]).
Proof.
  apply identity_serves. intros _ Ht d0 w H. pg.
  eapply (pwp_stmt _ _ _ _ _ (if_some (LRelease id who tok)) (fun _ => none_seen) _ H).
  - intros now locked rows new locks a Hst _. split; [|apply seen_nothing].
    eapply update_by_id_ok; [exact Hst|done|]. intros r r' Hr Hg Hc.
    destruct (leased_cell _ _ _ _ Hg) as (L1 & L2 & L3).
    rewrite (cell_release_set _ _ _ Hc). by apply cell_release.
  - intros; pg_end.
  - clear H. intros now locked rows new locks a wx _ _ H. pg.
    apply pwp_scan_opt; [intros; pg_end| |].
    + intros ->. pg. eapply get_serves_at; [exact H|intros; pg_end|]. clear H.
      intros wy r t H _ _. pg.
    + intros id' r t -> _ _. cbn [if_some app] in H. pg.
      eapply pwp_maybe_insert; [exact H|intros; pg_end|]. clear H. intros wy H. pg.
      eapply pwp_maybe_enqueue; [exact H|]. clear H. intros wz H. pg.
Qed.

Lemma renew_serves id who tok dur :
  serves (renewLease s id who tok dur) (fun _ own => own = [LRenew id who tok]).
Proof.
  apply identity_serves. intros _ Ht d0 w H. pg.
  eapply (pwp_stmt _ _ _ _ _ (if_some (LRenew id who tok)) (fun _ => none_seen) _ H).
  - intros now locked rows new locks a Hst _. split; [|apply seen_nothing].
    eapply update_by_id_ok; [exact Hst|done|]. intros r r' Hr Hg Hc.
    destruct (leased_cell _ _ _ _ Hg) as (L1 & L2 & L3).
    rewrite (cell_renew_set _ _ _ _ Hc). by apply cell_renew.
  - intros; pg_end.
  - clear H. intros now locked rows new locks a wx _ _ H. pg.
    apply pwp_scan_opt; [intros; pg_end| |].
    + intros ->. pg. eapply get_serves_at; [exact H|intros; pg_end|]. clear H.
      intros wy r t H _ _. pg.
    + intros id' r t -> _ _. cbn [if_some app] in H. pg.
Qed.

(** *** Completion with outputs *)

(** A step that stays where it is, on a locked row. *)
Lemma holds_loop d0 seen w id r l :
  holds d0 (InTx [] seen) w -> seen !! id = Some r -> label_id l = id ->
  cell_step id (Some (cell_of r)) l (Some (cell_of r)) -> holds d0 (InTx [l] seen) w.
Proof.
  intros (tx & Htx & Hev & Hok & Hsee) Hr <- Hs. exists tx. split_and!; [done..| |done].
  destruct (Hsee _ _ Hr) as [Hin Hv]. intros id'. destruct (Hok id') as [H1 H2].
  destruct (decide (id' = label_id l)) as [->|Hne].
  - rewrite about_one. split; [|done]. intros Hin'. specialize (H1 Hin'). simpl in H1.
    apply (cell_steps_app _ _ [] _ [l] _ H1). rewrite Hv. by apply cell_steps_one.
  - rewrite about_other by congruence. by split.
Qed.

(** An output a completion may create. *)
Definition fresh_output (o : Agent) : Prop :=
  (a_Status o = "" \/ a_Status o = StatusNew)%string
  /\ a_Owner o = ""%string /\ a_LeaseToken o = ""%string.

Lemma inherit_fresh parent o : fresh_output o -> fresh_agent (pg_inherit s parent o).
Proof.
  intros (H1 & H2 & H3). destruct o. simpl in *. unfold pg_inherit, set_shard, fresh_agent. simpl.
  destruct H1 as [->| ->]; repeat (case_decide; simpl in *); done.
Qed.

Lemma pwp_create_output d0 own seen w t who o Q :
  holds d0 (InTx own seen) w -> fresh_output o ->
  (forall e w', unfinished d0 w' -> Q (Err e) w') ->
  (forall o' ev w', holds d0 (InTx (own ++ [LCreate (a_ID o') who]) none_seen) w' -> Q (Ok (o', ev)) w') ->
  pwp (pcreate_output s t who o) Q w.
Proof.
  intros H Ho HE HQ. unfold pcreate_output. apply pwp_bind. eapply pwp_fill; [exact H|]. clear H.
  intros o1 w1 H H1 H2 H3.
  assert (Ho1 : fresh_output o1) by (unfold fresh_output in *; rewrite H1, H2, H3; done).
  pg. eapply (pwp_upsert _ _ _ _ _ who); [exact H|by apply inherit_fresh|intros; by apply HE|].
  clear H. intros o2 w2 H _. pg; try (apply HE; by eapply holds_unfinished).
  destruct (s_deferEvents s); pg; try (by apply HQ); apply HE; by eapply holds_unfinished.
Qed.

Lemma pwp_create_outputs d0 own seen w t who outs Q :
  holds d0 (InTx own seen) w -> Forall fresh_output outs ->
  (forall e w', unfinished d0 w' -> Q (Err e) w') ->
  (forall created seen' w',
     holds d0 (InTx (own ++ ((fun o => LCreate (a_ID o) who) <$> created.*1)) seen') w' ->
     Q (Ok created) w') ->
  pwp (pfor_each (pcreate_output s t who) outs) Q w.
Proof.
  intros H Ho. revert own seen w H Q. induction Ho as [|o outs Hfo Ho IH]; intros own seen w H Q HE HQ; simpl.
  - apply pwp_ret. apply (HQ [] seen). by rewrite app_nil_r.
  - apply pwp_bind. eapply pwp_create_output; [exact H|done|exact HE|]. clear H. intros o' ev w1 H.
    apply pwp_bind. eapply IH; [exact H|exact HE|]. clear H. intros created seen' w2 H. apply pwp_ret.
    apply (HQ _ seen'). rewrite !fmap_cons. by rewrite <- app_assoc in H.
Qed.

Definition complete_out_answer (id who tok : string) (x : Agent * list Agent) (own : list label) : Prop :=
  own = LComplete id who tok :: ((fun o => LCreate (a_ID o) who) <$> x.2)
  \/ (own = [LReplay id tok] /\ x.2 = []).

Lemma completeAndOut_serves id who tok res outs :
  Forall fresh_output outs ->
  serves (completeAndOut s id who tok res outs) (complete_out_answer id who tok).
Proof.
  intros Ho. apply identity_serves. intros _ Ht d0 w H. pg.
  eapply pwp_lock; [exact H|intros; by apply served_rollback|]. clear H. intros r t wx H Hscan.
  cbn beta iota. destruct (scan_fields _ _ _ Hscan) as [Hid Hcell].
  case_decide as Hst.
  - destruct (CompletionTokenMatches t tok) eqn:Hm; [|pg].
    destruct (replay_scan _ _ _ _ Hscan Hst Hm) as (R1 & R2 & R3).
    apply (holds_loop _ _ _ id r (LReplay id tok)) in H;
      [|apply lookup_singleton_eq|done|by apply cell_replay].
    pg. pg_end. right. done.
  - apply pwp_bind. unfold pcheck_lease. case_decide; [pg|]. case_decide; [pg|]. case_decide; [pg|].
    pg. unfold updateAgentCompletionRow. cbn zeta. rewrite ID_pg_completed, Hid. apply pwp_bind.
    eapply (pwp_update_row _ _ _ _ r _ (LComplete id who tok));
      [exact H|apply lookup_singleton_eq|done| |intros; by apply served_rollback|].
    + rewrite cell_completion_row, cell_pg_completed by done. injection Hcell as C1 C2 C3 _.
      apply cell_complete; simpl; apply dec_stable; congruence.
    + clear H. intros wy H. pg.
      eapply pwp_maybe_insert; [exact H|intros; pg_end|]. clear H. intros w2 H. pg.
      eapply pwp_create_outputs; [exact H|done|intros; by apply served_rollback|].
      clear H. intros created seen' w3 H. pg.
      assert (Htail : forall w, holds d0 (Idle (LComplete id who tok :: ((fun o => LCreate (a_ID o) who) <$> created.*1))) w ->
        forall k Q, (forall bs w', holds d0 (Idle (LComplete id who tok :: ((fun o => LCreate (a_ID o) who) <$> created.*1))) w' -> Q (Ok bs) w') ->
        pwp (pfor_each notifySubscribers k) Q w).
      { intros w4 H4 k Q HQ. eapply pwp_each_idle; [|exact H4|exact HQ]. intros x w5 Q5 H5 HQ5. pg. by apply HQ5. }
      destruct (s_deferEvents s).
      * apply pwp_bind. eapply pwp_enqueue; [exact H|]. clear H. intros w4 H. cbn beta iota. apply pwp_bind.
        eapply pwp_each_idle; [|exact H|]; [intros x w5 Q5 H5 HQ5; eapply pwp_enqueue; eauto|].
        clear H. intros bs w5 H. pg. apply Htail; [done|]. clear H. intros bs' w6 H. pg. pg_end. by left.
      * pg. apply Htail; [done|]. clear H. intros bs' w6 H. pg. pg_end. by left.
Qed.

(** ** The reaper *)

Lemma pwp_reap_one d0 own seen w now_ x Q :
  holds d0 (InTx own seen) w -> (forall e w', holds d0 (InTx own seen) w' -> Q (Err e) w') ->
  (forall ev w', holds d0 (InTx own seen) w' -> Q (Ok ev) w') ->
  pwp (reap_one s now_ x) Q w.
Proof. intros H HE HQ. unfold reap_one. pg; auto. Qed.

Lemma pwp_reap_each d0 own seen w now_ l Q :
  holds d0 (InTx own seen) w -> (forall e w', holds d0 (InTx own seen) w' -> Q (Err e) w') ->
  (forall evs w', holds d0 (InTx own seen) w' -> Q (Ok evs) w') ->
  pwp (pfor_each (reap_one s now_) l) Q w.
Proof.
  intros H. revert w H Q. induction l as [|x l IH]; intros w H Q HE HQ; simpl; [by apply (HQ [])|].
  apply pwp_bind. eapply pwp_reap_one; [exact H|exact HE|]. intros ev w1 H1. apply pwp_bind.
  eapply IH; [exact H1|exact HE|]. intros evs w2 H2. by apply HQ.
Qed.

Definition reap_answer (own : list label) : Prop := exists ids, own = LReap <$> ids.

Lemma reap_serves : serves (reapExpiredLeases s) (fun _ => reap_answer).
Proof.
  intros d0 w H. unfold reapExpiredLeases. apply pwp_bind. pg_step. cbn beta iota. apply pwp_bind, pwp_try.
  assert (Hnone : forall w, holds d0 (Idle []) w -> served (A := unit) d0 (fun _ => reap_answer) (Ok tt) w).
  { intros w1 H1. apply (served_idle _ _ _ _ _ H1). by exists []. }
  eapply (pwp_mono _ (served d0 (fun _ : unit => reap_answer))).
  2:{ intros [[]|e] w1 (own & Hown & H1); cbn beta iota; apply pwp_ret; [by exists own|].
      unfold answers in Hown. subst own. by apply Hnone. }
  pg. eapply (pwp_stmt _ _ _ _ _ reap_labels (fun _ => none_seen) _ H).
  - intros now locked rows new locks a Hst _. split; [by eapply reap_stmt_ok|apply seen_nothing].
  - intros; pg_end.
  - clear H. intros now locked rows new locks a wx _ _ H. cbn beta iota.
    destruct a as [|x a]; [pg; apply served_rollback; [by eapply holds_unfinished|by exists []]|].
    pg. eapply pwp_reap_each; [exact H|intros; pg_end|]. clear H. intros evs wy H. pg.
    eapply pwp_each_idle; [|exact H|]; [intros y w5 Q5 H5 HQ5; pg; by apply HQ5|].
    clear H. intros bs wz H. pg. pg_end. exists ((x :: a).*1). unfold reap_labels. simpl. by rewrite <- list_fmap_compose.
Qed.

End Operations.
