(* ===== verification/PgSafety.v ===== *)
(** * Postgres: safety of the store beside other sessions

    What a client of the Postgres store may rely on while other sessions work
    on the same tables: its requests are contract steps, each committed at one
    point of the execution, and between them only the others change the rows.
    When the others' changes are contract steps too, the steps of an agent in
    the order they happened are fenced and complete it at most once. *)

From S2P Require Import Prelude GoLib Agent Common Effects Sql Lease SharedLease Scenario PgRows PgEffects PgQuery PgEngine PgLifecycle PgLogic PgScenario PgStatements PgRefine.
From stdpp Require Import gmap strings list fin_maps sorting pretty.
From Stdlib Require Import ZArith Lia.

Open Scope Z_scope.

(** ** Requests and answers *)

Inductive prequest : Type :=
| POut (t : Agent)
| PTake (q : Query)
| PBatch (q : Query) (limit : Z)
| PUpdate (id : string) (updates : gmap string any)
| PComplete (id who tok : string) (res : option (gmap string any))
| PCompleteAndOut (id who tok : string) (res : option (gmap string any)) (outs : list Agent)
| PRelease (id who tok reason : string)
| PRenew (id who tok : string) (dur : Z)
| PReap.

Inductive answer : Type :=
| ACreated (t : Agent)
| AClaimed (ts : list Agent)
| AUpdated (t : Agent)
| ACompleted (t : Agent) (outs : list Agent)
| AReleased (t : Agent)
| ARenewed (t : Agent)
| AReaped.

Section Session.
Context `{E : PgEnv} `{Srt : SqlOrder} `{Srv : PgServer} (s : PgStore).

Definition serve (rq : prequest) : PM answer :=
  match rq with
  | POut t => t ← out s t; mret (ACreated t)
  | PTake q => o ← take_ s (Some q); mret (AClaimed (option_list o))
  | PBatch q limit => ts ← batchTake s (Some q) limit; mret (AClaimed ts)
  | PUpdate id updates => t ← updateAndGet s id (Some updates); mret (AUpdated t)
  | PComplete id who tok res => t ← completeAndGet s id who tok res; mret (ACompleted t [])
  | PCompleteAndOut id who tok res outs =>
      x ← completeAndOut s id who tok res outs; mret (ACompleted x.1 x.2)
  | PRelease id who tok reason => t ← releaseAndGet s id who tok reason; mret (AReleased t)
  | PRenew id who tok dur => t ← renewLease s id who tok dur; mret (ARenewed t)
  | PReap => _ ← reapExpiredLeases s; mret AReaped
  end.

(** Agents are created NEW and unowned, and updates leave status, owner and
    token alone. *)
Definition proper (rq : prequest) : Prop :=
  match rq with
  | POut t => fresh_agent t
  | PUpdate _ updates =>
      updates !! "status"%string = None /\ updates !! "owner"%string = None
      /\ updates !! "lease_token"%string = None
  | PCompleteAndOut _ _ _ _ outs => Forall fresh_output outs
  | _ => True
  end.

(** Requests served one after the other, whatever their answers. *)
Fixpoint run_session (rqs : list prequest) (w : PW) : list (result gerror answer) * PW :=
  match rqs with
  | [] => ([], w)
  | rq :: rqs =>
      let '(r, w1) := serve rq w in
      let '(rs, w2) := run_session rqs w1 in
      (r :: rs, w2)
  end.

End Session.

(** The labels an answer tells. *)
Definition tells (rq : prequest) (a : answer) (own : list label) : Prop :=
  match rq, a with
  | POut _, ACreated t => exists by_, own = [LCreate (a_ID t) by_]
  | PTake _, AClaimed ts | PBatch _ _, AClaimed ts =>
      own = (fun t => LClaim (a_ID t) (a_Owner t) (a_LeaseToken t)) <$> ts
  | PUpdate id updates, AUpdated _ => own = [LUpdate id (GetStringFromMap updates "agent_id")]
  | PComplete id who tok _, ACompleted _ _ => own = [LComplete id who tok] \/ own = [LReplay id tok]
  | PCompleteAndOut id who tok _ _, ACompleted _ outs =>
      own = LComplete id who tok :: ((fun o => LCreate (a_ID o) who) <$> outs)
      \/ (own = [LReplay id tok] /\ outs = [])
  | PRelease id who tok _, AReleased _ => own = [LRelease id who tok]
  | PRenew id who tok _, ARenewed _ => own = [LRenew id who tok]
  | PReap, AReaped => exists ids, own = LReap <$> ids
  | _, _ => False
  end.

(** What a list of answers tells; a failed request tells of no step. *)
Inductive told : list prequest -> list (result gerror answer) -> list label -> Prop :=
| told_nil : told [] [] []
| told_cons rq rqs r rs own owns :
    answers (tells rq) r own -> told rqs rs owns -> told (rq :: rqs) (r :: rs) (own ++ owns).

(** ** Proofs *)

Section Proofs.
Context `{E : PgEnv} `{Srt : SqlOrder} `{Srv : PgServer} (s : PgStore).

Lemma serves_map {A B} (m : PM A) (f : A -> B) (L : A -> list label -> Prop) (L' : B -> list label -> Prop) :
  serves m L -> (forall a own, L a own -> L' (f a) own) -> serves (a ← m; mret (f a)) L'.
Proof.
  intros Hm HL d0 w H. apply pwp_bind. eapply pwp_mono; [by apply Hm|].
  intros [a|e] w' (own & Hown & H'); cbn beta iota; [apply pwp_ret|]; exists own; (split; [|done]).
  - by apply HL.
  - done.
Qed.

Lemma serve_serves rq : proper rq -> serves (serve s rq) (tells rq).
Proof.
  destruct rq as [t|q|q limit|id updates|id who tok res|id who tok res outs|id who tok reason|id who tok dur|];
    simpl; intros Hp.
  - eapply serves_map; [by apply out_serves|]. by intros t' own.
  - eapply serves_map; [apply take_serves|]. intros [t|] own ->; done.
  - eapply serves_map; [apply batchTake_serves|]. by intros ts own.
  - destruct Hp as (H1 & H2 & H3). eapply serves_map; [by apply update_serves|]. by intros t' own.
  - eapply serves_map; [apply complete_serves|]. by intros t' own.
  - eapply serves_map; [by apply completeAndOut_serves|]. by intros [t' outs'] own.
  - eapply serves_map; [apply release_serves|]. by intros t' own.
  - eapply serves_map; [apply renew_serves|]. by intros t' own.
  - eapply serves_map; [apply reap_serves|]. by intros [] own.
Qed.

Lemma run_session_moves rqs w rs w' :
  Forall proper rqs -> pw_tx w = None -> run_session s rqs w = (rs, w') ->
  exists own, told rqs rs own /\ moves own (place_of w) (place_of w').
Proof.
  intros Hp. revert w rs w'. induction Hp as [|rq rqs Hrq Hrqs IH]; intros w rs w' Htx Hrun; simpl in Hrun.
  - simplify_eq. exists []. split; constructor.
  - destruct (serve s rq w) as [r w1] eqn:Hs. destruct (run_session s rqs w1) as [rs2 w2] eqn:Hr.
    simplify_eq.
    assert (H0 : holds (place_of w) (Idle []) w) by (split; [done|constructor]).
    pose proof (serve_serves rq Hrq _ _ H0) as Hone. unfold pwp in Hone. rewrite Hs in Hone.
    destruct Hone as (own & Hown & Htx1 & Hev).
    destruct (IH _ _ _ Htx1 Hr) as (owns & Htold & Hh). exists (own ++ owns).
    split; [by constructor|by eapply moves_app].
Qed.

End Proofs.

(** ** Others that keep the contract *)

(** The steps the other sessions' changes amount to. *)
Class Cooperative (E : PgEnv) : Type := {
  others_labels : nat -> PgDB -> list label;
  others_keep_contract n d id :
    cell_steps id (cell_at d id) (about id (others_labels n d)) (cell_at (others_at n d) id);
}.

Section History.
Context `{E : PgEnv} `{Coop : !Cooperative E} (id : string).

(** The steps of one agent in the order they happened: [moves] with the
    others' steps written down.  What the others did about an agent whose row
    was out of their reach did not happen. *)
Inductive happened : list label -> place -> list label -> place -> Prop :=
| happened_none p : happened [] p [] p
| happened_kept own p ls n d d' :
    happened own p ls (n, d) -> pg_agents d' !! id = pg_agents d !! id ->
    happened own p ls (S n, d')
| happened_others own p ls n d d' :
    happened own p ls (n, d) -> pg_agents d' !! id = pg_agents (others_at n d) !! id ->
    happened own p (ls ++ about id (others_labels n d)) (S n, d')
| happened_own own p ls n d l d' :
    happened own p ls (n, d) ->
    cell_steps id (cell_at d id) (about id l) (cell_at d' id) ->
    happened (own ++ l) p (ls ++ about id l) (n, d').

Lemma moves_happened own p p' : moves own p p' -> exists ls, happened own p ls p'.
Proof.
  induction 1 as [p|own p n d locks d' _ [ls IH] Hd|own p n d l d' _ [ls IH] Hc].
  - exists []. constructor.
  - destruct (decide (id ∈ locks)) as [Hl|Hl].
    + exists ls. eapply happened_kept; [exact IH|]. by rewrite Hd, interfere_lookup, decide_True.
    + eexists. eapply happened_others; [exact IH|]. by rewrite Hd, interfere_lookup, decide_False.
  - eexists. eapply happened_own; [exact IH|]. apply Hc.
Qed.

Lemma happened_steps own p ls p' :
  happened own p ls p' -> cell_steps id (cell_at p.2 id) ls (cell_at p'.2 id).
Proof.
  induction 1 as [p|own p ls n d d' _ IH Hd|own p ls n d d' _ IH Hd|own p ls n d l d' _ IH Hc]; cbn [snd] in *.
  - constructor.
  - unfold cell_at in *. by rewrite Hd.
  - eapply cell_steps_app; [exact IH|]. unfold cell_at at 2. rewrite Hd. apply others_keep_contract.
  - by eapply cell_steps_app.
Qed.

End History.

(** ** A run to evaluate *)

#[local] Existing Instance MergeSqlOrder.

(** Another session claims agent "b" between two calls of this one. *)
Definition rival : PgEnv := pg_rival 12 "b" "mallory" "m1".

Definition session_requests : list prequest :=
  [ POut (offer "a" "job" [] ∅);
    POut (offer "b" "job" [] ∅);
    PTake (by_kind "job" "alice");
    PTake (by_kind "job" "alice");
    PComplete "b" "alice" "u2" None;
    PComplete "a" "alice" "u2" None;
    PComplete "a" "alice" "u2" None ].

#[local] Instance rival_cooperative : Cooperative rival.
Proof.
  refine {| others_labels m d := if decide (m = 12%nat) then foreign_labels "b" "mallory" "m1" d else [] |}.
  intros m d id. simpl. destruct (decide (m = 12%nat)); [apply foreign_claim_steps|constructor].
Defined.

Lemma session_proper : Forall proper session_requests.
Proof. repeat constructor. Qed.

(** ** The theorems *)

(** C13: the Postgres store keeps the lifecycle contract beside other
    sessions.  For requests that create agents NEW and unowned and update no
    lease field, whatever the other sessions make of the tables before each
    database call of this one and whichever calls fail: the answers tell the
    labels of this session (a failed request tells of none), and the run moved
    the tables by exactly two kinds of change, the others' changes of the rows
    this session had not locked, and this session's commits, in which every
    agent takes the contract's steps for its labels from where it then stands
    and a row no label is about stays as it is.  So an agent the others leave
    alone goes along the contract by this session's labels alone. *)
Theorem session_keeps_contract `{E : PgEnv} `{Srt : SqlOrder} `{Srv : PgServer}
    (s : PgStore) rqs w rs w' :
  Forall proper rqs -> pw_tx w = None -> run_session s rqs w = (rs, w') ->
  exists own, told rqs rs own
    /\ moves own (pw_call w, pw_db w) (pw_call w', pw_db w')
    /\ forall id, (forall n d, pg_agents (others_at n d) !! id = pg_agents d !! id) ->
         cell_steps id (cell_at (pw_db w) id) (about id own) (cell_at (pw_db w') id).
Proof.
  intros Hp Htx Hrun. destruct (run_session_moves s rqs w rs w' Hp Htx Hrun) as (own & Htold & Hm).
  exists own. split_and!; [done|done|]. intros id. exact (moves_undisturbed _ _ _ id Hm).
Qed.

Lemma session_keeps_contract_witness :
  let run := run_session (E := rival) demo_store session_requests (pg_start fresh_pg) in
  exists own, told session_requests run.1 own
    /\ moves (E := rival) own (0%nat, fresh_pg) (pw_call run.2, pw_db run.2)
    /\ cell_steps "a" None (about "a" own) (cell_at (pw_db run.2) "a").
Proof.
  intros run.
  destruct (session_keeps_contract (E := rival) demo_store session_requests (pg_start fresh_pg)
              run.1 run.2 session_proper eq_refl (surjective_pairing _)) as (own & H1 & H2 & H3).
  exists own. split; [exact H1|split; [exact H2|]]. apply (H3 "a"%string). intros n d. simpl.
  destruct (decide (n = 12%nat)); [|reflexivity]. apply lookup_alter_ne. discriminate.
Defined.



(** What that run answers: the second take misses agent "b", which the other
    session took, and the completion of "b" is refused. *)
Example session_answers :
  (fun r => match r with
            | Ok (AClaimed ts) => Some (a_ID <$> ts)
            | Ok (ACompleted t _) => Some [a_Status t]
            | Ok _ => Some []
            | Err _ => None
            end) <$> (run_session (E := rival) demo_store session_requests (pg_start fresh_pg)).1
  = [Some []; Some []; Some ["a"]; Some []; None; Some ["COMPLETED"]; Some ["COMPLETED"]]%string.
Proof. vm_compute. reflexivity. Qed.
