(* ===== verification/PgLog.v ===== *)
(** * Postgres: the event log's plumbing

    The daily partitions the store prepares when it starts, and what happens
    when they run out; the deferred event writer, which neither loses,
    duplicates nor reorders events. *)

From S2P Require Import Prelude GoLib Agent Common Effects Sql Lease SharedLease Scenario PgRows PgEffects PgQuery PgEngine PgLifecycle PgLogic PgAlone PgScenario.
From stdpp Require Import gmap strings list fin_maps sorting.
From Stdlib Require Import ZArith Lia.

Open Scope Z_scope.

(** ** Partitions *)

Lemma elem_of_partition_days start n day :
  day ∈ partition_days start n <-> start <= day < start + n.
Proof.
  unfold partition_days. rewrite list_elem_of_fmap. split.
  - intros (i & -> & Hi%elem_of_seq). lia.
  - intros H. exists (Z.to_nat (day - start)). split; [lia|]. apply elem_of_seq. lia.
Qed.

Lemma elem_of_initSchema now d day :
  day ∈ pg_partitions (initSchema now d) <->
  day ∈ pg_partitions d \/ truncateToUTCDate now <= day < truncateToUTCDate now + 8.
Proof.
  unfold initSchema, ensureEventPartitions. rewrite decide_False by lia. simpl.
  rewrite elem_of_app, list_elem_of_filter, elem_of_partition_days.
  destruct (decide (day ∈ pg_partitions d)); tauto.
Qed.

(** The day of an event's row is the day of its instant. *)
Lemma day_of_timestamp t : day_of (Pg.timestamptz t) = truncateToUTCDate t.
Proof.
  unfold day_of, Pg.timestamptz, truncateToUTCDate, us_per_day, Time.Microsecond, Time.Second.
  rewrite Z.div_div by lia. done.
Qed.

(** C16: the log is open for eight days.  Once the store has started at
    [now], inserting an event is refused for want of a partition exactly when
    its instant lies neither on a day that had a partition already nor on one
    of the eight days from that of [now]; nothing adds partitions later, so a
    store that keeps running refuses every event from the ninth day on. *)
Theorem event_log_window now d pending e ns shard :
  insert_event_check (initSchema now d) pending (pg_event_row e ns shard) = Err (ESQL Pg.no_partition)
  <-> truncateToUTCDate (e_Timestamp e) ∉ pg_partitions d
      /\ ~ (truncateToUTCDate now <= truncateToUTCDate (e_Timestamp e) < truncateToUTCDate now + 8).
Proof.
  unfold insert_event_check. simpl v_timestamp. rewrite day_of_timestamp.
  case_decide as Hd; rewrite elem_of_initSchema in Hd.
  - split; [|done]. intros _. tauto.
  - split; [destruct (existsb _ _); done|]. intros [H1 H2]. tauto.
Qed.

(** Nine days after the start of the store nothing can be created any more. *)
Definition nine_days_on : PgEnv := {|
  pclock_at n := (1700000000 + 9 * 86400) * Time.Second + Z.of_nat n * Time.Millisecond;
  puuid_at := puuid_at (PgEnv := pg_alone);
  pfault_at _ := None;
  server_now_at n := (1700000000 + 9 * 86400) * 1000000 + Z.of_nat n;
  locked_at _ _ := false;
  advisory_at _ := true;
  others_at _ d := d;
  pctx_done_at _ := false;
|}.

Example log_runs_out :
  (out (E := nine_days_on) demo_store (offer "a" "job" [] ∅) (pg_start fresh_pg)).1 = Err (ESQL Pg.no_partition)
  /\ is_ok (out (E := pg_alone) demo_store (offer "a" "job" [] ∅) (pg_start fresh_pg)).1 = true.
Proof. split; vm_compute; reflexivity. Qed.

(** ** The deferred writer *)

Lemma insert_batch_app d r1 r2 d' :
  insert_batch d (r1 ++ r2) = Ok d' <-> exists d1, insert_batch d r1 = Ok d1 /\ insert_batch d1 r2 = Ok d'.
Proof.
  revert d. induction r1 as [|r r1 IH]; simpl; intros d.
  - split; [intros H; by exists d|]. by intros (d1 & [= <-] & H).
  - destruct (insert_event_check d [] r); [apply IH|]. split; [done|]. by intros (d1 & ? & _).
Qed.

Lemma insert_batch_events d rows d' :
  insert_batch d rows = Ok d' ->
  pg_events d' = pg_events d ++ rows /\ pg_agents d' = pg_agents d /\ pg_partitions d' = pg_partitions d.
Proof.
  revert d. induction rows as [|r rows IH]; simpl; intros d.
  - intros [= <-]. by rewrite app_nil_r.
  - destruct (insert_event_check d [] r); [|done]. intros H. destruct (IH _ H) as (-> & -> & ->). simpl.
    by rewrite <- app_assoc.
Qed.

Section Writer.
Context `{E : PgEnv} (s : PgStore).
Hypothesis HA : alone E.

(** The events that are still to be written, in order. *)
Definition backlog (buf : list pendingEvent) (w : PW) : list PgEventRow :=
  pending_row <$> buf ++ pw_queue w.

(** All of them can be inserted one after the other, which gives [d]. *)
Definition writable (buf : list pendingEvent) (w : PW) (d : PgDB) : Prop :=
  insert_batch (pw_db w) (backlog buf w) = Ok d.

Lemma a_flush buf d w Q :
  insert_batch (pw_db w) (pending_row <$> buf) = Ok d ->
  (forall w', pw_db w' = d -> pw_queue w' = pw_queue w -> Q (Ok tt) w') ->
  pwp (flushEvents buf) Q w.
Proof.
  intros H HQ. unfold flushEvents. destruct buf as [|pe buf].
  { injection H as <-. apply pwp_ret. by apply HQ. }
  a_run HA. rewrite H. a_run HA. by apply HQ.
Qed.

(** One turn keeps what is written and what is still to be written, together
    and in order. *)
Lemma writer_turn_keeps input buf w d :
  writable buf w d ->
  pwp (writer_turn s input buf)
    (fun r w' => exists o, r = Ok o /\ writable (default [] o) w' d
                 /\ (o = None -> pw_queue w' = [] /\ pw_db w' = d)) w.
Proof.
  unfold writable, backlog. intros H. destruct input.
  - unfold pwp, writer_turn. destruct (pw_queue w) as [|pe queue] eqn:Hq.
    + eexists. split; [done|]. simpl. by rewrite Hq.
    + case_decide.
      * rewrite (cons_middle pe buf queue), (app_assoc buf), fmap_app in H. apply insert_batch_app in H as (d1 & H1 & H2).
        change (pwp (_ ← flushEvents (buf ++ [pe]); mret (Some [])) (fun r w' => exists o, r = Ok o
          /\ insert_batch (pw_db w') (pending_row <$> default [] o ++ pw_queue w') = Ok d
          /\ (o = None -> pw_queue w' = [] /\ pw_db w' = d)) (pset_queue queue w)).
        apply pwp_bind. eapply a_flush; [exact H1|]. intros w1 Hd1 Hq1. apply pwp_ret. eexists.
        split; [done|]. simpl. rewrite Hd1, Hq1. done.
      * eexists. split; [done|]. simpl. by rewrite <- app_assoc.
  - rewrite fmap_app in H. apply insert_batch_app in H as (d1 & H1 & H2).
    change (writer_turn s WTick buf) with (_ ← flushEvents buf; mret (Some (@nil pendingEvent)) : PM _).
    apply pwp_bind. eapply a_flush; [exact H1|]. intros w1 Hd1 Hq1. apply pwp_ret. eexists. split; [done|].
    simpl. by rewrite Hd1, Hq1.
  - change (pwp (_ ← flushEvents (buf ++ pw_queue w); mret None) (fun r w' => exists o, r = Ok o
      /\ insert_batch (pw_db w') (pending_row <$> default [] o ++ pw_queue w') = Ok d
      /\ (o = None -> pw_queue w' = [] /\ pw_db w' = d)) (pset_queue [] w)).
    apply pwp_bind. eapply a_flush; [exact H|]. intros w1 Hd1 Hq1. apply pwp_ret. eexists. split; [done|].
    simpl. rewrite Hd1, Hq1. done.
Qed.

Lemma writer_loop_keeps inputs buf w d :
  writable buf w d ->
  pwp (eventWriterLoop s inputs buf)
    (fun r w' => exists o, r = Ok o /\ writable (default [] o) w' d
                 /\ (o = None -> pw_queue w' = [] /\ pw_db w' = d)) w.
Proof.
  revert buf w. induction inputs as [|input inputs IH]; intros buf w H; simpl.
  - apply pwp_ret. by eexists.
  - apply pwp_bind. eapply pwp_mono; [by apply writer_turn_keeps|].
    intros r w' (o & -> & Hw & Hn). cbn beta iota. destruct o as [buf'|]; [by apply IH|].
    apply pwp_ret. by eexists.
Qed.

(** The deferred writer keeps the log.  However the writer is woken, as
    long as its inserts are accepted, the rows in the table followed by its
    buffer and the queue are, in this order, what they were at the start: no
    event is lost, written twice or moved; when the writer has returned on the
    end of the store's context, all of them are in the table. *)
Theorem deferred_events_kept inputs buf w r w' d :
  insert_batch (pw_db w) (pending_row <$> buf ++ pw_queue w) = Ok d ->
  eventWriterLoop s inputs buf w = (r, w') ->
  exists o, r = Ok o
    /\ pg_events (pw_db w') ++ (pending_row <$> default [] o ++ pw_queue w')
       = pg_events (pw_db w) ++ (pending_row <$> buf ++ pw_queue w)
    /\ (o = None -> pg_events (pw_db w') = pg_events (pw_db w) ++ (pending_row <$> buf ++ pw_queue w)).
Proof.
  intros H Hrun. pose proof (writer_loop_keeps inputs buf w d H) as Hk. unfold pwp in Hk. rewrite Hrun in Hk.
  destruct Hk as (o & -> & Hw & Hn). exists o. split; [done|].
  destruct (insert_batch_events _ _ _ H) as [He _]. destruct (insert_batch_events _ _ _ Hw) as [He' _].
  unfold backlog in He'. split; [congruence|]. intros Ho. destruct (Hn Ho) as [_ ->]. done.
Qed.

End Writer.

(** Three queued events, written in a batch of two and the rest at the end. *)
Definition queued (n : Z) : pendingEvent :=
  MkPendingEvent (MkEvent (Strconv.FormatInt n) "a" EventUpdated "job" (1700000000 * Time.Second + n) "" ∅ "t" n) "" "".

Lemma deferred_events_kept_witness :
  let s := MkPgStore "" false true QueueClaimModeParallel (5 * Time.Minute) false 2 64 32 in
  let w := pset_queue (queued <$> [1; 2; 3]) (pg_start fresh_pg) in
  pg_events (pw_db (eventWriterLoop (E := pg_alone) s [WRecv; WRecv; WDone] [] w).2)
  = pending_row <$> (queued <$> [1; 2; 3]).
Proof.
  intros s w.
  assert (Hd : exists d, insert_batch (pw_db w) (pending_row <$> [] ++ pw_queue w) = Ok d).
  { vm_compute. eexists. reflexivity. }
  destruct Hd as [d Hd].
  destruct (deferred_events_kept (E := pg_alone) s pg_alone_alone [WRecv; WRecv; WDone] [] w
              (eventWriterLoop (E := pg_alone) s [WRecv; WRecv; WDone] [] w).1
              (eventWriterLoop (E := pg_alone) s [WRecv; WRecv; WDone] [] w).2 d Hd
              (surjective_pairing _)) as (o & Ho & _ & H).
  assert (o = None) as Hn by (vm_compute in Ho; injection Ho as <-; reflexivity).
  exact (H Hn).
Defined.
