(* ===== verification/PgBehaviour.v ===== *)
(** * Postgres: what single operations do

    Functional theorems about the operations of the Postgres store, for a
    session by itself: which agent a strict take claims, the agreement of the
    two claiming paths, the branches of a completion, batches and the reaper;
    and behaviours of the store worth knowing, as evaluated examples. *)

From S2P Require Import Prelude GoLib Agent Common Effects Sql Lease SharedLease Scenario PgRows PgEffects PgQuery PgEngine PgLifecycle PgLogic PgAlone PgScenario PgStatements.
From stdpp Require Import gmap strings list fin_maps sorting.
From Stdlib Require Import ZArith Lia.

Open Scope Z_scope.

#[local] Existing Instance MergeSqlOrder.

(** ** Shared parts *)

Section Tails.
Context `{E : PgEnv} (s : PgStore).
Hypothesis HA : alone E.

Lemma a_enqueue e ns w Q :
  (forall w', pg_agents (pw_db w') = pg_agents (pw_db w) -> Q (Ok tt) w') -> pwp (enqueueEvent s e ns) Q w.
Proof.
  intros HQ. unfold enqueueEvent, pwp. case_decide; [by apply HQ|].
  change (pwp (_ ← ptry (SendBatch [pending_row (MkPendingEvent e ns (s_shardID s))]); mret tt) Q w).
  a_run HA. destruct (insert_batch _ _) as [d|] eqn:Hd; a_run HA; apply HQ; [|done].
  simpl. by eapply insert_batch_agents.
Qed.

Lemma a_commit_with e ns w tx Q :
  pw_tx w = Some tx ->
  (forall err w', s_deferEvents s = false ->
     insert_event_check (pw_db w) (tx_events tx) (pg_event_row e ns (s_shardID s)) = Err err ->
     pw_db w' = pw_db w -> Q (Err err) w') ->
  (forall w', pg_agents (pw_db w') = view (pw_db w) tx -> Q (Ok tt) w') ->
  pwp (commit_with s e ns) Q w.
Proof.
  intros Htx HE HQ. unfold commit_with. destruct (s_deferEvents s) eqn:Hd.
  - apply pwp_bind. eapply (a_commit HA); [exact Htx|]. cbn beta iota.
    apply a_enqueue. intros w' Hw. by apply HQ.
  - apply pwp_bind. eapply (a_insert HA); [exact Htx|]. destruct (insert_event_check _ _ _) eqn:Hc; [|by apply HE].
    cbn beta iota. eapply (a_commit HA); [reflexivity|]. by apply HQ.
Qed.

End Tails.

Lemma psat_all_app now cs1 cs2 r : psat_all now (cs1 ++ cs2) r = psat_all now cs1 r && psat_all now cs2 r.
Proof. apply forallb_app. Qed.

Lemma psat_unless now s c r :
  psat_all now (punless_empty s c) r = true <-> (s = ""%string \/ psat now r (c s) = true).
Proof.
  unfold punless_empty. case_decide; simpl; [tauto|]. rewrite andb_true_r. tauto.
Qed.

(** ** Strict queues *)

(** The agents waiting in a queue, in the namespace asked for if there is
    one. *)
Definition waiting (now : Z) (ns queue : string) (r : PgRow) : Prop :=
  g_status r = StatusNew /\ ttlClause now r = true /\ g_queue r = queue
  /\ (ns = ""%string \/ g_namespace_id r = ns).

(** The first waiting agent by creation, ties broken by identifier. *)
Definition head_of_queue `{PgServer} (now : Z) (ns queue : string) (rows : gmap string PgRow) (id : string) (r : PgRow) : Prop :=
  rows !! id = Some r /\ waiting now ns queue r
  /\ forall id' r', rows !! id' = Some r' -> waiting now ns queue r' -> id' = id \/ row_le (id, r) (id', r').

Lemma head_clauses now q queue r :
  omget (q_Metadata q) QueueMetadataKey = queue -> queue <> ""%string -> Strings.TrimSpace queue = queue ->
  psat_all now (buildStrictQueueHeadWhereClauses (Some q)) r = true <-> waiting now (q_NamespaceID q) queue r.
Proof.
  intros Hq Hne Ht. unfold buildStrictQueueHeadWhereClauses. rewrite Hq, Ht, !psat_all_app, !andb_true_iff, !psat_unless.
  unfold waiting. simpl. rewrite !andb_true_iff, !bool_decide_eq_true. naive_solver.
Qed.

(** A strict queue is served from its head.  In strict mode, for a
    queue named without surrounding white space, a take claims the oldest
    waiting agent of the queue (in the query's namespace) if that agent
    matches the whole query, and claims nothing if it does not, whatever
    younger agents would match; a failed take leaves the tables alone. *)
Theorem take_serves_queue_head `{E : PgEnv} `{Srt : SqlOrder} `{Srv : PgServer} (s : PgStore) q queue w r w' :
  alone E -> s_queueClaimMode s = QueueClaimModeStrict -> take_refused (Some q) = false ->
  omget (q_Metadata q) QueueMetadataKey = queue -> queue <> ""%string -> Strings.TrimSpace queue = queue ->
  take_ s (Some q) w = (r, w') ->
  let now := server_now_at (pw_call w) in
  let rows := pg_agents (pw_db w) in
  match r with
  | Ok (Some t) =>
      exists row row', head_of_queue now (q_NamespaceID q) queue rows (a_ID t) row
        /\ psat_all now (buildWhereClauses (Some q) true) row = true
        /\ pg_agents (pw_db w') = <[a_ID t := row']> rows
        /\ g_status row' = StatusInProgress /\ g_owner row' = query_agent_id (Some q)
  | Ok None =>
      pw_db w' = pw_db w
      /\ ((forall id row, rows !! id = Some row -> ~ waiting now (q_NamespaceID q) queue row)
          \/ exists id row, head_of_queue now (q_NamespaceID q) queue rows id row
               /\ psat_all now (buildWhereClauses (Some q) true) row = false)
  | Err _ => pw_db w' = pw_db w
  end.
Proof.
  intros HA Hs Href Hq Hne Ht Hrun now rows. a_start Hrun.
  unfold take_. rewrite Href. cbn zeta. unfold query_queue. rewrite Hq, decide_True by done.
  unfold takeStrictQueueHead, takeWithStrategy, resolveTakeLockClause. a_run HA.
  rewrite decide_True by done. a_run HA. unfold takeStrictHeadClaim. a_run HA.
  rewrite view_begun. fold now rows. unfold claim_candidate at 1.
  pose proof (fun r => head_clauses now q queue r Hq Hne Ht) as Hcl.
  set (locked := locked_at _).
  destruct (head _) as [[id row]|] eqn:Hh.
  2:{ a_run HA. split; [done|]. left. intros id row Hr Hw. eapply head_none; [exact Hh|exact Hr|by apply Hcl|done]. }
  pose proof (head_elem _ _ Hh) as Hin. apply candidates_elem in Hin as (Hr & Hsat & _). simpl in Hr, Hsat.
  assert (Hhead : head_of_queue now (q_NamespaceID q) queue rows id row).
  { split_and!; [done|by apply Hcl|]. intros id' r' Hr' Hw'.
    destruct (head_oldest _ _ _ _ _ (id, row) id' r' Hh Hr') as [[= -> ->]|]; [by apply Hcl|done|by left|by right]. }
  destruct (psat_all now (buildWhereClauses (Some q) true) row) eqn:Hmatch.
  2:{ a_run HA. split; [done|]. right. by exists id, row. }
  destruct (claim_set _ _ _ _ _) as [row'|e] eqn:Hc; [|done].
  a_run HA. unfold scan_opt. a_run HA. destruct (scanAgent (id, row')) as [t|e] eqn:Hscan; [|done].
  destruct (scan_fields _ _ _ Hscan) as [Hid _]. a_run HA.
  eapply (a_commit_with s HA); [reflexivity|done|]. intros w1 Hw1. a_run HA.
  exists row, row'. rewrite Hid, Hw1, view_one. apply cell_claim_set in Hc. injection Hc as C1 C2 _ _.
  by split_and!.
Qed.

(** Two agents in a queue; the head is of another kind than asked for. *)
Definition in_queue (id kind : string) : Agent :=
  offer id kind [] {["queue" := "q"%string]}.

Definition two_waiting : PW :=
  (out (E := pg_alone) strict_store (in_queue "b" "report")
     (out (E := pg_alone) strict_store (in_queue "a" "job") (pg_start fresh_pg)).2).2.

Definition ask (kind who : string) : Query :=
  MkQuery kind "" [] "" "" "" "" who (Some {["queue" := "q"%string]}) 0 0.

Lemma take_serves_queue_head_witness :
  let run := take_ (E := pg_alone) strict_store (Some (ask "job" "alice")) two_waiting in
  exists t row row', run.1 = Ok (Some t)
    /\ head_of_queue (server_now_at (PgEnv := pg_alone) (pw_call two_waiting)) "" "q"
         (pg_agents (pw_db two_waiting)) (a_ID t) row
    /\ g_status row' = StatusInProgress
    /\ (take_ (E := pg_alone) strict_store (Some (ask "report" "alice")) two_waiting).1 = Ok None.
Proof.
  intros run.
  pose proof (take_serves_queue_head (E := pg_alone) strict_store (ask "job" "alice") "q" two_waiting
                run.1 run.2 pg_alone_alone eq_refl eq_refl eq_refl ltac:(discriminate) eq_refl
                (surjective_pairing _)) as H.
  assert (Hok : exists t, run.1 = Ok (Some t)) by (vm_compute; eexists; reflexivity).
  destruct Hok as [t Ht]. rewrite Ht in H. destruct H as (row & row' & H1 & _ & _ & H2 & _).
  exists t, row, row'. split_and!; [exact Ht|exact H1|exact H2|vm_compute; reflexivity].
Defined.

(** ** The two claiming paths *)

(** A lease entry both paths read alike: text whose digits, if it consists of
    digits, denote at most 10{^9}, and that Go does not read as a positive
    number otherwise. *)
Definition plain_entry (v : option any) : Prop :=
  match v with
  | None => True
  | Some (VStr t) => match Strconv.digits (bytes t) with
                     | Some n => n <= 10 ^ 9
                     | None => forall n, Strconv.Atoi t = Some n -> n <= 0
                     end
  | Some _ => False
  end.

Definition plain_lease (r : PgRow) : Prop :=
  plain_entry (g_metadata r !! "lease_sec"%string) /\ plain_entry (g_metadata r !! "lease_ms"%string).

(** The positive number under a key, for both paths. *)
Lemma entry_agrees (md : gmap string any) k :
  plain_entry (md !! k) ->
  positive_entry (Some (string_or_zero <$> md)) k
  = match Pg.digits_entry md k with
    | Some n => if decide (0 < n) then Some n else None
    | None => None
    end
  /\ (forall n, Pg.digits_entry md k = Some n -> n <= 10 ^ 9).
Proof.
  unfold positive_entry, Pg.digits_entry, Pg.text_of, plain_entry. simpl. rewrite lookup_fmap.
  destruct (md !! k) as [[| | |t| | | | |]|]; simpl; try done. intros Hp.
  destruct (Strconv.digits (bytes t)) as [n|] eqn:Hd.
  - pose proof (Strconv.digits_from_nonneg 0 (bytes t) n ltac:(lia)) as Hn0.
    assert (0 <= n) by (apply Hn0; unfold Strconv.digits in Hd; by destruct (bytes t)).
    rewrite (Strconv.Atoi_digits t n Hd) by (unfold in_int64, min_int64, max_int64; lia). simpl.
    split; [done|]. by intros m [= <-].
  - split; [|done]. destruct (Strconv.Atoi t) as [n|]; [|done]. simpl. specialize (Hp n eq_refl).
    by rewrite decide_False by lia.
Qed.

Lemma timestamptz_plus now us : Pg.timestamptz (Time.Add now (us * 1000)) = Pg.timestamptz now + us.
Proof. unfold Pg.timestamptz, Time.Add, Time.Microsecond. by rewrite Z.div_add. Qed.

Lemma int64_of d : 0 <= d <= 10 ^ 18 -> int64 d = d.
Proof. intros H. apply int64_small. unfold in_int64, min_int64, max_int64. lia. Qed.

(** The lease Go computes for the scanned row is the one the server
    computes. *)
Lemma lease_agrees `{PgServer} s r t now_ :
  scanAgent t = Ok r -> plain_lease t.2 -> s_leaseDuration s = 5 * Time.Minute ->
  0 <= Pg.timestamptz now_ <= 2 ^ 60 ->
  lease_case (Pg.timestamptz now_) (g_metadata t.2) (defaultLeaseMs s)
  = Ok (Pg.timestamptz (Time.Add now_ (leaseDurationForAgent r))).
Proof.
  intros Hscan [H1 H2] Hs Hnow. destruct t as [id row]. simpl in *.
  assert (Hmd : a_Metadata r = Some (string_or_zero <$> g_metadata row)).
  { unfold scanAgent in Hscan. destruct (g_shard_id row); [|done]. destruct (unmarshal_map _); [|done].
    by injection Hscan as <-. }
  rewrite leaseDuration_wraps. unfold requested_lease. rewrite Hmd.
  destruct (entry_agrees _ _ H1) as [-> B1]. destruct (entry_agrees _ _ H2) as [-> B2].
  assert (Hd : defaultLeaseMs s = 300000) by (unfold defaultLeaseMs; rewrite Hs; reflexivity).
  assert (Hadd : forall us, 0 <= us <= 2 ^ 53 -> plus_interval (Pg.timestamptz now_) us
                 = Some (Pg.timestamptz (Time.Add now_ (us * 1000)))).
  { intros us Hus. rewrite timestamptz_plus. apply plus_interval_exact; lia. }
  unfold lease_case, lease_when. rewrite Hd.
  assert (Hdef : match plus_interval (Pg.timestamptz now_) (300000 * 1000) with
                 | Some u => Ok u | None => Err (ESQL Pg.datetime_field_overflow) end
                 = Ok (Pg.timestamptz (Time.Add now_ (5 * Time.Minute)))).
  { rewrite Hadd by lia. reflexivity. }
  assert (Hunit : forall n unit_, 0 < n <= 10 ^ 9 -> 0 < unit_ <= 1000000 ->
            match plus_interval (Pg.timestamptz now_) (n * unit_) with
            | Some u => Ok u | None => Err (ESQL Pg.datetime_field_overflow) end
            = Ok (Pg.timestamptz (Time.Add now_ (int64 (n * (unit_ * 1000)))))).
  { intros n u Hn Hu. rewrite Hadd by nia. rewrite int64_of by nia. by rewrite Z.mul_assoc. }
  destruct (Pg.digits_entry (g_metadata row) "lease_sec") as [n|] eqn:E1.
  - specialize (B1 n eq_refl). rewrite decide_False by (unfold max_int64; lia).
    destruct (decide (0 < n)); [by apply (Hunit n 1000000)|].
    destruct (Pg.digits_entry (g_metadata row) "lease_ms") as [m|] eqn:E2; [|exact Hdef].
    specialize (B2 m eq_refl). rewrite decide_False by (unfold max_int64; lia).
    destruct (decide (0 < m)); [by apply (Hunit m 1000)|exact Hdef].
  - destruct (Pg.digits_entry (g_metadata row) "lease_ms") as [m|] eqn:E2; [|exact Hdef].
    specialize (B2 m eq_refl). rewrite decide_False by (unfold max_int64; lia).
    destruct (decide (0 < m)); [by apply (Hunit m 1000)|exact Hdef].
Qed.

(** The legacy claim writes what the claiming statement writes. *)
Lemma claim_sets_agree `{PgServer} s id r t who tok now_ :
  scanAgent (id, r) = Ok t -> plain_lease r -> s_leaseDuration s = 5 * Time.Minute ->
  0 <= Pg.timestamptz now_ <= 2 ^ 60 ->
  claim_set who tok (Pg.timestamptz now_) (defaultLeaseMs s) r
  = legacy_claim_set who tok (Pg.timestamptz now_) (Pg.timestamptz (Time.Add now_ (leaseDurationForAgent t))) r.
Proof.
  intros Hscan Hp Hs Hnow. unfold claim_set, legacy_claim_set.
  rewrite (lease_agrees s t (id, r) now_ Hscan Hp Hs Hnow). by destruct (Pg.succ (g_version r)).
Qed.

(** Claiming touches nothing scanning can stumble over. *)
Lemma scan_claimed `{PgServer} id r r' who tok now_ dflt e :
  claim_set who tok now_ dflt r = Ok r' -> scanAgent (id, r) = Err e -> exists e', scanAgent (id, r') = Err e'.
Proof.
  intros Hc. unfold claim_set in Hc. repeat case_match; try done. injection Hc as <-.
  unfold scanAgent. simpl. destruct (g_shard_id r); [|by eexists].
  destruct (g_payload r); simpl; try done; by eexists.
Qed.

Lemma scan_version id r t : scanAgent (id, r) = Ok t -> a_Version t = g_version r.
Proof.
  unfold scanAgent. destruct (g_shard_id r); [|done]. destruct (unmarshal_map _); [|done]. by intros [= <-].
Qed.

Lemma scan_claimed_ok `{PgServer} id r r' who tok now_ dflt t :
  claim_set who tok now_ dflt r = Ok r' -> scanAgent (id, r) = Ok t ->
  exists t', scanAgent (id, r') = Ok t' /\ a_Owner t' = who /\ a_LeaseToken t' = tok
             /\ a_Version t' = a_Version t + 1 /\ a_Version t + 1 <= max_int64.
Proof.
  intros Hc. unfold claim_set, Pg.succ in Hc. repeat case_match; try done. injection Hc as <-. simplify_eq.
  unfold scanAgent. simpl. destruct (g_shard_id r); [|done].
  destruct (g_payload r); simpl; try done; intros [= <-]; eexists; split_and!; done.
Qed.

(** C18: the two claiming paths agree on ordinary leases.  Inside a
    transaction of a session by itself without failing calls, for any clauses
    and lock clause, as long as the lease entries of the rows are plain (texts
    the Go code and the SQL read alike, within range), versions fit 64 bits,
    the clock is past 1970 and the store's lease is the default one: the
    single claiming statement and the legacy select-then-update both claim,
    both find nothing, or both fail; when they claim, they leave the same rows
    behind, and the agents they answer agree in id, owner, token and
    version. *)
Theorem claim_paths_agree `{E : PgEnv} `{Srt : SqlOrder} `{Srv : PgServer}
    (s : PgStore) cs who lock w tx r1 w1 r2 w2 :
  alone E -> pw_tx w = Some tx -> s_leaseDuration s = 5 * Time.Minute ->
  0 <= Pg.timestamptz (pclock_at (pw_clock w)) <= 2 ^ 60 ->
  (forall id r, view (pw_db w) tx !! id = Some r -> plain_lease r /\ in_int64 (g_version r)) ->
  takeAtomicClaim s cs who lock w = (r1, w1) -> takeLegacyClaim cs who lock w = (r2, w2) ->
  match r1, r2 with
  | Ok (Some t1), Ok (Some t2) =>
      (exists tx1 tx2, pw_tx w1 = Some tx1 /\ pw_tx w2 = Some tx2
         /\ view (pw_db w1) tx1 = view (pw_db w2) tx2)
      /\ a_ID t1 = a_ID t2 /\ a_Owner t1 = a_Owner t2 /\ a_LeaseToken t1 = a_LeaseToken t2
      /\ a_Version t1 = a_Version t2
  | Ok None, Ok None | Err _, Err _ => True
  | _, _ => False
  end.
Proof.
  intros HA Htx Hs Hnow Hplain Hrun1 Hrun2.
  a_start Hrun1. unfold takeAtomicClaim. a_run HA. eapply (a_stmt HA); [exact Htx|]. a_cbn.
  unfold claim_candidate. cbn [psat_all forallb].
  a_start Hrun2. unfold takeLegacyClaim. a_run HA. eapply (a_stmt HA); [exact Htx|].
  unfold select_candidate.
  destruct (head _) as [[id r]|] eqn:Hh; [|done].
  pose proof (head_elem _ _ Hh) as Hin. apply candidates_elem in Hin as (Hr & _ & _). simpl in Hr.
  destruct (Hplain id r Hr) as [Hpl Hver]. clear Hplain. unfold psat_all. cbn [forallb scan_opt]. a_run HA.
  destruct (scanAgent (id, r)) as [t|e] eqn:Hscan; a_run HA.
  - destruct (scan_fields _ _ _ Hscan) as [Hid _]. rewrite Hid. unfold update_by_id.
    assert (Hview : view (pw_db w) (MkPTx (∅ ∪ tx_rows tx) (dom (∅ : gmap string PgRow) ∪ {[id]} ∪ tx_locks tx)
              (tx_events tx) (tx_notifies tx) (tx_now tx)) = view (pw_db w) tx).
    { unfold view. simpl. by rewrite (left_id_L ∅ (∪)). }
    rewrite Hview, Hr.
    rewrite <- (claim_sets_agree s id r t who (puuid_at (pw_uuid w)) _ Hscan Hpl Hs Hnow).
    destruct (claim_set _ _ _ _ _) as [r'|e] eqn:Hc; a_run HA; [|done].
    destruct (scan_claimed_ok _ _ _ _ _ _ _ _ Hc Hscan) as (t' & Ht' & A1 & A2 & A3 & A4).
    cbn [scan_opt]. a_run HA. rewrite Ht'. a_run HA. split_and!.
    + eexists _, _. split_and!; [reflexivity|reflexivity|]. unfold view. simpl.
      by rewrite !(left_id_L ∅ (∪)).
    + destruct (scan_fields _ _ _ Ht') as [-> _]. by destruct t.
    + rewrite A1. by destruct t.
    + rewrite A2. by destruct t.
    + rewrite A3. pose proof (scan_version _ _ _ Hscan) as Hv. unfold in_int64 in Hver.
      unfold legacy_claimed. destruct t. simpl in *. rewrite int64_small; [done|]. unfold in_int64. lia.
  - destruct (claim_set _ _ _ _ _) as [r'|e'] eqn:Hc; [|done]. cbn [scan_opt]. a_run HA.
    destruct (scan_claimed _ _ _ _ _ _ _ _ Hc Hscan) as [e' ->]. done.
Qed.

(** The world of [two_waiting] inside a transaction. *)
Definition in_transaction : PW :=
  pset_tx (Some (MkPTx ∅ ∅ [] [] (server_now_at (PgEnv := pg_alone) (pw_call two_waiting)))) two_waiting.

Definition plain_rowb (r : PgRow) : bool :=
  bool_decide (g_metadata r !! "lease_sec"%string = None) && bool_decide (g_metadata r !! "lease_ms"%string = None)
  && bool_decide (0 <= g_version r <= 100).

Lemma plain_rowb_spec r : plain_rowb r = true -> plain_lease r /\ in_int64 (g_version r).
Proof.
  unfold plain_rowb. rewrite !andb_true_iff, !bool_decide_eq_true. intros [[H1 H2] H3].
  unfold plain_lease. rewrite H1, H2. split; [done|]. unfold in_int64, min_int64, max_int64. lia.
Qed.

Lemma claim_paths_agree_witness :
  let atomic := takeAtomicClaim (E := pg_alone) demo_store [PTTL; PStatus "NEW"] "alice" ForUpdateSkipLocked in_transaction in
  let legacy := takeLegacyClaim (E := pg_alone) [PTTL; PStatus "NEW"] "alice" ForUpdateSkipLocked in_transaction in
  exists t1 t2, atomic.1 = Ok (Some t1) /\ legacy.1 = Ok (Some t2) /\ a_ID t1 = a_ID t2
    /\ a_LeaseToken t1 = a_LeaseToken t2.
Proof.
  intros atomic legacy.
  assert (Hrows : map_Forall (fun _ r => plain_rowb r = true)
                    (view (pw_db in_transaction) (MkPTx ∅ ∅ [] [] (server_now_at (PgEnv := pg_alone) (pw_call two_waiting))))).
  { apply (bool_decide_unpack _). vm_compute. exact I. }
  pose proof (claim_paths_agree (E := pg_alone) demo_store [PTTL; PStatus "NEW"] "alice" ForUpdateSkipLocked
                in_transaction _ atomic.1 atomic.2 legacy.1 legacy.2 pg_alone_alone eq_refl eq_refl
                ltac:(vm_compute; split; discriminate)
                (fun id r H => plain_rowb_spec r (Hrows id r H))
                (surjective_pairing _) (surjective_pairing _)) as H.
  assert (H1 : exists t, atomic.1 = Ok (Some t)) by (vm_compute; eexists; reflexivity).
  assert (H2 : exists t, legacy.1 = Ok (Some t)) by (vm_compute; eexists; reflexivity).
  destruct H1 as [t1 H1], H2 as [t2 H2]. rewrite H1, H2 in H. destruct H as (_ & A1 & _ & A3 & _).
  exists t1, t2. split_and!; assumption.
Defined.

(** ** Completion *)

Section Completion.
Context `{E : PgEnv} (s : PgStore) (id who tok : string) (res : option (gmap string any)) (w : PW).
Hypothesis HA : alone E.
Hypothesis Hwho : who <> ""%string.
Hypothesis Htok : tok <> ""%string.

(** What reading the agent once more tells of a completion that found no
    lease. *)
Definition conflict_answer (row : PgRow) (t0 : Agent) : result gerror Agent :=
  if decide (g_status row = StatusCompleted) then
    if decide (pdone (g_metadata row) = tok) then Ok t0 else Err EStaleToken
  else if decide (g_status row <> StatusInProgress) then Err (EInvalidStatus (g_status row))
  else if decide (g_owner row <> who) then Err (EOwnedBy "complete" (g_owner row) who)
  else if decide (g_lease_token row <> tok) then Err ETokenMismatch
  else Err (ERejected "complete").

Lemma classified row t0 :
  scanAgent (id, row) = Ok t0 ->
  match classifyCompletionConflict t0 who tok with Some e => Err e | None => Ok t0 end = conflict_answer row t0.
Proof.
  intros Hscan. destruct (scan_fields _ _ _ Hscan) as [_ Hcell]. injection Hcell as C1 C2 C3 C4.
  unfold classifyCompletionConflict, conflict_answer. rewrite C1, C2, C3.
  pose proof (CompletionTokenMatches_spec t0 tok) as Hm. rewrite C4 in Hm.
  destruct (decide (g_status row = StatusCompleted)); [|by repeat case_decide].
  destruct (CompletionTokenMatches t0 tok), (decide (pdone (g_metadata row) = tok)); naive_solver.
Qed.

Lemma scan_error row e : scanAgent (id, row) = Err e -> errorsIsNoRows e = false.
Proof.
  unfold scanAgent. destruct (g_shard_id row); [|by intros [= <-]].
  unfold unmarshal_map. destruct (g_payload row); intros H; by simplify_eq.
Qed.

(** Without the lease: the stored agent is read again and classified. *)
Lemma complete_unleased :
  match pg_agents (pw_db w) !! id with
  | Some row => leased_to who tok (server_now_at (pw_call w)) row = false
  | None => True
  end ->
  pwp (completeAndGet s id who tok res)
    (fun r w' => pw_db w' = pw_db w
       /\ r = match pg_agents (pw_db w) !! id with
              | Some row =>
                  if ttlClause (server_now_at (S (S (pw_call w)))) row
                  then match scanAgent (id, row) with Ok t0 => conflict_answer row t0 | Err e => Err e end
                  else Err (ENotFound id)
              | None => Err (ENotFound id)
              end) w.
Proof.
  intros Hl. unfold completeAndGet, prequire_identity. rewrite !decide_False by done. a_run HA.
  rewrite view_begun. unfold update_by_id. destruct (pg_agents (pw_db w) !! id) as [row|] eqn:Hrow.
  - rewrite Hl. cbn [scan_opt]. a_run HA. unfold get. a_run HA. rewrite Hrow.
    destruct (ttlClause _ row); [|a_run HA; done]. destruct (scanAgent (id, row)) as [t0|e] eqn:Hscan; a_run HA.
    + rewrite <- (classified row t0 Hscan). destruct (classifyCompletionConflict t0 who tok); a_run HA; done.
    + rewrite (scan_error _ _ Hscan). a_run HA. done.
  - cbn [scan_opt]. a_run HA. unfold get. a_run HA. rewrite Hrow. a_run HA. done.
Qed.

(** With the lease and a payload that is an object: the row is completed,
    unless its version is exhausted or its event is refused. *)
Definition completed_answer (row : PgRow) (payload : gmap string any) (r : result gerror Agent) (w' : PW) : Prop :=
  if decide (max_int64 <= g_version row)
  then pw_db w' = pw_db w /\ r = Err (ESQL Pg.numeric_value_out_of_range)
  else
    (exists t row', r = Ok t /\ pg_agents (pw_db w') = <[id := row']> (pg_agents (pw_db w))
       /\ cell_of row' = MkCell StatusCompleted "" "" tok /\ g_lease_until row' = None
       /\ g_payload row' = VMap (<["result" := json_value (VMap (default ∅ res))]> payload)
       /\ g_version row' = g_version row + 1)
    \/ (pw_db w' = pw_db w /\ s_deferEvents s = false
        /\ ((r = Err (ESQL Pg.no_partition)
             /\ day_of (Pg.timestamptz (pclock_at (pw_clock w))) ∉ pg_partitions (pw_db w))
            \/ (r = Err (ESQL Pg.unique_violation)
                /\ exists ev, ev ∈ pg_events (pw_db w) /\ v_id ev = puuid_at (pw_uuid w)))).

Lemma refused_event d r err :
  insert_event_check d [] r = Err err ->
  (err = ESQL Pg.no_partition /\ day_of (v_timestamp r) ∉ pg_partitions d)
  \/ (err = ESQL Pg.unique_violation /\ exists ev, ev ∈ pg_events d /\ v_id ev = v_id r).
Proof.
  unfold insert_event_check. case_decide; [intros [= <-]; by left|]. rewrite app_nil_r.
  destruct (existsb _ _) eqn:Hx; [|done]. intros [= <-]. right. split; [done|].
  apply existsb_exists in Hx as (ev & Hin & (_ & H2%bool_decide_eq_true)%andb_true_iff).
  exists ev. split; [by apply list_elem_of_In|done].
Qed.

Lemma complete_leased row :
  pg_agents (pw_db w) !! id = Some row ->
  leased_to who tok (server_now_at (pw_call w)) row = true ->
  pwp (completeAndGet s id who tok res)
    (fun r w' =>
       match scanAgent (id, row) with
       | Err _ => pw_db w' = pw_db w /\ exists e, r = Err e
       | Ok t0 =>
           match a_Payload t0 with
           | None => pw_db w' = pw_db w /\ r = Err (ESQL Pg.invalid_parameter_value)
           | Some payload => completed_answer row payload r w'
           end
       end) w.
Proof.
  intros Hrow Hl. unfold completeAndGet, prequire_identity. rewrite !decide_False by done. a_run HA.
  rewrite view_begun. unfold update_by_id. rewrite Hrow, Hl. unfold complete_set.
  destruct (scanAgent (id, row)) as [t0|e0] eqn:Hscan.
  2:{ destruct (jsonb_set_result _ _) as [pl|e] eqn:Hj; [|by split; [|eexists]]. unfold clear_set.
      destruct (Pg.succ (g_version row)) as [v|e]; [|by split; [|eexists]]. cbn [scan_opt]. a_run HA.
      assert (g_shard_id row = None) as Hsh.
      { unfold scanAgent in Hscan. destruct (g_shard_id row); [|done]. by destruct (g_payload row). }
      unfold scanAgent. cbn [g_shard_id]. rewrite Hsh. a_run HA. by split; [|eexists]. }
  assert (Hp : g_payload row = VNil /\ a_Payload t0 = None
               \/ exists m, g_payload row = VMap m /\ a_Payload t0 = Some m).
  { unfold scanAgent in Hscan. destruct (g_shard_id row); [|done]. destruct (g_payload row); try done;
      injection Hscan as <-; [by left|right; by eexists]. }
  destruct Hp as [[-> ->]|(payload & -> & ->)]; [done|]. cbn [jsonb_set_result].
  unfold clear_set, completed_answer. unfold Pg.succ.
  destruct (decide (max_int64 <= g_version row)) as [Hv|Hv]; [rewrite decide_False by lia; done|].
  rewrite decide_True by lia.
  match goal with |- context [scan_opt (Some (id, ?x))] => set (row' := x) end.
  assert (Hs' : exists t, scanAgent (id, row') = Ok t).
  { unfold scanAgent in Hscan |- *. simpl. destruct (g_shard_id row); [|done]. by eexists. }
  destruct Hs' as [t Hs']. cbn [scan_opt]. a_run HA. rewrite Hs'. a_run HA.
  assert (Hfacts : cell_of row' = MkCell StatusCompleted "" "" tok /\ g_lease_until row' = None
            /\ g_payload row' = VMap (<["result" := json_value (VMap (default ∅ res))]> payload)
            /\ g_version row' = g_version row + 1).
  { split_and!; [|done..]. unfold row', cell_of, pdone, jsonb_concat. simpl.
    erewrite (lookup_union_Some_l _ _ _ (VStr tok)); [done|].
    by rewrite lookup_fmap, completion_patch_token. }
  clearbody row'. eapply (a_commit_with s HA); [reflexivity| |].
  - intros err w1 Hd Hc Hw1. right. split_and!; [done|done|].
    apply refused_event in Hc as [[-> Hday]|[-> Hdup]]; [left|right]; done.
  - intros w1 Hw1. a_run HA. left. exists t, row'. destruct Hfacts as (F1 & F2 & F3 & F4).
    rewrite view_one in Hw1. split_and!; [done|exact Hw1|exact F1|exact F2|exact F3|exact F4].
Qed.

End Completion.

(** C19: a completion, case by case, for a session that is alone and whose
    calls do not fail.  [completeAndGet] refuses an empty agent id or token.
    When the row is in progress under this owner and token and not expired:
    a row that does not decode fails it, a JSON null payload fails it even
    though the lease is valid, an exhausted version fails it; otherwise it
    completes the agent (status COMPLETED, owner, token and lease cleared,
    result and completing token recorded), or, in the mode that writes events
    in the transaction, the event is refused because its day has no partition
    or its id is in the log.  Without that lease it reads the agent again: an
    agent that is missing or expired is not found, one that does not decode
    fails it, a completion recorded under the same token is replayed, and a
    stale token, another status, owner or token is refused with the error for
    it.  The tables change in the completing case only. *)
Theorem completeAndGet_cases `{E : PgEnv} (s : PgStore) id who tok res w r w' :
  alone E -> completeAndGet s id who tok res w = (r, w') ->
  let unchanged := pw_db w' = pw_db w in
  if decide (who = ""%string) then unchanged /\ r = Err EAgentIDRequired
  else if decide (tok = ""%string) then unchanged /\ r = Err ELeaseTokenRequired
  else
    match pg_agents (pw_db w) !! id with
    | None => unchanged /\ r = Err (ENotFound id)
    | Some row =>
        if leased_to who tok (server_now_at (pw_call w)) row then
          match scanAgent (id, row) with
          | Err _ => unchanged /\ exists e, r = Err e
          | Ok t0 =>
              match a_Payload t0 with
              | None => unchanged /\ r = Err (ESQL Pg.invalid_parameter_value)
              | Some payload =>
                  if decide (max_int64 <= g_version row)
                  then unchanged /\ r = Err (ESQL Pg.numeric_value_out_of_range)
                  else
                    (exists t row', r = Ok t /\ pg_agents (pw_db w') = <[id := row']> (pg_agents (pw_db w))
                       /\ cell_of row' = MkCell StatusCompleted "" "" tok /\ g_lease_until row' = None
                       /\ g_payload row' = VMap (<["result" := json_value (VMap (default ∅ res))]> payload)
                       /\ g_version row' = g_version row + 1)
                    \/ (unchanged /\ s_deferEvents s = false
                        /\ ((r = Err (ESQL Pg.no_partition)
                             /\ day_of (Pg.timestamptz (pclock_at (pw_clock w))) ∉ pg_partitions (pw_db w))
                            \/ (r = Err (ESQL Pg.unique_violation)
                                /\ exists ev, ev ∈ pg_events (pw_db w) /\ v_id ev = puuid_at (pw_uuid w))))
              end
          end
        else if ttlClause (server_now_at (S (S (pw_call w)))) row then
          match scanAgent (id, row) with
          | Err e => unchanged /\ r = Err e
          | Ok t0 =>
              unchanged
              /\ r = if decide (g_status row = StatusCompleted) then
                       if decide (pdone (g_metadata row) = tok) then Ok t0 else Err EStaleToken
                     else if decide (g_status row <> StatusInProgress) then Err (EInvalidStatus (g_status row))
                     else if decide (g_owner row <> who) then Err (EOwnedBy "complete" (g_owner row) who)
                     else if decide (g_lease_token row <> tok) then Err ETokenMismatch
                     else Err (ERejected "complete")
          end
        else unchanged /\ r = Err (ENotFound id)
    end.
Proof.
  intros HA Hrun unchanged. destruct (decide (who = ""%string)) as [->|Hwho]; [by injection Hrun as <- <-|].
  destruct (decide (tok = ""%string)) as [->|Htok].
  { unfold completeAndGet, prequire_identity in Hrun. rewrite decide_False, decide_True in Hrun by done. by injection Hrun as <- <-. }
  pose proof (complete_unleased s id who tok res w HA Hwho Htok) as Hun. unfold pwp in Hun. rewrite Hrun in Hun.
  destruct (pg_agents (pw_db w) !! id) as [row|] eqn:Hrow; [|by apply Hun].
  destruct (leased_to who tok (server_now_at (pw_call w)) row) eqn:Hl.
  - exact (pwp_run _ _ _ _ _ (complete_leased s id who tok res w HA Hwho Htok row Hrow Hl) Hrun).
  - destruct (Hun eq_refl) as [Hu ->]. destruct (ttlClause _ row); [|done]. by destruct (scanAgent (id, row)).
Qed.

(** The world after agent "a" was taken by alice under token "u4". *)
Definition a_taken : PW :=
  (take_ (E := pg_alone) demo_store (Some (by_kind "job" "alice")) two_waiting).2.

Lemma completeAndGet_cases_witness :
  (exists t, (completeAndGet (E := pg_alone) demo_store "a" "alice" "u2" None a_taken).1 = Ok t
     /\ (exists row', pg_agents (pw_db (completeAndGet (E := pg_alone) demo_store "a" "alice" "u2" None a_taken).2)
                      !! "a"%string = Some row' /\ cell_of row' = MkCell StatusCompleted "" "" "u2"))
  /\ (completeAndGet (E := pg_alone) demo_store "a" "bob" "u2" None a_taken).1
       = Err (EOwnedBy "complete" "alice" "bob").
Proof.
  split_and!.
  - assert (Hok : exists t, (completeAndGet (E := pg_alone) demo_store "a" "alice" "u2" None a_taken).1 = Ok t)
      by (eexists; vm_compute; reflexivity).
    pose (chk row t0 := leased_to "alice" "u2" (server_now_at (PgEnv := pg_alone) (pw_call a_taken)) row
        && bool_decide (g_version row < max_int64 /\ is_Some (a_Payload t0))).
    assert (Hc : match pg_agents (pw_db a_taken) !! "a"%string with
                 | Some row => match scanAgent ("a"%string, row) with Ok t0 => chk row t0 | Err _ => false end
                 | None => false
                 end = true) by (vm_compute; reflexivity).
    pose proof (completeAndGet_cases (E := pg_alone) demo_store "a" "alice" "u2" None a_taken
                  (completeAndGet (E := pg_alone) demo_store "a" "alice" "u2" None a_taken).1
                  (completeAndGet (E := pg_alone) demo_store "a" "alice" "u2" None a_taken).2
                  pg_alone_alone (surjective_pairing _)) as H.
    cbn zeta in H. rewrite (decide_False (P := "alice"%string = ""%string)) in H by discriminate.
    rewrite (decide_False (P := "u2"%string = ""%string)) in H by discriminate.
    destruct (pg_agents (pw_db a_taken) !! "a"%string) as [row|]; [|discriminate Hc].
    destruct (scanAgent ("a"%string, row)) as [t0|]; [|discriminate Hc].
    apply andb_true_iff in Hc as [H1 H2]. apply bool_decide_eq_true in H2 as (H2 & [pl H3]).
    rewrite H1, H3, decide_False in H by lia.
    destruct Hok as [t Hok]. rewrite Hok in H |- *. exists t. split; [reflexivity|].
    destruct H as [(t' & row' & _ & Hdb & Hcell & _)|(_ & _ & [[Hbad _]|[Hbad _]])]; [|discriminate Hbad..].
    exists row'. split; [rewrite Hdb; apply lookup_insert_eq|exact Hcell].
  - vm_compute. reflexivity.
Defined.
