(* ===== verification/PgBatch.v ===== *)
(** * Postgres: batches, the reaper, renewal

    Functional theorems about the operations of the Postgres store that touch
    several agents in one statement, [batchTake] and [reapExpiredLeases], and
    about the lease a renewal grants, for a session by itself; and behaviours
    of the store worth knowing, as evaluated examples. *)

From S2P Require Import Prelude GoLib Agent Common Effects Sql Lease SharedLease Scenario PgRows PgEffects PgQuery PgEngine PgLifecycle PgLogic PgAlone PgScenario PgStatements PgLog PgBehaviour.
From stdpp Require Import gmap strings list fin_maps sorting.
From Stdlib Require Import ZArith Lia.

Open Scope Z_scope.

#[local] Existing Instance MergeSqlOrder.

(** ** Loops *)

Section Loops.
Context `{E : PgEnv} (s : PgStore).
Hypothesis HA : alone E.

Lemma a_draw n : forall Q w,
  Q (Ok (puuid_at <$> seq (pw_uuid w) n))
    (MkPW (pw_db w) (pw_tx w) (pw_clock w) (pw_uuid w + n) (pw_call w) (pw_notified w) (pw_queue w)
       (pw_sent w) (pw_signals w) (pw_prefetch w)) ->
  pwp (draw_uuids n) Q w.
Proof.
  induction n as [|n IH]; intros Q w HQ; simpl.
  - apply pwp_ret. simpl in HQ. rewrite Nat.add_0_r in HQ. by destruct w.
  - apply pwp_bind, a_uuid. cbn beta iota. apply pwp_bind, IH. a_cbn. apply pwp_ret.
    by rewrite Nat.add_succ_comm.
Qed.

Lemma a_scan_each rows : forall Q w,
  (forall e, Q (Err e) w) ->
  (forall ts, Forall2 (fun p t => scanAgent p = Ok t) rows ts -> Q (Ok ts) w) ->
  pwp (pfor_each (fun r => of_result (scanAgent r)) rows) Q w.
Proof.
  induction rows as [|p rows IH]; intros Q w HE HQ; simpl.
  - apply pwp_ret, HQ. constructor.
  - apply pwp_bind, pwp_result. destruct (scanAgent p) as [t|e] eqn:Hs; [|by apply HE]. cbn beta iota.
    apply pwp_bind, IH; [done|]. intros ts Hts. apply pwp_ret, HQ. by constructor.
Qed.

(** A loop whose every turn leaves the agents alone leaves them alone. *)
Lemma a_each_keeps {A B} (f : A -> PM B) l : forall Q w,
  (forall x w Q, (forall y w', pg_agents (pw_db w') = pg_agents (pw_db w) -> Q (Ok y) w') -> pwp (f x) Q w) ->
  (forall ys w', pg_agents (pw_db w') = pg_agents (pw_db w) -> Q (Ok ys) w') ->
  pwp (pfor_each f l) Q w.
Proof.
  induction l as [|x l IH]; intros Q w Hf HQ; simpl; [by apply pwp_ret, HQ|].
  apply pwp_bind, Hf. intros y w1 H1. cbn beta iota. apply pwp_bind, IH; [done|].
  intros ys w2 H2. apply pwp_ret, HQ. by rewrite H2.
Qed.

Lemma a_batch_event who now t : forall w Q,
  (forall y w', pg_agents (pw_db w') = pg_agents (pw_db w) -> Q (Ok y) w') ->
  pwp (batch_event s who now t) Q w.
Proof.
  intros w Q HQ. unfold batch_event. a_run HA. destruct (s_deferEvents s).
  - apply a_enqueue; [done|]. intros w1 H1. a_run HA. by apply HQ.
  - a_run HA. destruct (insert_batch _ _) as [d|] eqn:Hd; a_run HA; apply HQ; [|done].
    simpl. by eapply insert_batch_agents.
Qed.

End Loops.

(** ** Batches *)

Lemma claim_each_exact `{PgServer} owner now_ dflt tokens l l' :
  claim_each owner now_ dflt tokens l = Ok l' -> (length l <= length tokens)%nat ->
  l'.*1 = l.*1
  /\ (fun p => g_lease_token p.2) <$> l' = take (length l) tokens
  /\ Forall (fun p => g_status p.2 = StatusInProgress /\ g_owner p.2 = owner) l'.
Proof.
  revert tokens l'. induction l as [|[id r] l IH]; intros [|tok tokens] l' Hl Hlen; simpl in *; simplify_eq;
    try lia; [done..|].
  destruct (claim_set _ _ _ _ _) as [r'|] eqn:Hc; [|done].
  destruct (claim_each _ _ _ _ _) as [l1|] eqn:He; [|done]. simplify_eq.
  destruct (IH _ _ He ltac:(lia)) as (H1 & H2 & H3).
  pose proof (cell_claim_set _ _ _ _ _ _ Hc) as Hcell. injection Hcell as C1 C2 C3 _. simpl.
  split_and!; [by f_equal|by f_equal|by constructor].
Qed.

Lemma scan_each_fields rows ts :
  Forall2 (fun p t => scanAgent p = Ok t) rows ts ->
  a_ID <$> ts = rows.*1 /\ a_LeaseToken <$> ts = (fun p => g_lease_token p.2) <$> rows
  /\ Forall (fun t => exists row, (a_ID t, row) ∈ rows /\ scanAgent (a_ID t, row) = Ok t) ts.
Proof.
  induction 1 as [|[id r] t rows ts Hs _ (H1 & H2 & H3)]; [done|].
  destruct (scan_fields _ _ _ Hs) as [Hid Hc]. injection Hc as _ _ C3 _. simpl. split_and!; [by f_equal..|].
  constructor; [exists r; rewrite Hid; set_solver|].
  eapply Forall_impl; [exact H3|]. intros t' (row & Hin & Hr). exists row. set_solver.
Qed.

Lemma candidates_unlocked `{PgServer} now locked lock cs rows :
  (forall id, locked id = false) -> candidates now locked lock cs rows = by_creation (rows_where now cs rows).
Proof.
  intros Hl. unfold candidates. generalize (by_creation (rows_where now cs rows)) as l.
  induction l as [|p l IH]; [done|]. rewrite filter_cons, decide_True, IH; [done|].
  unfold available. rewrite Hl. by destruct lock.
Qed.

(** The first [limit] rows that satisfy the clauses, by creation. *)
Definition first_matching `{PgServer} (now : Z) (cs : list pclause) (limit : Z) (rows : gmap string PgRow)
    : list (string * PgRow) :=
  take (Z.to_nat limit) (by_creation (rows_where now cs rows)).

Lemma first_matching_NoDup `{PgServer} now cs limit rows : NoDup (first_matching now cs limit rows).*1.
Proof.
  unfold first_matching. rewrite <- (candidates_unlocked now (fun _ => false) ForUpdate) by done.
  eapply sublist_NoDup; [apply candidates_NoDup|]. apply fmap_sublist, sublist_take.
Qed.

(** What a batch claim of [chosen] for [who] leaves behind. *)
Definition batch_claimed (who : string) (chosen : list (string * PgRow)) (rows rows' : gmap string PgRow)
    (ts : list Agent) : Prop :=
  (a_ID <$> ts) ≡ₚ chosen.*1
  /\ NoDup (a_LeaseToken <$> ts)
  /\ Forall (fun t => exists row, rows' !! a_ID t = Some row /\ scanAgent (a_ID t, row) = Ok t
                      /\ g_status row = StatusInProgress /\ g_owner row = who) ts
  /\ forall id, id ∉ chosen.*1 -> rows' !! id = rows !! id.

Lemma batch_rows `{SqlOrder} `{PgServer} who now_ dflt tokens chosen rows l ts :
  claim_each who now_ dflt tokens chosen = Ok l -> (length chosen <= length tokens)%nat ->
  NoDup chosen.*1 -> NoDup tokens ->
  Forall2 (fun p t => scanAgent p = Ok t) (any_order l) ts ->
  batch_claimed who chosen rows (list_to_map l ∪ rows) ts.
Proof.
  intros He Hlen Hnd Htok Hts. destruct (claim_each_exact _ _ _ _ _ _ He Hlen) as (H1 & H2 & H3).
  destruct (scan_each_fields _ _ Hts) as (F1 & F2 & F3).
  assert (Hperm : any_order l ≡ₚ l) by apply sql_sort_perm.
  split_and!.
  - by rewrite F1, Hperm, H1.
  - rewrite F2, Hperm, H2. eapply sublist_NoDup; [exact Htok|apply sublist_take].
  - eapply Forall_impl; [exact F3|]. intros t (row & Hin & Hs). rewrite Hperm in Hin. exists row.
    rewrite Forall_forall in H3. destruct (H3 _ Hin) as [S1 S2]. split_and!; [|done..].
    apply lookup_union_Some_l, elem_of_list_to_map; [by rewrite H1|done].
  - intros id Hid. apply lookup_union_r, not_elem_of_list_to_map. by rewrite H1.
Qed.

(** A batch claims the first matching agents, each once and under its
    own token.  A [batchTake] that answers with agents answers with exactly
    the first [limit] agents that match the query by creation time, in some
    order; each is now stored IN_PROGRESS for the caller under a token no
    other agent of the batch has, as answered; every other agent is
    untouched.  A batch that fails leaves the tables alone: all the agents of
    it or none. *)
Theorem batchTake_claims_first `{E : PgEnv} `{Srt : SqlOrder} `{Srv : PgServer} (s : PgStore) q limit w r w' :
  alone E -> (forall n m, puuid_at n = puuid_at m -> n = m) -> 0 < limit -> take_refused q = false ->
  batchTake s q limit w = (r, w') ->
  let chosen := first_matching (server_now_at (pw_call w)) (buildWhereClauses q true) limit (pg_agents (pw_db w)) in
  match r with
  | Ok ts => batch_claimed (query_agent_id q) chosen (pg_agents (pw_db w)) (pg_agents (pw_db w')) ts
  | Err _ => pw_db w' = pw_db w
  end.
Proof.
  intros HA Hinj Hlim Href Hrun chosen. a_start Hrun.
  unfold batchTake. rewrite decide_False, Href by lia. a_run HA. apply a_draw. a_run HA.
  rewrite view_begun. unfold claim_batch. rewrite candidates_unlocked by apply HA. fold chosen.
  destruct (claim_each _ _ _ _ _) as [l|e] eqn:He; a_run HA; [|done].
  set (tokens := puuid_at <$> _) in He.
  assert (Hrows : forall ts, Forall2 (fun p t => scanAgent p = Ok t) (any_order l) ts ->
            batch_claimed (query_agent_id q) chosen (pg_agents (pw_db w)) (list_to_map l ∪ pg_agents (pw_db w)) ts).
  { intros ts. eapply batch_rows; [exact He| |apply first_matching_NoDup|].
    - unfold tokens, chosen, first_matching. rewrite length_fmap, length_seq, length_take. lia.
    - apply NoDup_fmap_2; [|apply NoDup_seq]. intros n m. apply Hinj. }
  apply a_scan_each; [done|]. intros ts Hts. specialize (Hrows ts Hts). a_run HA.
  destruct ts as [|t ts]; a_run HA.
  - replace l with (@nil (string * PgRow)) in Hrows; [|].
    { revert Hrows. simpl. rewrite (left_id_L ∅ (∪)). done. }
    apply Forall2_nil_inv_r in Hts. symmetry. apply Permutation_nil. rewrite <- Hts. apply (sql_sort_perm (fun _ => 0)).
  - apply (a_each_keeps (batch_event s _ _)); [intros; by apply a_batch_event|].
    intros ys w1 Hw1. a_run HA. rewrite Hw1. simpl. by rewrite (right_id_L ∅ (∪)).
Qed.

Lemma batchTake_claims_first_witness :
  let run := batchTake (E := pg_alone) demo_store (Some (by_kind "" "alice")) 5 two_waiting in
  exists ts, run.1 = Ok ts
    /\ batch_claimed "alice" (first_matching (server_now_at (PgEnv := pg_alone) (pw_call two_waiting))
                                (buildWhereClauses (Some (by_kind "" "alice")) true) 5
                                (pg_agents (pw_db two_waiting)))
         (pg_agents (pw_db two_waiting)) (pg_agents (pw_db run.2)) ts
    /\ a_ID <$> ts = ["a"%string; "b"%string].
Proof.
  intros run.
  assert (Hok : match run.1 with Ok ts => bool_decide (a_ID <$> ts = ["a"%string; "b"%string]) | Err _ => false end = true)
    by (vm_compute; reflexivity).
  pose proof (batchTake_claims_first (E := pg_alone) demo_store (Some (by_kind "" "alice")) 5 two_waiting
                run.1 run.2 pg_alone_alone pg_alone_fresh ltac:(lia) eq_refl
                (surjective_pairing _)) as H.
  destruct (run.1) as [ts|]; [|discriminate Hok]. exists ts.
  apply bool_decide_eq_true in Hok. split_and!; [reflexivity|exact H|exact Hok].
Defined.

(** ** The reaper *)

(** The events of a pass over the given rows, and their rows in the log. *)
Definition reap_events `{PgEnv} (now_ : Z) (first : nat) (l : list (string * (PgRow * PgRow))) : list Event :=
  zip_with (fun n x => reap_event (puuid_at n) now_ x) (seq first (length l)) l.

Definition reap_log (s : PgStore) (events : list Event) (l : list (string * (PgRow * PgRow))) : list PgEventRow :=
  zip_with (fun e x => pg_event_row e (g_namespace_id x.2.1) (s_shardID s)) events l.

Definition with_pending (d : PgDB) (evs : list PgEventRow) : PgDB :=
  MkPgDB (pg_agents d) (pg_events d ++ evs) (pg_partitions d).

Lemma check_pending d evs r : insert_event_check d evs r = insert_event_check (with_pending d evs) [] r.
Proof. unfold insert_event_check. simpl. by rewrite app_nil_r. Qed.

Section ReapLoop.
Context `{E : PgEnv} (s : PgStore).
Hypothesis HA : alone E.

(** The events of a pass, written one after the other. *)
Lemma a_reap_loop now_ l : forall w tx Q,
  pw_tx w = Some tx ->
  (forall e w', pw_db w' = pw_db w -> pw_notified w' = pw_notified w ->
     insert_batch (with_pending (pw_db w) (tx_events tx)) (reap_log s (reap_events now_ (pw_uuid w) l) l) = Err e ->
     Q (Err e) w') ->
  (forall w' ns, pw_db w' = pw_db w -> pw_notified w' = pw_notified w ->
     pw_tx w' = Some (MkPTx (tx_rows tx) (tx_locks tx)
                        (tx_events tx ++ reap_log s (reap_events now_ (pw_uuid w) l) l) ns (tx_now tx)) ->
     Q (Ok (reap_events now_ (pw_uuid w) l)) w') ->
  pwp (pfor_each (reap_one s now_) l) Q w.
Proof.
  induction l as [|x l IH]; intros w tx Q Htx HE HQ; cbn [pfor_each].
  - apply pwp_ret. apply (HQ w (tx_notifies tx)); [done|done|]. simpl. rewrite app_nil_r. by destruct tx.
  - apply pwp_bind. unfold reap_one at 1. a_run HA. eapply (a_insert HA); [exact Htx|]. a_cbn. rewrite check_pending.
    set (r := pg_event_row _ _ _).
    assert (Hb : insert_batch (with_pending (pw_db w) (tx_events tx)) (reap_log s (reap_events now_ (pw_uuid w) (x :: l)) (x :: l))
            = match insert_event_check (with_pending (pw_db w) (tx_events tx)) [] r with
              | Err e => Err e
              | Ok _ => insert_batch (with_pending (pw_db w) (tx_events tx ++ [r])) (reap_log s (reap_events now_ (S (pw_uuid w)) l) l)
              end).
    { simpl. unfold with_pending at 2. simpl. by rewrite <- app_assoc. }
    rewrite Hb in HE. destruct (insert_event_check _ _ _) as [u|e]; [|by apply HE]. a_run HA.
    eapply IH; [reflexivity| |]; a_cbn.
    + intros e w1 H1 H2 H3. by apply HE.
    + intros w1 ns H1 H2 H3. a_run HA. apply (HQ w1 ns); [done|done|]. rewrite H3. simpl. by rewrite <- app_assoc.
Qed.

Lemma a_notify_all events : forall w Q,
  (forall w' us, pw_db w' = pw_db w -> pw_notified w' = pw_notified w ++ events -> Q (Ok us) w') ->
  pwp (pfor_each notifySubscribers events) Q w.
Proof.
  induction events as [|e events IH]; intros w Q HQ; simpl.
  - apply pwp_ret, HQ; [done|]. by rewrite app_nil_r.
  - a_run HA. apply IH. a_cbn. intros w1 us H1 H2. a_run HA. apply HQ; [done|]. by rewrite H2, <- app_assoc.
Qed.

End ReapLoop.

(** What a pass reaps: each expired row before and after, once. *)
Definition reaps (now : Z) (rows : gmap string PgRow) (l : list (string * (PgRow * PgRow))) : Prop :=
  NoDup l.*1
  /\ (forall id old new, (id, (old, new)) ∈ l ->
        rows !! id = Some old /\ lease_expired now old = true /\ release_set now old = Ok new)
  /\ (forall id old, rows !! id = Some old -> lease_expired now old = true -> exists new, (id, (old, new)) ∈ l).

(** The rows after the pass: the expired ones released, the others as they
    were. *)
Definition reaped_rows (now : Z) (rows rows' : gmap string PgRow) : Prop :=
  forall id, match rows !! id with
             | Some old => if lease_expired now old
                           then exists new, release_set now old = Ok new /\ rows' !! id = Some new
                           else rows' !! id = Some old
             | None => rows' !! id = None
             end.

Lemma release_each_err now l e :
  release_each now l = Err e -> exists id r, (id, r) ∈ l /\ max_int64 <= g_version r.
Proof.
  induction l as [|[id r] l IH]; simpl; [done|]. destruct (release_set now r) as [r'|] eqn:Hr.
  - destruct (release_each now l); [done|]. intros [= ->]. destruct (IH eq_refl) as (id' & r1 & H1 & H2).
    exists id', r1. set_solver.
  - intros _. exists id, r. split; [set_solver|]. unfold release_set, clear_set, Pg.succ in Hr.
    case_decide; [done|lia].
Qed.

Lemma release_each_complete now l l' id r :
  release_each now l = Ok l' -> (id, r) ∈ l -> exists r', release_set now r = Ok r' /\ (id, (r, r')) ∈ l'.
Proof.
  revert l'. induction l as [|[id0 r0] l IH]; simpl; intros l' H Hin; [set_solver|].
  destruct (release_set now r0) as [r0'|] eqn:Hr0; [|done].
  destruct (release_each now l) as [l1|]; [|done]. injection H as <-.
  apply elem_of_cons in Hin as [[= -> ->]|Hin]; [exists r0'; set_solver|].
  destruct (IH _ eq_refl Hin) as (r' & H1 & H2). exists r'. set_solver.
Qed.

Lemma release_each_reaps now locked (rows : gmap string PgRow) l :
  (forall id, locked id = false) ->
  release_each now (filter (fun p => negb (locked p.1) && lease_expired now p.2) (map_to_list rows)) = Ok l ->
  reaps now rows l.
Proof.
  intros Hl H. destruct (release_each_elem _ _ _ H) as [Hid HF].
  assert (Hel : forall id old,
            (id, old) ∈ filter (fun p => negb (locked p.1) && lease_expired now p.2) (map_to_list rows)
            <-> rows !! id = Some old /\ lease_expired now old = true).
  { intros id old. rewrite list_elem_of_filter, elem_of_map_to_list. simpl. rewrite Hl, Is_true_true. tauto. }
  split_and!.
  - rewrite Hid. eapply sublist_NoDup; [apply (NoDup_fst_map_to_list rows)|]. apply fmap_sublist, sublist_filter.
  - intros id old new Hin. rewrite Forall_forall in HF. destruct (HF _ Hin) as [H1 H2]. simpl in *.
    apply Hel in H1. tauto.
  - intros id old H1 H2. destruct (release_each_complete _ _ _ _ _ H (proj2 (Hel id old) (conj H1 H2))) as (r' & _ & H5).
    by exists r'.
Qed.

Lemma reaps_rows now rows l :
  reaps now rows l -> reaped_rows now rows (list_to_map ((fun x => (x.1, x.2.2)) <$> l) ∪ rows).
Proof.
  intros (Hnd & Hl & Hall) id.
  assert (Hm : forall (k : list (string * (PgRow * PgRow))),
            (list_to_map ((fun x => (x.1, x.2.2)) <$> k) : gmap string PgRow) = snd <$> (list_to_map k : gmap string (PgRow * PgRow))).
  { induction k as [|[i [a b]] k IH]; [symmetry; apply fmap_empty|].
    rewrite fmap_cons, !list_to_map_cons, fmap_insert, IH. done. }
  rewrite Hm. destruct ((list_to_map l : gmap string (PgRow * PgRow)) !! id) as [[old new]|] eqn:Hlk.
  - destruct (Hl id old new) as (-> & -> & H3); [by apply elem_of_list_to_map_2|]. exists new. split; [done|].
    apply lookup_union_Some_l. by rewrite lookup_fmap, Hlk.
  - rewrite lookup_union_r by (by rewrite lookup_fmap, Hlk).
    destruct (rows !! id) as [old|] eqn:Hr; [|done]. destruct (lease_expired now old) eqn:Hx; [|done].
    destruct (Hall id old Hr Hx) as [new Hin]. apply not_elem_of_list_to_map in Hlk. destruct Hlk.
    apply list_elem_of_fmap. by exists (id, (old, new)).
Qed.

(** A log with a partition for the day and no event under the new
    identifiers accepts the events of a pass. *)
Lemma log_accepts_new d rows ts :
  day_of ts ∈ pg_partitions d -> Forall (fun r => v_timestamp r = ts) rows ->
  NoDup (v_id <$> rows) -> (forall r r', r ∈ pg_events d -> r' ∈ rows -> v_id r <> v_id r') ->
  exists d', insert_batch d rows = Ok d'.
Proof.
  revert d. induction rows as [|r rows IH]; intros d Hday Hts Hnd Hnew; simpl; [by eexists|].
  apply Forall_cons in Hts as [Hr Hts]. apply NoDup_cons in Hnd as [Hn Hnd].
  unfold insert_event_check. rewrite Hr, decide_False by (by intros Hn'). rewrite app_nil_r.
  destruct (existsb _ (pg_events d)) eqn:Hex.
  - apply existsb_exists in Hex as (r' & Hin & Hb). apply andb_true_iff in Hb as [_ Hb].
    apply bool_decide_eq_true in Hb. apply list_elem_of_In in Hin. destruct (Hnew r' r Hin); [set_solver|done].
  - apply IH; simpl; [done..|]. intros r1 r2 [H1|H1%list_elem_of_singleton]%elem_of_app H2; [apply Hnew; set_solver|].
    subst r1. intros Heq. apply Hn, list_elem_of_fmap. by exists r2.
Qed.

Lemma reap_log_rows `{PgEnv} s now_ l : forall n,
  Forall (fun r => v_timestamp r = Pg.timestamptz now_) (reap_log s (reap_events now_ n l) l)
  /\ v_id <$> reap_log s (reap_events now_ n l) l = puuid_at <$> seq n (length l).
Proof.
  induction l as [|[id [old new]] l IH]; intros n; simpl; [done|]. destruct (IH (S n)) as [H1 H2].
  split; [by constructor|]. by f_equal.
Qed.

(** Nothing stands in the way of a pass: versions left to step, a partition
    for the day, and event identifiers not yet used. *)
Definition can_reap `{E : PgEnv} (w : PW) (now : Z) : Prop :=
  (forall id old, pg_agents (pw_db w) !! id = Some old -> lease_expired now old = true -> g_version old < max_int64)
  /\ day_of now ∈ pg_partitions (pw_db w)
  /\ (forall n m, puuid_at n = puuid_at m -> n = m)
  /\ forall r n, r ∈ pg_events (pw_db w) -> (pw_uuid w <= n)%nat -> v_id r <> puuid_at n.

Lemma can_reap_log `{E : PgEnv} s w now_ l :
  can_reap w (Pg.timestamptz now_) ->
  exists d, insert_batch (with_pending (pw_db w) []) (reap_log s (reap_events now_ (pw_uuid w) l) l) = Ok d.
Proof.
  intros (_ & Hday & Hinj & Hnew). destruct (reap_log_rows s now_ l (pw_uuid w)) as [H1 H2].
  eapply (log_accepts_new _ _ (Pg.timestamptz now_)); [done|done| |].
  - rewrite H2. apply NoDup_fmap_2; [|apply NoDup_seq]. intros n m. apply Hinj.
  - intros r r' Hr Hr'. simpl in Hr. rewrite app_nil_r in Hr.
    assert (Hid : v_id r' ∈ v_id <$> reap_log s (reap_events now_ (pw_uuid w) l) l)
      by (apply list_elem_of_fmap; by exists r').
    rewrite H2 in Hid. apply list_elem_of_fmap in Hid as (n & -> & Hn%elem_of_seq). apply Hnew; [done|lia].
Qed.

(** A reaping pass is all or nothing, and reaps the expired leases.  For
    a session by itself the pass never fails to its caller; it releases
    exactly the agents whose lease had expired, leaves every other agent
    alone, logs one RELEASED event per released agent with its previous owner
    and tells subscribers of these events; or it changes nothing and tells
    nobody, which happens only if a version is exhausted or the event log
    rejects an event. *)
Theorem reaper_all_or_nothing `{E : PgEnv} `{Srt : SqlOrder} (s : PgStore) w r w' :
  alone E -> reapExpiredLeases s w = (r, w') ->
  let now_ := pclock_at (pw_clock w) in
  let now := Pg.timestamptz now_ in
  r = Ok tt
  /\ ((exists l, reaps now (pg_agents (pw_db w)) l
         /\ reaped_rows now (pg_agents (pw_db w)) (pg_agents (pw_db w'))
         /\ pg_events (pw_db w') = pg_events (pw_db w) ++ reap_log s (reap_events now_ (pw_uuid w) l) l
         /\ pw_notified w' = pw_notified w ++ reap_events now_ (pw_uuid w) l)
      \/ (pw_db w' = pw_db w /\ pw_notified w' = pw_notified w /\ ~ can_reap w now)).
Proof.
  intros HA Hrun now_ now. a_start Hrun. unfold reapExpiredLeases. a_run HA. fold now_ now. rewrite view_begun.
  unfold reap_stmt. set (locked := locked_at _). assert (Hl : forall id, locked id = false) by apply HA.
  destruct (release_each now _) as [l|e] eqn:He.
  2:{ a_run HA. split; [done|]. right. split_and!; [done..|]. intros (Hv & _).
      apply release_each_err in He as (id & old & Hin & Hmax). apply list_elem_of_filter in Hin as [Hx Hin].
      apply elem_of_map_to_list in Hin. apply Is_true_true, andb_true_iff in Hx as [_ Hx].
      specialize (Hv id old Hin Hx). lia. }
  pose proof (release_each_reaps _ _ _ _ Hl He) as Hreaps.
  assert (Hperm : any_order l ≡ₚ l) by apply sql_sort_perm.
  assert (Hreaps' : reaps now (pg_agents (pw_db w)) (any_order l)).
  { destruct Hreaps as (H1 & H2 & H3). split_and!; [by rewrite Hperm|setoid_rewrite Hperm; exact H2|].
    setoid_rewrite Hperm. exact H3. }
  pose proof (reaps_rows _ _ _ Hreaps) as Hrows.
  destruct (any_order l) as [|x l'] eqn:Hx; a_run HA.
  - split; [done|]. left. exists []. apply Permutation_nil in Hperm as ->. simpl in *.
    rewrite (left_id_L ∅ (∪)) in Hrows. rewrite !app_nil_r. done.
  - eapply (a_reap_loop s HA); [reflexivity| |]; a_cbn.
    + intros e w1 Hdb Hn Hfail. a_run HA. split; [done|]. right. split_and!; [done..|].
      intros Hcan. destruct (can_reap_log s w now_ (x :: l') Hcan) as [d Hd]. congruence.
    + intros w1 ns Hdb Hn Htx. a_run HA. eapply (a_commit HA); [exact Htx|]. a_cbn.
      apply pwp_bind, a_notify_all. a_cbn. intros w2 us Hdb2 Hn2. a_run HA. split; [done|]. left.
      exists (x :: l'). rewrite Hdb2, Hn2, Hn. unfold apply_tx, view. simpl. rewrite Hdb, (right_id_L ∅ (∪)). done.
Qed.

(** Agent "a" was claimed for one millisecond, a second ago; agent "b" has
    just been claimed. *)
Definition lapsed : PW :=
  let w := (out (E := pg_alone) demo_store (offer "a" "job" [] {["lease_ms" := "1"%string]}) (pg_start fresh_pg)).2 in
  let w := (take_ (E := pg_alone) demo_store (Some (by_kind "job" "alice")) w).2 in
  let w := MkPW (pw_db w) None 1000 (pw_uuid w) (pw_call w) (pw_notified w) [] [] 0 ∅ in
  let w := (out (E := pg_alone) demo_store (offer "b" "job" [] ∅) w).2 in
  (take_ (E := pg_alone) demo_store (Some (by_kind "job" "bob")) w).2.

Lemma reaper_all_or_nothing_witness :
  let run := reapExpiredLeases (E := pg_alone) demo_store lapsed in
  let now := Pg.timestamptz (pclock_at (PgEnv := pg_alone) (pw_clock lapsed)) in
  reaped_rows now (pg_agents (pw_db lapsed)) (pg_agents (pw_db run.2))
  /\ (g_status <$> pg_agents (pw_db run.2) !! "a"%string) = Some StatusNew
  /\ (g_status <$> pg_agents (pw_db run.2) !! "b"%string) = Some StatusInProgress
  /\ (e_TupleID <$> drop (length (pw_notified lapsed)) (pw_notified run.2)) = ["a"%string].
Proof.
  intros run now.
  assert (Hn : length (pw_notified run.2) <> length (pw_notified lapsed)) by (vm_compute; discriminate).
  destruct (reaper_all_or_nothing (E := pg_alone) demo_store lapsed run.1 run.2 pg_alone_alone (surjective_pairing _))
    as [_ [(l & _ & Hrows & _)|(_ & Hsame & _)]].
  - split_and!; [exact Hrows|vm_compute; reflexivity..].
  - destruct Hn. exact (f_equal length Hsame).
Defined.
