(* ===== verification/ShardMap.v ===== *)
(** * Sharded Postgres: the shard map and routing

    [src/pkg/store/postgressharded/config.go] (the shard map and its
    normalisation) and the routing functions of [store.go]: the shard of a
    namespace and queue, of a hint, of an agent, of a query. *)

From S2P Require Import Prelude GoLib GoSort Agent Common Effects.
From stdpp Require Import gmap strings list fin_maps sorting pretty.
From Stdlib Require Import ZArith Lia Ascii.

Open Scope Z_scope.

(** ** The shard map *)

Record ShardSpec : Type := MkShardSpec {
  sp_ShardID : string;
  sp_WriterDSN : string;
  sp_ReplicaDSNs : list string;
  sp_OwnerNodeID : string;
  sp_AdvertiseAddr : string;
}.

Record ShardMap : Type := MkShardMap {
  sm_Version : Z;
  sm_Epoch : Z;
  sm_Shards : list ShardSpec;
}.

(** Errors of the sharded store; those of a shard pass through. *)
Inductive serror : Type :=
| SBackend (e : gerror)
| SNoShards
| SMissingShardID (i : nat)
| SMissingDSN (shardID : string)
| SDuplicateShardID (shardID : string)
| SNamespaceRequired
| SQueueRequired
| SRemote (shardID ownerNodeID advertiseAddr : string)
| SUnknownShard (shardID : string)
| SRequiresRouting (op : string)
| SCannotMove
| SNotFound (id : string)
| SNotConfigured (shardID : string)
| SCrossShard (source output : string).

Definition trim_spec (sp : ShardSpec) : ShardSpec :=
  MkShardSpec (Strings.TrimSpace (sp_ShardID sp)) (Strings.TrimSpace (sp_WriterDSN sp)) (sp_ReplicaDSNs sp)
    (Strings.TrimSpace (sp_OwnerNodeID sp)) (Strings.TrimSpace (sp_AdvertiseAddr sp)).

(** The loop of [normalize] over the shards from index [i] on. *)
Fixpoint normalize_loop (i : nat) (seen : gset string) (l : list ShardSpec) : result serror (list ShardSpec) :=
  match l with
  | [] => Ok []
  | sp :: l =>
      let sp := trim_spec sp in
      if decide (sp_ShardID sp = "")%string then Err (SMissingShardID i)
      else if decide (sp_WriterDSN sp = "")%string then Err (SMissingDSN (sp_ShardID sp))
      else if decide (sp_ShardID sp ∈ seen) then Err (SDuplicateShardID (sp_ShardID sp))
      else match normalize_loop (S i) ({[sp_ShardID sp]} ∪ seen) l with
           | Ok l' => Ok (sp :: l')
           | Err e => Err e
           end
  end.

Definition shard_less (a b : ShardSpec) : bool := string_ltb (sp_ShardID a) (sp_ShardID b).

Definition normalize (m : ShardMap) : result serror ShardMap :=
  match sm_Shards m with
  | [] => Err SNoShards
  | _ =>
      match normalize_loop 0 ∅ (sm_Shards m) with
      | Ok l => Ok (MkShardMap (sm_Version m) (sm_Epoch m) (SliceStable shard_less l))
      | Err e => Err e
      end
  end.

(** ** The store *)

(** What the store is configured with: this node's name and the normalised
    map. *)
Record ShardedStore : Type := MkShardedStore {
  ss_NodeID : string;
  ss_map : ShardMap;
}.

Definition ownsShard (nodeID : string) (spec : ShardSpec) : bool :=
  let nodeID := Strings.TrimSpace nodeID in
  let ownerNodeID := Strings.TrimSpace (sp_OwnerNodeID spec) in
  bool_decide (nodeID = "")%string || bool_decide (ownerNodeID = "")%string || bool_decide (ownerNodeID = nodeID).

(** [s.shards]: the handles of the shards this node owns, in the order of the
    map; [s.byShardID] and [s.specByShardID] look them up. *)
Definition shards (s : ShardedStore) : list ShardSpec :=
  filter (fun sp => ownsShard (ss_NodeID s) sp) (sm_Shards (ss_map s)).

Definition find_spec (l : list ShardSpec) (shardID : string) : option ShardSpec :=
  find_map (fun sp => if decide (sp_ShardID sp = shardID) then Some sp else None) l.

Definition byShardID (s : ShardedStore) (shardID : string) : option ShardSpec := find_spec (shards s) shardID.

Definition specByShardID (s : ShardedStore) (shardID : string) : option ShardSpec :=
  find_spec (sm_Shards (ss_map s)) shardID.

(** ** Routing *)

Definition hashKey (namespaceID queue : string) : Z :=
  fnv32a (bytes namespaceID ++ bytes ":" ++ bytes queue).

Definition targetShardSpec (s : ShardedStore) (namespaceID queue : string) : result serror ShardSpec :=
  let namespaceID := Strings.TrimSpace namespaceID in
  let queue := Strings.TrimSpace queue in
  if decide (namespaceID = "")%string then Err SNamespaceRequired
  else if decide (queue = "")%string then Err SQueueRequired
  else
    let n := length (sm_Shards (ss_map s)) in
    let idx := Z.to_nat (hashKey namespaceID queue `mod` Z.of_nat n) in
    match sm_Shards (ss_map s) !! idx with
    | Some spec => Ok spec
    | None => Err SNoShards
    end.

Definition remoteShardOwner (spec : ShardSpec) : serror :=
  SRemote (sp_ShardID spec) (sp_OwnerNodeID spec) (sp_AdvertiseAddr spec).

Definition shardForNamespaceQueue (s : ShardedStore) (namespaceID queue : string) : result serror ShardSpec :=
  match targetShardSpec s namespaceID queue with
  | Err e => Err e
  | Ok spec =>
      match byShardID s (sp_ShardID spec) with
      | Some shard => Ok shard
      | None => Err (remoteShardOwner spec)
      end
  end.

(** The shard named by the request's context, if it names one. *)
Definition shardFromHint (s : ShardedStore) (hint : string) : option (result serror ShardSpec) :=
  let shardID := Strings.TrimSpace hint in
  if decide (shardID = "")%string then None
  else match byShardID s shardID with
       | Some shard => Some (Ok shard)
       | None =>
           match specByShardID s shardID with
           | Some spec => Some (Err (remoteShardOwner spec))
           | None => Some (Err (SUnknownShard shardID))
           end
       end.

Definition agent_namespace (t : Agent) : string :=
  let namespaceID := Strings.TrimSpace (a_NamespaceID t) in
  if decide (namespaceID = "")%string then Strings.TrimSpace (omget (a_Metadata t) NamespaceMetadataKey)
  else namespaceID.

Definition agent_queue (t : Agent) : string := Strings.TrimSpace (omget (a_Metadata t) QueueMetadataKey).

Definition shardFromAgent (s : ShardedStore) (t : Agent) : result serror ShardSpec :=
  shardForNamespaceQueue s (agent_namespace t) (agent_queue t).

Definition queryNamespaceAndQueue (query : option Query) : string * string :=
  match query with
  | None => ("", "")%string
  | Some q => (Strings.TrimSpace (q_NamespaceID q), Strings.TrimSpace (omget (q_Metadata q) QueueMetadataKey))
  end.

Definition shardFromQuery (s : ShardedStore) (query : option Query) : option (result serror ShardSpec) :=
  let '(namespaceID, queue) := queryNamespaceAndQueue query in
  if decide (namespaceID = "" \/ queue = "")%string then None
  else Some (shardForNamespaceQueue s namespaceID queue).

Definition orderedShardIDs (s : ShardedStore) : list string := sort_strings (sp_ShardID <$> shards s).

(** ** Facts *)

Definition usable (sp : ShardSpec) : Prop := sp_ShardID sp <> ""%string /\ sp_WriterDSN sp <> ""%string.

(** What the loop accepts, and what it makes of it. *)
Lemma normalize_loop_Ok i seen l l' :
  normalize_loop i seen l = Ok l' <->
  l' = trim_spec <$> l /\ Forall usable l' /\ NoDup (sp_ShardID <$> l') /\ Forall (fun sp => sp_ShardID sp ∉ seen) l'.
Proof.
  revert i seen l'. induction l as [|sp l IH]; intros i seen l'; cbn [normalize_loop].
  { split; [intros [= <-]; simpl; split_and!; constructor|]. by intros (-> & _). }
  cbn zeta. set (sp' := trim_spec sp).
  destruct (decide (sp_ShardID sp' = "")%string) as [H1|H1].
  { split; [done|]. intros (-> & HF & _). apply Forall_cons in HF as [[Hu _] _]. done. }
  destruct (decide (sp_WriterDSN sp' = "")%string) as [H2|H2].
  { split; [done|]. intros (-> & HF & _). apply Forall_cons in HF as [[_ Hu] _]. done. }
  destruct (decide (sp_ShardID sp' ∈ seen)) as [H3|H3].
  { split; [done|]. intros (-> & _ & _ & HF). apply Forall_cons in HF as [Hu _]. done. }
  specialize (IH (S i) ({[sp_ShardID sp']} ∪ seen)). destruct (normalize_loop _ _ _) as [k|e].
  - destruct (IH k) as [(-> & F1 & F2 & F3) _]; [done|]. split.
    + intros [= <-]. split_and!; [done|by constructor| |].
      * apply NoDup_cons. split; [|done]. intros (sp2 & Heq & Hin)%list_elem_of_fmap.
        rewrite Forall_forall in F3. specialize (F3 _ Hin). set_solver.
      * constructor; [done|]. eapply Forall_impl; [exact F3|]. set_solver.
    + by intros (-> & _).
  - split; [done|]. intros (-> & F1 & F2 & F3). apply Forall_cons in F1 as [_ F1]. apply Forall_cons in F3 as [_ F3].
    apply NoDup_cons in F2 as [Hn F2]. destruct (IH (trim_spec <$> l)) as [_ Hback].
    discriminate Hback. split_and!; [done..|]. apply Forall_forall. intros sp2 Hin.
    rewrite Forall_forall in F3. specialize (F3 _ Hin).
    assert (sp_ShardID sp2 <> sp_ShardID sp'); [|set_solver].
    intros Heq. apply Hn, list_elem_of_fmap. by exists sp2.
Qed.

Lemma shard_less_asym a b : shard_less a b = true -> shard_less b a = false.
Proof. apply string_ltb_asym. Qed.

Lemma shard_less_trans a b c :
  not_after shard_less a b -> not_after shard_less b c -> not_after shard_less a c.
Proof. apply string_not_after_trans. Qed.

(** A normalised map: usable shards under distinct identifiers. *)
Definition normal (m : ShardMap) : Prop :=
  sm_Shards m <> [] /\ Forall usable (sm_Shards m) /\ NoDup (sp_ShardID <$> sm_Shards m).

Lemma normalize_Ok m n : normalize m = Ok n -> normal n /\ sm_Shards n ≡ₚ trim_spec <$> sm_Shards m.
Proof.
  unfold normalize. destruct (sm_Shards m) as [|sp l] eqn:Hm; [done|]. rewrite <- Hm.
  destruct (normalize_loop _ _ _) as [k|] eqn:Hk; [|done]. intros [= <-].
  apply normalize_loop_Ok in Hk as (-> & F1 & F2 & _). unfold normal. cbn [sm_Shards].
  assert (Hp := SliceStable_perm shard_less (trim_spec <$> sm_Shards m)). split_and!; [|by rewrite Hp..|done].
  intros Hnil. rewrite Hnil, Hm in Hp. by apply Permutation_nil_l in Hp.
Qed.

(** Maps that list the same shards in another order normalise alike. *)
Lemma normalize_perm m1 m2 n1 :
  sm_Shards m1 ≡ₚ sm_Shards m2 -> normalize m1 = Ok n1 ->
  exists n2, normalize m2 = Ok n2 /\ sm_Shards n2 = sm_Shards n1.
Proof.
  intros Hp H. unfold normalize in *. destruct (sm_Shards m1) as [|sp1 l1] eqn:H1; [done|]. rewrite <- H1 in *.
  destruct (sm_Shards m2) as [|sp2 l2] eqn:H2; [by rewrite H1 in Hp; apply Permutation_nil_r in Hp|]. rewrite <- H2 in *.
  destruct (normalize_loop _ _ (sm_Shards m1)) as [k1|] eqn:Hk; [|done]. injection H as <-.
  apply normalize_loop_Ok in Hk as (-> & F1 & F2 & _).
  assert (Hp' : trim_spec <$> sm_Shards m1 ≡ₚ trim_spec <$> sm_Shards m2) by (by apply fmap_Permutation).
  assert (Hk2 : normalize_loop 0 ∅ (sm_Shards m2) = Ok (trim_spec <$> sm_Shards m2)).
  { apply normalize_loop_Ok. split_and!; [done|by rewrite <- Hp'|by rewrite <- Hp'|]. apply Forall_forall. set_solver. }
  rewrite Hk2. eexists. split; [done|]. simpl. symmetry.
  apply (SliceStable_unique shard_less shard_less_asym shard_less_trans); [|done].
  intros a b Ha Hb Hab Hba. apply list_elem_of_lookup in Ha as [i Ha], Hb as [j Hb].
  assert (Hid : sp_ShardID a = sp_ShardID b) by (apply string_leb_antisymm; by apply string_not_after).
  assert (i = j) as ->; [|congruence]. eapply NoDup_lookup; [exact F2| |].
  - by rewrite list_lookup_fmap, Ha.
  - rewrite list_lookup_fmap, Hb. simpl. by rewrite Hid.
Qed.

Lemma find_spec_elem l id sp : find_spec l id = Some sp -> sp ∈ l /\ sp_ShardID sp = id.
Proof.
  intros H. apply find_map_Some in H as (l1 & x & l2 & -> & Hx & _). case_decide; simplify_eq. set_solver.
Qed.

Lemma find_spec_unique l sp : NoDup (sp_ShardID <$> l) -> sp ∈ l -> find_spec l (sp_ShardID sp) = Some sp.
Proof.
  unfold find_spec. induction l as [|x l IH]; intros Hnd Hin; [set_solver|]. simpl in *.
  apply NoDup_cons in Hnd as [Hn Hnd]. apply elem_of_cons in Hin as [->|Hin]; [by rewrite decide_True|].
  rewrite decide_False; [by apply IH|]. intros Heq. apply Hn, list_elem_of_fmap. by exists sp.
Qed.

Lemma find_spec_filter l sp : NoDup (sp_ShardID <$> l) -> sp ∈ l ->
  forall (P : ShardSpec -> Prop) `{!forall x, Decision (P x)},
  find_spec (filter P l) (sp_ShardID sp) = if decide (P sp) then Some sp else None.
Proof.
  intros Hnd Hin P HP. case_decide as Hd.
  - apply find_spec_unique; [|by apply list_elem_of_filter].
    eapply sublist_NoDup; [exact Hnd|]. apply fmap_sublist, sublist_filter.
  - destruct (find_spec _ _) as [sp'|] eqn:Hf; [|done]. apply find_spec_elem in Hf as [Hf Heq].
    apply list_elem_of_filter in Hf as [Hf Hin'].
    pose proof (find_spec_unique l sp Hnd Hin) as U1. pose proof (find_spec_unique l sp' Hnd Hin') as U2.
    rewrite Heq in U2. congruence.
Qed.

(** The routed shard is one of the map. *)
Lemma target_total s ns q :
  sm_Shards (ss_map s) <> [] -> Strings.TrimSpace ns <> ""%string -> Strings.TrimSpace q <> ""%string ->
  exists spec, targetShardSpec s ns q = Ok spec /\ spec ∈ sm_Shards (ss_map s).
Proof.
  intros Hne Hns Hq. unfold targetShardSpec. rewrite !decide_False by done.
  set (l := sm_Shards (ss_map s)) in *. set (n := length l).
  assert (Hn : 0 < Z.of_nat n) by (unfold n; destruct l; simpl; [done|lia]).
  pose proof (Z.mod_pos_bound (hashKey (Strings.TrimSpace ns) (Strings.TrimSpace q)) (Z.of_nat n) Hn) as Hb.
  destruct (lookup_lt_is_Some_2 l (Z.to_nat (hashKey (Strings.TrimSpace ns) (Strings.TrimSpace q) `mod` Z.of_nat n)))
    as [spec Hspec]; [unfold n in *; lia|].
  rewrite Hspec. exists spec. split; [done|]. by eapply list_elem_of_lookup_2.
Qed.

Lemma served_by_owner s ns q spec :
  normal (ss_map s) -> targetShardSpec s ns q = Ok spec -> spec ∈ sm_Shards (ss_map s) ->
  shardForNamespaceQueue s ns q
  = if ownsShard (ss_NodeID s) spec then Ok spec else Err (remoteShardOwner spec).
Proof.
  intros (_ & _ & Hnd) Ht Hin. unfold shardForNamespaceQueue, byShardID, shards. rewrite Ht.
  rewrite (find_spec_filter _ _ Hnd Hin). by destruct (ownsShard (ss_NodeID s) spec).
Qed.

Lemma agent_query_agree s t q :
  agent_namespace t = (queryNamespaceAndQueue (Some q)).1 -> agent_queue t = (queryNamespaceAndQueue (Some q)).2 ->
  agent_namespace t <> ""%string -> agent_queue t <> ""%string ->
  shardFromQuery s (Some q) = Some (shardFromAgent s t).
Proof.
  intros H1 H2 N1 N2. unfold shardFromQuery, shardFromAgent. rewrite H1, H2 in *. simpl in *.
  rewrite decide_False by (by intros [?|?]). done.
Qed.

(** C20: every node routes alike.  Nodes whose shard map files list the same
    shards, in whatever order, agree on the shard of every namespace and queue:
    a request with both is always routed to exactly one shard of the map, the
    node that owns this shard serves it and every other node names that owner;
    and an agent is written to the very shard where takes for its namespace
    and queue look for it. *)
Theorem nodes_route_alike m1 m2 n1 :
  sm_Shards m1 ≡ₚ sm_Shards m2 -> normalize m1 = Ok n1 ->
  exists n2, normalize m2 = Ok n2 /\
    forall node1 node2 ns queue, Strings.TrimSpace ns <> ""%string -> Strings.TrimSpace queue <> ""%string ->
    exists spec, spec ∈ sm_Shards n1
      /\ targetShardSpec (MkShardedStore node1 n1) ns queue = Ok spec
      /\ targetShardSpec (MkShardedStore node2 n2) ns queue = Ok spec
      /\ shardForNamespaceQueue (MkShardedStore node2 n2) ns queue
         = (if ownsShard node2 spec then Ok spec else Err (remoteShardOwner spec))
      /\ forall t q, agent_namespace t = (queryNamespaceAndQueue (Some q)).1 ->
           agent_queue t = (queryNamespaceAndQueue (Some q)).2 ->
           agent_namespace t = ns -> agent_queue t = queue ->
           shardFromAgent (MkShardedStore node1 n1) t = shardForNamespaceQueue (MkShardedStore node1 n1) ns queue
           /\ shardFromQuery (MkShardedStore node1 n1) (Some q) = Some (shardFromAgent (MkShardedStore node1 n1) t).
Proof.
  intros Hp H1. destruct (normalize_perm _ _ _ Hp H1) as (n2 & H2 & Heq). exists n2. split; [done|].
  destruct (normalize_Ok _ _ H1) as [Hn1 _]. destruct (normalize_Ok _ _ H2) as [Hn2 _].
  intros node1 node2 ns queue Hns Hq.
  destruct (target_total (MkShardedStore node1 n1) ns queue (proj1 Hn1) Hns Hq) as (spec & Ht & Hin). exists spec.
  assert (Ht2 : targetShardSpec (MkShardedStore node2 n2) ns queue = Ok spec).
  { unfold targetShardSpec in *. simpl in *. by rewrite Heq. }
  split_and!; [done|done|done| |].
  - apply (served_by_owner (MkShardedStore node2 n2)); [done|done|]. simpl. by rewrite Heq.
  - intros t q A1 A2 <- <-. split; [done|]. apply agent_query_agree; [done|done| |].
    + intros E. by rewrite E in Hns.
    + intros E. by rewrite E in Hq.
Qed.

(** Two nodes, two shards, listed in opposite orders. *)
Definition east_first : ShardMap := MkShardMap 1 0
  [MkShardSpec "east" "postgres://u@h/d" [] "n1" "h1"; MkShardSpec " west " "postgres://u@h/e" [] "n2" "h2"].
Definition west_first : ShardMap := MkShardMap 1 0 (reverse (sm_Shards east_first)).

Lemma nodes_route_alike_witness :
  exists n1 n2 spec, normalize east_first = Ok n1 /\ normalize west_first = Ok n2
    /\ targetShardSpec (MkShardedStore "n1" n1) "acme" "jobs" = Ok spec
    /\ targetShardSpec (MkShardedStore "n2" n2) "acme" "jobs" = Ok spec
    /\ sp_ShardID <$> sm_Shards n1 = ["east"%string; "west"%string].
Proof.
  assert (H1 : exists n1, normalize east_first = Ok n1 /\ sp_ShardID <$> sm_Shards n1 = ["east"%string; "west"%string])
    by (eexists; split; vm_compute; reflexivity).
  destruct H1 as (n1 & H1 & Hids).
  destruct (nodes_route_alike east_first west_first n1) as (n2 & H2 & Hr);
    [unfold west_first; simpl; apply perm_swap|exact H1|].
  destruct (Hr "n1"%string "n2"%string "acme"%string "jobs"%string) as (spec & _ & T1 & T2 & _);
    [vm_compute; discriminate..|].
  exists n1, n2, spec. split_and!; assumption.
Defined.
