(* ===== verification/Shards.v ===== *)
(** * Sharded Postgres: the operations

    [src/pkg/store/postgressharded/store.go] over the interface of a shard:
    each operation picks one shard, by namespace and queue or by the agent's
    identifier, or asks all of them and merges the answers. *)

From S2P Require Import Prelude GoLib GoSort Agent Common Effects ShardMap.
From stdpp Require Import functions gmap strings list fin_maps sorting.
From Stdlib Require Import ZArith Lia.

Open Scope Z_scope.

(** ** The interface of a shard *)

Definition shard_op (W A : Type) : Type := W -> result gerror A * W.

(** What the sharded store calls of [*postgres.PostgresStore], over the state
    [W] of one.  The loops of [In], [Read] and [GetDAG] take their fuel as
    first argument. *)
Class ShardOps (W : Type) : Type := {
  so_Get : string -> shard_op W Agent;
  so_Out : Agent -> shard_op W Agent;
  so_Take : option Query -> shard_op W (option Agent);
  so_BatchTake : option Query -> Z -> shard_op W (list Agent);
  so_In : nat -> option Query -> Z -> shard_op W (option Agent);
  so_Read : nat -> option Query -> Z -> shard_op W (option Agent);
  so_Query : option Query -> shard_op W (list Agent);
  so_Count : option Query -> shard_op W Z;
  so_CountByStatus : option Query -> shard_op W (gmap string Z);
  so_Update : string -> option (gmap string any) -> shard_op W unit;
  so_CompleteAndGet : string -> string -> string -> option (gmap string any) -> shard_op W Agent;
  so_CompleteAndOut : string -> string -> string -> option (gmap string any) -> list Agent ->
                      shard_op W (Agent * list Agent);
  so_ReleaseAndGet : string -> string -> string -> string -> shard_op W Agent;
  so_RenewLease : string -> string -> string -> Z -> shard_op W Agent;
  so_GetEvents : string -> shard_op W (list Event);
  so_GetGlobalEvents : Z -> Z -> shard_op W (list Event);
  so_QueryEvents : option EventQuery -> shard_op W EventPage;
  so_GetDAG : nat -> string -> shard_op W (option DAG);
}.

(** ** State and effects *)

(** The shards' states, the cache [idToShard], and the clock readings so
    far. *)
Record SW (W : Type) : Type := MkSW {
  sw_shard : string -> W;
  sw_ids : gmap string string;
  sw_clock : nat;
}.
Arguments MkSW {W}.
Arguments sw_shard {W}.
Arguments sw_ids {W}.
Arguments sw_clock {W}.

Definition SM (W A : Type) : Type := SW W -> result serror A * SW W.

#[export] Instance SM_ret W : MRet (SM W) := fun A a w => (Ok a, w).
#[export] Instance SM_bind W : MBind (SM W) := fun A B f m w =>
  match m w with
  | (Ok a, w') => f a w'
  | (Err e, w') => (Err e, w')
  end.

Definition sfail {W A} (e : serror) : SM W A := fun w => (Err e, w).

Definition sresult {W A} (r : result serror A) : SM W A := fun w => (r, w).

Definition stry {W A} (m : SM W A) : SM W (result serror A) := fun w => let '(r, w') := m w in (Ok r, w').

(** A call of a shard's method. *)
Definition on_shard {W A} (shard : ShardSpec) (op : shard_op W A) : SM W A := fun w =>
  let '(r, w') := op (sw_shard w (sp_ShardID shard)) in
  (match r with Ok a => Ok a | Err e => Err (SBackend e) end,
   MkSW (<[sp_ShardID shard := w']> (sw_shard w)) (sw_ids w) (sw_clock w)).

(** [idToShard.Store] and [idToShard.Load]. *)
Definition cache {W} (id shardID : string) : SM W unit := fun w =>
  (Ok tt, MkSW (sw_shard w) (<[id := shardID]> (sw_ids w)) (sw_clock w)).

Definition cached {W} (id : string) : SM W (option string) := fun w => (Ok (sw_ids w !! id), w).

(** The order of merged agents, and of merged events. *)
Definition created_before (a b : Agent) : bool :=
  if decide (a_CreatedAt a = a_CreatedAt b) then string_ltb (a_ID a) (a_ID b)
  else bool_decide (a_CreatedAt a < a_CreatedAt b).

Definition event_after (a b : Event) : bool :=
  if decide (e_Timestamp a = e_Timestamp b) then string_ltb (e_ID a) (e_ID b)
  else bool_decide (e_Timestamp b < e_Timestamp a).

Definition applyGlobalLimitOffset (values : list Agent) (limit offset : Z) : list Agent :=
  paginate limit offset values.

Section Operations.
Context {W : Type} {Ops : ShardOps W} (clock_at : nat -> Z) (s : ShardedStore).

Notation M := (SM W).

Definition snow : M Z := fun w => (Ok (clock_at (sw_clock w)), MkSW (sw_shard w) (sw_ids w) (S (sw_clock w))).

(** ** Finding the shard *)

Definition annotateAgent (t : Agent) (shardID : string) : M Agent :=
  _ ← cache (a_ID t) shardID; mret (set_ShardID shardID t).

Fixpoint annotateAgents (values : list Agent) (shardID : string) : M (list Agent) :=
  match values with
  | [] => mret []
  | t :: values => t ← annotateAgent t shardID; ts ← annotateAgents values shardID; mret (t :: ts)
  end.

Definition annotateOption (o : option Agent) (shardID : string) : M (option Agent) :=
  match o with
  | Some t => t ← annotateAgent t shardID; mret (Some t)
  | None => mret None
  end.

(** The first shard in the given order that has the agent. *)
Fixpoint search_shards (id : string) (shardIDs : list string) : M ShardSpec :=
  match shardIDs with
  | [] => sfail (SNotFound id)
  | shardID :: rest =>
      match byShardID s shardID with
      | None => search_shards id rest
      | Some shard =>
          r ← stry (on_shard shard (so_Get id));
          match r with
          | Ok t => _ ← annotateAgent t shardID; mret shard
          | Err _ => search_shards id rest
          end
      end
  end.

Definition shardByTupleID (hint id : string) : M ShardSpec :=
  match shardFromHint s hint with
  | Some r => sresult r
  | None =>
      known ← cached id;
      match known ≫= byShardID s with
      | Some shard =>
          r ← stry (on_shard shard (so_Get id));
          match r with
          | Ok t => _ ← annotateAgent t (sp_ShardID shard); mret shard
          | Err _ => search_shards id (orderedShardIDs s)
          end
      | None => search_shards id (orderedShardIDs s)
      end
  end.

(** ** One shard *)

Definition getWithContext (hint id : string) : M Agent :=
  shard ← shardByTupleID hint id;
  t ← on_shard shard (so_Get id);
  annotateAgent t (sp_ShardID shard).

Definition Out (t : Agent) : M Agent :=
  shard ← sresult (shardFromAgent s t);
  let t := set_Metadata (Some (default ∅ (a_Metadata t))) t in
  t ← on_shard shard (so_Out (set_ShardID (sp_ShardID shard) t));
  _ ← cache (a_ID t) (sp_ShardID shard);
  mret t.

(** A query that must name its namespace and queue. *)
Definition routed (op : string) (query : option Query) : M ShardSpec :=
  match shardFromQuery s query with
  | Some r => sresult r
  | None => sfail (SRequiresRouting op)
  end.

Definition Take (query : option Query) : M (option Agent) :=
  shard ← routed "take" query;
  t ← on_shard shard (so_Take query);
  annotateOption t (sp_ShardID shard).

Definition BatchTake (query : option Query) (limit : Z) : M (list Agent) :=
  shard ← routed "batch-take" query;
  ts ← on_shard shard (so_BatchTake query limit);
  annotateAgents ts (sp_ShardID shard).

Definition In_ (fuel : nat) (query : option Query) (timeout : Z) : M (option Agent) :=
  shard ← routed "in" query;
  t ← on_shard shard (so_In fuel query timeout);
  annotateOption t (sp_ShardID shard).

Definition updateWithContext (hint id : string) (updates : option (gmap string any)) : M unit :=
  shard ← shardByTupleID hint id;
  on_shard shard (so_Update id updates).

(** The updates that [Update] refuses: a [map[string]string] of metadata that
    names a queue. *)
Definition moves_queue (updates : option (gmap string any)) : bool :=
  match updates ≫= lookup "metadata"%string with
  | Some (VStrMap metadata) => bool_decide (Strings.TrimSpace (mget metadata QueueMetadataKey) <> "")%string
  | _ => false
  end.

Definition Update (id : string) (updates : option (gmap string any)) : M unit :=
  if moves_queue updates then sfail SCannotMove else updateWithContext "" id updates.

Definition UpdateAndGet (id : string) (updates : option (gmap string any)) : M Agent :=
  _ ← Update id updates; getWithContext "" id.

Definition completeAndGetWithContext (hint id agentID leaseToken : string) (result : option (gmap string any))
    : M Agent :=
  shard ← shardByTupleID hint id;
  t ← on_shard shard (so_CompleteAndGet id agentID leaseToken result);
  annotateAgent t (sp_ShardID shard).

(** Every output must live on the source's shard. *)
Fixpoint place_outputs (source : string) (outputs : list Agent) : result serror (list Agent) :=
  match outputs with
  | [] => Ok []
  | o :: outputs =>
      match shardFromAgent s o with
      | Err e => Err e
      | Ok shard =>
          if decide (sp_ShardID shard <> source) then Err (SCrossShard source (sp_ShardID shard))
          else match place_outputs source outputs with
               | Ok os => Ok (set_ShardID (sp_ShardID shard) o :: os)
               | Err e => Err e
               end
      end
  end.

Definition completeAndOutWithContext (hint id agentID leaseToken : string) (result : option (gmap string any))
    (outputs : list Agent) : M (Agent * list Agent) :=
  source ← getWithContext hint id;
  match byShardID s (a_ShardID source) with
  | None => sfail (SNotConfigured (a_ShardID source))
  | Some sourceShard =>
      outputs ← sresult (place_outputs (sp_ShardID sourceShard) outputs);
      x ← on_shard sourceShard (so_CompleteAndOut id agentID leaseToken result outputs);
      completed ← annotateAgent x.1 (sp_ShardID sourceShard);
      created ← annotateAgents x.2 (sp_ShardID sourceShard);
      mret (completed, created)
  end.

Definition releaseAndGetWithContext (hint id agentID leaseToken reason : string) : M Agent :=
  shard ← shardByTupleID hint id;
  t ← on_shard shard (so_ReleaseAndGet id agentID leaseToken reason);
  annotateAgent t (sp_ShardID shard).

Definition renewLeaseWithContext (hint id agentID leaseToken : string) (leaseDuration : Z) : M Agent :=
  shard ← shardByTupleID hint id;
  t ← on_shard shard (so_RenewLease id agentID leaseToken leaseDuration);
  annotateAgent t (sp_ShardID shard).

Definition getEventsWithContext (hint tupleID : string) : M (list Event) :=
  shard ← shardByTupleID hint tupleID;
  on_shard shard (so_GetEvents tupleID).

Definition getDAGWithContext (fuel : nat) (hint rootID : string) : M (option DAG) :=
  shard ← shardByTupleID hint rootID;
  on_shard shard (so_GetDAG fuel rootID).

(** ** All shards *)

(** [for _, shard := range s.shards]: the answers, one after the other, up to
    the first failure. *)
Fixpoint each_shard {A} (f : ShardSpec -> M A) (l : list ShardSpec) : M (list A) :=
  match l with
  | [] => mret []
  | shard :: l => a ← f shard; rest ← each_shard f l; mret (a :: rest)
  end.

Definition perShardQuery (query : option Query) : Query :=
  match query with
  | None => empty_query
  | Some q => MkQuery (q_Kind q) (q_Status q) (q_Tags q) (q_Owner q) (q_ParentID q) (q_TraceID q)
                (q_NamespaceID q) (q_AgentID q) (q_Metadata q) 0 0
  end.

Definition Query_ (query : option Query) : M (list Agent) :=
  match shardFromQuery s query with
  | Some r =>
      shard ← sresult r;
      results ← on_shard shard (so_Query query);
      annotateAgents results (sp_ShardID shard)
  | None =>
      all ← each_shard (fun shard =>
              results ← on_shard shard (so_Query (Some (perShardQuery query)));
              annotateAgents results (sp_ShardID shard)) (shards s);
      let all := SliceStable created_before (concat all) in
      match query with
      | None => mret all
      | Some q => mret (applyGlobalLimitOffset all (q_Limit q) (q_Offset q))
      end
  end.

Fixpoint read_loop (fuel : nat) (query : option Query) (timeout deadline : Z) : M (option Agent) :=
  match fuel with
  | O => mret None
  | S fuel =>
      results ← Query_ query;
      match results with
      | t :: _ => mret (Some t)
      | [] =>
          if decide (timeout <= 0) then mret None
          else
            t ← snow;
            if decide (deadline < t) then mret None else read_loop fuel query timeout deadline
      end
  end.

Definition Read (fuel : nat) (query : option Query) (timeout : Z) : M (option Agent) :=
  match shardFromQuery s query with
  | Some r =>
      shard ← sresult r;
      t ← on_shard shard (so_Read fuel query timeout);
      annotateOption t (sp_ShardID shard)
  | None =>
      t ← snow;
      read_loop fuel query timeout (Time.Add t timeout)
  end.

Definition Count (query : option Query) : M Z :=
  match shardFromQuery s query with
  | Some r => shard ← sresult r; on_shard shard (so_Count query)
  | None => counts ← each_shard (fun shard => on_shard shard (so_Count query)) (shards s);
            mret (foldl Z.add 0 counts)
  end.

(** [counts[status] += count] for every status of every shard. *)
Definition add_counts (a b : gmap string Z) : gmap string Z := union_with (fun x y => Some (x + y)) a b.

Definition CountByStatus (query : option Query) : M (gmap string Z) :=
  match shardFromQuery s query with
  | Some r => shard ← sresult r; on_shard shard (so_CountByStatus query)
  | None => counts ← each_shard (fun shard => on_shard shard (so_CountByStatus query)) (shards s);
            mret (foldl add_counts ∅ counts)
  end.

Definition GetGlobalEvents (limit offset : Z) : M (list Event) :=
  let fetch := int64 (limit + offset) in
  let fetch := if decide (fetch <= 0) then 100 else fetch in
  all ← each_shard (fun shard => on_shard shard (so_GetGlobalEvents fetch 0)) (shards s);
  mret (paginate limit offset (SliceStable event_after (concat all))).

Definition queryEventsWithContext (hint : string) (query : option EventQuery) : M EventPage :=
  let fan_out :=
    pages ← each_shard (fun shard => on_shard shard (so_QueryEvents query)) (shards s);
    let total := foldl Z.add 0 (ep_Total <$> pages) in
    let all := SliceStable event_after (concat (ep_Events <$> pages)) in
    let '(limit, offset) := match query with Some q => (eq_Limit q, eq_Offset q) | None => (0, 0) end in
    mret (MkEventPage (paginate limit offset all) total "") in
  match query with
  | Some q =>
      if decide (eq_TupleID q <> "")%string then
        shard ← shardByTupleID hint (eq_TupleID q);
        on_shard shard (so_QueryEvents query)
      else fan_out
  | None => fan_out
  end.

End Operations.
