(* ===== verification/ShardsContract.v ===== *)
(** * Sharded Postgres keeps the contract

    What one shard promises, as an interface: each call moves the shard by
    contract steps, beside whatever else happens on it, and its answer tells
    which steps they were.  From that alone: the requests served by the sharded
    store are such steps, each on the shard routing names. *)

From S2P Require Import Prelude GoLib GoSort Agent Common Effects Lease SharedLease ShardMap Shards.
From stdpp Require Import functions gmap strings list fin_maps sorting.
From Stdlib Require Import ZArith Lia.

Open Scope Z_scope.

(** ** The interface *)

(** The labels an answer tells; a failure tells of none. *)
Definition tells_of {E A} (L : A -> list label -> Prop) (r : result E A) (own : list label) : Prop :=
  match r with Ok a => L a own | Err _ => own = [] end.

(** A call that started in a ready state ends in one, and moved the shard by
    the steps its answer tells. *)
Definition keeps {W A} (ready : W -> Prop) (moves : list label -> W -> W -> Prop) (op : shard_op W A)
    (L : A -> list label -> Prop) : Prop :=
  forall w r w', ready w -> op w = (r, w') -> ready w' /\ exists own, tells_of L r own /\ moves own w w'.

Definition reads {A} : A -> list label -> Prop := fun _ own => own = [].

Definition claim_of (t : Agent) : label := LClaim (a_ID t) (a_Owner t) (a_LeaseToken t).

(** Updates that leave status, owner and token alone. *)
Definition plain_updates (updates : gmap string any) : Prop :=
  updates !! "status"%string = None /\ updates !! "owner"%string = None /\ updates !! "lease_token"%string = None.

(** An output a completion may create. *)
Definition new_output (o : Agent) : Prop :=
  (a_Status o = "" \/ a_Status o = StatusNew)%string /\ a_Owner o = ""%string /\ a_LeaseToken o = ""%string.

Definition completion (id who tok : string) (own : list label) : Prop :=
  own = [LComplete id who tok] \/ own = [LReplay id tok].

Definition completion_out (id who tok : string) (x : Agent * list Agent) (own : list label) : Prop :=
  own = LComplete id who tok :: ((fun o => LCreate (a_ID o) who) <$> x.2)
  \/ (own = [LReplay id tok] /\ x.2 = []).

(** [sc_moves own w w']: the shard went from [w] to [w'] by the steps [own] of
    this node and by what happened beside them. *)
Class ShardContract (W : Type) {Ops : ShardOps W} : Type := {
  sc_ready : W -> Prop;
  sc_moves : list label -> W -> W -> Prop;
  sc_moves_none w : sc_moves [] w w;
  sc_moves_app own1 own2 w1 w2 w3 :
    sc_moves own1 w1 w2 -> sc_moves own2 w2 w3 -> sc_moves (own1 ++ own2) w1 w3;
  sc_Get id : keeps sc_ready sc_moves (so_Get id) reads;
  sc_Query q : keeps sc_ready sc_moves (so_Query q) reads;
  sc_Out t : fresh_agent t ->
    keeps sc_ready sc_moves (so_Out t) (fun t' own => exists by_, own = [LCreate (a_ID t') by_]);
  sc_Take q : keeps sc_ready sc_moves (so_Take (Some q)) (fun o own => own = claim_of <$> option_list o);
  sc_BatchTake q n : keeps sc_ready sc_moves (so_BatchTake (Some q) n) (fun ts own => own = claim_of <$> ts);
  sc_Update id updates : plain_updates updates ->
    keeps sc_ready sc_moves (so_Update id (Some updates))
      (fun _ own => own = [LUpdate id (GetStringFromMap updates "agent_id")]);
  sc_CompleteAndGet id who tok res :
    keeps sc_ready sc_moves (so_CompleteAndGet id who tok res) (fun _ => completion id who tok);
  sc_CompleteAndOut id who tok res outs : Forall new_output outs ->
    keeps sc_ready sc_moves (so_CompleteAndOut id who tok res outs) (completion_out id who tok);
  sc_ReleaseAndGet id who tok reason :
    keeps sc_ready sc_moves (so_ReleaseAndGet id who tok reason) (fun _ own => own = [LRelease id who tok]);
  sc_RenewLease id who tok dur :
    keeps sc_ready sc_moves (so_RenewLease id who tok dur) (fun _ own => own = [LRenew id who tok]);
}.

(** ** Steps of the sharded store *)

(** Labels with the shard they happened on. *)
Definition on (sid : string) (own : list (string * label)) : list label :=
  (filter (fun p => p.1 = sid) own).*2.

Lemma on_app sid l k : on sid (l ++ k) = on sid l ++ on sid k.
Proof. unfold on. by rewrite filter_app, fmap_app. Qed.

Lemma on_here sid ls : on sid ((sid,.) <$> ls) = ls.
Proof.
  unfold on. induction ls as [|l ls IH]; [done|]. rewrite fmap_cons, filter_cons_True by done. by rewrite fmap_cons, IH.
Qed.

Lemma on_elsewhere sid sid' ls : sid <> sid' -> on sid ((sid',.) <$> ls) = [].
Proof.
  intros Hne. unfold on. induction ls as [|l ls IH]; [done|]. rewrite fmap_cons, filter_cons_False by (simpl; congruence). done.
Qed.

Section Logic.
Context {W : Type} {Ops : ShardOps W} {SC : ShardContract W}.

Definition all_ready (w : SW W) : Prop := forall sid, sc_ready (sw_shard w sid).

Definition all_go (own : list (string * label)) (w w' : SW W) : Prop :=
  forall sid, sc_moves (on sid own) (sw_shard w sid) (sw_shard w' sid).

Lemma all_go_refl w w' : sw_shard w' = sw_shard w -> all_go [] w w'.
Proof. intros H sid. rewrite H. apply sc_moves_none. Qed.

Lemma all_go_trans own1 own2 w1 w2 w3 :
  all_go own1 w1 w2 -> all_go own2 w2 w3 -> all_go (own1 ++ own2) w1 w3.
Proof. intros H1 H2 sid. rewrite on_app. by eapply sc_moves_app. Qed.

(** [serves m L]: from ready shards, [m] takes the steps its answer tells. *)
Definition sharded_tells {A} (L : A -> list (string * label) -> Prop) (r : result serror A)
    (own : list (string * label)) : Prop :=
  match r with Ok a => L a own | Err _ => own = [] end.

Definition acts {A} (m : SM W A) (L : A -> list (string * label) -> Prop) : Prop :=
  forall w r w', all_ready w -> m w = (r, w') ->
    all_ready w' /\ exists own, sharded_tells L r own /\ all_go own w w'.

Definition idle {A} (P : A -> Prop) : A -> list (string * label) -> Prop := fun a own => own = [] /\ P a.

Lemma acts_ret {A} (a : A) L : L a [] -> acts (mret a) L.
Proof. intros H w r w' Hr [= <- <-]. split; [done|]. exists []. split; [done|]. by apply all_go_refl. Qed.

Lemma acts_fail {A} e (L : A -> _ -> Prop) : acts (sfail e) L.
Proof. intros w r w' Hr [= <- <-]. split; [done|]. exists []. split; [done|]. by apply all_go_refl. Qed.

Lemma acts_result {A} (x : result serror A) : acts (sresult x) (idle (fun a => x = Ok a)).
Proof.
  intros w r w' Hr [= <- <-]. split; [done|]. exists []. split; [by destruct x|]. by apply all_go_refl.
Qed.

Lemma acts_mono {A} (m : SM W A) (L L' : A -> _ -> Prop) :
  acts m L -> (forall a own, L a own -> L' a own) -> acts m L'.
Proof.
  intros Hm HL w r w' Hr Hrun. destruct (Hm _ _ _ Hr Hrun) as (Hr' & own & Hown & Hgo).
  split; [done|]. exists own. split; [|done]. destruct r; simpl in *; auto.
Qed.

(** First steps that are not the caller's own. *)
Lemma acts_idle_bind {A B} (m : SM W A) (f : A -> SM W B) P L :
  acts m (idle P) -> (forall a, P a -> acts (f a) L) -> acts (m ≫= f) L.
Proof.
  intros Hm Hf w r w' Hr Hrun. unfold mbind, SM_bind in Hrun. destruct (m w) as [[a|e] w1] eqn:Hmw.
  - destruct (Hm _ _ _ Hr Hmw) as (Hr1 & own & [-> HP] & H1).
    destruct (Hf a HP _ _ _ Hr1 Hrun) as (Hr2 & own2 & Hown & H2). split; [done|]. exists own2. split; [done|].
    by apply (all_go_trans [] own2 w w1 w').
  - destruct (Hm _ _ _ Hr Hmw) as (Hr1 & own & -> & H1). simplify_eq. split; [done|]. by exists [].
Qed.

(** After the steps, bookkeeping that cannot fail. *)
Definition quiet {A} (m : SM W A) (P : A -> Prop) : Prop :=
  forall w, exists a w', m w = (Ok a, w') /\ P a /\ sw_shard w' = sw_shard w.

Lemma acts_bind_quiet {A B} (m : SM W A) (f : A -> SM W B) (R : A -> B -> Prop) L L' :
  acts m L -> (forall a, quiet (f a) (R a)) -> (forall a b own, L a own -> R a b -> L' b own) -> acts (m ≫= f) L'.
Proof.
  intros Hm Hf HL w r w' Hr Hrun. unfold mbind, SM_bind in Hrun. destruct (m w) as [[a|e] w1] eqn:Hmw.
  - destruct (Hm _ _ _ Hr Hmw) as (Hr1 & own & Hown & H1). destruct (Hf a w1) as (b & w2 & Hfw & HR & Heq).
    rewrite Hrun in Hfw. simplify_eq. split; [intros sid; rewrite Heq; apply Hr1|]. exists own. split; [by eapply HL|].
    intros sid. rewrite Heq. apply H1.
  - destruct (Hm _ _ _ Hr Hmw) as (Hr1 & own & -> & H1). simplify_eq. split; [done|]. by exists [].
Qed.

(** A call of one shard. *)
Lemma acts_on_shard {A} shard (op : shard_op W A) (L : A -> list label -> Prop) :
  keeps sc_ready sc_moves op L ->
  acts (on_shard shard op) (fun a own => exists ls, L a ls /\ own = (sp_ShardID shard,.) <$> ls).
Proof.
  intros Hop w r w' Hr Hrun. unfold on_shard in Hrun. set (sid := sp_ShardID shard) in *.
  destruct (op (sw_shard w sid)) as [x w1] eqn:Hx. injection Hrun as <- <-.
  destruct (Hop _ _ _ (Hr sid) Hx) as (Hr1 & own & Hown & Hgo). split.
  - intros sid'. simpl. destruct (decide (sid' = sid)) as [->|Hne]; [by rewrite fn_lookup_insert|].
    by rewrite fn_lookup_insert_ne.
  - exists ((sid,.) <$> own). split.
    + destruct x; simpl in *; [by exists own|by subst].
    + intros sid'. simpl. destruct (decide (sid' = sid)) as [->|Hne].
      * by rewrite fn_lookup_insert, on_here.
      * rewrite fn_lookup_insert_ne, on_elsewhere by done. apply sc_moves_none.
Qed.

Lemma acts_read {A} shard (op : shard_op W A) :
  keeps sc_ready sc_moves op reads -> acts (on_shard shard op) (idle (fun _ => True)).
Proof. intros H. eapply acts_mono; [by apply acts_on_shard|]. intros a own (ls & -> & ->). done. Qed.

Lemma acts_try {A} (m : SM W A) P : acts m (idle P) -> acts (stry m) (idle (fun _ => True)).
Proof.
  intros Hm w r w' Hr Hrun. unfold stry in Hrun. destruct (m w) as [x w1] eqn:Hmw. injection Hrun as <- <-.
  destruct (Hm _ _ _ Hr Hmw) as (Hr1 & own & Hown & Hgo). split; [done|]. exists []. split; [done|].
  destruct x; simpl in Hown; [by destruct Hown as [-> _]|by subst].
Qed.

Lemma quiet_annotate t sid : quiet (annotateAgent t sid) (fun t' => t' = set_ShardID sid t).
Proof. intros w. by eexists _, _. Qed.

Lemma quiet_annotate_all ts sid : quiet (annotateAgents ts sid) (fun ts' => ts' = set_ShardID sid <$> ts).
Proof.
  induction ts as [|t ts IH]; intros w; [by eexists _, _|]. cbn [annotateAgents].
  destruct (quiet_annotate t sid w) as (t' & w1 & H1 & -> & E1). destruct (IH w1) as (ts' & w2 & H2 & -> & E2).
  eexists _, w2. unfold mbind, SM_bind. rewrite H1, H2. split_and!; [done|done|congruence].
Qed.

Lemma quiet_annotate_option o sid : quiet (annotateOption o sid) (fun o' => o' = set_ShardID sid <$> o).
Proof. destruct o; intros w; by eexists _, _. Qed.

Lemma quiet_acts {A} (m : SM W A) P : quiet m P -> acts m (idle P).
Proof.
  intros Hm w r w' Hr Hrun. destruct (Hm w) as (a & w1 & H1 & HP & Heq). rewrite Hrun in H1. simplify_eq.
  split; [intros sid; rewrite Heq; apply Hr|]. exists []. split; [done|]. by apply all_go_refl.
Qed.

End Logic.

(** ** Requests *)

Inductive srequest : Type :=
| SROut (t : Agent)
| SRTake (q : Query)
| SRBatch (q : Query) (limit : Z)
| SRUpdate (hint id : string) (updates : gmap string any)
| SRComplete (hint id who tok : string) (res : option (gmap string any))
| SRCompleteAndOut (hint id who tok : string) (res : option (gmap string any)) (outs : list Agent)
| SRRelease (hint id who tok reason : string)
| SRRenew (hint id who tok : string) (dur : Z)
| SRGet (hint id : string)
| SRQuery (q : option Query).

Inductive sanswer : Type :=
| SACreated (t : Agent)
| SAClaimed (ts : list Agent)
| SADone
| SACompleted (t : Agent) (outs : list Agent)
| SAAgent (t : Agent)
| SAFound (ts : list Agent).

Definition sproper (rq : srequest) : Prop :=
  match rq with
  | SROut t => fresh_agent t
  | SRUpdate _ _ updates => plain_updates updates
  | SRCompleteAndOut _ _ _ _ _ outs => Forall new_output outs
  | _ => True
  end.

Section Requests.
Context {W : Type} {Ops : ShardOps W} (s : ShardedStore).

Definition sserve (rq : srequest) : SM W sanswer :=
  match rq with
  | SROut t => t ← Out s t; mret (SACreated t)
  | SRTake q => o ← Take s (Some q); mret (SAClaimed (option_list o))
  | SRBatch q limit => ts ← BatchTake s (Some q) limit; mret (SAClaimed ts)
  | SRUpdate hint id updates => _ ← updateWithContext s hint id (Some updates); mret SADone
  | SRComplete hint id who tok res => t ← completeAndGetWithContext s hint id who tok res; mret (SAAgent t)
  | SRCompleteAndOut hint id who tok res outs =>
      x ← completeAndOutWithContext s hint id who tok res outs; mret (SACompleted x.1 x.2)
  | SRRelease hint id who tok reason => t ← releaseAndGetWithContext s hint id who tok reason; mret (SAAgent t)
  | SRRenew hint id who tok dur => t ← renewLeaseWithContext s hint id who tok dur; mret (SAAgent t)
  | SRGet hint id => t ← getWithContext s hint id; mret (SAAgent t)
  | SRQuery q => ts ← Query_ s q; mret (SAFound ts)
  end.

Fixpoint run_sharded (rqs : list srequest) (w : SW W) : list (result serror sanswer) * SW W :=
  match rqs with
  | [] => ([], w)
  | rq :: rqs =>
      let '(r, w1) := sserve rq w in
      let '(rs, w2) := run_sharded rqs w1 in
      (r :: rs, w2)
  end.

(** The steps an answer tells, with the shard they were taken on. *)
Definition stells (rq : srequest) (a : sanswer) (own : list (string * label)) : Prop :=
  match rq, a with
  | SROut t, SACreated t' =>
      exists shard by_, shardFromAgent s t = Ok shard /\ own = [(sp_ShardID shard, LCreate (a_ID t') by_)]
  | SRTake q, SAClaimed ts | SRBatch q _, SAClaimed ts =>
      exists shard, shardFromQuery s (Some q) = Some (Ok shard)
        /\ own = (fun t => (sp_ShardID shard, claim_of t)) <$> ts
  | SRUpdate _ id updates, SADone =>
      exists shard, shard ∈ shards s /\ own = [(sp_ShardID shard, LUpdate id (GetStringFromMap updates "agent_id"))]
  | SRComplete _ id who tok _, SAAgent _ =>
      exists shard ls, shard ∈ shards s /\ completion id who tok ls /\ own = (sp_ShardID shard,.) <$> ls
  | SRCompleteAndOut _ id who tok _ outs, SACompleted t created =>
      exists shard ls, shard ∈ shards s /\ completion_out id who tok (t, created) ls
        /\ own = (sp_ShardID shard,.) <$> ls
        /\ Forall (fun o => sp_ShardID <$> (match shardFromAgent s o with Ok sh => Some sh | Err _ => None end)
                            = Some (sp_ShardID shard)) outs
  | SRRelease _ id who tok _, SAAgent _ =>
      exists shard, shard ∈ shards s /\ own = [(sp_ShardID shard, LRelease id who tok)]
  | SRRenew _ id who tok _, SAAgent _ =>
      exists shard, shard ∈ shards s /\ own = [(sp_ShardID shard, LRenew id who tok)]
  | SRGet _ _, SAAgent _ | SRQuery _, SAFound _ => own = []
  | _, _ => False
  end.

Inductive stold : list srequest -> list (result serror sanswer) -> list (string * label) -> Prop :=
| stold_nil : stold [] [] []
| stold_cons rq rqs r rs own owns :
    sharded_tells (stells rq) r own -> stold rqs rs owns -> stold (rq :: rqs) (r :: rs) (own ++ owns).

End Requests.

Section Proofs.
Context {W : Type} {Ops : ShardOps W} {SC : ShardContract W} (s : ShardedStore).

Notation M := (SM W).

Lemma byShardID_elem sid shard : byShardID s sid = Some shard -> shard ∈ shards s /\ sp_ShardID shard = sid.
Proof. apply find_spec_elem. Qed.

Lemma hint_elem hint shard : shardFromHint s hint = Some (Ok shard) -> shard ∈ shards s.
Proof.
  unfold shardFromHint. case_decide; [done|]. destruct (byShardID s _) as [sh|] eqn:Hb.
  - intros [= <-]. by apply byShardID_elem in Hb as [? _].
  - by destruct (specByShardID s _).
Qed.

Lemma search_acts id sids : acts (search_shards (W := W) s id sids) (idle (fun shard => shard ∈ shards s)).
Proof.
  induction sids as [|sid sids IH]; cbn [search_shards]; [apply acts_fail|].
  destruct (byShardID s sid) as [shard|] eqn:Hb; [|done]. apply byShardID_elem in Hb as [Hin _].
  eapply acts_idle_bind; [eapply acts_try, acts_read, sc_Get|]. intros [t|e] _; [|exact IH].
  eapply acts_idle_bind; [apply quiet_acts, quiet_annotate|]. intros t' _. by apply acts_ret.
Qed.

Lemma shardByTupleID_acts hint id : acts (shardByTupleID (W := W) s hint id) (idle (fun shard => shard ∈ shards s)).
Proof.
  unfold shardByTupleID. destruct (shardFromHint s hint) as [r|] eqn:Hh.
  { eapply acts_mono; [apply acts_result|]. intros shard own [-> ->]. split; [done|]. by eapply hint_elem. }
  eapply acts_idle_bind; [apply (quiet_acts _ (fun _ => True)); intros w; by eexists _, _|]. intros known _.
  destruct (known ≫= byShardID s) as [shard|] eqn:Hk; [|apply search_acts].
  assert (Hin : shard ∈ shards s).
  { destruct known as [sid|]; [|done]. by apply byShardID_elem in Hk as [? _]. }
  eapply acts_idle_bind; [eapply acts_try, acts_read, sc_Get|]. intros [t|e] _; [|apply search_acts].
  eapply acts_idle_bind; [apply quiet_acts, quiet_annotate|]. intros t' _. by apply acts_ret.
Qed.

(** A call of the agent's shard whose answer is annotated. *)
Lemma on_its_shard_acts {A B} hint id (op : ShardSpec -> shard_op W A) (f : ShardSpec -> A -> M B)
    (R : ShardSpec -> A -> B -> Prop) (L : A -> list label -> Prop) (L' : B -> list (string * label) -> Prop) :
  (forall shard, keeps sc_ready sc_moves (op shard) L) ->
  (forall shard a, quiet (f shard a) (R shard a)) ->
  (forall shard a b ls, shard ∈ shards s -> L a ls -> R shard a b -> L' b ((sp_ShardID shard,.) <$> ls)) ->
  acts (shard ← shardByTupleID s hint id; a ← on_shard shard (op shard); f shard a) L'.
Proof.
  intros Hop Hf HL. eapply acts_idle_bind; [apply shardByTupleID_acts|]. intros shard Hin.
  eapply acts_bind_quiet; [by apply acts_on_shard|apply Hf|].
  intros a b own (ls & HLa & ->) HR. eauto.
Qed.

Lemma get_acts hint id : acts (getWithContext (W := W) s hint id) (idle (fun _ => True)).
Proof.
  eapply (on_its_shard_acts hint id (fun _ => so_Get id) _ (fun _ _ _ => True) reads); [intros; apply sc_Get| |].
  - intros shard t w. destruct (quiet_annotate t (sp_ShardID shard) w) as (t' & w' & H1 & _ & H2). by exists t', w'.
  - intros shard t t' ls _ -> _. done.
Qed.

Lemma place_outputs_same sid outs outs' :
  place_outputs s sid outs = Ok outs' ->
  Forall (fun o => sp_ShardID <$> (match shardFromAgent s o with Ok sh => Some sh | Err _ => None end) = Some sid) outs
  /\ (Forall new_output outs -> Forall new_output outs').
Proof.
  revert outs'. induction outs as [|o outs IH]; intros outs' H; simpl in H; [simplify_eq; by split|].
  destruct (shardFromAgent s o) as [shard|] eqn:Hs; [|done]. case_decide as Hd; [done|].
  destruct (place_outputs s sid outs) as [os|] eqn:Hp; [|done]. injection H as <-.
  destruct (IH os eq_refl) as [H1 H2]. split.
  - constructor; [rewrite Hs; simpl; by rewrite Hd|done].
  - intros HF. apply Forall_cons in HF as [Ho HF]. constructor; [by destruct o|by apply H2].
Qed.

Lemma quiet_mono {A} (m : M A) (P Q : A -> Prop) : quiet m P -> (forall a, P a -> Q a) -> quiet m Q.
Proof. intros Hm HPQ w. destruct (Hm w) as (a & w' & H1 & H2 & H3). exists a, w'. auto. Qed.

Lemma quiet_map {A B} (m : M A) (g : A -> B) P (Q : B -> Prop) :
  quiet m P -> (forall a, P a -> Q (g a)) -> quiet (a ← m; mret (g a)) Q.
Proof.
  intros Hm HPQ w. destruct (Hm w) as (a & w' & H1 & H2 & H3). exists (g a), w'.
  unfold mbind, SM_bind. rewrite H1. split_and!; [done|by apply HPQ|done].
Qed.

Lemma acts_map {A B} (m : M A) (g : A -> B) L (L' : B -> _ -> Prop) :
  acts m L -> (forall a own, L a own -> L' (g a) own) -> acts (a ← m; mret (g a)) L'.
Proof.
  intros Hm HL. eapply (acts_bind_quiet _ _ (fun a b => b = g a)); [exact Hm| |].
  - intros a w. by eexists _, w.
  - intros a b own HLa ->. by apply HL.
Qed.

Lemma claim_of_annotated sid t : claim_of (set_ShardID sid t) = claim_of t.
Proof. by destruct t. Qed.

Lemma claims_annotated sid (ts : list Agent) : claim_of <$> (set_ShardID sid <$> ts) = claim_of <$> ts.
Proof. rewrite <- list_fmap_compose. apply list_fmap_ext. intros i t _. apply claim_of_annotated. Qed.

Lemma tagged_claims (sid : string) (ts : list Agent) : (sid,.) <$> (claim_of <$> ts) = (fun t => (sid, claim_of t)) <$> ts.
Proof. by rewrite <- list_fmap_compose. Qed.

Lemma routed_acts op q :
  acts (routed (W := W) s op (Some q)) (idle (fun shard => shardFromQuery s (Some q) = Some (Ok shard))).
Proof.
  unfold routed. destruct (shardFromQuery s (Some q)) as [r|] eqn:Hs; [|apply acts_fail].
  eapply acts_mono; [apply acts_result|]. by intros shard own [-> ->].
Qed.

Lemma take_acts q : acts (Take (W := W) s (Some q)) (fun o => stells s (SRTake q) (SAClaimed (option_list o))).
Proof.
  unfold Take. eapply acts_idle_bind; [apply routed_acts|]. intros shard Hs.
  eapply acts_bind_quiet; [apply acts_on_shard, sc_Take|intros o; apply quiet_annotate_option|].
  intros o o' own (ls & -> & ->) ->. exists shard. split; [done|]. rewrite <- tagged_claims.
  destruct o as [t|]; [|done]. simpl. by rewrite claim_of_annotated.
Qed.

Lemma batch_acts q n : acts (BatchTake (W := W) s (Some q) n) (fun ts => stells s (SRBatch q n) (SAClaimed ts)).
Proof.
  unfold BatchTake. eapply acts_idle_bind; [apply routed_acts|]. intros shard Hs.
  eapply acts_bind_quiet; [apply acts_on_shard, sc_BatchTake|intros ts; apply quiet_annotate_all|].
  intros ts ts' own (ls & -> & ->) ->. exists shard. split; [done|].
  by rewrite <- tagged_claims, claims_annotated.
Qed.

Lemma out_acts t : fresh_agent t -> acts (Out (W := W) s t) (fun t' => stells s (SROut t) (SACreated t')).
Proof.
  intros Hf. unfold Out. eapply acts_idle_bind; [apply acts_result|]. intros shard Hs.
  eapply (acts_bind_quiet _ _ (fun t' t2 => t2 = t')).
  - apply acts_on_shard, sc_Out. by destruct t.
  - intros t' w. by eexists _, _.
  - intros t' t2 own (ls & (by_ & ->) & ->) ->. by exists shard, by_.
Qed.

Lemma query_acts q : acts (Query_ (W := W) s q) (idle (fun _ => True)).
Proof.
  unfold Query_.
  assert (Hone : forall shard q, acts (results ← on_shard shard (so_Query (W := W) q); annotateAgents results (sp_ShardID shard))
                                   (idle (fun _ => True))).
  { intros shard q'. eapply acts_idle_bind; [apply acts_read, sc_Query|]. intros ts _.
    apply quiet_acts. eapply quiet_mono; [apply quiet_annotate_all|done]. }
  destruct (shardFromQuery s q) as [r|].
  - eapply acts_idle_bind; [apply acts_result|]. intros shard _. apply Hone.
  - eapply (acts_idle_bind _ _ (fun _ => True)); [|intros all _; destruct q; by apply acts_ret].
    induction (shards s) as [|shard l IH]; cbn [each_shard]; [by apply acts_ret|].
    eapply acts_idle_bind; [apply Hone|]. intros ts _. eapply acts_idle_bind; [exact IH|].
    intros rest _. by apply acts_ret.
Qed.

Lemma completeAndOut_acts hint id who tok res outs :
  Forall new_output outs ->
  acts (completeAndOutWithContext (W := W) s hint id who tok res outs)
    (fun x => stells s (SRCompleteAndOut hint id who tok res outs) (SACompleted x.1 x.2)).
Proof.
  intros Ho. unfold completeAndOutWithContext. eapply acts_idle_bind; [apply get_acts|]. intros source _.
  destruct (byShardID s (a_ShardID source)) as [shard|] eqn:Hb; [|apply acts_fail].
  apply byShardID_elem in Hb as [Hin _]. eapply acts_idle_bind; [apply acts_result|]. intros outs' Hp.
  destruct (place_outputs_same _ _ _ Hp) as [Hsame Hnew].
  eapply (acts_bind_quiet _ _ (fun x y => y = (set_ShardID (sp_ShardID shard) x.1, set_ShardID (sp_ShardID shard) <$> x.2))).
  - apply acts_on_shard, sc_CompleteAndOut. by apply Hnew.
  - intros [t created] w. destruct (quiet_annotate t (sp_ShardID shard) w) as (t' & w1 & H1 & -> & E1).
    destruct (quiet_annotate_all created (sp_ShardID shard) w1) as (ts' & w2 & H2 & -> & E2).
    eexists _, w2. unfold mbind, SM_bind. cbn [fst snd]. rewrite H1, H2. split_and!; [done|done|congruence].
  - intros [t created] y own (ls & Hls & ->) ->. exists shard, ls. split_and!; [done| |done|done].
    unfold completion_out in *. cbn [fst snd] in *. rewrite <- list_fmap_compose.
    destruct Hls as [->|[-> ->]]; [left|right; done]. f_equal. apply list_fmap_ext. by intros i [].
Qed.

Lemma sserve_acts rq : sproper rq -> acts (sserve (W := W) s rq) (stells s rq).
Proof.
  destruct rq as [t|q|q n|hint id ups|hint id who tok res|hint id who tok res outs|hint id who tok reason
    |hint id who tok dur|hint id|q]; cbn [sproper sserve]; intros Hp.
  - eapply acts_map; [by apply out_acts|done].
  - eapply acts_map; [apply take_acts|done].
  - eapply acts_map; [apply batch_acts|done].
  - apply (acts_map _ (fun _ => SADone) (fun _ => stells s (SRUpdate hint id ups) SADone)); [|done].
    eapply acts_idle_bind; [apply shardByTupleID_acts|]. intros shard Hin.
    eapply acts_mono; [by apply acts_on_shard, sc_Update|]. intros [] own (ls & -> & ->). by exists shard.
  - apply (acts_map _ SAAgent (fun t => stells s (SRComplete hint id who tok res) (SAAgent t))); [|done]. eapply on_its_shard_acts.
    + intros shard. apply sc_CompleteAndGet.
    + intros shard t. apply quiet_annotate.
    + intros shard t t' ls Hin Hls _. by exists shard, ls.
  - eapply acts_map; [by apply completeAndOut_acts|done].
  - apply (acts_map _ SAAgent (fun t => stells s (SRRelease hint id who tok reason) (SAAgent t))); [|done]. eapply on_its_shard_acts.
    + intros shard. apply sc_ReleaseAndGet.
    + intros shard t. apply quiet_annotate.
    + intros shard t t' ls Hin -> _. by exists shard.
  - apply (acts_map _ SAAgent (fun t => stells s (SRRenew hint id who tok dur) (SAAgent t))); [|done]. eapply on_its_shard_acts.
    + intros shard. apply sc_RenewLease.
    + intros shard t. apply quiet_annotate.
    + intros shard t t' ls Hin -> _. by exists shard.
  - eapply acts_map; [apply get_acts|]. by intros t own [-> _].
  - eapply acts_map; [apply query_acts|]. by intros t own [-> _].
Qed.

Lemma run_sharded_acts rqs w rs w' :
  Forall sproper rqs -> all_ready w -> run_sharded s rqs w = (rs, w') ->
  exists own, stold s rqs rs own /\ all_go own w w'.
Proof.
  intros Hp. revert w rs w'. induction Hp as [|rq rqs Hrq Hrqs IH]; intros w rs w' Hr Hrun; simpl in Hrun.
  - simplify_eq. exists []. split; [constructor|by apply all_go_refl].
  - destruct (sserve s rq w) as [r w1] eqn:Hs. destruct (run_sharded s rqs w1) as [rs2 w2] eqn:Hrest. simplify_eq.
    destruct (sserve_acts rq Hrq _ _ _ Hr Hs) as (Hr1 & own & Hown & H1).
    destruct (IH _ _ _ Hr1 Hrest) as (owns & Htold & H2). exists (own ++ owns).
    split; [by constructor|by eapply all_go_trans].
Qed.

End Proofs.
