(* ===== verification/ShardsPg.v ===== *)
(** * Postgres shards

    The Postgres store is a shard: an instance of the operations the sharded
    store calls and of the contract it relies on.  Theorems about the sharded
    store as a whole, and runs of it over Postgres shards to evaluate. *)

From S2P Require Import Prelude GoLib GoSort Agent Common Effects Sql Lease SharedLease Scenario ShardMap Shards ShardsContract PgRows PgEffects PgQuery PgEngine PgLifecycle PgLogic PgAlone PgScenario PgStatements PgRefine.
From stdpp Require Import functions gmap strings list fin_maps sorting.
From Stdlib Require Import ZArith Lia.

Open Scope Z_scope.

(** ** Instances *)

(** One shard: its configuration, the environment it runs in, its state. *)
Record PgShard : Type := MkPgShard {
  ps_env : PgEnv;
  ps_store : PgStore;
  ps_world : PW;
}.

Section Instances.
Context `{Srt : SqlOrder} `{Srv : PgServer}.

Definition run_on {A} (m : forall (E : PgEnv) (s : PgStore), PM A) : shard_op PgShard A := fun sh =>
  let '(r, w) := m (ps_env sh) (ps_store sh) (ps_world sh) in
  (r, MkPgShard (ps_env sh) (ps_store sh) w).

#[export] Instance PgShardOps : ShardOps PgShard := {|
  so_Get id := run_on (fun E _ => get id);
  so_Out t := run_on (fun E s => out s t);
  so_Take q := run_on (fun E s => take_ s q);
  so_BatchTake q n := run_on (fun E s => batchTake s q n);
  so_In fuel q timeout := run_on (fun E s => in_ s fuel q timeout);
  so_Read fuel q timeout := run_on (fun E _ => read fuel q timeout);
  so_Query q := run_on (fun E _ => query q);
  so_Count q := run_on (fun E _ => count q);
  so_CountByStatus q := run_on (fun E _ => countByStatus q);
  so_Update id updates := run_on (fun E s => update s id updates);
  so_CompleteAndGet id who tok res := run_on (fun E s => completeAndGet s id who tok res);
  so_CompleteAndOut id who tok res outs := run_on (fun E s => completeAndOut s id who tok res outs);
  so_ReleaseAndGet id who tok reason := run_on (fun E s => releaseAndGet s id who tok reason);
  so_RenewLease id who tok dur := run_on (fun E s => renewLease s id who tok dur);
  so_GetEvents id := run_on (fun E _ => getEvents id);
  so_GetGlobalEvents limit offset := run_on (fun E _ => getGlobalEvents limit offset);
  so_QueryEvents q := run_on (fun E _ => queryEvents q);
  so_GetDAG fuel id := run_on (fun E _ => getDAG fuel id);
|}.

(** Between requests no transaction is open. *)
Definition pg_ready (sh : PgShard) : Prop := pw_tx (ps_world sh) = None.

(** A Postgres shard moves as its tables do. *)
Definition pg_moves (own : list label) (sh sh' : PgShard) : Prop :=
  ps_env sh' = ps_env sh /\ ps_store sh' = ps_store sh
  /\ moves (E := ps_env sh) own (place_of (ps_world sh)) (place_of (ps_world sh')).

Lemma pg_moves_app own1 own2 sh1 sh2 sh3 :
  pg_moves own1 sh1 sh2 -> pg_moves own2 sh2 sh3 -> pg_moves (own1 ++ own2) sh1 sh3.
Proof.
  intros (E1 & S1 & M1) (E2 & S2 & M2). split_and!; [congruence..|]. rewrite E1 in M2. by eapply moves_app.
Qed.

Lemma serves_keeps {A} (m : forall (E : PgEnv) (s : PgStore), PM A) (L : A -> list label -> Prop) :
  (forall (E : PgEnv) (s : PgStore), serves (m E s) L) -> keeps pg_ready pg_moves (run_on m) L.
Proof.
  intros Hm sh r sh' Htx Hrun. unfold run_on in Hrun.
  destruct (m _ _ _) as [r1 w1] eqn:Hw. injection Hrun as <- <-.
  assert (H0 : holds (E := ps_env sh) (place_of (ps_world sh)) (Idle []) (ps_world sh)) by (split; [done|constructor]).
  pose proof (Hm _ (ps_store sh) _ _ H0) as Hone. unfold pwp in Hone. rewrite Hw in Hone.
  destruct Hone as (own & Hown & Htx1 & Hev). split; [done|]. exists own. split; [by destruct r1|done].
Qed.

Lemma get_reads (E : PgEnv) id : serves (get id) reads.
Proof.
  intros d0 w H. eapply get_serves_at; [exact H| |]; intros; eexists; (split; [|eassumption]); done.
Qed.

Lemma query_reads (E : PgEnv) q : serves (query q) reads.
Proof.
  intros d0 w H. unfold query. apply pwp_bind. eapply pwp_pool_read; [exact H| |].
  { intros e wx Hx. by exists []. }
  clear w H. intros now w rows H _. cbn beta iota. destruct (scan_agents rows) as [found [e|]].
  - apply pwp_fail. by exists [].
  - apply pwp_bind. eapply pwp_rows_Err; [exact H| |]; intros; [by exists []|].
    apply pwp_ret. by exists [].
Qed.

Lemma update_keeps (E : PgEnv) s id updates :
  plain_updates updates ->
  serves (update s id (Some updates)) (fun _ own => own = [LUpdate id (GetStringFromMap updates "agent_id")]).
Proof.
  intros (H1 & H2 & H3) d0 w H. unfold update. apply pwp_bind.
  eapply pwp_mono; [by apply (update_serves s id updates H1 H2 H3)|].
  intros [t|e] w' (own & Hown & H'); cbn beta iota; [apply pwp_ret|]; by exists own.
Qed.

#[export] Instance PgShardContract : ShardContract PgShard.
Proof.
  refine {| sc_ready := pg_ready; sc_moves := pg_moves; sc_moves_app := pg_moves_app |}.
  - intros sh. split_and!; [done|done|constructor].
  - intros id. apply serves_keeps. intros E s. by apply get_reads.
  - intros q. apply serves_keeps. intros E s. by apply query_reads.
  - intros t Hf. apply serves_keeps. intros E s. by apply out_serves.
  - intros q. apply (serves_keeps (fun E s => take_ s (Some q))). intros E s d0 w H.
    eapply pwp_mono; [by apply take_serves|]. intros [[t|]|e] w' (own & Hown & H'); exists own; by split.
  - intros q n. apply serves_keeps. intros E s. apply batchTake_serves.
  - intros id updates Hp. apply serves_keeps. intros E s. by apply update_keeps.
  - intros id who tok res. apply serves_keeps. intros E s. apply complete_serves.
  - intros id who tok res outs Ho. apply serves_keeps. intros E s. by apply completeAndOut_serves.
  - intros id who tok reason. apply serves_keeps. intros E s. apply release_serves.
  - intros id who tok dur. apply serves_keeps. intros E s. apply renew_serves.
Defined.

End Instances.

(** ** The theorems *)

(** C21: the sharded store keeps the contract, on the shard routing names.
    For requests that create agents NEW and unowned and update no lease field,
    whatever the other sessions make of each shard's tables and whichever
    calls fail: the answers of a run of requests tell a list of steps, each
    with its shard (a failed request tells of none), and every shard's tables
    moved by exactly the other sessions' changes of that shard and commits of
    this node's steps on it, in their order; on a shard without such steps
    only the others changed agents, and an agent the others leave alone goes
    along the contract by this node's steps alone.  An agent is created on the
    shard of its namespace and queue, takes claim on the shard of the query's,
    a completion and its outputs are all on one shard. *)
Theorem sharded_keeps_contract `{Srt : SqlOrder} `{Srv : PgServer} s rqs (w : SW PgShard) rs w' :
  Forall sproper rqs -> (forall sid, pw_tx (ps_world (sw_shard w sid)) = None) ->
  run_sharded s rqs w = (rs, w') ->
  exists own, stold s rqs rs own
    /\ forall sid, let here := sw_shard w sid in let there := sw_shard w' sid in
         ps_env there = ps_env here /\ ps_store there = ps_store here
         /\ moves (E := ps_env here) (on sid own) (place_of (ps_world here)) (place_of (ps_world there))
         /\ forall id, (forall n d, pg_agents (others_at (PgEnv := ps_env here) n d) !! id = pg_agents d !! id) ->
              cell_steps id (cell_at (pw_db (ps_world here)) id) (about id (on sid own))
                (cell_at (pw_db (ps_world there)) id).
Proof.
  intros Hp Hr Hrun. destruct (run_sharded_acts (SC := PgShardContract) s rqs w rs w' Hp Hr Hrun) as (own & Htold & Hgo).
  exists own. split; [done|]. intros sid. destruct (Hgo sid) as (H1 & H2 & H3). split_and!; [done..|].
  intros id Hid. exact (moves_undisturbed (E := ps_env (sw_shard w sid)) _ _ _ id H3 Hid).
Qed.

#[local] Existing Instance MergeSqlOrder.

(** ** A node with two shards *)

Definition two_shards : ShardMap := MkShardMap 1 0
  [MkShardSpec "east" "postgres://u@h/d" [] "" ""; MkShardSpec "west" "postgres://u@h/e" [] "" ""].

Definition node : ShardedStore := MkShardedStore "n1" two_shards.

Definition fresh_shard (sid : string) : PgShard :=
  MkPgShard pg_alone (MkPgStore sid false false QueueClaimModeParallel (5 * Time.Minute) false 100 64 32)
    (pg_start fresh_pg).

Definition sharded_start : SW PgShard := MkSW fresh_shard ∅ 0.

Definition job (id ns queue : string) : Agent :=
  set_NamespaceID ns (offer id "job" [] {["queue" := queue]}).

Definition ask_queue (ns queue who : string) : Query :=
  MkQuery "job" "" [] "" "" "" ns who (Some {["queue" := queue]}) 0 0.

Definition sharded_requests : list srequest :=
  [ SROut (job "a" "acme" "jobs"); SROut (job "b" "acme" "mail");
    SRTake (ask_queue "acme" "jobs" "alice");
    SRComplete "" "a" "alice" "u1" None;
    SRCompleteAndOut "" "b" "alice" "u1" None [job "c" "acme" "jobs"];
    SRQuery None ].

Lemma sharded_proper : Forall sproper sharded_requests.
Proof.
  repeat apply List.Forall_cons; try apply List.Forall_nil; try done.
  split_and!; [by right|done|done].
Qed.

Lemma sharded_keeps_contract_witness :
  let run := run_sharded node sharded_requests sharded_start in
  (exists own, stold node sharded_requests run.1 own
     /\ forall sid, moves (E := pg_alone) (on sid own) (0%nat, fresh_pg) (place_of (ps_world (sw_shard run.2 sid)))
          /\ forall id, cell_steps id None (about id (on sid own)) (cell_at (pw_db (ps_world (sw_shard run.2 sid))) id))
  /\ (sp_ShardID <$> omap (fun q => match shardForNamespaceQueue node "acme" q with Ok sh => Some sh | Err _ => None end)
                       ["jobs"; "mail"]%string) = ["west"; "east"]%string
  /\ run.1 !! 4%nat = Some (Err (SCrossShard "east" "west")).
Proof.
  intros run. split; [|split; vm_compute; reflexivity].
  destruct (sharded_keeps_contract node sharded_requests sharded_start run.1 run.2 sharded_proper
              (fun _ => eq_refl) (surjective_pairing _)) as (own & H1 & H2).
  exists own. split; [exact H1|]. intros sid. destruct (H2 sid) as (_ & _ & H3 & H4).
  split; [exact H3|]. intros id. exact (H4 id (fun _ _ => eq_refl)).
Defined.
