(* ===== verification/ShardsReads.v ===== *)
(** * Sharded Postgres: merged answers

    Queries and event listings that ask every shard, for shards that run by
    themselves: the merged answer is the answer of one store that holds the
    rows of all of them. *)

From S2P Require Import Prelude GoLib GoSort Agent Common Effects Sql Lease SharedLease Scenario ShardMap Shards ShardsContract PgRows PgEffects PgQuery PgEngine PgLifecycle PgLogic PgAlone PgScenario PgStatements PgRefine ShardsPg.
From stdpp Require Import functions gmap strings list fin_maps sorting.
From Stdlib Require Import ZArith Lia.

Open Scope Z_scope.

(** ** Asking every shard *)

(** If each call answers [g] of its shard, in whatever state the others are,
    the loop collects these answers. *)
Lemma each_shard_collects {W A} (f : ShardSpec -> SM W A) (ok : W -> Prop) (g : ShardSpec -> W -> A) l :
  NoDup (sp_ShardID <$> l) ->
  (forall shard w, ok (sw_shard w (sp_ShardID shard)) ->
     exists w', f shard w = (Ok (g shard (sw_shard w (sp_ShardID shard))), w')
       /\ forall sid, sid <> sp_ShardID shard -> sw_shard w' sid = sw_shard w sid) ->
  forall w, (forall shard, shard ∈ l -> ok (sw_shard w (sp_ShardID shard))) ->
  exists w', each_shard f l w = (Ok ((fun shard => g shard (sw_shard w (sp_ShardID shard))) <$> l), w').
Proof.
  intros Hnd Hf. induction l as [|shard l IH]; intros w Hok; [by eexists|]. cbn [each_shard].
  rewrite fmap_cons, NoDup_cons in Hnd. destruct Hnd as [Hn Hnd].
  destruct (Hf shard w (Hok shard (list_elem_of_here _ _))) as (w1 & H1 & Hsame).
  assert (Hkeep : forall sh, sh ∈ l -> sw_shard w1 (sp_ShardID sh) = sw_shard w (sp_ShardID sh)).
  { intros sh Hin. apply Hsame. intros Heq. apply Hn. rewrite <- Heq. by apply list_elem_of_fmap_2. }
  destruct (IH Hnd w1) as (w2 & H2).
  { intros sh Hin. rewrite Hkeep by done. apply Hok. by right. }
  exists w2. unfold mbind, SM_bind. rewrite H1, H2. unfold mret, SM_ret. rewrite fmap_cons. do 3 f_equal.
  apply list_fmap_ext. intros i sh Hi. by rewrite Hkeep by (by eapply list_elem_of_lookup_2).
Qed.

Lemma concat_fmap_bind {A B} (f : A -> list B) l : concat (f <$> l) = l ≫= f.
Proof. induction l as [|x l IH]; [done|]. rewrite fmap_cons, bind_cons. simpl. by rewrite IH. Qed.

Lemma shards_NoDup s : normal (ss_map s) -> NoDup (sp_ShardID <$> shards s).
Proof.
  intros (_ & _ & Hnd). eapply sublist_NoDup; [exact Hnd|]. apply fmap_sublist, sublist_filter.
Qed.

(** ** Queries *)

Definition scanned (p : string * PgRow) : option Agent :=
  match scanAgent p with Ok t => Some t | Err _ => None end.

Lemma scan_agents_all rows :
  Forall (fun p => is_Some (scanned p)) rows -> scan_agents rows = (omap scanned rows, None).
Proof.
  induction 1 as [|p rows [t Ht] _ IH]; [done|].
  assert (Hs : scanAgent p = Ok t) by (unfold scanned in Ht; destruct (scanAgent p); by simplify_eq).
  cbn [scan_agents]. rewrite Hs, IH. simpl. by rewrite Ht.
Qed.

Section Queries.
Context `{Srt : SqlOrder} `{Srv : PgServer}.

(** A shard by itself whose rows all decode. *)
Definition calm (sh : PgShard) : Prop :=
  alone (ps_env sh) /\ forall id row, pg_agents (pw_db (ps_world sh)) !! id = Some row -> is_Some (scanned (id, row)).

Definition shard_now (sh : PgShard) : Z := server_now_at (PgEnv := ps_env sh) (pw_call (ps_world sh)).

(** The live agents of a shard that match the query, as the sharded store
    shows them. *)
Definition shard_matches (q : Query) (shard : ShardSpec) (sh : PgShard) : list Agent :=
  set_ShardID (sp_ShardID shard)
  <$> omap scanned (by_creation (rows_where (shard_now sh) (buildWhereClauses (Some q) false)
                                   (pg_agents (pw_db (ps_world sh))))).

Lemma matches_elem q shard sh t :
  t ∈ shard_matches q shard sh <->
  exists id row t0, pg_agents (pw_db (ps_world sh)) !! id = Some row
    /\ psat_all (shard_now sh) (buildWhereClauses (Some q) false) row = true
    /\ scanAgent (id, row) = Ok t0 /\ t = set_ShardID (sp_ShardID shard) t0.
Proof.
  unfold shard_matches. rewrite list_elem_of_fmap. setoid_rewrite list_elem_of_omap. split.
  - intros (t0 & -> & [id row] & Hin & Hs). rewrite elem_of_by_creation in Hin. apply list_elem_of_filter in Hin as [Hp Hin].
    exists id, row, t0. unfold scanned in Hs. destruct (scanAgent (id, row)); simplify_eq.
    split_and!; [by apply elem_of_map_to_list|by apply Is_true_true|done|done].
  - intros (id & row & t0 & H1 & H2 & H3 & ->). exists t0. split; [done|]. exists (id, row).
    unfold scanned. rewrite H3, elem_of_by_creation. split; [|done]. apply list_elem_of_filter.
    split; [by apply Is_true_true|]. by apply elem_of_map_to_list.
Qed.

Lemma pwp_answer {A} (m : PM A) x w : pwp m (fun r _ => r = x) w -> exists w', m w = (x, w').
Proof. unfold pwp. destruct (m w) as [r w']. intros ->. by eexists. Qed.

Lemma query_alone (E : PgEnv) (HA : alone E) q w :
  q_Limit q = 0 -> q_Offset q = 0 ->
  (forall id row, pg_agents (pw_db w) !! id = Some row -> is_Some (scanned (id, row))) ->
  pwp (query (Some q))
    (fun r _ => r = Ok (omap scanned (by_creation (rows_where (server_now_at (pw_call w))
                                        (buildWhereClauses (Some q) false) (pg_agents (pw_db w)))))) w.
Proof.
  intros Hl Ho Hdec. unfold query. a_run HA. unfold pg_select. cbn [mbind option_bind]. rewrite Hl, Ho.
  unfold sql_window, pos_opt. rewrite decide_False by lia.
  rewrite scan_agents_all; [a_run HA; done|]. apply Forall_forall. intros [id row] Hin.
  rewrite elem_of_by_creation in Hin. apply list_elem_of_filter in Hin as [_ Hin]. by apply Hdec, elem_of_map_to_list.
Qed.

Lemma per_shard_query q shard (w : SW PgShard) :
  q_Limit q = 0 -> q_Offset q = 0 -> calm (sw_shard w (sp_ShardID shard)) ->
  exists w', (results ← on_shard shard (so_Query (Some q)); annotateAgents results (sp_ShardID shard)) w
    = (Ok (shard_matches q shard (sw_shard w (sp_ShardID shard))), w')
    /\ forall sid, sid <> sp_ShardID shard -> sw_shard w' sid = sw_shard w sid.
Proof.
  intros Hl Ho [HA Hdec]. destruct (pwp_answer _ _ _ (query_alone _ HA q _ Hl Ho Hdec)) as (w1 & H1).
  unfold mbind, SM_bind, on_shard. cbn [so_Query PgShardOps]. unfold run_on. rewrite H1.
  match goal with |- context [annotateAgents ?ts ?sid ?w2] =>
    destruct (quiet_annotate_all ts sid w2) as (ts' & w3 & H3 & -> & E3) end.
  rewrite H3. exists w3. split; [done|]. intros sid Hne. rewrite E3. simpl. by rewrite fn_lookup_insert_ne.
Qed.

(** The order of the merged agents. *)
Definition merged_le (a b : Agent) : Prop := not_after created_before a b.

Lemma merged_le_iff a b :
  merged_le a b <-> a_CreatedAt a < a_CreatedAt b \/ (a_CreatedAt a = a_CreatedAt b /\ string_leb (a_ID a) (a_ID b) = true).
Proof.
  unfold merged_le, not_after, created_before. case_decide as Hd.
  - pose proof (string_not_after (a_ID a) (a_ID b)) as Hs. unfold not_after in Hs. rewrite Hs. naive_solver lia.
  - rewrite bool_decide_eq_false. naive_solver lia.
Qed.

Lemma created_before_asym a b : created_before a b = true -> created_before b a = false.
Proof.
  unfold created_before. destruct (decide (a_CreatedAt a = a_CreatedAt b)) as [Hd|Hd].
  - rewrite decide_True by done. apply string_ltb_asym.
  - rewrite decide_False by congruence. rewrite bool_decide_eq_true, bool_decide_eq_false. lia.
Qed.

Lemma merged_le_trans a b c : merged_le a b -> merged_le b c -> merged_le a c.
Proof.
  rewrite !merged_le_iff. intros [H1|[H1 S1]] [H2|[H2 S2]]; [left; lia..|]. right.
  split; [lia|]. by eapply string_leb_trans.
Qed.

(** C22: a query over all shards is one query.  On a node whose shards run by
    themselves and whose rows decode, a query that does not name a namespace
    and queue answers the page asked for of one list: the matching live agents
    of all this node's shards, each once with the shard it lives on, by
    creation time and then identifier. *)
Theorem fan_out_query s q (w : SW PgShard) r w' :
  normal (ss_map s) -> (forall shard, shard ∈ shards s -> calm (sw_shard w (sp_ShardID shard))) ->
  shardFromQuery s (Some q) = None -> Query_ s (Some q) w = (r, w') ->
  exists merged, r = Ok (paginate (q_Limit q) (q_Offset q) merged)
    /\ StronglySorted merged_le merged
    /\ merged ≡ₚ (shards s ≫= fun shard => shard_matches (perShardQuery (Some q)) shard (sw_shard w (sp_ShardID shard)))
    /\ forall t, t ∈ merged <-> exists shard id row t0, shard ∈ shards s
         /\ pg_agents (pw_db (ps_world (sw_shard w (sp_ShardID shard)))) !! id = Some row
         /\ psat_all (shard_now (sw_shard w (sp_ShardID shard))) (buildWhereClauses (Some q) false) row = true
         /\ scanAgent (id, row) = Ok t0 /\ t = set_ShardID (sp_ShardID shard) t0.
Proof.
  intros Hn Hcalm Hroute Hrun. unfold Query_ in Hrun. rewrite Hroute in Hrun. set (pq := perShardQuery (Some q)) in *.
  destruct (each_shard_collects (fun shard => results ← on_shard shard (so_Query (Some pq));
              annotateAgents results (sp_ShardID shard)) calm (shard_matches pq) (shards s) (shards_NoDup s Hn)) with (w := w)
    as (w1 & H1); [intros; by apply per_shard_query|done|].
  unfold mbind, SM_bind in Hrun, H1. rewrite H1 in Hrun. injection Hrun as <- <-.
  set (all := concat _). exists (SliceStable created_before all).
  assert (Hall : all ≡ₚ (shards s ≫= fun shard => shard_matches pq shard (sw_shard w (sp_ShardID shard)))).
  { unfold all. rewrite concat_fmap_bind. done. }
  split_and!; [done| |by rewrite SliceStable_perm|].
  - apply SliceStable_sorted; [apply created_before_asym|apply merged_le_trans].
  - intros t. rewrite elem_of_SliceStable, Hall, list_elem_of_bind. setoid_rewrite matches_elem. naive_solver.
Qed.

End Queries.

(** ** The newest of many *)

Section TopK.
Context {A : Type} (key : A -> Z).

Definition newest_first (x y : A) : Prop := key y <= key x.

Lemma newest_split l x : x ∈ l -> StronglySorted newest_first l ->
  exists l1 l2, l = l1 ++ x :: l2 /\ Forall (fun y => key y <= key x) l2.
Proof.
  intros (l1 & l2 & ->)%list_elem_of_split Hs. exists l1, l2. split; [done|].
  apply StronglySorted_app_1_r in Hs. apply StronglySorted_inv in Hs as [_ HF]. exact HF.
Qed.

Lemma filter_every (P : A -> Prop) `{!forall x, Decision (P x)} l : Forall P l -> filter P l = l.
Proof. induction 1; [done|]. rewrite filter_cons_True by done. by f_equal. Qed.

(** In a sorted list, an element with [n] elements at least as new as [y] in
    front of or at its place is itself at least as new as [y]. *)
Lemma among_first n l x y :
  StronglySorted newest_first l -> x ∈ take n l -> (n <= length (filter (fun z => (key y <= key z)%Z) l))%nat ->
  key y <= key x.
Proof.
  intros Hs Hx Hn. destruct (decide (key y <= key x)) as [|Hlt]; [done|]. exfalso.
  rewrite <- (take_drop n l) in Hs, Hn. apply list_elem_of_split in Hx as (l1 & l2 & Hl). 
  assert (Hlen : (length l1 < n)%nat).
  { assert (length (take n l) = length (l1 ++ x :: l2)) as Hl2 by (by rewrite Hl).
    rewrite length_take, length_app in Hl2. simpl in Hl2. lia. }
  rewrite Hl in Hs, Hn. rewrite <- app_assoc in Hs, Hn. simpl in Hs, Hn.
  apply StronglySorted_app_1_r in Hs. apply StronglySorted_inv in Hs as [_ HF].
  rewrite filter_app, filter_cons_False in Hn by done.
  rewrite (filter_none (l2 ++ drop n l)) in Hn.
  - rewrite length_app in Hn. simpl in Hn. pose proof (length_filter (fun z => (key y <= key z)%Z) l1). lia.
  - rewrite Forall_forall in HF. intros z Hz%HF. unfold newest_first in Hz. lia.
Qed.

(** The [n] newest of many sorted lists are among the [n] first of each. *)
Lemma top_of_each n (ls : list (list A)) merged :
  Forall (StronglySorted newest_first) ls ->
  merged ≡ₚ concat (take n <$> ls) -> StronglySorted newest_first merged ->
  exists rest, take n merged ++ rest ≡ₚ concat ls /\ StronglySorted newest_first (take n merged ++ rest)
    /\ ((length merged < n)%nat -> rest = []).
Proof.
  intros HF Hp Hs. set (late := drop n merged ++ concat (drop n <$> ls)).
  assert (Hle : RelDecision newest_first) by (intros x y; unfold newest_first; apply _).
  assert (Htr : Transitive newest_first) by (intros x y z; unfold newest_first; lia).
  assert (Hto : Total newest_first) by (intros x y; unfold newest_first; lia).
  exists (merge_sort newest_first late). split_and!.
  - rewrite merge_sort_Permutation. unfold late. rewrite app_assoc, take_drop, Hp.
    clear. induction ls as [|l ls IH]; [done|]. simpl. rewrite <- IH. rewrite <- (take_drop n l) at 3.
    rewrite <- !app_assoc. apply Permutation_app_head. rewrite !app_assoc. apply Permutation_app_tail.
    apply Permutation_app_comm.
  - apply StronglySorted_app_2.
    + intros x y Hx Hy. rewrite merge_sort_Permutation in Hy. unfold late in Hy. apply elem_of_app in Hy as [Hy|Hy].
      * rewrite <- (take_drop n merged) in Hs. by eapply StronglySorted_app_1_elem_of.
      * apply list_elem_of_In, in_concat in Hy as (k & Hk & Hy). apply list_elem_of_In in Hk, Hy.
        apply list_elem_of_fmap in Hk as (l & -> & Hl). rewrite Forall_forall in HF. specialize (HF l Hl).
        apply (among_first n merged x y Hs Hx). rewrite Hp.
        apply list_elem_of_split in Hl as (ls1 & ls2 & ->). rewrite fmap_app, fmap_cons, concat_app. simpl.
        rewrite !filter_app, !length_app. rewrite (filter_every _ (take n l)).
        -- rewrite length_take. apply list_elem_of_lookup in Hy as [i Hy]. apply lookup_lt_Some in Hy.
           rewrite length_drop in Hy. lia.
        -- apply Forall_forall. intros z Hz. rewrite <- (take_drop n l) in HF.
           by apply (StronglySorted_app_1_elem_of _ _ _ _ _ HF).
    + rewrite <- (take_drop n merged) in Hs. by apply StronglySorted_app_1_l in Hs.
    + apply (StronglySorted_merge_sort _).
  - intros Hlen. unfold late. rewrite drop_ge by lia. simpl.
    assert (Hnil : concat (drop n <$> ls) = []); [|by rewrite Hnil].
    assert (Hall : Forall (fun l => (length l < n)%nat) ls).
    { apply Forall_forall. intros l Hl. apply list_elem_of_split in Hl as (ls1 & ls2 & ->).
      rewrite Hp in Hlen. rewrite fmap_app, fmap_cons, concat_app in Hlen. simpl in Hlen.
      rewrite !length_app, length_take in Hlen. lia. }
    clear -Hall. induction Hall; [done|]. simpl. rewrite drop_ge by lia. done.
Qed.
End TopK.

(** ** Events *)

Definition event_scanned (r : PgEventRow) : option Event :=
  match scanEvent r with Ok e => Some e | Err _ => None end.

Lemma event_after_asym a b : event_after a b = true -> event_after b a = false.
Proof.
  unfold event_after. destruct (decide (e_Timestamp a = e_Timestamp b)) as [Hd|Hd].
  - rewrite decide_True by done. apply string_ltb_asym.
  - rewrite decide_False by congruence. rewrite bool_decide_eq_true, bool_decide_eq_false. lia.
Qed.

Lemma event_order_iff a b :
  not_after event_after a b
  <-> e_Timestamp b < e_Timestamp a \/ (e_Timestamp a = e_Timestamp b /\ string_leb (e_ID a) (e_ID b) = true).
Proof.
  unfold not_after, event_after. case_decide as Hd.
  - pose proof (string_not_after (e_ID a) (e_ID b)) as Hs. unfold not_after in Hs. rewrite Hs. naive_solver lia.
  - rewrite bool_decide_eq_false. naive_solver lia.
Qed.

Lemma event_order_trans a b c :
  not_after event_after a b -> not_after event_after b c -> not_after event_after a c.
Proof.
  rewrite !event_order_iff. intros [H1|[H1 S1]] [H2|[H2 S2]]; [left; lia..|]. right.
  split; [lia|]. by eapply string_leb_trans.
Qed.

Lemma StronglySorted_weaken {A} (R R' : A -> A -> Prop) l :
  (forall x y, R x y -> R' x y) -> StronglySorted R l -> StronglySorted R' l.
Proof. intros HR. induction 1 as [|x l Hs IH HF]; constructor; [done|]. eapply Forall_impl; eauto. Qed.

Lemma sorted_events_newest l :
  StronglySorted (newest_first e_Timestamp) (SliceStable event_after l).
Proof.
  eapply StronglySorted_weaken; [|apply SliceStable_sorted; [apply event_after_asym|apply event_order_trans]].
  intros a b. rewrite event_order_iff. unfold newest_first. lia.
Qed.

(** The page of [limit] elements from [offset] on needs no more than the
    first [limit + offset]. *)
Lemma page_of_first {A} (limit offset : Z) (l rest : list A) :
  0 < limit -> 0 <= offset ->
  ((length l < Z.to_nat (limit + offset))%nat -> rest = []) ->
  paginate limit offset l = take (Z.to_nat limit) (drop (Z.to_nat offset) (take (Z.to_nat (limit + offset)) l ++ rest)).
Proof.
  intros Hl Ho Hrest. rewrite paginate_window. unfold sql_window.
  assert (pos_opt limit = Some limit) as -> by (unfold pos_opt; by rewrite decide_True).
  assert (Hd : match pos_opt offset with Some o => drop (Z.to_nat o) l | None => l end = drop (Z.to_nat offset) l).
  { unfold pos_opt. case_decide; [done|]. by replace offset with 0 by lia. }
  rewrite Hd. replace (Z.to_nat (limit + offset)) with (Z.to_nat offset + Z.to_nat limit)%nat in * by lia.
  destruct (decide (length l < Z.to_nat offset + Z.to_nat limit)%nat) as [Hlt|Hge].
  - rewrite (Hrest Hlt), app_nil_r, (take_ge l) by lia. done.
  - rewrite <- (take_drop (Z.to_nat offset + Z.to_nat limit) l) at 1.
    rewrite !drop_app, !take_app. rewrite !length_drop, !length_take.
    rewrite !(proj2 (Nat.sub_0_le _ _)) by lia. by rewrite !take_0, !app_nil_r.
Qed.

Section Events.
Context `{Srt : SqlOrder} `{Srv : PgServer}.

(** A shard by itself whose logged events all decode. *)
Definition calm_log (sh : PgShard) : Prop :=
  alone (ps_env sh) /\ Forall (fun r => is_Some (event_scanned r)) (pg_events (pw_db (ps_world sh))).

(** The log of a shard, newest first. *)
Definition shard_log (sh : PgShard) : list Event :=
  omap event_scanned (order_desc v_timestamp (pg_events (pw_db (ps_world sh)))).

Lemma shard_log_sorted sh : StronglySorted (newest_first e_Timestamp) (shard_log sh).
Proof.
  eapply StronglySorted_omap; [|apply (sql_sort_sorted (fun x => - v_timestamp x))].
  intros x y x' y' Hx Hy Hxy. unfold event_scanned, scanEvent in Hx, Hy.
  destruct (unmarshal_map (J (v_data x))), (unmarshal_map (J (v_data y))); simplify_eq.
  unfold newest_first, Pg.to_time. simpl. apply Z.mul_le_mono_nonneg_r; [done|]. cbn beta in Hxy. lia.
Qed.

Lemma shard_newest n shard (w : SW PgShard) :
  0 < n -> calm_log (sw_shard w (sp_ShardID shard)) ->
  exists w', on_shard shard (so_GetGlobalEvents n 0) w
    = (Ok (take (Z.to_nat n) (shard_log (sw_shard w (sp_ShardID shard)))), w')
    /\ forall sid, sid <> sp_ShardID shard -> sw_shard w' sid = sw_shard w sid.
Proof.
  intros Hn [HA Hdec]. set (sh := sw_shard w (sp_ShardID shard)) in *.
  assert (Hq : pwp (getGlobalEvents (E := ps_env sh) n 0)
                 (fun r _ => r = Ok (take (Z.to_nat n) (shard_log sh))) (ps_world sh)).
  { unfold getGlobalEvents. rewrite decide_False by lia. a_run HA. unfold pg_window. rewrite decide_False by lia.
    a_run HA. f_equal. unfold pscan_events, sql_window, shard_log. change (Z.to_nat 0) with 0%nat. rewrite drop_0.
    fold event_scanned. apply omap_take. unfold order_desc. by rewrite (sql_sort_perm (fun x => - v_timestamp x)). }
  destruct (pwp_answer _ _ _ Hq) as (w1 & H1). unfold on_shard. fold sh. cbn [so_GetGlobalEvents PgShardOps].
  unfold run_on. rewrite H1. eexists. split; [done|]. intros sid Hne. simpl. by rewrite fn_lookup_insert_ne.
Qed.

(** The newest events of all shards.  On a node whose shards run by
    themselves and whose events decode, listing [limit] events from [offset]
    on answers that page of one list: the events of all this node's shards,
    newest first.  Asking each shard for no more than [limit + offset] events
    loses nothing. *)
Theorem merged_global_events s limit offset (w : SW PgShard) r w' :
  normal (ss_map s) -> (forall shard, shard ∈ shards s -> calm_log (sw_shard w (sp_ShardID shard))) ->
  0 < limit -> 0 <= offset -> limit + offset <= max_int64 ->
  GetGlobalEvents s limit offset w = (r, w') ->
  exists merged, r = Ok (take (Z.to_nat limit) (drop (Z.to_nat offset) merged))
    /\ StronglySorted (newest_first e_Timestamp) merged
    /\ merged ≡ₚ (shards s ≫= fun shard => shard_log (sw_shard w (sp_ShardID shard))).
Proof.
  intros Hn Hcalm Hl Ho Hmax Hrun. unfold GetGlobalEvents in Hrun.
  rewrite int64_small in Hrun by (unfold in_int64, min_int64; lia). cbn zeta in Hrun. rewrite decide_False in Hrun by lia.
  set (n := limit + offset) in *.
  destruct (each_shard_collects (fun shard => on_shard shard (so_GetGlobalEvents n 0)) calm_log
              (fun _ sh => take (Z.to_nat n) (shard_log sh)) (shards s) (shards_NoDup s Hn)) with (w := w)
    as (w1 & H1); [intros; apply shard_newest; [lia|done]|done|].
  unfold mbind, SM_bind in Hrun. rewrite H1 in Hrun. injection Hrun as <- <-.
  set (logs := (fun shard => shard_log (sw_shard w (sp_ShardID shard))) <$> shards s).
  assert (Hlogs : (fun shard => take (Z.to_nat n) (shard_log (sw_shard w (sp_ShardID shard)))) <$> shards s
                  = take (Z.to_nat n) <$> logs) by (unfold logs; by rewrite <- list_fmap_compose).
  rewrite Hlogs. destruct (top_of_each e_Timestamp (Z.to_nat n) logs
    (SliceStable event_after (concat (take (Z.to_nat n) <$> logs)))) as (rest & Hp & Hs & Hnil).
  - unfold logs. apply Forall_fmap, Forall_forall. intros shard _. apply shard_log_sorted.
  - apply SliceStable_perm.
  - apply sorted_events_newest.
  - eexists. split_and!; [|exact Hs|].
    + f_equal. by apply page_of_first.
    + rewrite Hp. unfold logs. by rewrite concat_fmap_bind.
Qed.

End Events.

(** ** Runs to evaluate *)

#[local] Existing Instance MergeSqlOrder.

(** Three agents, on the two shards routing names. *)
Definition two_jobs : SW PgShard :=
  let w := (run_sharded node [SROut (job "a" "acme" "jobs"); SROut (job "b" "acme" "mail");
                              SROut (job "c" "acme" "jobs")] sharded_start).2 in
  MkSW (fun sid => MkPgShard pg_alone (ps_store (fresh_shard sid)) (ps_world (sw_shard w sid))) ∅ 0.

Definition all_decode (sh : PgShard) : bool :=
  forallb (fun p => bool_decide (is_Some (scanned p))) (map_to_list (pg_agents (pw_db (ps_world sh))))
  && forallb (fun r => bool_decide (is_Some (event_scanned r))) (pg_events (pw_db (ps_world sh))).

Lemma all_decode_calm sh : alone (ps_env sh) -> all_decode sh = true -> calm sh /\ calm_log sh.
Proof.
  intros HA H. apply andb_true_iff in H as [H1 H2]. rewrite forallb_forall in H1, H2. split; (split; [done|]).
  - intros id row Hr. apply (bool_decide_eq_true (is_Some (scanned (id, row)))), H1, list_elem_of_In.
    by apply elem_of_map_to_list.
  - apply Forall_forall. intros r Hr. apply (bool_decide_eq_true (is_Some (event_scanned r))), H2. by apply list_elem_of_In.
Qed.

Lemma two_jobs_calm shard :
  shard ∈ shards node -> calm (sw_shard two_jobs (sp_ShardID shard)) /\ calm_log (sw_shard two_jobs (sp_ShardID shard)).
Proof.
  intros Hin. apply all_decode_calm.
  - exact pg_alone_alone.
  - assert (Hdec : forallb (fun sh => all_decode (sw_shard two_jobs (sp_ShardID sh))) (shards node) = true)
      by (vm_compute; reflexivity).
    rewrite forallb_forall in Hdec. apply Hdec. by apply list_elem_of_In.
Qed.

Lemma node_normal : normal (ss_map node).
Proof.
  split_and!; [done|by repeat constructor|]. vm_compute. repeat constructor; set_solver.
Qed.

Definition all_jobs (limit offset : Z) : Query := MkQuery "job" "" [] "" "" "" "" "" None limit offset.

Lemma fan_out_query_witness :
  let run := Query_ node (Some (all_jobs 2 1)) two_jobs in
  (exists merged, run.1 = Ok (paginate 2 1 merged) /\ StronglySorted merged_le merged)
  /\ match run.1 with Ok ts => (fun t => (a_ID t, a_ShardID t)) <$> ts | Err _ => [] end
     = [("b", "east"); ("c", "west")]%string.
Proof.
  intros run. split; [|vm_compute; reflexivity].
  destruct (fan_out_query node (all_jobs 2 1) two_jobs run.1 run.2) as (merged & H1 & H2 & _).
  - exact node_normal.
  - intros shard Hin. exact (proj1 (two_jobs_calm shard Hin)).
  - vm_compute; reflexivity.
  - apply surjective_pairing.
  - exists merged. split; [exact H1|exact H2].
Defined.

Lemma merged_global_events_witness :
  let run := GetGlobalEvents node 1 1 two_jobs in
  (exists merged, run.1 = Ok (take 1 (drop 1 merged)) /\ StronglySorted (newest_first e_Timestamp) merged)
  /\ match run.1 with Ok es => length es | Err _ => 0%nat end = 1%nat.
Proof.
  intros run. split; [|vm_compute; reflexivity].
  destruct (merged_global_events node 1 1 two_jobs run.1 run.2) as (merged & H1 & H2 & _).
  - exact node_normal.
  - intros shard Hin. exact (proj2 (two_jobs_calm shard Hin)).
  - lia.
  - lia.
  - unfold max_int64. lia.
  - apply surjective_pairing.
  - exists merged. split; [exact H1|exact H2].
Defined.

(** The event query applies its offset on every shard and once more on the
    merged list: of the three events of this node, the page from the second
    event on holds none, though its total says three. *)
Example query_events_skips_twice :
  match (queryEventsWithContext node "" (Some (MkEventQuery "" "" "" "" 10 1 "")) two_jobs).1 with
  | Ok page => (length (ep_Events page), ep_Total page)
  | Err _ => (99%nat, 0)
  end = (0%nat, 3).
Proof. vm_compute. reflexivity. Qed.

(** Through a bound context an update can move an agent to a queue of another
    shard: [Update] refuses the change, [updateWithContext] makes it, and the
    agent, still on its old shard, is then found by no take. *)
Example bound_update_strands_agent :
  let move := Some {["metadata"%string := VStrMap {["queue"%string := "mail"%string]}]} in
  (Update node "a" move two_jobs).1 = Err SCannotMove
  /\ let w := (updateWithContext node "" "a" move two_jobs).2 in
     (updateWithContext node "" "a" move two_jobs).1 = Ok tt
     /\ match (BatchTake node (Some (ask_queue "acme" "mail" "alice")) 10 w).1 with
        | Ok ts => a_ID <$> ts | Err _ => [] end = ["b"%string]
     /\ match (BatchTake node (Some (ask_queue "acme" "jobs" "alice")) 10 w).1 with
        | Ok ts => a_ID <$> ts | Err _ => [] end = ["c"%string].
Proof. vm_compute. repeat split. Qed.
