(* ===== verification/ValkeyKeys.v ===== *)
(** * Valkey: the keys

    The names under which [src/pkg/store/valkey/store.go] keeps agents, hot
    states, index sets, ordered sets and streams, as the Go functions and the
    helpers of the Lua scripts both build them.  Every variable part is
    written with its length in front, so no two different things share a
    key. *)

From S2P Require Import Prelude GoLib GoSort Agent.
From stdpp Require Import gmap strings list fin_maps sets pretty.
From Stdlib Require Import ZArith Lia Ascii.

Open Scope string_scope.

Definition part (value : string) : string :=
  Strconv.FormatInt (Z.of_nat (String.length value)) +:+ ":" +:+ value.

Definition agentKey (id : string) : string := "agent:" +:+ part id.
Definition hotStateKey (id : string) : string := "agent_hot:" +:+ part id.
Definition reaperLeaderKey (shardID : string) : string := "reaper:leader:" +:+ part shardID.

(** The sets agents are indexed in. *)
Inductive index : Type :=
| IAll
| IStatus (status : string)
| IKind (kind : string)
| IOwner (owner : string)
| ITrace (trace : string)
| IParent (parent : string)
| INamespace (namespace : string)
| ITag (tag : string)
| IMeta (key value : string).

Definition allIndexKey : string := "index:all".
Definition statusIndexKey (status : string) : string := "index:status:" +:+ part status.
Definition kindIndexKey (kind : string) : string := "index:kind:" +:+ part kind.
Definition ownerIndexKey (owner : string) : string := "index:owner:" +:+ part owner.
Definition traceIndexKey (trace : string) : string := "index:trace:" +:+ part trace.
Definition parentIndexKey (parent : string) : string := "index:parent:" +:+ part parent.
Definition namespaceIndexKey (namespace : string) : string := "index:namespace:" +:+ part namespace.
Definition tagIndexKey (tag : string) : string := "index:tag:" +:+ part tag.
Definition metadataIndexKey (key value : string) : string := "index:meta:" +:+ part key +:+ ":" +:+ part value.

Definition index_key (ix : index) : string :=
  match ix with
  | IAll => allIndexKey
  | IStatus s => statusIndexKey s
  | IKind k => kindIndexKey k
  | IOwner o => ownerIndexKey o
  | ITrace t => traceIndexKey t
  | IParent p => parentIndexKey p
  | INamespace n => namespaceIndexKey n
  | ITag t => tagIndexKey t
  | IMeta k v => metadataIndexKey k v
  end.

(** The ordered sets: waiting agents of a queue, waiting agents without one,
    and leases. *)
Inductive zindex : Type :=
| ZQueue (namespaceID queue : string)
| ZOrder
| ZLease.

Definition queueIndexKey (namespaceID queue : string) : string :=
  "queue:" +:+ part namespaceID +:+ ":" +:+ part queue +:+ ":new".
Definition globalOrderKey : string := "order:new".
Definition globalLeaseKeyName : string := "lease:by_until".

Definition zindex_key (z : zindex) : string :=
  match z with
  | ZQueue ns q => queueIndexKey ns q
  | ZOrder => globalOrderKey
  | ZLease => globalLeaseKeyName
  end.

(** The event streams. *)
Inductive stream : Type :=
| SGlobal
| SAgent (id : string)
| STrace (traceID : string).

Definition globalEventsKey : string := "stream:events".
Definition agentEventsStreamKey (id : string) : string := "stream:events:agent:" +:+ part id.
Definition traceEventsStreamKey (traceID : string) : string := "stream:events:trace:" +:+ part traceID.

Definition stream_key (s : stream) : string :=
  match s with
  | SGlobal => globalEventsKey
  | SAgent id => agentEventsStreamKey id
  | STrace t => traceEventsStreamKey t
  end.

Create HintDb valkey_keys.
#[export] Hint Unfold agentKey hotStateKey reaperLeaderKey statusIndexKey kindIndexKey ownerIndexKey
  traceIndexKey parentIndexKey namespaceIndexKey tagIndexKey metadataIndexKey queueIndexKey
  agentEventsStreamKey traceEventsStreamKey : valkey_keys.

#[export] Instance index_eq_dec : EqDecision index.
Proof. solve_decision. Defined.
#[export] Instance zindex_eq_dec : EqDecision zindex.
Proof. solve_decision. Defined.
#[export] Instance stream_eq_dec : EqDecision stream.
Proof. solve_decision. Defined.

(** Everything a shard keeps under a name. *)
Inductive key : Type :=
| KAgent (id : string)
| KHot (id : string)
| KLeader (shardID : string)
| KSet (ix : index)
| KZset (z : zindex)
| KStream (s : stream).

Definition key_text (k : key) : string :=
  match k with
  | KAgent id => agentKey id
  | KHot id => hotStateKey id
  | KLeader s => reaperLeaderKey s
  | KSet ix => index_key ix
  | KZset z => zindex_key z
  | KStream s => stream_key s
  end.

(** ** No two keys are alike *)

Lemma pretty_go_no_colon (x : N) (t : string) :
  ":"%char ∉ bytes t -> ":"%char ∉ bytes (pretty_N_go x t).
Proof.
  revert t. induction (N.lt_wf_0 x) as [x _ IH]; intros t Ht.
  assert (x = 0 \/ 0 < x)%N as [->|Hx] by lia; [by rewrite pretty_N_go_0|].
  rewrite pretty_N_go_step by done. apply IH; [by apply N.div_lt|]. cbn [bytes].
  apply not_elem_of_cons. split; [|done]. unfold pretty_N_char.
  by repeat match goal with |- context [match ?x with _ => _ end] => destruct x end.
Qed.

Lemma length_no_colon (n : nat) : ":"%char ∉ bytes (Strconv.FormatInt (Z.of_nat n)).
Proof.
  unfold Strconv.FormatInt. destruct (Z.of_nat n) as [|p|p] eqn:Hn; [|change (pretty (Zpos p)) with (pretty (Npos p))|lia].
  - vm_compute. set_solver.
  - unfold pretty, pretty_N. rewrite decide_False by done. apply pretty_go_no_colon. cbn. set_solver.
Qed.

Lemma cut_at_colon (l1 l2 r1 r2 : list ascii) :
  ":"%char ∉ l1 -> ":"%char ∉ l2 -> (l1 ++ ":"%char :: r1 = l2 ++ ":"%char :: r2)%list -> l1 = l2 /\ r1 = r2.
Proof.
  revert l2. induction l1 as [|c l1 IH]; intros [|d l2] H1 H2; cbn.
  - by intros [= ->].
  - intros [= <- _]. set_solver.
  - intros [= -> _]. set_solver.
  - intros [= -> H]. apply not_elem_of_cons in H1 as [_ H1], H2 as [_ H2].
    by destruct (IH _ H1 H2 H) as [-> ->].
Qed.

Lemma bytes_length s : length (bytes s) = String.length s.
Proof. induction s; cbn; congruence. Qed.

Lemma bytes_inj s t : bytes s = bytes t -> s = t.
Proof. intros H. by rewrite <-(of_bytes_bytes s), H, of_bytes_bytes. Qed.

(** A part and what follows it come apart again. *)
Lemma part_app v w r r' : part v +:+ r = part w +:+ r' -> v = w /\ r = r'.
Proof.
  unfold part. intros H%(f_equal bytes). rewrite !bytes_app in H. rewrite <-!app_assoc in H.
  apply cut_at_colon in H as [Hl H]; [|apply length_no_colon..].
  apply bytes_inj, (inj pretty), Nat2Z.inj in Hl. cbn [bytes app] in H.
  assert (length (bytes v) = length (bytes w)) as Hlen by (by rewrite !bytes_length).
  apply app_inj_1 in H as [Hv Hr]; [|done]. split; by apply bytes_inj.
Qed.

Lemma part_inj v w : part v = part w -> v = w.
Proof. intros H. apply (part_app v w "" ""). by rewrite H. Qed.

Ltac same_part := repeat match goal with
  | H : part _ +:+ _ = part _ +:+ _ |- _ => apply part_app in H as [-> H]
  | H : part _ = part _ |- _ => apply part_inj in H as ->
  | H : ?s +:+ _ = ?s +:+ _ |- _ => apply (inj (String.append s)) in H
  end.

Lemma key_text_inj k k' : key_text k = key_text k' -> k = k'.
Proof.
  destruct k as [| | |[]|[]|[]], k' as [| | |[]|[]|[]]; intros H;
    unfold key_text, index_key, zindex_key, stream_key in H; try discriminate H; try reflexivity;
    repeat autounfold with valkey_keys in H; same_part; reflexivity.
Qed.

Lemma index_key_inj ix ix' : index_key ix = index_key ix' -> ix = ix'.
Proof. intros H. by injection (key_text_inj (KSet ix) (KSet ix') H). Qed.

Lemma zindex_key_inj z z' : zindex_key z = zindex_key z' -> z = z'.
Proof. intros H. by injection (key_text_inj (KZset z) (KZset z') H). Qed.

Lemma agentKey_inj id id' : agentKey id = agentKey id' -> id = id'.
Proof. intros H. by injection (key_text_inj (KAgent id) (KAgent id') H). Qed.

Lemma hotStateKey_inj id id' : hotStateKey id = hotStateKey id' -> id = id'.
Proof. intros H. by injection (key_text_inj (KHot id) (KHot id') H). Qed.

(** ** Valkey: what a shard keeps, and the commands on it

    Strings, sets, ordered sets and streams under their keys, and the
    commands of the server the store and its scripts use.  The values under
    agent keys are kept as the tables they decode to. *)

Close Scope string_scope.
Local Open Scope Z_scope.

(** [hotAgentState]. *)
Record hotAgentState : Type := MkHot {
  ht_ID : string;
  ht_Kind : string;
  ht_Status : string;
  ht_NamespaceID : string;
  ht_Queue : string;
  ht_Owner : string;
  ht_LeaseToken : string;
  ht_LeaseMS : Z;
  ht_LeaseUntilMS : Z;
  ht_Version : Z;
  ht_CreatedMS : Z;
  ht_QueueCreated : Z;
}.

(** An entry of a stream: the identifier the server gives it and its
    fields. *)
Record stream_entry : Type := MkStreamEntry {
  se_ID : string;
  se_TupleID : string;
  se_Type : string;
  se_Kind : string;
  se_Timestamp : Z;
  se_AgentID : string;
  se_TraceID : string;
  se_Version : Z;
  se_Data : gmap string any;
  se_NamespaceID : string;
}.

(** A shard.  [v_leaders] holds the reaper locks with the time they lapse,
    [v_seq] counts the entries added to streams. *)
Record Shard : Type := MkShard {
  v_agents : gmap string Agent;
  v_hot : gmap string hotAgentState;
  v_sets : gmap string (gset string);
  v_zsets : gmap string (gmap string Z);
  v_streams : gmap string (list stream_entry);
  v_leaders : gmap string (string * Z);
  v_seq : nat;
}.

Definition empty_shard : Shard := MkShard ∅ ∅ ∅ ∅ ∅ ∅ 0.

Definition set_sets (sets : gmap string (gset string)) (d : Shard) : Shard :=
  MkShard (v_agents d) (v_hot d) sets (v_zsets d) (v_streams d) (v_leaders d) (v_seq d).
Definition set_zsets (zsets : gmap string (gmap string Z)) (d : Shard) : Shard :=
  MkShard (v_agents d) (v_hot d) (v_sets d) zsets (v_streams d) (v_leaders d) (v_seq d).

(** ** Sets *)

Definition SMEMBERS (key : string) (d : Shard) : gset string := default ∅ (v_sets d !! key).
Definition SADD (key member : string) (d : Shard) : Shard :=
  set_sets (<[key := {[member]} ∪ SMEMBERS key d]> (v_sets d)) d.
Definition SREM (key member : string) (d : Shard) : Shard :=
  set_sets (<[key := SMEMBERS key d ∖ {[member]}]> (v_sets d)) d.

(** ** Ordered sets *)

Definition zset (key : string) (d : Shard) : gmap string Z := default ∅ (v_zsets d !! key).
Definition ZADD (key : string) (score : Z) (member : string) (d : Shard) : Shard :=
  set_zsets (<[key := <[member := score]> (zset key d)]> (v_zsets d)) d.
Definition ZREM (key member : string) (d : Shard) : Shard :=
  set_zsets (<[key := delete member (zset key d)]> (v_zsets d)) d.

(** Members by score, those of equal score by their bytes. *)
Definition zless (a b : string * Z) : bool :=
  (a.2 <? b.2) || ((a.2 =? b.2) && string_ltb a.1 b.1).

Definition by_score (z : gmap string Z) : list (string * Z) := SliceStable zless (map_to_list z).

(** [ZRANGE key 0 (n - 1)]. *)
Definition ZRANGE (key : string) (n : nat) (d : Shard) : list string := take n ((by_score (zset key d)).*1).

(** [ZRANGEBYSCORE key -inf max LIMIT 0 n]. *)
Definition ZRANGEBYSCORE (key : string) (max : Z) (n : nat) (d : Shard) : list string :=
  take n ((filter (fun a => a.2 <= max) (by_score (zset key d))).*1).

(** ** Streams *)

(** The identifiers the server gives to stream entries. *)
Class StreamIds : Type := stream_id : nat -> string.

Definition XADD `{StreamIds} (key : string) (fields : string -> stream_entry) (d : Shard) : Shard :=
  MkShard (v_agents d) (v_hot d) (v_sets d) (v_zsets d)
    (<[key := default [] (v_streams d !! key) ++ [fields (stream_id (v_seq d))]]> (v_streams d))
    (v_leaders d) (S (v_seq d)).

Definition XRANGE (key : string) (d : Shard) : list stream_entry := default [] (v_streams d !! key).

(** ** Agents and hot states *)

Definition get_agent (key : string) (d : Shard) : option Agent := v_agents d !! key.
Definition get_hot (key : string) (d : Shard) : option hotAgentState := v_hot d !! key.

Definition put_agent (key : string) (t : Agent) (d : Shard) : Shard :=
  MkShard (<[key := t]> (v_agents d)) (v_hot d) (v_sets d) (v_zsets d) (v_streams d) (v_leaders d) (v_seq d).
Definition put_hot (key : string) (h : hotAgentState) (d : Shard) : Shard :=
  MkShard (v_agents d) (<[key := h]> (v_hot d)) (v_sets d) (v_zsets d) (v_streams d) (v_leaders d) (v_seq d).
