(* ===== verification/ValkeyScripts.v ===== *)
(** * Valkey: the Lua scripts

    The scripts of [src/pkg/store/valkey/store.go] and their helpers.  A
    script runs on the server by itself, so it is a function of the shard; its
    arguments are the values the Go code writes as text.  Lua's numbers are
    whole numbers here. *)

From S2P Require Import Prelude GoLib GoSort Agent Common ValkeyKeys.
From stdpp Require Import gmap strings list fin_maps sets.
From Stdlib Require Import ZArith Lia.

Open Scope Z_scope.
Open Scope string_scope.

Definition internalCreatedMsKey : string := "__created_ms".
Definition internalLeaseUntilMsKey : string := "__lease_until_ms".

(** Lua's [tonumber]. *)
Class Lua : Type := tonumber : string -> option Z.

(** What a script answers with.  The lists are absent from most answers. *)
Record scriptResponse : Type := MkResponse {
  sr_Code : string;
  sr_Agent : option Agent;
  sr_Agents : option (list Agent);
  sr_Created : option (list Agent);
  sr_Count : Z;
}.

Definition code (c : string) : scriptResponse := MkResponse c None None None 0.
Definition code_agent (c : string) (t : Agent) : scriptResponse := MkResponse c (Some t) None None 0.

Definition agents_of (r : scriptResponse) : list Agent := default [] (sr_Agents r).
Definition created_of (r : scriptResponse) : list Agent := default [] (sr_Created r).

Section Scripts.
Context `{L : Lua} `{SI : StreamIds}.

(** ** Helpers *)

Definition normalize_agent (agent : Agent) : Agent :=
  set_Metadata (Some (default ∅ (a_Metadata agent))) (set_Payload (Some (default ∅ (a_Payload agent))) agent).

Definition metadata_value (agent : Agent) (key : string) : string := omget (a_Metadata agent) key.

Definition namespace_value (agent : Agent) : string :=
  if decide (a_NamespaceID agent = "") then metadata_value agent NamespaceMetadataKey else a_NamespaceID agent.

Definition queue_value (agent : Agent) : string := metadata_value agent QueueMetadataKey.

Definition number_or_zero (raw : string) : Z := if decide (raw = "") then 0 else default 0 (tonumber raw).

Definition created_score (agent : Agent) : Z := number_or_zero (metadata_value agent internalCreatedMsKey).

Definition queue_score (agent : Agent) : Z :=
  let raw := metadata_value agent QueueCreatedMsKey in
  if decide (raw = "") then created_score agent else default (created_score agent) (tonumber raw).

Definition lease_score (agent : Agent) : Z := number_or_zero (metadata_value agent internalLeaseUntilMsKey).

Definition positive_number (raw : string) : option Z :=
  if decide (raw = "") then None
  else match tonumber raw with Some n => if decide (0 < n) then Some n else None | None => None end.

Definition lease_duration_ms (agent : Agent) (default_ms : Z) : Z :=
  match positive_number (metadata_value agent "lease_ms") with
  | Some n => n
  | None => match positive_number (metadata_value agent "lease_sec") with
            | Some n => n * 1000
            | None => default_ms
            end
  end.

Definition hot_state (agent : Agent) (tuple_id : string) (default_lease_ms : Z) : hotAgentState :=
  MkHot tuple_id (a_Kind agent) (a_Status agent) (namespace_value agent) (queue_value agent) (a_Owner agent)
    (a_LeaseToken agent) (lease_duration_ms agent default_lease_ms) (lease_score agent) (a_Version agent)
    (created_score agent) (queue_score agent).

(** The sets an agent is a member of. *)
Definition unless_empty (v : string) (ix : index) : list index := if decide (v = "") then [] else [ix].

Definition set_indexes (agent : Agent) : list index :=
  ([IAll; IStatus (a_Status agent)]
   ++ unless_empty (a_Kind agent) (IKind (a_Kind agent))
   ++ unless_empty (a_Owner agent) (IOwner (a_Owner agent))
   ++ unless_empty (a_TraceID agent) (ITrace (a_TraceID agent))
   ++ unless_empty (a_ParentID agent) (IParent (a_ParentID agent))
   ++ unless_empty (namespace_value agent) (INamespace (namespace_value agent))
   ++ (ITag <$> a_Tags agent)
   ++ ((fun kv => IMeta kv.1 kv.2) <$> map_to_list (default ∅ (a_Metadata agent))))%list.

(** The ordered set it waits or is leased in. *)
Definition zindex_of (agent : Agent) : option zindex :=
  if decide (a_Status agent = StatusNew) then
    Some (if decide (queue_value agent = "") then ZOrder else ZQueue (namespace_value agent) (queue_value agent))
  else if decide (a_Status agent = StatusInProgress) then Some ZLease
  else None.

Definition zscore (agent : Agent) : Z :=
  if decide (a_Status agent = StatusNew) then
    if decide (queue_value agent = "") then created_score agent else queue_score agent
  else lease_score agent.

(** Its place there; a lease without an end is in none. *)
Definition zplace (agent : Agent) : option (zindex * Z) :=
  match zindex_of agent with
  | None => None
  | Some ZLease => if decide (0 < zscore agent) then Some (ZLease, zscore agent) else None
  | Some z => Some (z, zscore agent)
  end.

Definition remove_indexes (agent : Agent) (tuple_id : string) (d : Shard) : Shard :=
  let agent := normalize_agent agent in
  let d := foldl (fun d ix => SREM (index_key ix) tuple_id d) d (set_indexes agent) in
  match zindex_of agent with
  | Some z => ZREM (zindex_key z) tuple_id d
  | None => d
  end.

Definition add_indexes (agent : Agent) (tuple_id : string) (d : Shard) : Shard :=
  let agent := normalize_agent agent in
  let d := foldl (fun d ix => SADD (index_key ix) tuple_id d) d (set_indexes agent) in
  match zplace agent with
  | Some (z, score) => ZADD (zindex_key z) score tuple_id d
  | None => d
  end.

Definition append_event (tuple_id kind event_type : string) (timestamp : Z) (agent_id trace_id : string)
    (version : Z) (data : gmap string any) (namespace_id : string) (d : Shard) : Shard :=
  let fields sid := MkStreamEntry sid tuple_id event_type kind timestamp agent_id trace_id version data namespace_id in
  let d := XADD globalEventsKey fields d in
  let d := XADD (agentEventsStreamKey tuple_id) fields d in
  if decide (trace_id = "") then d else XADD (traceEventsStreamKey trace_id) fields d.

(** The event of a change of [agent], when events are written here. *)
Definition log_change (write_events : bool) (tuple_id event_type : string) (timestamp : Z) (agent_id : string)
    (data : gmap string any) (agent : Agent) (d : Shard) : Shard :=
  if write_events then
    append_event tuple_id (a_Kind agent) event_type timestamp agent_id (a_TraceID agent) (a_Version agent) data
      (namespace_value agent) d
  else d.

Definition load_agent (agent_key : string) (d : Shard) : option Agent := normalize_agent <$> get_agent agent_key d.

Definition load_hot (tuple_id : string) (d : Shard) : option hotAgentState := get_hot (hotStateKey tuple_id) d.

Definition persist_agent (agent_key : string) (agent : Agent) (tuple_id : string) (default_lease_ms : Z)
    (d : Shard) : Shard :=
  put_hot (hotStateKey tuple_id) (hot_state agent tuple_id default_lease_ms) (put_agent agent_key agent d).

(** The three steps every script changes an agent with. *)
Definition rewrite_agent (agent_key tuple_id : string) (old : option Agent) (new : Agent) (default_lease_ms : Z)
    (d : Shard) : Shard :=
  let d := match old with Some old => remove_indexes old tuple_id d | None => d end in
  add_indexes new tuple_id (persist_agent agent_key new tuple_id default_lease_ms d).

(** ** The agent's transitions *)

Definition script_metadata (f : gmap string string -> gmap string string) (t : Agent) : Agent :=
  set_Metadata (Some (f (default ∅ (a_Metadata t)))) t.

Definition next_version (t : Agent) : Agent := set_Version (a_Version t + 1) t.

Definition lua_claimed (t : Agent) (agent_id lease_token : string) (timestamp lease_until_ms lease_until : Z) : Agent :=
  let t := set_Status StatusInProgress t in
  let t := set_Owner agent_id t in
  let t := set_OwnerTime timestamp t in
  let t := set_UpdatedAt timestamp t in
  let t := set_LeaseToken lease_token t in
  let t := set_LeaseUntil lease_until t in
  let t := next_version t in
  script_metadata <[internalLeaseUntilMsKey := Strconv.FormatInt lease_until_ms]> t.

(** Owner and lease gone. *)
Definition lua_unowned (t : Agent) (status : string) (timestamp : Z) : Agent :=
  let t := set_Status status t in
  let t := set_Owner "" t in
  let t := set_OwnerTime Time.zero_time t in
  let t := set_LeaseToken "" t in
  let t := set_LeaseUntil Time.zero_time t in
  let t := set_UpdatedAt timestamp t in
  next_version t.

Definition lua_completed (t : Agent) (agent_id lease_token : string) (result : gmap string any) (timestamp : Z) : Agent :=
  let t := set_Payload (Some (<["result" := VMap result]> (default ∅ (a_Payload t)))) t in
  let t := lua_unowned t StatusCompleted timestamp in
  script_metadata (fun m =>
    delete internalLeaseUntilMsKey
      (<[CompletedAtMetadataKey := Time.FormatRFC3339Nano timestamp]>
        (<[CompletedByTokenMetadataKey := lease_token]>
          (<[CompletedByMetadataKey := agent_id]> m)))) t.

Definition lua_released (t : Agent) (timestamp : Z) : Agent :=
  script_metadata (delete internalLeaseUntilMsKey) (lua_unowned t StatusNew timestamp).

Definition lua_renewed (t : Agent) (timestamp lease_until_ms lease_until : Z) : Agent :=
  let t := set_OwnerTime timestamp t in
  let t := set_UpdatedAt timestamp t in
  let t := set_LeaseUntil lease_until t in
  script_metadata <[internalLeaseUntilMsKey := Strconv.FormatInt lease_until_ms]> t.

(** The guard of the three lease scripts: the code they refuse with. *)
Definition lease_code (current : Agent) (agent_id lease_token : string) : option string :=
  if decide (a_Status current <> StatusInProgress) then Some "INVALID_STATUS"
  else if decide (a_Owner current <> agent_id) then Some "OWNER_MISMATCH"
  else if decide (a_LeaseToken current <> lease_token) then Some "LEASE_TOKEN_MISMATCH"
  else None.

(** ** The scripts *)

Definition outScript (agent_key : string) (new_agent : Agent) (tuple_id : string) (timestamp : Z) (agent_id : string)
    (event_data : gmap string any) (write_events : bool) (d : Shard) : scriptResponse * Shard :=
  let new_agent := normalize_agent new_agent in
  let d := rewrite_agent agent_key tuple_id (load_agent agent_key d) new_agent 0 d in
  (code "CREATED", log_change write_events tuple_id EventCreated timestamp agent_id event_data new_agent d).

Definition updateScript (agent_key : string) (new_agent : Agent) (tuple_id : string) (timestamp : Z) (agent_id : string)
    (event_data : gmap string any) (write_events : bool) (d : Shard) : scriptResponse * Shard :=
  match load_agent agent_key d with
  | None => (code "NOT_FOUND", d)
  | Some current =>
      let next_agent := normalize_agent new_agent in
      let d := rewrite_agent agent_key tuple_id (Some current) next_agent 0 d in
      (code_agent "UPDATED" new_agent,
       log_change write_events tuple_id EventUpdated timestamp agent_id event_data next_agent d)
  end.

Definition claimScript (agent_key tuple_id agent_id lease_token : string) (timestamp lease_until_ms lease_until : Z)
    (write_events : bool) (d : Shard) : scriptResponse * Shard :=
  match load_agent agent_key d with
  | None => (code "NOT_FOUND", d)
  | Some current =>
      if decide (a_Status current <> StatusNew) then (code "STATUS_CHANGED", d)
      else
        let next := lua_claimed current agent_id lease_token timestamp lease_until_ms lease_until in
        let d := rewrite_agent agent_key tuple_id (Some current) next 0 d in
        (code_agent "CLAIMED" next,
         log_change write_events tuple_id EventClaimed timestamp agent_id {["agent_id" := VStr agent_id]} next d)
  end.

(** What a round of the queue scripts makes of the candidates. *)
Inductive round : Type :=
| RClaimed (t : Agent)
| RNotHead
| REmpty.

(** A claim by way of a queue: the lease's length comes from the hot state. *)
Definition queue_claim (tuple_id agent_id lease_token : string) (timestamp now_ms default_lease_ms : Z)
    (write_events : bool) (hot : hotAgentState) (current : Agent) (d : Shard) : Agent * Shard :=
  let lease_ms := if decide (ht_LeaseMS hot <= 0) then default_lease_ms else ht_LeaseMS hot in
  let next := lua_claimed current agent_id lease_token timestamp (now_ms + lease_ms) Time.zero_time in
  let d := rewrite_agent (agentKey tuple_id) tuple_id (Some current) next default_lease_ms d in
  (next, log_change write_events tuple_id EventClaimed timestamp agent_id {["agent_id" := VStr agent_id]} next d).

Fixpoint queue_round (candidates : list string) (queue_key_name expected_namespace expected_queue required_kind
    required_owner agent_id : string) (lease_token : string -> string) (timestamp now_ms default_lease_ms : Z)
    (write_events : bool) (d : Shard) : round * Shard :=
  match candidates with
  | [] => (REmpty, d)
  | tuple_id :: candidates =>
      let next_candidate d := queue_round candidates queue_key_name expected_namespace expected_queue required_kind
        required_owner agent_id lease_token timestamp now_ms default_lease_ms write_events d in
      match load_hot tuple_id d, load_agent (agentKey tuple_id) d with
      | Some hot, Some current =>
          if decide (ht_Status hot <> StatusNew) then next_candidate (ZREM queue_key_name tuple_id d)
          else if decide (ht_Queue hot <> expected_queue \/ ht_NamespaceID hot <> expected_namespace)
          then next_candidate (ZREM queue_key_name tuple_id d)
          else if decide (required_kind <> "" /\ ht_Kind hot <> required_kind) then (RNotHead, d)
          else if decide (required_owner <> "" /\ ht_Owner hot <> required_owner) then (RNotHead, d)
          else
            let '(t, d) := queue_claim tuple_id agent_id (lease_token tuple_id) timestamp now_ms default_lease_ms
                             write_events hot current d in
            (RClaimed t, d)
      | _, _ => next_candidate (ZREM queue_key_name tuple_id d)
      end
  end.

Definition queueTakeScript (queue_key_name expected_namespace expected_queue required_kind required_owner agent_id
    lease_token : string) (timestamp now_ms default_lease_ms : Z) (write_events : bool) (d : Shard)
    : scriptResponse * Shard :=
  let '(r, d) := queue_round (ZRANGE queue_key_name 16 d) queue_key_name expected_namespace expected_queue
                   required_kind required_owner agent_id (fun _ => lease_token) timestamp now_ms default_lease_ms
                   write_events d in
  match r with
  | RClaimed t => (code_agent "CLAIMED" t, d)
  | RNotHead => (code "NOT_QUEUE_HEAD", d)
  | REmpty => (code "EMPTY", d)
  end.

(** The rounds [index] to [index + rounds - 1] of a batch. *)
Fixpoint batch_rounds (rounds : nat) (index : Z) (claimed : list Agent) (queue_key_name expected_namespace
    expected_queue required_kind required_owner agent_id lease_token_prefix : string)
    (timestamp now_ms default_lease_ms : Z) (write_events : bool) (d : Shard) : scriptResponse * Shard :=
  let finish d := match claimed with
                  | [] => (MkResponse "EMPTY" None (Some []) None 0, d)
                  | _ => (MkResponse "BATCH_CLAIMED" None (Some claimed) None 0, d)
                  end in
  match rounds with
  | O => finish d
  | S rounds =>
      let token tuple_id := lease_token_prefix +:+ ":" +:+ Strconv.FormatInt index +:+ ":" +:+ tuple_id in
      let '(r, d) := queue_round (ZRANGE queue_key_name 16 d) queue_key_name expected_namespace expected_queue
                       required_kind required_owner agent_id token timestamp now_ms default_lease_ms write_events d in
      match r with
      | RClaimed t =>
          batch_rounds rounds (index + 1) (claimed ++ [t])%list queue_key_name expected_namespace expected_queue
            required_kind required_owner agent_id lease_token_prefix timestamp now_ms default_lease_ms write_events d
      | RNotHead => (MkResponse "NOT_QUEUE_HEAD" None (Some claimed) None 0, d)
      | REmpty => finish d
      end
  end.

Definition queueBatchTakeScript (queue_key_name expected_namespace expected_queue required_kind required_owner
    agent_id lease_token_prefix : string) (timestamp now_ms default_lease_ms limit : Z) (write_events : bool)
    (d : Shard) : scriptResponse * Shard :=
  batch_rounds (Z.to_nat limit) 1 [] queue_key_name expected_namespace expected_queue required_kind required_owner
    agent_id lease_token_prefix timestamp now_ms default_lease_ms write_events d.

Definition completeScript (agent_key tuple_id agent_id lease_token : string) (result : gmap string any)
    (timestamp : Z) (write_events : bool) (d : Shard) : scriptResponse * Shard :=
  match load_agent agent_key d with
  | None => (code "NOT_FOUND", d)
  | Some current =>
      if decide (a_Status current = StatusCompleted) then
        if decide (metadata_value current CompletedByTokenMetadataKey = lease_token)
        then (code_agent "ALREADY_COMPLETED" current, d)
        else (code "STALE_TOKEN", d)
      else match lease_code current agent_id lease_token with
      | Some c => (code c, d)
      | None =>
          let next := lua_completed current agent_id lease_token result timestamp in
          let d := rewrite_agent agent_key tuple_id (Some current) next 0 d in
          (code_agent "COMPLETED" next,
           log_change write_events tuple_id EventCompleted timestamp agent_id result next d)
      end
  end.

Definition released_data (previous_owner reason : string) : gmap string any :=
  let data := {["previous_owner" := VStr previous_owner]} in
  if decide (reason = "") then data else <["reap_reason" := VStr reason]> data.

Definition releaseScript (agent_key tuple_id agent_id lease_token reason : string) (timestamp : Z)
    (write_events : bool) (d : Shard) : scriptResponse * Shard :=
  match load_agent agent_key d with
  | None => (code "NOT_FOUND", d)
  | Some current =>
      match lease_code current agent_id lease_token with
      | Some c => (code c, d)
      | None =>
          let next := lua_released current timestamp in
          let d := rewrite_agent agent_key tuple_id (Some current) next 0 d in
          (code_agent "RELEASED" next,
           log_change write_events tuple_id EventReleased timestamp agent_id (released_data (a_Owner current) reason) next d)
      end
  end.

Definition renewLeaseScript (agent_key tuple_id agent_id lease_token : string)
    (timestamp lease_until_ms lease_until : Z) (d : Shard) : scriptResponse * Shard :=
  match load_agent agent_key d with
  | None => (code "NOT_FOUND", d)
  | Some current =>
      match lease_code current agent_id lease_token with
      | Some c => (code c, d)
      | None =>
          let next := lua_renewed current timestamp lease_until_ms lease_until in
          (code_agent "RENEWED" next, rewrite_agent agent_key tuple_id (Some current) next 0 d)
      end
  end.

(** The event of an output of a completion. *)
Definition output_data (slim_events : bool) (tuple_id : string) (output : Agent) : gmap string any :=
  if slim_events then
    <["parent_id" := VStr tuple_id]> (<["status" := VStr (a_Status output)]>
      (<["kind" := VStr (a_Kind output)]> {["tuple_id" := VStr (a_ID output)]}))
  else <["parent_id" := VStr tuple_id]> {["agent" := agent_json output]}.

Fixpoint create_outputs (tuple_id agent_id : string) (timestamp : Z) (write_events slim_events : bool)
    (outputs : list Agent) (d : Shard) : list Agent * Shard :=
  match outputs with
  | [] => ([], d)
  | output :: outputs =>
      let output := normalize_agent output in
      let output_key := agentKey (a_ID output) in
      let d := rewrite_agent output_key (a_ID output) (load_agent output_key d) output 0 d in
      let d := log_change write_events (a_ID output) EventCreated timestamp agent_id
                 (output_data slim_events tuple_id output) output d in
      let '(created, d) := create_outputs tuple_id agent_id timestamp write_events slim_events outputs d in
      (output :: created, d)
  end.

Definition completeAndOutScript (agent_key tuple_id agent_id lease_token : string) (result : gmap string any)
    (outputs : list Agent) (timestamp : Z) (write_events slim_events : bool) (d : Shard) : scriptResponse * Shard :=
  match load_agent agent_key d with
  | None => (code "NOT_FOUND", d)
  | Some current =>
      match lease_code current agent_id lease_token with
      | Some c => (code c, d)
      | None =>
          let next := lua_completed current agent_id lease_token result timestamp in
          let d := rewrite_agent agent_key tuple_id (Some current) next 0 d in
          let d := log_change write_events tuple_id EventCompleted timestamp agent_id result next d in
          let '(created, d) := create_outputs tuple_id agent_id timestamp write_events slim_events outputs d in
          (MkResponse "COMPLETED_AND_OUT" (Some next) None (Some created) 0, d)
      end
  end.

Fixpoint reap_each (expired : list string) (timestamp : Z) (write_events : bool) (count : Z) (d : Shard) : Z * Shard :=
  match expired with
  | [] => (count, d)
  | tuple_id :: expired =>
      match load_agent (agentKey tuple_id) d with
      | Some current =>
          if decide (a_Status current = StatusInProgress) then
            let next := lua_released current timestamp in
            let d := rewrite_agent (agentKey tuple_id) tuple_id (Some current) next 0 d in
            let d := log_change write_events tuple_id EventReleased timestamp "reaper"
                       (released_data (a_Owner current) "lease_expired") next d in
            reap_each expired timestamp write_events (count + 1) d
          else reap_each expired timestamp write_events count (ZREM globalLeaseKeyName tuple_id d)
      | None => reap_each expired timestamp write_events count (ZREM globalLeaseKeyName tuple_id d)
      end
  end.

Definition reapScript (timestamp now_ms batch : Z) (write_events : bool) (d : Shard) : scriptResponse * Shard :=
  let '(count, d) := reap_each (ZRANGEBYSCORE globalLeaseKeyName now_ms (Z.to_nat batch) d) timestamp write_events 0 d in
  (MkResponse "" None None None count, d).

End Scripts.
