(* ===== verification/ValkeyIndex.v ===== *)
(** * Valkey: the indexes tell the truth

    The sets and ordered sets of a shard hold an agent's identifier exactly
    where its stored table says, and the hot state agrees with the table.
    Every script keeps this. *)

From S2P Require Import Prelude GoLib GoSort Agent Common ValkeyKeys ValkeyScripts.
From stdpp Require Import gmap strings list fin_maps sets.
From Stdlib Require Import ZArith Lia.

Open Scope Z_scope.

Section Index.
Context `{L : Lua} `{SI : StreamIds}.

(** ** Normalised tables *)

Lemma normalize_fields t :
  a_ID (normalize_agent t) = a_ID t /\ a_Status (normalize_agent t) = a_Status t
  /\ a_Owner (normalize_agent t) = a_Owner t /\ a_LeaseToken (normalize_agent t) = a_LeaseToken t.
Proof. by destruct t. Qed.

Lemma metadata_normalize t k : metadata_value (normalize_agent t) k = metadata_value t k.
Proof. destruct t as [? ? ? ? ? ? ? ? ? ? ? ? ? ? ? ? ? [m|]]; [done|]. cbn. unfold mget. by rewrite lookup_empty. Qed.

Lemma namespace_normalize t : namespace_value (normalize_agent t) = namespace_value t.
Proof. unfold namespace_value. rewrite metadata_normalize. by destruct t. Qed.

Lemma set_indexes_normalize t : set_indexes (normalize_agent t) = set_indexes t.
Proof. unfold set_indexes. rewrite namespace_normalize. by destruct t. Qed.

Lemma zindex_of_normalize t : zindex_of (normalize_agent t) = zindex_of t.
Proof. unfold zindex_of, queue_value. rewrite namespace_normalize, metadata_normalize. by destruct t. Qed.

Lemma zscore_normalize t : zscore (normalize_agent t) = zscore t.
Proof.
  unfold zscore, queue_score, created_score, lease_score, queue_value. rewrite !metadata_normalize. by destruct t.
Qed.

Lemma zplace_normalize t : zplace (normalize_agent t) = zplace t.
Proof. unfold zplace. by rewrite zindex_of_normalize, zscore_normalize. Qed.

Lemma hot_state_normalize t id def : hot_state (normalize_agent t) id def = hot_state t id def.
Proof.
  unfold hot_state, lease_duration_ms, lease_score, queue_score, created_score, queue_value.
  rewrite namespace_normalize, !metadata_normalize. by destruct t.
Qed.

Lemma normalize_idemp t : normalize_agent (normalize_agent t) = normalize_agent t.
Proof. by destruct t. Qed.

(** ** Commands on sets *)

Lemma SMEMBERS_SADD k k' x d : SMEMBERS k (SADD k' x d) = if decide (k = k') then {[x]} ∪ SMEMBERS k d else SMEMBERS k d.
Proof.
  unfold SMEMBERS, SADD. cbn [v_sets set_sets]. case_decide as Hk; [subst; by rewrite lookup_insert_eq|by rewrite lookup_insert_ne].
Qed.

Lemma SMEMBERS_SREM k k' x d : SMEMBERS k (SREM k' x d) = if decide (k = k') then SMEMBERS k d ∖ {[x]} else SMEMBERS k d.
Proof.
  unfold SMEMBERS, SREM. cbn [v_sets set_sets]. case_decide as Hk; [subst; by rewrite lookup_insert_eq|by rewrite lookup_insert_ne].
Qed.

Lemma members_after_adds ixs x y k d :
  y ∈ SMEMBERS k (foldl (fun d ix => SADD (index_key ix) x d) d ixs)
  <-> (y = x /\ exists ix, ix ∈ ixs /\ index_key ix = k) \/ y ∈ SMEMBERS k d.
Proof.
  revert d. induction ixs as [|ix ixs IH]; intros d; cbn [foldl]; [set_solver|].
  rewrite IH, SMEMBERS_SADD. case_decide as Hk; [|set_solver]. subst k. set_solver.
Qed.

Lemma members_after_removes ixs x y k d :
  y ∈ SMEMBERS k (foldl (fun d ix => SREM (index_key ix) x d) d ixs)
  <-> y ∈ SMEMBERS k d /\ ~ (y = x /\ exists ix, ix ∈ ixs /\ index_key ix = k).
Proof.
  revert d. induction ixs as [|ix ixs IH]; intros d; cbn [foldl]; [set_solver|].
  rewrite IH, SMEMBERS_SREM. case_decide as Hk; [|set_solver]. subst k. set_solver.
Qed.

(** What the commands on sets leave alone. *)
Definition same_but_sets (d d' : Shard) : Prop :=
  v_agents d' = v_agents d /\ v_hot d' = v_hot d /\ v_zsets d' = v_zsets d /\ v_streams d' = v_streams d
  /\ v_leaders d' = v_leaders d /\ v_seq d' = v_seq d.

Lemma adds_keep ixs x d : same_but_sets d (foldl (fun d ix => SADD (index_key ix) x d) d ixs).
Proof. revert d. induction ixs as [|ix ixs IH]; intros d; [done|]. apply (IH (SADD (index_key ix) x d)). Qed.

Lemma removes_keep ixs x d : same_but_sets d (foldl (fun d ix => SREM (index_key ix) x d) d ixs).
Proof. revert d. induction ixs as [|ix ixs IH]; intros d; [done|]. apply (IH (SREM (index_key ix) x d)). Qed.

(** ** Commands on ordered sets *)

Lemma zset_ZADD k k' s x d : zset k (ZADD k' s x d) = if decide (k = k') then <[x := s]> (zset k d) else zset k d.
Proof.
  unfold zset, ZADD. cbn [v_zsets set_zsets]. case_decide as Hk; [subst; by rewrite lookup_insert_eq|by rewrite lookup_insert_ne].
Qed.

Lemma zset_ZREM k k' x d : zset k (ZREM k' x d) = if decide (k = k') then delete x (zset k d) else zset k d.
Proof.
  unfold zset, ZREM. cbn [v_zsets set_zsets]. case_decide as Hk; [subst; by rewrite lookup_insert_eq|by rewrite lookup_insert_ne].
Qed.

(** ** Removing and adding an agent's indexes *)

Lemma removed_members t id y ix d :
  y ∈ SMEMBERS (index_key ix) (remove_indexes t id d)
  <-> y ∈ SMEMBERS (index_key ix) d /\ ~ (y = id /\ ix ∈ set_indexes t).
Proof.
  unfold remove_indexes. cbn zeta. rewrite set_indexes_normalize.
  assert (Hs : forall d', SMEMBERS (index_key ix) (match zindex_of (normalize_agent t) with Some z => ZREM (zindex_key z) id d' | None => d' end)
    = SMEMBERS (index_key ix) d') by (intros d'; by destruct (zindex_of _)).
  rewrite Hs, members_after_removes. split; intros [H1 H2]; (split; [done|]); intros [-> H3]; apply H2; (split; [done|]).
  - by exists ix.
  - destruct H3 as (ix' & Hin & ->%index_key_inj). done.
Qed.

Lemma added_members t id y ix d :
  y ∈ SMEMBERS (index_key ix) (add_indexes t id d)
  <-> (y = id /\ ix ∈ set_indexes t) \/ y ∈ SMEMBERS (index_key ix) d.
Proof.
  unfold add_indexes. cbn zeta. rewrite set_indexes_normalize.
  assert (Hs : forall d', SMEMBERS (index_key ix)
      (match zplace (normalize_agent t) with Some (z, score) => ZADD (zindex_key z) score id d' | None => d' end)
    = SMEMBERS (index_key ix) d') by (intros d'; by destruct (zplace _) as [[]|]).
  rewrite Hs, members_after_adds. split; (intros [[-> H]|H]; [left; split; [done|]|by right]).
  - by destruct H as (ix' & Hin & ->%index_key_inj).
  - by exists ix.
Qed.

Lemma removed_zset t id z d :
  zset (zindex_key z) (remove_indexes t id d)
  = if decide (zindex_of t = Some z) then delete id (zset (zindex_key z) d) else zset (zindex_key z) d.
Proof.
  unfold remove_indexes. cbn zeta. rewrite zindex_of_normalize.
  set (d' := foldl _ d _). assert (zset (zindex_key z) d' = zset (zindex_key z) d) as Hd'.
  { unfold zset, d'. by destruct (removes_keep (set_indexes (normalize_agent t)) id d) as (_ & _ & -> & _). }
  destruct (zindex_of t) as [z'|].
  - rewrite zset_ZREM, Hd'. destruct (decide (z' = z)) as [->|Hne].
    + by rewrite !decide_True.
    + rewrite !decide_False; [done|congruence|]. intros Hk%zindex_key_inj. congruence.
  - by rewrite Hd', decide_False.
Qed.

Lemma added_zset t id z d :
  zset (zindex_key z) (add_indexes t id d)
  = match zplace t with
    | Some (z', score) => if decide (z' = z) then <[id := score]> (zset (zindex_key z) d) else zset (zindex_key z) d
    | None => zset (zindex_key z) d
    end.
Proof.
  unfold add_indexes. cbn zeta. rewrite zplace_normalize.
  set (d' := foldl _ d _). assert (zset (zindex_key z) d' = zset (zindex_key z) d) as Hd'.
  { unfold zset, d'. by destruct (adds_keep (set_indexes (normalize_agent t)) id d) as (_ & _ & -> & _). }
  destruct (zplace t) as [[z' score]|]; [|done]. rewrite zset_ZADD, Hd'.
  destruct (decide (z' = z)) as [->|Hne]; [by rewrite decide_True|].
  rewrite decide_False; [done|]. intros Hk%zindex_key_inj. congruence.
Qed.

(** Neither touches tables, hot states, streams and locks. *)
Definition same_values (d d' : Shard) : Prop :=
  v_agents d' = v_agents d /\ v_hot d' = v_hot d /\ v_streams d' = v_streams d /\ v_leaders d' = v_leaders d /\ v_seq d' = v_seq d.

Lemma remove_keeps t id d : same_values d (remove_indexes t id d).
Proof.
  unfold remove_indexes. cbn zeta. destruct (removes_keep (set_indexes (normalize_agent t)) id d) as (? & ? & ? & ? & ? & ?).
  by destruct (zindex_of _).
Qed.

Lemma add_keeps t id d : same_values d (add_indexes t id d).
Proof.
  unfold add_indexes. cbn zeta. destruct (adds_keep (set_indexes (normalize_agent t)) id d) as (? & ? & ? & ? & ? & ?).
  by destruct (zplace _) as [[]|].
Qed.

(** ** The invariant *)

(** [id]'s table as scripts find it. *)
Definition table (d : Shard) (id : string) : option Agent := get_agent (agentKey id) d.

Record indexed (d : Shard) : Prop := {
  ix_sets : forall ix id, id ∈ SMEMBERS (index_key ix) d <-> exists t, table d id = Some t /\ ix ∈ set_indexes t;
  ix_zsets : forall z id score, zset (zindex_key z) d !! id = Some score <-> exists t, table d id = Some t /\ zplace t = Some (z, score);
  ix_hot : forall id t, table d id = Some t ->
    exists def, get_hot (hotStateKey id) d = Some (hot_state t id def) /\ (a_Status t = StatusNew -> def = 0);
  ix_keyed : forall k t, v_agents d !! k = Some t -> k = agentKey (a_ID t);
}.

Lemma indexed_empty : indexed empty_shard.
Proof.
  split; unfold table, get_agent, SMEMBERS, zset; cbn.
  - intros ix id. split; [set_solver|]. intros (t & Ht & _). by rewrite lookup_empty in Ht.
  - intros z id score. rewrite lookup_empty. split; [done|]. intros (t & Ht & _). by rewrite lookup_empty in Ht.
  - intros id t Ht. by rewrite lookup_empty in Ht.
  - intros k t Ht. by rewrite lookup_empty in Ht.
Qed.

(** ** Rewriting an agent *)

Lemma zplace_zindex t z score : zplace t = Some (z, score) -> zindex_of t = Some z.
Proof. unfold zplace. destruct (zindex_of t) as [[]|]; try done; [..|case_decide; [|done]]; by intros [= <- _]. Qed.

Lemma rewrite_table id old new def d id' :
  table (rewrite_agent (agentKey id) id old new def d) id' = if decide (id' = id) then Some new else table d id'.
Proof.
  unfold rewrite_agent, table, get_agent. cbn zeta.
  destruct (add_keeps new id (persist_agent (agentKey id) new id def
    (match old with Some old => remove_indexes old id d | None => d end))) as (-> & _).
  unfold persist_agent. cbn [put_hot put_agent v_agents].
  assert (v_agents (match old with Some old => remove_indexes old id d | None => d end) = v_agents d) as ->.
  { destruct old as [old|]; [|done]. by destruct (remove_keeps old id d) as (-> & _). }
  case_decide as Hid; [subst; apply lookup_insert_eq|]. apply lookup_insert_ne. intros H%agentKey_inj. congruence.
Qed.

Lemma rewrite_hot id old new def d id' :
  get_hot (hotStateKey id') (rewrite_agent (agentKey id) id old new def d)
  = if decide (id' = id) then Some (hot_state new id def) else get_hot (hotStateKey id') d.
Proof.
  unfold rewrite_agent, get_hot. cbn zeta.
  destruct (add_keeps new id (persist_agent (agentKey id) new id def
    (match old with Some old => remove_indexes old id d | None => d end))) as (_ & -> & _).
  unfold persist_agent. cbn [put_hot put_agent v_hot].
  assert (v_hot (match old with Some old => remove_indexes old id d | None => d end) = v_hot d) as ->.
  { destruct old as [old|]; [|done]. by destruct (remove_keeps old id d) as (_ & -> & _). }
  case_decide as Hid; [subst; apply lookup_insert_eq|]. apply lookup_insert_ne. intros H%hotStateKey_inj. congruence.
Qed.

(** After the removal the agent is in no set; the others are where they
    were. *)
Lemma removed_exact d id old :
  indexed d -> old = normalize_agent <$> table d id ->
  let d' := match old with Some old => remove_indexes old id d | None => d end in
  (forall ix y, y ∈ SMEMBERS (index_key ix) d' <-> y <> id /\ y ∈ SMEMBERS (index_key ix) d)
  /\ (forall z y, zset (zindex_key z) d' !! y = if decide (y = id) then None else zset (zindex_key z) d !! y).
Proof.
  intros Hd -> d'. destruct (table d id) as [t|] eqn:Ht; cbn [fmap option_fmap option_map] in d'; subst d'.
  - split.
    + intros ix y. rewrite removed_members, set_indexes_normalize. split.
      * intros [H1 H2]. split; [|done]. intros ->. apply H2. split; [done|].
        apply (ix_sets _ Hd) in H1 as (t' & Ht' & Hix). congruence.
      * intros [H1 H2]. split; [done|]. tauto.
    + intros z y. rewrite removed_zset, zindex_of_normalize. case_decide as Hz.
      * case_decide as Hy; [subst; apply lookup_delete_eq|by apply lookup_delete_ne].
      * case_decide as Hy; [|done]. subst y. destruct (zset (zindex_key z) d !! id) as [score|] eqn:Hs; [|done].
        apply (ix_zsets _ Hd) in Hs as (t' & Ht' & Hp%zplace_zindex). congruence.
  - split.
    + intros ix y. split; [|tauto]. intros Hy. split; [|done]. intros ->.
      apply (ix_sets _ Hd) in Hy as (t' & Ht' & _). congruence.
    + intros z y. case_decide as Hy; [|done]. subst y. destruct (zset (zindex_key z) d !! id) as [score|] eqn:Hs; [|done].
      apply (ix_zsets _ Hd) in Hs as (t' & Ht' & _). congruence.
Qed.

(** Writing a table over what was loaded keeps the indexes exact. *)
Lemma rewrite_indexed d id new def :
  indexed d -> a_ID new = id -> (a_Status new = StatusNew -> def = 0) ->
  indexed (rewrite_agent (agentKey id) id (load_agent (agentKey id) d) new def d).
Proof.
  intros Hd Hid Hdef. destruct (removed_exact d id (load_agent (agentKey id) d) Hd eq_refl) as [Hsets Hz]. cbn zeta in *.
  set (d1 := match load_agent (agentKey id) d with Some old => remove_indexes old id d | None => d end) in *.
  assert (Hmem : forall ix, SMEMBERS (index_key ix) (persist_agent (agentKey id) new id def d1) = SMEMBERS (index_key ix) d1) by done.
  assert (Hzm : forall z, zset (zindex_key z) (persist_agent (agentKey id) new id def d1) = zset (zindex_key z) d1) by done.
  split.
  - intros ix y. rewrite rewrite_table. unfold rewrite_agent. fold d1. rewrite added_members, Hmem, Hsets.
    case_decide as Hy; subst.
    + split; [intros [[_ H]|[H _]]; [by exists new|done]|]. intros (t & [= <-] & H). by left.
    + rewrite (ix_sets _ Hd). split; [intros [[? _]|[_ H]]; done|]. intros H. by right.
  - intros z y score. rewrite rewrite_table. unfold rewrite_agent. fold d1. rewrite added_zset, Hzm.
    case_decide as Hy; subst.
    + transitivity (zplace new = Some (z, score)); [|split; [by exists new|intros (t & [= <-] & H); done]].
      destruct (zplace new) as [[z' s']|]; [case_decide as Hz'; subst|].
      * rewrite lookup_insert_eq. split; congruence.
      * rewrite Hz, decide_True by done. split; congruence.
      * rewrite Hz, decide_True by done. done.
    + rewrite <-(ix_zsets _ Hd). destruct (zplace new) as [[z' s']|]; [case_decide as Hz'; subst|].
      * rewrite lookup_insert_ne by congruence. by rewrite Hz, decide_False.
      * by rewrite Hz, decide_False.
      * by rewrite Hz, decide_False.
  - intros y t. rewrite rewrite_table, rewrite_hot. case_decide; [subst; intros [= <-]; by exists def|apply (ix_hot _ Hd)].
  - intros k t Hk. destruct (decide (k = agentKey id)) as [->|Hne].
    + pose proof (rewrite_table id (load_agent (agentKey id) d) new def d id) as Ht. rewrite decide_True in Ht by done.
      unfold table, get_agent in Ht. rewrite Hk in Ht. injection Ht as ->. by subst.
    + apply (ix_keyed _ Hd). revert Hk. unfold rewrite_agent. fold d1.
      destruct (add_keeps new id (persist_agent (agentKey id) new id def d1)) as (-> & _).
      unfold persist_agent. cbn [put_hot put_agent v_agents]. rewrite lookup_insert_ne by congruence.
      unfold d1. destruct (load_agent _ d) as [old|]; [|done]. by destruct (remove_keeps old id d) as (-> & _).
Qed.

End Index.
