(* ===== verification/ValkeyContract.v ===== *)
(** * Valkey: the scripts keep the indexes and the contract

    Whatever scripts run on a shard, from whichever clients and in whichever
    order, the indexes stay exact; and every script but the update is a step
    of the lifecycle contract for each agent it touches. *)

From S2P Require Import Prelude GoLib GoSort Agent Common Effects Lease SharedLease ValkeyKeys ValkeyScripts ValkeyIndex.
From stdpp Require Import gmap strings list fin_maps sets.
From Stdlib Require Import ZArith Lia.

Open Scope Z_scope.

(** ** Script calls *)

(** The scripts with the arguments the store calls them with. *)
Inductive script : Type :=
| SOut (t : Agent) (timestamp : Z) (agent_id : string) (data : gmap string any) (write_events : bool)
| SUpdate (id : string) (t : Agent) (timestamp : Z) (agent_id : string) (data : gmap string any) (write_events : bool)
| SClaim (id agent_id lease_token : string) (timestamp lease_until_ms lease_until : Z) (write_events : bool)
| SQueueTake (namespaceID queue kind owner agent_id lease_token : string) (timestamp now_ms default_ms : Z) (write_events : bool)
| SBatchTake (namespaceID queue kind owner agent_id prefix : string) (timestamp now_ms default_ms limit : Z) (write_events : bool)
| SComplete (id agent_id lease_token : string) (result : gmap string any) (timestamp : Z) (write_events : bool)
| SRelease (id agent_id lease_token reason : string) (timestamp : Z) (write_events : bool)
| SRenew (id agent_id lease_token : string) (timestamp lease_until_ms lease_until : Z)
| SCompleteAndOut (id agent_id lease_token : string) (result : gmap string any) (outputs : list Agent) (timestamp : Z)
    (write_events slim_events : bool)
| SReap (timestamp now_ms batch : Z) (write_events : bool).

Section Contract.
Context `{L : Lua} `{SI : StreamIds}.

Definition run_script (s : script) (d : Shard) : scriptResponse * Shard :=
  match s with
  | SOut t ts who data w => outScript (agentKey (a_ID t)) t (a_ID t) ts who data w d
  | SUpdate id t ts who data w => updateScript (agentKey id) t (a_ID t) ts who data w d
  | SClaim id who tok ts ms until w => claimScript (agentKey id) id who tok ts ms until w d
  | SQueueTake ns q kind owner who tok ts now def w =>
      queueTakeScript (queueIndexKey ns q) ns q kind owner who tok ts now def w d
  | SBatchTake ns q kind owner who prefix ts now def limit w =>
      queueBatchTakeScript (queueIndexKey ns q) ns q kind owner who prefix ts now def limit w d
  | SComplete id who tok res ts w => completeScript (agentKey id) id who tok res ts w d
  | SRelease id who tok reason ts w => releaseScript (agentKey id) id who tok reason ts w d
  | SRenew id who tok ts ms until => renewLeaseScript (agentKey id) id who tok ts ms until d
  | SCompleteAndOut id who tok res outs ts w slim => completeAndOutScript (agentKey id) id who tok res outs ts w slim d
  | SReap ts now batch w => reapScript ts now batch w d
  end.

(** ** Events leave the data alone *)

Definition same_data (d d' : Shard) : Prop :=
  v_agents d' = v_agents d /\ v_hot d' = v_hot d /\ v_sets d' = v_sets d /\ v_zsets d' = v_zsets d.

Lemma log_keeps w id ty ts who data t d : same_data d (log_change w id ty ts who data t d).
Proof. unfold log_change, append_event. destruct w; [|done]. cbn zeta. by case_decide. Qed.

Lemma same_data_indexed d d' : same_data d d' -> indexed d -> indexed d'.
Proof.
  intros (Ha & Hh & Hs & Hz) [H1 H2 H3 H4]. split; unfold table, get_agent, get_hot, SMEMBERS, zset in *;
    rewrite ?Ha, ?Hh, ?Hs, ?Hz; done.
Qed.

Lemma same_data_table d d' id : same_data d d' -> table d' id = table d id.
Proof. intros (Ha & _). unfold table, get_agent. by rewrite Ha. Qed.

(** A rewrite followed by its event. *)
Definition change (w : bool) (id ty : string) (ts : Z) (who : string) (data : gmap string any) (def : Z) (new : Agent)
    (d : Shard) : Shard :=
  log_change w id ty ts who data new (rewrite_agent (agentKey id) id (load_agent (agentKey id) d) new def d).

Lemma change_indexed w id ty ts who data def new d :
  indexed d -> a_ID new = id -> (a_Status new = StatusNew -> def = 0) -> indexed (change w id ty ts who data def new d).
Proof. intros Hd Hid Hdef. eapply same_data_indexed; [apply log_keeps|by apply rewrite_indexed]. Qed.

Lemma change_table w id ty ts who data def new d id' :
  table (change w id ty ts who data def new d) id' = if decide (id' = id) then Some new else table d id'.
Proof. unfold change. rewrite (same_data_table _ _ _ (log_keeps _ _ _ _ _ _ _ _)). apply rewrite_table. Qed.

Lemma load_table id d : load_agent (agentKey id) d = normalize_agent <$> table d id.
Proof. done. Qed.

Lemma table_keyed d id t : indexed d -> table d id = Some t -> a_ID t = id.
Proof. intros Hd Ht. symmetry. apply agentKey_inj. by apply (ix_keyed _ Hd). Qed.

Lemma loaded_keyed d id t : indexed d -> load_agent (agentKey id) d = Some t -> a_ID t = id.
Proof.
  intros Hd. rewrite load_table. destruct (table d id) as [t0|] eqn:Ht; [|done]. intros [= <-].
  rewrite (proj1 (normalize_fields t0)). by eapply table_keyed.
Qed.

(** ** The cells of a shard *)

Definition cells (d : Shard) (id : string) : option cell := cell_of_agent <$> table d id.

Lemma cell_normalize t : cell_of_agent (normalize_agent t) = cell_of_agent t.
Proof.
  unfold cell_of_agent. pose proof (metadata_normalize t CompletedByTokenMetadataKey) as Hm. unfold metadata_value in Hm.
  rewrite Hm. by destruct t.
Qed.

Lemma loaded_cell d id t : load_agent (agentKey id) d = Some t -> cells d id = Some (cell_of_agent t).
Proof.
  rewrite load_table. unfold cells. destruct (table d id) as [t0|]; [|done]. intros [= <-]. cbn. by rewrite cell_normalize.
Qed.

(** ** Transitions on tables *)

Lemma script_metadata_fields f t :
  a_ID (script_metadata f t) = a_ID t /\ a_Status (script_metadata f t) = a_Status t
  /\ a_Owner (script_metadata f t) = a_Owner t /\ a_LeaseToken (script_metadata f t) = a_LeaseToken t
  /\ a_Metadata (script_metadata f t) = Some (f (default ∅ (a_Metadata t))).
Proof. by destruct t. Qed.

Lemma omget_default m k : omget m k = mget (default ∅ m) k.
Proof. destruct m; [done|]. cbn. unfold mget. by rewrite lookup_empty. Qed.

Lemma lease_key_ne : internalLeaseUntilMsKey <> CompletedByTokenMetadataKey.
Proof. done. Qed.

Lemma lua_cell_claimed t who tok ts ms until :
  cell_of_agent (lua_claimed t who tok ts ms until)
  = MkCell StatusInProgress who tok (c_done (cell_of_agent t)).
Proof.
  unfold cell_of_agent, lua_claimed, script_metadata. destruct t. cbn. rewrite mget_insert_ne by done.
  by rewrite <-omget_default.
Qed.

Lemma lua_cell_released t ts : cell_of_agent (lua_released t ts) = MkCell StatusNew "" "" (c_done (cell_of_agent t)).
Proof.
  unfold cell_of_agent, lua_released, script_metadata. destruct t. cbn. rewrite omget_default.
  unfold mget. by rewrite lookup_delete_ne.
Qed.

Lemma lua_cell_completed t who tok res ts : cell_of_agent (lua_completed t who tok res ts) = MkCell StatusCompleted "" "" tok.
Proof.
  unfold cell_of_agent, lua_completed, script_metadata. destruct t. cbn. f_equal. unfold mget.
  rewrite lookup_delete_ne by done. rewrite lookup_insert_ne by done. by rewrite lookup_insert_eq.
Qed.

Lemma lua_cell_renewed t ts ms until : cell_of_agent (lua_renewed t ts ms until) = cell_of_agent t.
Proof.
  unfold cell_of_agent, lua_renewed, script_metadata. destruct t. cbn. rewrite mget_insert_ne by done.
  by rewrite <-omget_default.
Qed.

Lemma ID_transitions t who tok res ts ms until :
  a_ID (lua_claimed t who tok ts ms until) = a_ID t /\ a_ID (lua_released t ts) = a_ID t
  /\ a_ID (lua_completed t who tok res ts) = a_ID t /\ a_ID (lua_renewed t ts ms until) = a_ID t.
Proof. by destruct t. Qed.

(** ** Moves of a shard along the contract *)

Definition moved (d : Shard) (ls : list label) (d' : Shard) : Prop :=
  indexed d' /\ forall id, cell_steps id (cells d id) (about id ls) (cells d' id).

Lemma moved_refl d : indexed d -> moved d [] d.
Proof. intros Hd. split; [done|]. intros id. constructor. Qed.

Lemma moved_app d1 l1 d2 l2 d3 : moved d1 l1 d2 -> moved d2 l2 d3 -> moved d1 (l1 ++ l2) d3.
Proof.
  intros [_ H1] [Hd H2]. split; [done|]. intros id. unfold about. rewrite filter_app. by eapply cell_steps_app.
Qed.

Lemma change_moved w id ty ts who data def new d l :
  indexed d -> a_ID new = id -> (a_Status new = StatusNew -> def = 0) -> label_id l = id ->
  cell_step id (cells d id) l (Some (cell_of_agent new)) ->
  moved d [l] (change w id ty ts who data def new d).
Proof.
  intros Hd Hid Hdef Hl Hs. split; [by apply change_indexed|]. intros y. unfold cells, about. rewrite change_table, filter_cons, filter_nil.
  destruct (decide (y = id)) as [->|Hne].
  - rewrite decide_True by done. by apply cell_steps_one.
  - rewrite decide_False by congruence. constructor.
Qed.

(** A rewrite without an event. *)
Lemma rewrite_moved id new d l :
  indexed d -> a_ID new = id -> label_id l = id -> cell_step id (cells d id) l (Some (cell_of_agent new)) ->
  moved d [l] (rewrite_agent (agentKey id) id (load_agent (agentKey id) d) new 0 d).
Proof. intros Hd Hid. by apply (change_moved false id "" 0 "" ∅ 0 new d l). Qed.

(** ** The simple scripts *)

Lemma out_moved t ts who data w d :
  indexed d -> fresh_agent t -> moved d [LCreate (a_ID t) who] (run_script (SOut t ts who data w) d).2.
Proof.
  intros Hd (H1 & H2 & H3). cbn [run_script outScript snd].
  apply (change_moved w (a_ID t) EventCreated ts who data 0 (normalize_agent t)); [done|by destruct t|done|done|].
  rewrite cell_normalize. by constructor.
Qed.

(** What a script that loads an agent finds. *)
Lemma lease_code_None t who tok :
  lease_code t who tok = None -> a_Status t = StatusInProgress /\ a_Owner t = who /\ a_LeaseToken t = tok.
Proof.
  unfold lease_code. case_decide as H1; [done|]. case_decide as H2; [done|]. case_decide as H3; [done|]. intros _.
  done.
Qed.

Lemma claim_moved id who tok ts ms until w d :
  indexed d ->
  let '(r, d') := run_script (SClaim id who tok ts ms until w) d in
  if decide (sr_Code r = "CLAIMED"%string) then moved d [LClaim id who tok] d' else d' = d.
Proof.
  intros Hd. cbn [run_script]. unfold claimScript. destruct (load_agent (agentKey id) d) as [t|] eqn:Hl; [|done].
  case_decide as Hs; [done|]. cbn [sr_Code code_agent]. rewrite decide_True by done.
  rewrite <-Hl. apply (change_moved w id EventClaimed ts who _ 0); [done| |done|done|].
  - rewrite (proj1 (ID_transitions t who tok ∅ ts ms until)). by eapply loaded_keyed.
  - rewrite (loaded_cell d id t Hl), lua_cell_claimed. by constructor.
Qed.

Lemma complete_moved id who tok res ts w d :
  indexed d -> tok <> ""%string ->
  let '(r, d') := run_script (SComplete id who tok res ts w) d in
  if decide (sr_Code r = "COMPLETED"%string) then moved d [LComplete id who tok] d'
  else d' = d /\ (sr_Code r = "ALREADY_COMPLETED"%string -> moved d [LReplay id tok] d').
Proof.
  intros Hd Htok. cbn [run_script]. unfold completeScript. destruct (load_agent (agentKey id) d) as [t|] eqn:Hl; [|done].
  case_decide as Hc.
  - case_decide as Ht; [|done]. cbn. split; [done|]. intros _. split; [done|]. intros y. unfold about. rewrite filter_cons, filter_nil.
    cbn [label_id]. case_decide as Hy; [|constructor]. subst y. apply cell_steps_one. rewrite (loaded_cell d id t Hl).
    by constructor.
  - destruct (lease_code t who tok) as [c|] eqn:Hg.
    { unfold lease_code in Hg. repeat case_decide; simplify_eq; done. }
    apply lease_code_None in Hg as (H1 & H2 & H3). cbn [sr_Code code_agent]. rewrite decide_True by done.
    rewrite <-Hl. apply (change_moved w id EventCompleted ts who _ 0); [done| |done|done|].
    + destruct (ID_transitions t who tok res ts 0 0) as (_ & _ & -> & _). by eapply loaded_keyed.
    + rewrite (loaded_cell d id t Hl), lua_cell_completed. by constructor.
Qed.

Lemma release_moved id who tok reason ts w d :
  indexed d ->
  let '(r, d') := run_script (SRelease id who tok reason ts w) d in
  if decide (sr_Code r = "RELEASED"%string) then moved d [LRelease id who tok] d' else d' = d.
Proof.
  intros Hd. cbn [run_script]. unfold releaseScript. destruct (load_agent (agentKey id) d) as [t|] eqn:Hl; [|done].
  destruct (lease_code t who tok) as [c|] eqn:Hg.
  { unfold lease_code in Hg. repeat case_decide; simplify_eq; done. }
  apply lease_code_None in Hg as (H1 & H2 & H3). cbn [sr_Code code_agent]. rewrite decide_True by done.
  rewrite <-Hl. apply (change_moved w id EventReleased ts who _ 0); [done| |done|done|].
  - destruct (ID_transitions t who tok ∅ ts 0 0) as (_ & -> & _). by eapply loaded_keyed.
  - rewrite (loaded_cell d id t Hl), lua_cell_released. by constructor.
Qed.

Lemma renew_moved id who tok ts ms until d :
  indexed d ->
  let '(r, d') := run_script (SRenew id who tok ts ms until) d in
  if decide (sr_Code r = "RENEWED"%string) then moved d [LRenew id who tok] d' else d' = d.
Proof.
  intros Hd. cbn [run_script]. unfold renewLeaseScript. destruct (load_agent (agentKey id) d) as [t|] eqn:Hl; [|done].
  destruct (lease_code t who tok) as [c|] eqn:Hg.
  { unfold lease_code in Hg. repeat case_decide; simplify_eq; done. }
  apply lease_code_None in Hg as (H1 & H2 & H3). cbn [sr_Code code_agent]. rewrite decide_True by done.
  rewrite <-Hl. apply rewrite_moved; [done| |done|].
  - destruct (ID_transitions t who tok ∅ ts ms until) as (_ & _ & _ & ->). by eapply loaded_keyed.
  - rewrite (loaded_cell d id t Hl), lua_cell_renewed. by constructor.
Qed.

(** ** Queues *)

Lemma elem_of_by_score z id score : (id, score) ∈ by_score z <-> z !! id = Some score.
Proof. unfold by_score. by rewrite elem_of_SliceStable, elem_of_map_to_list. Qed.

Lemma zplace_queue t ns q score :
  zplace t = Some (ZQueue ns q, score) ->
  a_Status t = StatusNew /\ queue_value t = q /\ namespace_value t = ns /\ score = queue_score t.
Proof.
  unfold zplace, zindex_of, zscore. case_decide as Hs; [|by repeat case_decide].
  case_decide as Hq; [done|]. by intros [= <- <- <-].
Qed.

(** What a round finds at the head of a queue. *)
Lemma waiting_loaded d ns q id score :
  indexed d -> zset (queueIndexKey ns q) d !! id = Some score ->
  exists t, table d id = Some t /\ zplace t = Some (ZQueue ns q, score)
    /\ load_hot id d = Some (hot_state (normalize_agent t) id 0) /\ load_agent (agentKey id) d = Some (normalize_agent t).
Proof.
  intros Hd Hz. apply (ix_zsets _ Hd (ZQueue ns q)) in Hz as (t & Ht & Hp).
  destruct (ix_hot _ Hd _ _ Ht) as (def & Hh & Hdef). exists t. rewrite hot_state_normalize, load_table, Ht.
  rewrite <-Hdef by apply (zplace_queue _ _ _ _ Hp). done.
Qed.

Lemma queue_lease t def :
  (if decide (lease_duration_ms t 0 <= 0) then def else lease_duration_ms t 0) = lease_duration_ms t def.
Proof.
  assert (forall raw n, positive_number raw = Some n -> 0 < n) as Hpos.
  { intros raw n. unfold positive_number. case_decide; [done|]. destruct (tonumber raw); [|done]. case_decide; [|done]. congruence. }
  unfold lease_duration_ms. destruct (positive_number (metadata_value t "lease_ms")) as [n|] eqn:H1.
  { apply Hpos in H1. by rewrite decide_False by lia. }
  destruct (positive_number (metadata_value t "lease_sec")) as [n|] eqn:H2; [|done].
  apply Hpos in H2. by rewrite decide_False by lia.
Qed.

(** A round never looks past the head. *)
Lemma queue_round_head d ns q kind owner who tok ts now def w id score rest :
  indexed d -> zset (queueIndexKey ns q) d !! id = Some score ->
  exists t, table d id = Some t /\
    let '(r, d') := queue_round (id :: rest) (queueIndexKey ns q) ns q kind owner who tok ts now def w d in
    if decide ((kind = ""%string \/ a_Kind t = kind) /\ (owner = ""%string \/ a_Owner t = owner))
    then let t' := lua_claimed (normalize_agent t) who (tok id) ts (now + lease_duration_ms t def) Time.zero_time in
         r = RClaimed t' /\ moved d [LClaim id who (tok id)] d'
         /\ forall y, table d' y = if decide (y = id) then Some t' else table d y
    else r = RNotHead /\ d' = d.
Proof.
  intros Hd Hz. destruct (waiting_loaded d ns q id score Hd Hz) as (t & Ht & Hp & Hh & Hl).
  exists t. split; [done|]. destruct (zplace_queue _ _ _ _ Hp) as (Hs & Hq & Hns & _).
  cbn [queue_round]. rewrite Hh, Hl. rewrite hot_state_normalize. cbn [hot_state ht_Status ht_Queue ht_NamespaceID ht_Kind ht_Owner].
  rewrite decide_False by tauto. rewrite decide_False by tauto.
  case_decide as Hk; [rewrite decide_False by tauto; done|]. case_decide as Ho; [rewrite decide_False by tauto; done|].
  unfold queue_claim. cbn zeta iota beta.
  rewrite decide_True by (destruct (decide (kind = "")%string), (decide (a_Kind t = kind)), (decide (owner = "")%string),
    (decide (a_Owner t = owner)); tauto).
  change (ht_LeaseMS (hot_state t id 0)) with (lease_duration_ms t 0). rewrite queue_lease. split; [done|]. rewrite <-Hl.
  split; [|intros y; apply (change_table w id EventClaimed ts who)].
  apply (change_moved w id EventClaimed ts who _ def); [done| |intros Hnew; clear -Hnew; by destruct t|done|].
  - rewrite (proj1 (ID_transitions _ who (tok id) ∅ ts _ _)). by eapply loaded_keyed.
  - rewrite (loaded_cell d id _ Hl), lua_cell_claimed. constructor. by destruct t.
Qed.

Lemma ZRANGE_cons key n d id rest :
  ZRANGE key n d = id :: rest -> exists score, zset key d !! id = Some score.
Proof.
  unfold ZRANGE. intros H. assert (id ∈ (by_score (zset key d)).*1) as Hin.
  { apply (subseteq_take n). rewrite H. by left. }
  apply list_elem_of_fmap in Hin as ([? score] & -> & Hin). exists score. by apply elem_of_by_score.
Qed.

Lemma claimed_fields t who tok ts ms until :
  a_ID (lua_claimed (normalize_agent t) who tok ts ms until) = a_ID t
  /\ a_Owner (lua_claimed (normalize_agent t) who tok ts ms until) = who
  /\ a_LeaseToken (lua_claimed (normalize_agent t) who tok ts ms until) = tok.
Proof. by destruct t. Qed.

Lemma queue_round_moved n d ns q kind owner who tok ts now def w :
  indexed d ->
  let '(r, d') := queue_round (ZRANGE (queueIndexKey ns q) n d) (queueIndexKey ns q) ns q kind owner who tok ts now def w d in
  match r with
  | RClaimed t => a_Owner t = who /\ a_LeaseToken t = tok (a_ID t) /\ moved d [LClaim (a_ID t) who (tok (a_ID t))] d'
  | _ => d' = d
  end.
Proof.
  intros Hd. destruct (ZRANGE (queueIndexKey ns q) n d) as [|id rest] eqn:Hr; [done|].
  destruct (ZRANGE_cons _ _ _ _ _ Hr) as [score Hz].
  destruct (queue_round_head d ns q kind owner who tok ts now def w id score rest Hd Hz) as (t & Ht & H).
  destruct (queue_round _ _ _ _ _ _ _ _ _ _ _ _ d) as [r d']. case_decide as Hk; [|by destruct H as [-> ->]].
  destruct H as (-> & Hm & _).
  destruct (claimed_fields t who (tok id) ts (now + lease_duration_ms t def) Time.zero_time) as (-> & -> & ->).
  by rewrite (table_keyed d id t Hd Ht).
Qed.

Lemma batch_moved n i claimed d ns q kind owner who prefix ts now def w :
  indexed d ->
  let '(r, d') := batch_rounds n i claimed (queueIndexKey ns q) ns q kind owner who prefix ts now def w d in
  exists new, agents_of r = claimed ++ new
    /\ moved d ((fun t => LClaim (a_ID t) who (a_LeaseToken t)) <$> new) d'.
Proof.
  revert i claimed d. induction n as [|n IH]; intros i claimed d Hd; cbn [batch_rounds].
  { destruct claimed; exists []; (split; [by rewrite app_nil_r|by apply moved_refl]). }
  set (token := fun tuple_id : string => _).
  pose proof (queue_round_moved 16 d ns q kind owner who token ts now def w Hd) as Hround.
  destruct (queue_round _ _ _ _ _ _ _ token _ _ _ _ d) as [[t| |] d1].
  - destruct Hround as (Ho & Htok & Hm). specialize (IH (i + 1) (claimed ++ [t]) d1 (proj1 Hm)).
    destruct (batch_rounds _ _ _ _ _ _ _ _ _ _ _ _ _ _ d1) as [r d']. destruct IH as (new & Hnew & Hm').
    exists (t :: new). rewrite Hnew, <-app_assoc. split; [done|]. rewrite fmap_cons, Htok. by apply (moved_app d [_] d1).
  - subst d1. exists []. rewrite app_nil_r. split; [done|by apply moved_refl].
  - subst d1. destruct claimed; exists []; (split; [by rewrite app_nil_r|by apply moved_refl]).
Qed.

(** ** Completions with outputs *)

Lemma create_outputs_moved id who ts w slim outs d :
  indexed d -> Forall fresh_agent outs ->
  moved d ((fun t => LCreate (a_ID t) who) <$> outs) (create_outputs id who ts w slim outs d).2.
Proof.
  intros Hd Houts. revert d Hd. induction Houts as [|t outs Ht _ IH]; intros d Hd; [by apply moved_refl|].
  cbn [create_outputs]. set (d1 := log_change _ _ _ _ _ _ _ _).
  assert (moved d [LCreate (a_ID t) who] d1) as Hm.
  { destruct Ht as (H1 & H2 & H3). unfold d1. rewrite (proj1 (normalize_fields t)).
    apply (change_moved w (a_ID t) EventCreated ts who _ 0 (normalize_agent t)); [done|by destruct t|done|done|].
    rewrite cell_normalize. by constructor. }
  specialize (IH d1 (proj1 Hm)). destruct (create_outputs _ _ _ _ _ outs d1) as [created d2].
  by apply (moved_app d [_] d1).
Qed.

Lemma completeAndOut_moved id who tok res outs ts w slim d :
  indexed d -> Forall fresh_agent outs ->
  let '(r, d') := run_script (SCompleteAndOut id who tok res outs ts w slim) d in
  if decide (sr_Code r = "COMPLETED_AND_OUT"%string)
  then moved d (LComplete id who tok :: ((fun t => LCreate (a_ID t) who) <$> outs)) d' else d' = d.
Proof.
  intros Hd Houts. cbn [run_script]. unfold completeAndOutScript. destruct (load_agent (agentKey id) d) as [t|] eqn:Hl; [|done].
  destruct (lease_code t who tok) as [c|] eqn:Hg.
  { unfold lease_code in Hg. repeat case_decide; simplify_eq; done. }
  apply lease_code_None in Hg as (H1 & H2 & H3). cbn zeta. rewrite <-Hl. set (d1 := log_change _ _ _ _ _ _ _ _).
  assert (moved d [LComplete id who tok] d1) as Hm.
  { apply (change_moved w id EventCompleted ts who _ 0); [done| |done|done|].
    - destruct (ID_transitions t who tok res ts 0 0) as (_ & _ & -> & _). by eapply loaded_keyed.
    - rewrite (loaded_cell d id t Hl), lua_cell_completed. by constructor. }
  pose proof (create_outputs_moved id who ts w slim outs d1 (proj1 Hm) Houts) as Ho.
  destruct (create_outputs _ _ _ _ _ outs d1) as [created d2]. cbn [sr_Code]. rewrite decide_True by done.
  by apply (moved_app d [_] d1).
Qed.

(** ** Reaping *)

(** Reaping agents that are all leased; [n] have been reaped before. *)
Lemma reap_each_moved ids ts w n d :
  indexed d -> NoDup ids -> (forall id, id ∈ ids -> exists t, table d id = Some t /\ a_Status t = StatusInProgress) ->
  let '(m, d') := reap_each ids ts w n d in m = n + Z.of_nat (length ids) /\ moved d (LReap <$> ids) d'.
Proof.
  intros Hd Hnd. revert n d Hd. induction Hnd as [|id ids Hni _ IH]; intros n d Hd Hleased; cbn [reap_each].
  { split; [cbn; lia|by apply moved_refl]. }
  destruct (Hleased id) as (t & Ht & Hs); [by left|].
  assert (load_agent (agentKey id) d = Some (normalize_agent t)) as Hl by (by rewrite load_table, Ht).
  rewrite Hl. rewrite decide_True by (by destruct t). cbn zeta. set (d1 := log_change _ _ _ _ _ _ _ _).
  assert (d1 = change w id EventReleased ts "reaper" (released_data (a_Owner (normalize_agent t)) "lease_expired") 0
    (lua_released (normalize_agent t) ts) d) as Hd1 by (unfold change; by rewrite Hl).
  assert (moved d [LReap id] d1) as Hm.
  { rewrite Hd1. apply change_moved; [done| |done|done|].
    - rewrite (proj1 (proj2 (ID_transitions _ "" "" ∅ ts 0 0))). by eapply loaded_keyed.
    - rewrite (loaded_cell d id _ Hl), lua_cell_released. constructor. by destruct t. }
  specialize (IH (n + 1) d1 (proj1 Hm)).
  destruct (reap_each ids ts w (n + 1) d1) as [m d']. destruct IH as [-> Hm'].
  - intros y Hy. rewrite Hd1, change_table, decide_False by congruence. apply Hleased. by right.
  - split; [cbn [length]; lia|]. rewrite fmap_cons. by apply (moved_app d [_] d1).
Qed.

Lemma NoDup_by_score z : NoDup ((by_score z).*1).
Proof. unfold by_score. rewrite SliceStable_perm. apply NoDup_fst_map_to_list. Qed.

Lemma zplace_lease t score :
  zplace t = Some (ZLease, score) <-> a_Status t = StatusInProgress /\ score = lease_score t /\ 0 < score.
Proof.
  unfold zplace, zindex_of, zscore. case_decide as Hs.
  - rewrite Hs. case_decide; (split; [done|]); by intros [? _].
  - case_decide as Hp; [case_decide; (split; [by intros [= <-]|])|]; [intros (_ & -> & _); done|intros (_ & -> & ?); lia|].
    split; [done|tauto].
Qed.

(** The leases due at [now_ms]. *)
Definition due (now_ms : Z) (batch : nat) (d : Shard) : list string := ZRANGEBYSCORE globalLeaseKeyName now_ms batch d.

Lemma due_NoDup now_ms batch d : NoDup (due now_ms batch d).
Proof.
  unfold due, ZRANGEBYSCORE. eapply sublist_NoDup; [apply (NoDup_by_score (zset globalLeaseKeyName d))|].
  etransitivity; [apply sublist_take|]. apply fmap_sublist, sublist_filter.
Qed.

Lemma due_leased now_ms batch d id :
  indexed d -> id ∈ due now_ms batch d ->
  exists t, table d id = Some t /\ a_Status t = StatusInProgress /\ 0 < lease_score t <= now_ms.
Proof.
  intros Hd Hin. unfold due, ZRANGEBYSCORE in Hin. apply subseteq_take in Hin.
  apply list_elem_of_fmap in Hin as ([? score] & -> & [Hle Hin]%list_elem_of_filter). cbn [fst snd] in *.
  apply elem_of_by_score, (ix_zsets _ Hd ZLease) in Hin as (t & Ht & Hp). apply zplace_lease in Hp as (H1 & -> & H2).
  exists t. split_and!; [done..|lia|done].
Qed.

(** ** All scripts *)

(** What a script did, from its answer; for the reaper, from the shard it
    found. *)
Definition steps_of (s : script) (r : scriptResponse) (d : Shard) : list label :=
  let on c ls := if decide (sr_Code r = c) then ls else [] in
  match s with
  | SOut t _ who _ _ => [LCreate (a_ID t) who]
  | SUpdate id _ _ who _ _ => on "UPDATED"%string [LUpdate id who]
  | SClaim id who tok _ _ _ _ => on "CLAIMED"%string [LClaim id who tok]
  | SQueueTake _ _ _ _ who tok _ _ _ _ => (fun t => LClaim (a_ID t) who tok) <$> option_list (sr_Agent r)
  | SBatchTake _ _ _ _ who _ _ _ _ _ _ => (fun t => LClaim (a_ID t) who (a_LeaseToken t)) <$> agents_of r
  | SComplete id who tok _ _ _ =>
      if decide (sr_Code r = "ALREADY_COMPLETED"%string) then [LReplay id tok] else on "COMPLETED"%string [LComplete id who tok]
  | SRelease id who tok _ _ _ => on "RELEASED"%string [LRelease id who tok]
  | SRenew id who tok _ _ _ => on "RENEWED"%string [LRenew id who tok]
  | SCompleteAndOut id who tok _ outs _ _ _ =>
      on "COMPLETED_AND_OUT"%string (LComplete id who tok :: ((fun t => LCreate (a_ID t) who) <$> outs))
  | SReap _ now_ms batch _ => LReap <$> due now_ms (Z.to_nat batch) d
  end.

(** Agents are written under their own key. *)
Definition keyed (s : script) : Prop :=
  match s with SUpdate id t _ _ _ _ => a_ID t = id | _ => True end.

(** Agents are created new and unowned, tokens are not empty, and an update
    writes the status, owner and token it finds. *)
Definition proper (s : script) (d : Shard) : Prop :=
  match s with
  | SOut t _ _ _ _ => fresh_agent t
  | SUpdate id t _ _ _ _ =>
      a_ID t = id /\ forall current, table d id = Some current ->
        a_Status t = a_Status current /\ a_Owner t = a_Owner current /\ a_LeaseToken t = a_LeaseToken current
  | SComplete _ _ tok _ _ _ => tok <> ""%string
  | SCompleteAndOut _ _ _ _ outs _ _ _ => Forall fresh_agent outs
  | _ => True
  end.

Lemma update_moved id t ts who data w d :
  indexed d -> proper (SUpdate id t ts who data w) d ->
  let '(r, d') := run_script (SUpdate id t ts who data w) d in
  if decide (sr_Code r = "UPDATED"%string) then moved d [LUpdate id who] d' else d' = d.
Proof.
  intros Hd [Hid Hp]. cbn [run_script]. rewrite Hid. unfold updateScript.
  destruct (load_agent (agentKey id) d) as [cur|] eqn:Hl; [|done]. cbn zeta. cbn [sr_Code code_agent]. rewrite decide_True by done.
  rewrite <-Hl. apply (change_moved w id EventUpdated ts who _ 0 (normalize_agent t)); [done|by rewrite (proj1 (normalize_fields t))|done|done|].
  rewrite (loaded_cell d id _ Hl), cell_normalize. rewrite load_table in Hl. destruct (table d id) as [cur0|]; [|done].
  injection Hl as <-. rewrite cell_normalize. destruct (Hp cur0 eq_refl) as (H1 & H2 & H3). by constructor.
Qed.

Lemma script_moved s d :
  indexed d -> proper s d -> moved d (steps_of s (run_script s d).1 d) (run_script s d).2.
Proof.
  intros Hd Hp. assert (Hnone : forall d', d' = d -> moved d [] d') by (intros d' ->; by apply moved_refl).
  destruct s as [t ts who data w|id t ts who data w|id who tok ts ms until w|ns q kind owner who tok ts now def w|
    ns q kind owner who prefix ts now def limit w|id who tok res ts w|id who tok reason ts w|id who tok ts ms until|
    id who tok res outs ts w slim|ts now batch w]; cbn [steps_of].
  - by apply out_moved.
  - pose proof (update_moved id t ts who data w d Hd Hp) as H. destruct (run_script _ d) as [r d']. cbn [fst snd]. case_decide; auto.
  - pose proof (claim_moved id who tok ts ms until w d Hd) as H. destruct (run_script _ d) as [r d']. cbn [fst snd]. case_decide; auto.
  - cbn [run_script]. unfold queueTakeScript.
    pose proof (queue_round_moved 16 d ns q kind owner who (fun _ => tok) ts now def w Hd) as H.
    destruct (queue_round _ _ _ _ _ _ _ _ _ _ _ _ d) as [[t| |] d']; [|by apply Hnone..]. apply H.
  - cbn [run_script]. unfold queueBatchTakeScript.
    pose proof (batch_moved (Z.to_nat limit) 1 [] d ns q kind owner who prefix ts now def w Hd) as H.
    destruct (batch_rounds _ _ _ _ _ _ _ _ _ _ _ _ _ _ d) as [r d']. destruct H as (new & Hnew & Hm).
    cbn [fst snd]. by rewrite Hnew.
  - pose proof (complete_moved id who tok res ts w d Hd Hp) as H. destruct (run_script _ d) as [r d']. cbn [fst snd].
    destruct (decide (sr_Code r = "ALREADY_COMPLETED"%string)) as [Ha|Ha].
    + rewrite decide_False in H by (rewrite Ha; done). by apply H.
    + case_decide; [done|]. by apply Hnone, H.
  - pose proof (release_moved id who tok reason ts w d Hd) as H. destruct (run_script _ d) as [r d']. cbn [fst snd]. case_decide; auto.
  - pose proof (renew_moved id who tok ts ms until d Hd) as H. destruct (run_script _ d) as [r d']. cbn [fst snd]. case_decide; auto.
  - pose proof (completeAndOut_moved id who tok res outs ts w slim d Hd Hp) as H. destruct (run_script _ d) as [r d'].
    cbn [fst snd]. case_decide; auto.
  - cbn [run_script]. unfold reapScript. fold (due now (Z.to_nat batch) d).
    pose proof (reap_each_moved (due now (Z.to_nat batch) d) ts w 0 d Hd (due_NoDup _ _ _)) as H.
    destruct (reap_each _ ts w 0 d) as [m d']. apply H. intros id Hin.
    destruct (due_leased _ _ _ _ Hd Hin) as (t & Ht & Hs & _). by exists t.
Qed.

End Contract.
