(* ===== verification/ValkeySafety.v ===== *)
(** * Valkey: what the scripts promise together

    Scripts of any clients, in any order, on one shard: the indexes stay
    exact, queues are served in order and the reaper releases the leases that
    are due. *)

From S2P Require Import Prelude GoLib GoSort Agent Common Effects Lease SharedLease ValkeyKeys ValkeyScripts ValkeyIndex ValkeyContract.
From stdpp Require Import gmap strings list fin_maps sets sorting.
From Stdlib Require Import ZArith Lia.

Open Scope Z_scope.

Section Histories.
Context `{L : Lua} `{SI : StreamIds}.

(** ** Indexes *)

Lemma create_outputs_indexed id who ts w slim outs d :
  indexed d -> indexed (create_outputs id who ts w slim outs d).2.
Proof.
  revert d. induction outs as [|t outs IH]; intros d Hd; [done|]. cbn [create_outputs].
  set (d1 := log_change _ _ _ _ _ _ _ _).
  assert (indexed d1) as Hd1 by (by apply (change_indexed w (a_ID (normalize_agent t)) EventCreated ts who _ 0)).
  specialize (IH d1 Hd1). by destruct (create_outputs _ _ _ _ _ outs d1) as [created d2].
Qed.

Lemma complete_change w id who tok res ts t d :
  indexed d -> load_agent (agentKey id) d = Some t ->
  indexed (log_change w id EventCompleted ts who res (lua_completed t who tok res ts)
             (rewrite_agent (agentKey id) id (Some t) (lua_completed t who tok res ts) 0 d)).
Proof.
  intros Hd Hl. rewrite <-Hl. apply (change_indexed w id EventCompleted ts who res 0); [done| |done].
  destruct (ID_transitions t who tok res ts 0 0) as (_ & _ & -> & _). by eapply loaded_keyed.
Qed.

Lemma script_indexed s d : indexed d -> keyed s -> indexed (run_script s d).2.
Proof.
  intros Hd Hk. destruct s; try (by apply (script_moved _ d Hd)); cbn [run_script keyed] in *.
  - by apply (change_indexed write_events (a_ID t) EventCreated timestamp agent_id data 0); [|destruct t|].
  - unfold updateScript. destruct (load_agent (agentKey id) d) as [cur|] eqn:Hl; [|done]. cbn [snd]. rewrite <-Hl, Hk.
    by apply (change_indexed write_events id EventUpdated timestamp agent_id data 0); [|destruct t|].
  - unfold completeScript. destruct (load_agent (agentKey id) d) as [t|] eqn:Hl; [|done].
    case_decide; [by case_decide|]. destruct (lease_code t agent_id lease_token); [done|]. by apply complete_change.
  - unfold completeAndOutScript. destruct (load_agent (agentKey id) d) as [t|] eqn:Hl; [|done].
    destruct (lease_code t agent_id lease_token); [done|]. cbn zeta. set (d1 := log_change _ _ _ _ _ _ _ _).
    assert (indexed d1) as Hd1 by (by apply complete_change).
    pose proof (create_outputs_indexed id agent_id timestamp write_events slim_events outputs d1 Hd1) as H.
    by destruct (create_outputs _ _ _ _ _ outputs d1) as [created d2].
Qed.

Definition run_scripts (ss : list script) (d : Shard) : Shard := foldl (fun d s => (run_script s d).2) d ss.

Lemma scripts_indexed ss d : indexed d -> Forall keyed ss -> indexed (run_scripts ss d).
Proof.
  intros Hd Hss. revert d Hd. induction Hss as [|s ss Hs _ IH]; intros d Hd; [done|]. by apply IH, script_indexed.
Qed.

(** ** Queues *)

(** [id] is a waiting agent of the queue, with its table. *)
Definition waits (ns q : string) (d : Shard) (id : string) (t : Agent) : Prop :=
  table d id = Some t /\ a_Status t = StatusNew /\ queue_value t = q /\ namespace_value t = ns.

(** [id] comes first: by the time it was queued, then by its name. *)
Definition queue_first (ns q : string) (d : Shard) (id : string) (t : Agent) : Prop :=
  waits ns q d id t /\ forall id' t', waits ns q d id' t' ->
    queue_score t < queue_score t' \/ (queue_score t = queue_score t' /\ string_leb id id' = true).

Lemma zless_asym a b : zless a b = true -> zless b a = false.
Proof.
  unfold zless. intros H. apply orb_true_iff in H. apply orb_false_iff. destruct H as [H|[H1 H2]%andb_true_iff].
  - apply Z.ltb_lt in H. split; [apply Z.ltb_ge; lia|]. apply andb_false_iff. left. apply Z.eqb_neq. lia.
  - apply Z.eqb_eq in H1. split; [apply Z.ltb_ge; lia|]. apply andb_false_iff. right. by apply string_ltb_asym.
Qed.

Lemma zless_not_after a b :
  not_after zless a b <-> a.2 < b.2 \/ (a.2 = b.2 /\ string_leb a.1 b.1 = true).
Proof.
  unfold not_after, zless, string_ltb. rewrite orb_false_iff, andb_false_iff, Z.ltb_ge, Z.eqb_neq, negb_false_iff.
  split; [intros [H1 [H2|H2]]; [left; lia|]|].
  - destruct (Z.eq_dec a.2 b.2); [by right|left; lia].
  - intros [H|[H1 H2]]; [split; [lia|left; lia]|]. split; [lia|by right].
Qed.

Lemma zless_trans a b c : not_after zless a b -> not_after zless b c -> not_after zless a c.
Proof.
  rewrite !zless_not_after. intros [H1|[H1 H2]] [H3|[H3 H4]]; [left; lia..|]. right. split; [lia|].
  by eapply string_leb_trans.
Qed.

Lemma by_score_sorted z : StronglySorted (not_after zless) (by_score z).
Proof. apply SliceStable_sorted; [apply zless_asym|apply zless_trans]. Qed.

(** Being in a queue's ordered set is waiting in it. *)
Lemma zset_waits ns q d id score :
  indexed d -> q <> ""%string ->
  zset (queueIndexKey ns q) d !! id = Some score <-> exists t, waits ns q d id t /\ score = queue_score t.
Proof.
  intros Hd Hq. rewrite (ix_zsets _ Hd (ZQueue ns q)). split.
  - intros (t & Ht & Hp). destruct (zplace_queue _ _ _ _ Hp) as (H1 & H2 & H3 & H4). by exists t.
  - intros (t & (Ht & H1 & H2 & H3) & ->). exists t. split; [done|]. unfold zplace, zindex_of, zscore.
    rewrite !(decide_True (P := a_Status t = StatusNew)) by done. rewrite H2, H3. by rewrite !decide_False.
Qed.

(** The head of a queue, if there is one. *)
Lemma queue_head n ns q d :
  indexed d -> q <> ""%string -> (0 < n)%nat ->
  match ZRANGE (queueIndexKey ns q) n d with
  | [] => forall id t, ~ waits ns q d id t
  | id :: _ => exists t, queue_first ns q d id t
  end.
Proof.
  intros Hd Hq Hn. unfold ZRANGE. pose proof (by_score_sorted (zset (queueIndexKey ns q) d)) as Hsort.
  assert (Hin : forall id score, (id, score) ∈ by_score (zset (queueIndexKey ns q) d)
    <-> exists t, waits ns q d id t /\ score = queue_score t) by (intros; by rewrite elem_of_by_score, zset_waits).
  destruct (by_score _) as [|[id score] rest]; destruct n as [|n]; [lia| |lia|]; cbn.
  - intros id t Hw. assert ((id, queue_score t) ∈ @nil (string * Z)) as Hx by (apply Hin; by exists t). inversion Hx.
  - destruct (proj1 (Hin id score)) as (t & Hw & ->); [by left|]. exists t. split; [done|]. intros id' t' Hw'.
    assert ((id', queue_score t') ∈ (id, queue_score t) :: rest) as [[= -> ->]|Hr]%elem_of_cons by (apply Hin; by exists t').
    + right. split; [done|]. by destruct (string_leb_total id id).
    + apply StronglySorted_inv in Hsort as [_ Hall]. rewrite Forall_forall in Hall. apply (zless_not_after (id, _) (id', _)), (Hall _ Hr).
Qed.

(** A queue in its order. *)
Definition queue_order (ns q : string) (d : Shard) : list string := (by_score (zset (queueIndexKey ns q) d)).*1.

Lemma by_score_delete z id score rest : by_score z = (id, score) :: rest -> by_score (delete id z) = rest.
Proof.
  intros H. pose proof (by_score_sorted z) as Hs. rewrite H in Hs. apply StronglySorted_inv in Hs as [Hs _].
  assert (Hz : z !! id = Some score) by (apply elem_of_by_score; rewrite H; by left).
  apply (StronglySorted_unique_strong (not_after zless)); [|apply by_score_sorted|done|].
  - intros [i s1] [j s2] _ _. rewrite !zless_not_after. cbn. intros [?|[? H1]] [?|[? H2]]; [lia..|].
    subst. by rewrite (string_leb_antisymm _ _ H1 H2).
  - unfold by_score. rewrite SliceStable_perm. apply (Permutation_cons_inv (a := (id, score))). rewrite <-H.
    unfold by_score. rewrite SliceStable_perm. symmetry. by rewrite <-(map_to_list_delete z id score Hz).
Qed.

(** Claiming the head leaves the rest. *)
Lemma queue_order_claimed ns q d id rest t' d' :
  indexed d -> indexed d' -> q <> ""%string -> queue_order ns q d = id :: rest ->
  a_Status t' = StatusInProgress -> (forall y, table d' y = if decide (y = id) then Some t' else table d y) ->
  queue_order ns q d' = rest.
Proof.
  intros Hd Hd' Hq Ho Hs Htab. unfold queue_order in *. destruct (by_score (zset (queueIndexKey ns q) d)) as [|[i score] l] eqn:Hb; [done|].
  cbn in Ho. injection Ho as -> <-. apply by_score_delete in Hb as <-. f_equal. f_equal. apply map_eq. intros y.
  apply option_eq. intros sc. rewrite (zset_waits _ _ _ _ _ Hd' Hq). unfold waits. rewrite Htab.
  destruct (decide (y = id)) as [->|Hne].
  - rewrite lookup_delete_eq. split; [|done]. intros (t & ([= <-] & H & _) & _). rewrite Hs in H. done.
  - rewrite lookup_delete_ne by done. by rewrite (zset_waits _ _ _ _ _ Hd Hq).
Qed.

(** A batch without filters claims from the front. *)
Lemma batch_claims_front n i claimed ns q who prefix ts now def w d :
  indexed d -> q <> ""%string ->
  let order := take n (queue_order ns q d) in
  let '(r, d') := batch_rounds n i claimed (queueIndexKey ns q) ns q "" "" who prefix ts now def w d in
  exists new, agents_of r = claimed ++ new /\ a_ID <$> new = order
    /\ (sr_Code r = if decide ((claimed ++ new)%list = []) then "EMPTY"%string else "BATCH_CLAIMED"%string)
    /\ Forall (fun t => table d' (a_ID t) = Some t /\ a_Status t = StatusInProgress /\ a_Owner t = who) new
    /\ (forall id, id ∉ order -> table d' id = table d id).
Proof.
  intros Hd Hq. revert i claimed d Hd. induction n as [|n IH]; intros i claimed d Hd; cbn [batch_rounds].
  { destruct claimed; exists []; rewrite app_nil_r; by split_and!. }
  set (token := fun tuple_id : string => _). unfold ZRANGE. fold (queue_order ns q d).
  destruct (queue_order ns q d) as [|id rest] eqn:Ho.
  { cbn. destruct claimed; exists []; rewrite app_nil_r; by split_and!. }
  rewrite firstn_cons. assert (exists score, zset (queueIndexKey ns q) d !! id = Some score) as [score Hz].
  { unfold queue_order in Ho. destruct (by_score (zset (queueIndexKey ns q) d)) as [|[y score] l] eqn:Hb; [done|].
    cbn in Ho. injection Ho as -> _. exists score. apply elem_of_by_score. rewrite Hb. by left. }
  destruct (queue_round_head d ns q "" "" who token ts now def w id score (take 15 rest) Hd Hz) as (t & Ht & H).
  destruct (queue_round _ _ _ _ _ _ _ token _ _ _ _ d) as [r d1]. rewrite decide_True in H by (split; by left).
  cbn zeta in H. set (t' := lua_claimed _ _ _ _ _ _) in *. destruct H as (-> & [Hd1 _] & Htab).
  assert (a_ID t' = id) as Hid by (unfold t'; destruct (claimed_fields t who (token id) ts (now + lease_duration_ms t def) Time.zero_time) as (-> & _); exact (table_keyed d id t Hd Ht)).
  assert (a_Status t' = StatusInProgress /\ a_Owner t' = who) as [Hs Hown] by (by destruct t).
  pose proof (queue_order_claimed ns q d id rest t' d1 Hd Hd1 Hq Ho Hs Htab) as Ho1.
  specialize (IH (i + 1) (claimed ++ [t']) d1 Hd1). rewrite Ho1 in IH. cbn zeta in IH.
  destruct (batch_rounds _ _ _ _ _ _ _ _ _ _ _ _ _ _ d1) as [r d2]. destruct IH as (new & H1 & H2 & H3 & H4 & H5).
  assert (id ∉ rest) as Hni.
  { pose proof (NoDup_by_score (zset (queueIndexKey ns q) d)) as Hnd. fold (queue_order ns q d) in Hnd. rewrite Ho in Hnd.
    by apply NoDup_cons in Hnd as [? _]. }
  exists (t' :: new). rewrite <-app_assoc in *. cbn [app] in *. split_and!; [done|cbn; by rewrite Hid, H2|done| |].
  - constructor; [|done]. rewrite Hid, H5, Htab, decide_True; [done|done|]. intros Hin. apply Hni. by eapply subseteq_take.
  - intros y [Hy1 Hy2]%not_elem_of_cons. rewrite H5, Htab, decide_False by done. done.
Qed.

Lemma sorted_split {A} (R : A -> A -> Prop) (l1 l2 : list A) x y :
  StronglySorted R (l1 ++ l2) -> x ∈ l1 -> y ∈ l2 -> R x y.
Proof.
  induction l1 as [|z l1 IH]; cbn; intros Hs Hx Hy; [by apply elem_of_nil in Hx|].
  apply StronglySorted_inv in Hs as [Hs Hz]. apply elem_of_cons in Hx as [->|Hx]; [|by apply IH].
  rewrite Forall_forall in Hz. apply Hz, elem_of_app. by right.
Qed.

Lemma elem_of_queue_order ns q d id :
  indexed d -> q <> ""%string -> id ∈ queue_order ns q d <-> exists t, waits ns q d id t.
Proof.
  intros Hd Hq. unfold queue_order. rewrite list_elem_of_fmap. split.
  - intros ([? score] & -> & Hin). apply elem_of_by_score, (zset_waits _ _ _ _ _ Hd Hq) in Hin as (t & Ht & _). by exists t.
  - intros (t & Ht). exists (id, queue_score t). split; [done|]. apply elem_of_by_score, (zset_waits _ _ _ _ _ Hd Hq). by exists t.
Qed.

Lemma queue_order_sorted ns q d i j id id' t t' :
  indexed d -> q <> ""%string -> queue_order ns q d !! i = Some id -> queue_order ns q d !! j = Some id' -> (i <= j)%nat ->
  waits ns q d id t -> waits ns q d id' t' ->
  queue_score t < queue_score t' \/ (queue_score t = queue_score t' /\ string_leb id id' = true).
Proof.
  intros Hd Hq Hi Hj Hij Hw Hw'. unfold queue_order in *.
  apply list_lookup_fmap_Some in Hi as ([x s1] & Hx & Hi), Hj as ([y s2] & Hy & Hj).
  cbn [fst] in Hx, Hy. subst x y.
  assert (Hs : forall k x s u, by_score (zset (queueIndexKey ns q) d) !! k = Some (x, s) -> waits ns q d x u -> s = queue_score u).
  { intros k x s0 u Hk (Hu & _). apply list_elem_of_lookup_2, elem_of_by_score, (zset_waits _ _ _ _ _ Hd Hq) in Hk as (v & (Hv & _) & ->).
    congruence. }
  rewrite <-(Hs _ _ _ _ Hi Hw), <-(Hs _ _ _ _ Hj Hw'). destruct (decide (i = j)) as [->|Hne].
  - simplify_eq. right. split; [done|]. by destruct (string_leb_total id id).
  - apply (zless_not_after (_, _) (_, _)). apply (sorted_split _ (take j (by_score (zset (queueIndexKey ns q) d))) (drop j (by_score (zset (queueIndexKey ns q) d)))).
    + rewrite take_drop. apply by_score_sorted.
    + apply (list_elem_of_lookup_2 _ i). rewrite lookup_take_lt by lia. done.
    + apply (list_elem_of_lookup_2 _ 0). rewrite lookup_drop, Nat.add_0_r. done.
Qed.

Lemma take_serves_front ns q kind owner who tok ts now def w d :
  indexed d -> q <> ""%string ->
  let '(r, d') := run_script (SQueueTake ns q kind owner who tok ts now def w) d in
  match queue_order ns q d with
  | [] => r = code "EMPTY" /\ d' = d
  | id :: _ => exists t, queue_first ns q d id t /\
      if decide ((kind = ""%string \/ a_Kind t = kind) /\ (owner = ""%string \/ a_Owner t = owner))
      then let t' := lua_claimed (normalize_agent t) who tok ts (now + lease_duration_ms t def) Time.zero_time in
           r = code_agent "CLAIMED" t' /\ forall y, table d' y = if decide (y = id) then Some t' else table d y
      else r = code "NOT_QUEUE_HEAD" /\ d' = d
  end.
Proof.
  intros Hd Hq. cbn [run_script]. unfold queueTakeScript. pose proof (queue_head 16 ns q d Hd Hq ltac:(lia)) as Hhead.
  unfold ZRANGE in *. fold (queue_order ns q d) in *. destruct (queue_order ns q d) as [|id rest] eqn:Ho; [done|].
  rewrite firstn_cons in *. destruct Hhead as (t & Hf). pose proof Hf as [(Ht & Hw) _].
  assert (zset (queueIndexKey ns q) d !! id = Some (queue_score t)) as Hz by (apply zset_waits; [done..|]; by exists t).
  destruct (queue_round_head d ns q kind owner who (fun _ => tok) ts now def w id _ (take 15 rest) Hd Hz) as (t0 & Ht0 & H).
  assert (t0 = t) as -> by congruence. destruct (queue_round _ _ _ _ _ _ _ _ _ _ _ _ d) as [r d'].
  destruct (decide _) as [Hk|Hk]; cbn zeta in H.
  - destruct H as (-> & _ & Htab). exists t. by rewrite decide_True.
  - destruct H as [-> ->]. exists t. by rewrite decide_False.
Qed.

(** ** The reaper *)

Lemma reap_each_table ids ts w n d :
  indexed d -> NoDup ids -> (forall id, id ∈ ids -> exists t, table d id = Some t /\ a_Status t = StatusInProgress) ->
  forall id, table (reap_each ids ts w n d).2 id
    = if decide (id ∈ ids) then (fun t => lua_released (normalize_agent t) ts) <$> table d id else table d id.
Proof.
  intros Hd Hnd. revert n d Hd. induction Hnd as [|id ids Hni _ IH]; intros n d Hd Hleased y; cbn [reap_each].
  { rewrite decide_False; [done|]. apply not_elem_of_nil. }
  destruct (Hleased id) as (t & Ht & Hs); [by left|].
  assert (load_agent (agentKey id) d = Some (normalize_agent t)) as Hl by (by rewrite load_table, Ht).
  rewrite Hl. rewrite decide_True by (by destruct t). cbn zeta. set (d1 := log_change _ _ _ _ _ _ _ _).
  assert (d1 = change w id EventReleased ts "reaper" (released_data (a_Owner (normalize_agent t)) "lease_expired") 0
    (lua_released (normalize_agent t) ts) d) as Hd1 by (unfold change; by rewrite Hl).
  assert (Htab : forall x, table d1 x = if decide (x = id) then Some (lua_released (normalize_agent t) ts) else table d x)
    by (intros x; rewrite Hd1; apply change_table).
  rewrite IH; [|rewrite Hd1; apply change_indexed; [done| |done]|].
  - rewrite Htab. destruct (decide (y = id)) as [->|Hne].
    + rewrite decide_False by done. rewrite decide_True by (by left). by rewrite Ht.
    + destruct (decide (y ∈ ids)); [rewrite decide_True by (by right)|rewrite decide_False by (by apply not_elem_of_cons)]; done.
  - rewrite (proj1 (proj2 (ID_transitions _ "" "" ∅ ts 0 0))). by eapply loaded_keyed.
  - intros x Hx. rewrite Htab, decide_False by congruence. apply Hleased. by right.
Qed.

(** A lease that has run out by [now_ms]. *)
Definition run_out (now_ms : Z) (t : Agent) : Prop :=
  a_Status t = StatusInProgress /\ 0 < lease_score t <= now_ms.

Lemma elem_of_due_sorted now_ms d id score :
  indexed d -> (id, score) ∈ filter (fun a => a.2 <= now_ms) (by_score (zset globalLeaseKeyName d))
  <-> exists t, table d id = Some t /\ run_out now_ms t /\ score = lease_score t.
Proof.
  intros Hd. rewrite list_elem_of_filter, elem_of_by_score. cbn [snd]. rewrite (ix_zsets _ Hd ZLease). unfold run_out. split.
  - intros (Hle & t & Ht & (H1 & -> & H2)%zplace_lease). exists t. split_and!; [done..|lia|done|done].
  - intros (t & Ht & (H1 & H2) & ->). split; [lia|]. exists t. split; [done|]. apply zplace_lease. split_and!; [done..|lia].
Qed.

Lemma StronglySorted_filter_by {A} (R : A -> A -> Prop) (P : A -> Prop) `{!forall x, Decision (P x)} (l : list A) :
  StronglySorted R l -> StronglySorted R (filter P l).
Proof.
  induction 1 as [|x l _ IH Hx]; [constructor|]. rewrite filter_cons. case_decide; [|done]. constructor; [done|].
  rewrite Forall_forall in *. intros y [_ Hy]%list_elem_of_filter. by apply Hx.
Qed.

(** The leases due come first by the time they ran out; fewer than a batch
    are all. *)
Lemma due_first now_ms batch d id t :
  indexed d -> table d id = Some t -> run_out now_ms t -> id ∉ due now_ms batch d ->
  length (due now_ms batch d) = batch
  /\ forall id' t', id' ∈ due now_ms batch d -> table d id' = Some t' -> lease_score t' <= lease_score t.
Proof.
  intros Hd Ht Hr Hn. unfold due, ZRANGEBYSCORE in *. set (l := filter _ _) in *.
  assert (Hin : (id, lease_score t) ∈ l) by (apply elem_of_due_sorted; [done|]; by exists t).
  assert (Hs : StronglySorted (not_after zless) l) by (apply StronglySorted_filter_by, by_score_sorted).
  rewrite <-fmap_take in *. rewrite <-(take_drop batch l) in Hin, Hs.
  apply elem_of_app in Hin as [Hin|Hin].
  { exfalso. apply Hn, list_elem_of_fmap. by exists (id, lease_score t). }
  split.
  - rewrite length_fmap, length_take. apply list_elem_of_lookup in Hin as [i Hi]. apply lookup_lt_Some in Hi.
    rewrite length_drop in Hi. lia.
  - intros id' t' ([? score] & -> & Hin')%list_elem_of_fmap Ht'. cbn [fst] in *.
    pose proof (sorted_split _ _ _ _ _ Hs Hin' Hin) as Hlt. apply zless_not_after in Hlt. cbn in Hlt.
    assert ((s, score) ∈ l) as (t2 & Ht2 & _ & ->)%(elem_of_due_sorted _ _ _ _ Hd) by (by eapply subseteq_take).
    simplify_eq. lia.
Qed.

Lemma due_length now_ms batch d : (length (due now_ms batch d) <= batch)%nat.
Proof. unfold due, ZRANGEBYSCORE. rewrite length_take. lia. Qed.

End Histories.

(** ** Runs to evaluate *)

Definition demo_lua : Lua := Strconv.Atoi.
Definition demo_ids : StreamIds := fun n => Strconv.FormatInt (Z.of_nat n).
#[local] Existing Instance demo_lua.
#[local] Existing Instance demo_ids.

Definition job (id queued lease : string) : Agent :=
  set_NamespaceID "n" (set_Metadata
    (Some (<["queue" := "q"]> (<["namespace_id" := "n"]> (<["queue_created_ms" := queued]> {["lease_ms" := lease]})))%string)
    (NewAgent id "" 0 "job" (Some ∅))).

Definition demo_scripts : list script :=
  [ SOut (job "b" "20" "500") 1 "" ∅ true;
    SOut (job "a" "20" "") 1 "" ∅ true;
    SOut (job "c" "10" "500") 1 "" ∅ true;
    SQueueTake "n" "q" "" "" "alice" "t1" 2 1000 300 true;
    SQueueTake "n" "q" "" "" "bob" "t2" 2 1000 300 true;
    SComplete "c" "alice" "t1" ∅ 3 true ].

Definition demo_shard : Shard := run_scripts demo_scripts empty_shard.

Lemma demo_indexed : indexed demo_shard.
Proof. apply scripts_indexed; [apply indexed_empty|]. by repeat constructor. Qed.

Example demo_states :
  (fun id => (fun t => (a_Status t, a_Owner t)) <$> table demo_shard id) <$> ["a"; "b"; "c"]%string
  = [Some ("IN_PROGRESS", "bob"); Some ("NEW", ""); Some ("COMPLETED", "")]%string.
Proof. vm_compute. reflexivity. Qed.

Lemma demo_leased id t : table demo_shard id = Some t -> a_Status t = StatusInProgress -> id = "a"%string.
Proof.
  intros Ht Hs. assert (id ∈ SMEMBERS (index_key (IStatus StatusInProgress)) demo_shard) as Hin.
  { apply (ix_sets _ demo_indexed). exists t. split; [done|]. unfold set_indexes. rewrite Hs. right. by left. }
  assert (SMEMBERS (index_key (IStatus StatusInProgress)) demo_shard = {["a"%string]}) as Hset by (vm_compute; reflexivity).
  rewrite Hset in Hin. by apply elem_of_singleton in Hin.
Qed.

(** ** The theorems *)

(** C24: the indexes tell the truth.  After any scripts of any clients, in
    any order, on a shard that starts empty: a set holds an agent's identifier
    exactly if the agent's stored table has the value the set is for, an
    ordered set holds it exactly if the agent waits in that queue (or is
    leased) and with its score, each table lies under its own key, and its hot
    state agrees with it. *)
Theorem indexes_exact `{L : Lua} `{SI : StreamIds} ss :
  Forall keyed ss ->
  let d := run_scripts ss empty_shard in
  (forall ix id, id ∈ SMEMBERS (index_key ix) d <-> exists t, table d id = Some t /\ ix ∈ set_indexes t)
  /\ (forall z id score, zset (zindex_key z) d !! id = Some score
        <-> exists t, table d id = Some t /\ zplace t = Some (z, score))
  /\ (forall id t, table d id = Some t -> a_ID t = id /\ exists def, load_hot id d = Some (hot_state t id def)).
Proof.
  intros Hss d. assert (indexed d) as Hd by (apply scripts_indexed; [apply indexed_empty|done]).
  split_and!; [apply Hd|apply Hd|]. intros id t Ht. split; [by eapply table_keyed|].
  destruct (ix_hot _ Hd _ _ Ht) as (def & H & _). by exists def.
Qed.

Lemma indexes_exact_witness :
  "a"%string ∈ SMEMBERS (ownerIndexKey "bob") demo_shard /\ "b"%string ∉ SMEMBERS (ownerIndexKey "bob") demo_shard.
Proof.
  destruct (indexes_exact demo_scripts ltac:(by repeat constructor)) as (H & _).
  split.
  - apply (H (IOwner "bob")). eexists. split; [vm_compute; reflexivity|]. vm_compute. right. right. right. left.
  - intros Hb. apply (H (IOwner "bob")) in Hb as (t & Ht & Hin). vm_compute in Ht. injection Ht as <-.
    match type of Hin with ?P => assert (bool_decide P = false) as Hf by (vm_compute; reflexivity) end.
    exact (bool_decide_eq_false_1 _ Hf Hin).
Defined.

(** C25: a queue is served in order.  On a shard with exact indexes a batch
    take without kind and owner claims exactly the first [limit] waiting
    agents of the queue (by the time they were queued, then by name), in that
    order, and every other agent is left alone; a take of one claims the first
    waiting agent if it has the kind and owner asked for, under the given
    token and until its own lease ends, and otherwise claims nothing,
    whatever waits behind it. *)
Theorem queue_served_in_order `{L : Lua} `{SI : StreamIds} ns q d :
  indexed d -> q <> ""%string ->
  exists order : list string,
    (forall id, id ∈ order <-> exists t, waits ns q d id t)
    /\ (forall i j id id' t t', order !! i = Some id -> order !! j = Some id' -> (i <= j)%nat ->
          waits ns q d id t -> waits ns q d id' t' ->
          queue_score t < queue_score t' \/ (queue_score t = queue_score t' /\ string_leb id id' = true))
    /\ (forall who prefix ts now def limit w,
          let '(r, d') := run_script (SBatchTake ns q "" "" who prefix ts now def limit w) d in
          a_ID <$> agents_of r = take (Z.to_nat limit) order
          /\ Forall (fun t => table d' (a_ID t) = Some t /\ a_Status t = StatusInProgress /\ a_Owner t = who) (agents_of r)
          /\ forall id, id ∉ take (Z.to_nat limit) order -> table d' id = table d id)
    /\ (forall kind owner who tok ts now def w,
          let '(r, d') := run_script (SQueueTake ns q kind owner who tok ts now def w) d in
          match order with
          | [] => r = code "EMPTY" /\ d' = d
          | id :: _ => exists t, queue_first ns q d id t /\
              if decide ((kind = ""%string \/ a_Kind t = kind) /\ (owner = ""%string \/ a_Owner t = owner))
              then let t' := lua_claimed (normalize_agent t) who tok ts (now + lease_duration_ms t def) Time.zero_time in
                   r = code_agent "CLAIMED" t' /\ forall y, table d' y = if decide (y = id) then Some t' else table d y
              else r = code "NOT_QUEUE_HEAD" /\ d' = d
          end).
Proof.
  intros Hd Hq. exists (queue_order ns q d). split_and!.
  - intros id. by apply elem_of_queue_order.
  - intros i j id id' t t'. by apply queue_order_sorted.
  - intros who prefix ts now def limit w. cbn [run_script]. unfold queueBatchTakeScript.
    pose proof (batch_claims_front (Z.to_nat limit) 1 [] ns q who prefix ts now def w d Hd Hq) as H. cbn zeta in H.
    destruct (batch_rounds _ _ _ _ _ _ _ _ _ _ _ _ _ _ d) as [r d']. destruct H as (new & -> & H2 & _ & H4 & H5). done.
  - intros kind owner who tok ts now def w. by apply take_serves_front.
Qed.

Lemma queue_served_in_order_witness :
  exists order, (forall id, id ∈ order <-> exists t, waits "n" "q" demo_shard id t) /\ hd_error order = Some "b"%string.
Proof.
  destruct (queue_served_in_order "n" "q" demo_shard demo_indexed ltac:(done)) as (order & H1 & _ & H3 & _).
  exists order. split; [exact H1|].
  specialize (H3 "carl" "p" 5 2000 300 1 true)%string. destruct (run_script _ demo_shard) as [r d'] eqn:Hr.
  destruct H3 as [H3 _]. assert (a_ID <$> agents_of r = ["b"%string]) as Hb.
  { replace r with (run_script (SBatchTake "n" "q" "" "" "carl" "p" 5 2000 300 1 true) demo_shard).1 by (by rewrite Hr).
    vm_compute. reflexivity. }
  rewrite Hb in H3. destruct order; [discriminate H3|]. injection H3 as <-. reflexivity.
Defined.

(** The reaper releases what is due.  On a shard with exact indexes a
    reaping script releases exactly the agents in [ids]: leases that have run
    out, the earliest of them, at most [batch], and all of them when they are
    fewer; it answers with their number and leaves every other agent alone. *)
Theorem reaper_releases_due `{L : Lua} `{SI : StreamIds} ts now_ms batch w d :
  indexed d ->
  let '(r, d') := run_script (SReap ts now_ms batch w) d in
  exists ids, NoDup ids /\ sr_Count r = Z.of_nat (length ids) /\ (length ids <= Z.to_nat batch)%nat
    /\ (forall id, id ∈ ids -> exists t, table d id = Some t /\ run_out now_ms t)
    /\ (forall id t, table d id = Some t -> run_out now_ms t -> id ∉ ids ->
          length ids = Z.to_nat batch
          /\ forall id' t', id' ∈ ids -> table d id' = Some t' -> lease_score t' <= lease_score t)
    /\ (forall id, table d' id = if decide (id ∈ ids) then (fun t => lua_released (normalize_agent t) ts) <$> table d id
                                 else table d id).
Proof.
  intros Hd. cbn [run_script]. unfold reapScript. fold (due now_ms (Z.to_nat batch) d). set (ids := due _ _ _).
  assert (Hleased : forall id, id ∈ ids -> exists t, table d id = Some t /\ run_out now_ms t).
  { intros id Hin. destruct (due_leased _ _ _ _ Hd Hin) as (t & Ht & H1 & H2). by exists t. }
  assert (Hprog : forall id, id ∈ ids -> exists t, table d id = Some t /\ a_Status t = StatusInProgress).
  { intros id Hin. destruct (Hleased id Hin) as (t & Ht & H1 & _). by exists t. }
  pose proof (reap_each_moved ids ts w 0 d Hd (due_NoDup _ _ _) Hprog) as Hm.
  pose proof (reap_each_table ids ts w 0 d Hd (due_NoDup _ _ _) Hprog) as Ht.
  destruct (reap_each ids ts w 0 d) as [n d']. destruct Hm as [-> _]. exists ids.
  split_and!; [apply due_NoDup|done|apply due_length|done|intros id t; by apply due_first|done].
Qed.

Lemma reaper_releases_due_witness :
  exists ids, NoDup ids /\ length ids = 1%nat /\ ids = ["a"%string].
Proof.
  pose proof (reaper_releases_due 9 1300 200 true demo_shard demo_indexed) as H.
  destruct (run_script (SReap 9 1300 200 true) demo_shard) as [r d'] eqn:Hr.
  destruct H as (ids & H1 & H2 & _ & H4 & _). assert (sr_Count r = 1) as Hc.
  { replace r with (run_script (SReap 9 1300 200 true) demo_shard).1 by (by rewrite Hr). vm_compute. reflexivity. }
  exists ids. split_and!; [exact H1|lia|]. destruct ids as [|id [|]]; cbn in H2; [lia| |lia].
  destruct (H4 id) as (t & Ht & Hs & _); [by left|]. f_equal. exact (demo_leased id t Ht Hs).
Defined.
