(* ===== verification/ValkeyClient.v ===== *)
(** * Valkey: configuration, routing, and calls to the servers

    What a [ValkeyStore] is made of, which shard a request goes to, and the
    commands it sends.  Every command is one step on the server it goes to;
    between any two of them other clients may change any shard.  A command may
    fail before or after it has taken effect. *)

From S2P Require Import Prelude GoLib GoSort Agent Common Effects Sql ValkeyKeys ValkeyScripts.
From stdpp Require Import gmap strings list fin_maps sets.
From Stdlib Require Import ZArith Lia Ascii.

Open Scope Z_scope.

(** ** Errors *)

Inductive verror : Type :=
| VConfig (what : string)
| VMapFile (what : string)
| VNamespaceRequired
| VQueueRequired
| VNoShards
| VRemote (shardID ownerNodeID advertiseAddr : string)
| VNotLocal (shardID : string)
| VUnknownShard (shardID : string)
| VNotFound (id : string)
| VTakeUnrouted
| VMovesQueue
| VAgentIDRequired
| VLeaseTokenRequired
| VStaleToken
| VInvalidStatus
| VOwnershipMismatch (verb : string)
| VTokenMismatch
| VCode (code : string)
| VSourceShard (shardID : string)
| VCrossShard (source output : string)
| VJSON
| VClient (msg : string)
| VCtxDone.

(** ** Configuration *)

Record shardSpec : Type := MkSpec {
  sh_ShardID : string;
  sh_Addr : string;
  sh_OwnerNodeID : string;
  sh_AdvertiseAddr : string;
}.

Record ValkeyConfig : Type := MkVConfig {
  vc_Addr : string;
  vc_Shards : list string;
  vc_PublishPubSub : bool;
  vc_LeaseReapInterval : string;
  vc_LeaseReapBatch : Z;
  vc_SlimEvents : bool;
  vc_DeferEvents : bool;
  vc_EventBatchSize : Z;
  vc_ShardMapFile : string;
  vc_NodeID : string;
  vc_AdvertiseAddr : string;
}.

Definition DefaultValkeyConfig : ValkeyConfig :=
  MkVConfig "localhost:6379" [] false "1s" 200 false false 100 "" "" "".

(** [loadShardMap]: [decoded] is what reading and decoding the file gives. *)
Definition trim_shard (sh : shardSpec) : shardSpec :=
  MkSpec (Strings.TrimSpace (sh_ShardID sh)) (Strings.TrimSpace (sh_Addr sh))
    (Strings.TrimSpace (sh_OwnerNodeID sh)) (Strings.TrimSpace (sh_AdvertiseAddr sh)).

Fixpoint check_shards (shards : list shardSpec) : result verror (list shardSpec) :=
  match shards with
  | [] => Ok []
  | sh :: shards =>
      let sh := trim_shard sh in
      if decide (sh_ShardID sh = "")%string then Err (VMapFile "empty shard_id")
      else if decide (sh_Addr sh = "")%string then Err (VMapFile "empty addr")
      else match check_shards shards with
           | Ok rest => Ok (sh :: rest)
           | Err e => Err e
           end
  end.

Definition loadShardMap (decoded : string -> result verror (list shardSpec)) (path : string)
    : result verror (list shardSpec) :=
  let path := Strings.TrimSpace path in
  if decide (path = "")%string then Err (VMapFile "path is empty")
  else match decoded path with
       | Err e => Err e
       | Ok [] => Err (VMapFile "no shards")
       | Ok shards => check_shards shards
       end.

Definition collectValkeyAddrs (cfg : ValkeyConfig) : list string :=
  match vc_Shards cfg with
  | [] => let addr := Strings.TrimSpace (vc_Addr cfg) in if decide (addr = "")%string then [] else [addr]
  | shards => filter (fun shard => shard <> ""%string) (Strings.TrimSpace <$> shards)
  end.

(** The store.  Every shard gets a client, so that [shards] and
    [routingSpecs] are the same list. *)
Record ValkeyStore : Type := MkVStore {
  vs_shards : list shardSpec;
  vs_ownerRouted : bool;
  vs_nodeID : string;
  vs_advertiseAddr : string;
  vs_leaseDuration : Z;
  vs_leaseReapInterval : Z;
  vs_leaseReapBatch : Z;
  vs_publishPubSub : bool;
  vs_slimEvents : bool;
  vs_deferEvents : bool;
  vs_eventBatchSize : Z;
  vs_reaperID : string;
}.

Definition ownsShard (nodeID : string) (spec : shardSpec) : bool :=
  let nodeID := Strings.TrimSpace nodeID in
  let ownerNodeID := Strings.TrimSpace (sh_OwnerNodeID spec) in
  bool_decide (nodeID = "")%string || bool_decide (ownerNodeID = "")%string || bool_decide (ownerNodeID = nodeID).

(** The shards of a plain list of addresses. *)
Definition numbered_shards (addrs : list string) : list shardSpec :=
  imap (fun i addr => MkSpec ("valkey-" +:+ Strconv.FormatInt (Z.of_nat i)) addr "" "") addrs.

Definition shard_specs (decoded : string -> result verror (list shardSpec)) (cfg : ValkeyConfig)
    : result verror (list shardSpec) :=
  if decide (Strings.TrimSpace (vc_ShardMapFile cfg) <> "")%string then
    match loadShardMap decoded (vc_ShardMapFile cfg) with
    | Err e => Err e
    | Ok specs =>
        if decide (Strings.TrimSpace (vc_NodeID cfg) = "")%string then Err (VConfig "owner-routed mode requires node_id")
        else Ok specs
    end
  else match collectValkeyAddrs cfg with
       | [] => Err (VConfig "missing addr/shards")
       | addrs => Ok (numbered_shards addrs)
       end.

(** [NewValkeyStore] with its clients connected: [fresh] is the reaper
    identifier it draws when it has no node id, and [ParseDuration] the
    standard library's. *)
Definition NewValkeyStore (decoded : string -> result verror (list shardSpec)) (ParseDuration : string -> option Z)
    (fresh : string) (cfg : option ValkeyConfig) : result verror ValkeyStore :=
  let cfg := default DefaultValkeyConfig cfg in
  let nodeID := Strings.TrimSpace (vc_NodeID cfg) in
  let ownerRouted := bool_decide (Strings.TrimSpace (vc_ShardMapFile cfg) <> "")%string in
  match shard_specs decoded cfg with
  | Err e => Err e
  | Ok specs =>
      let raw := Strings.TrimSpace (vc_LeaseReapInterval cfg) in
      let reapInterval := if decide (raw = "")%string then Time.Second
                          else match ParseDuration raw with
                               | Some d => if decide (0 < d) then d else Time.Second
                               | None => Time.Second
                               end in
      let reapBatch := if decide (vc_LeaseReapBatch cfg <= 0) then vc_LeaseReapBatch DefaultValkeyConfig
                       else vc_LeaseReapBatch cfg in
      let batchSize := if decide (vc_EventBatchSize cfg <= 0) then 100 else vc_EventBatchSize cfg in
      if ownerRouted && bool_decide (filter (fun spec => ownsShard nodeID spec) specs = [])
      then Err (VConfig "no shards owned by node")
      else Ok (MkVStore specs ownerRouted nodeID (Strings.TrimSpace (vc_AdvertiseAddr cfg))
                 (LeaseDuration DefaultLeaseOptions) reapInterval reapBatch (vc_PublishPubSub cfg) (vc_SlimEvents cfg)
                 (vc_DeferEvents cfg) batchSize (if decide (nodeID = "")%string then fresh else nodeID))
  end.

(** ** Routing *)

Definition isSharded (s : ValkeyStore) : bool := bool_decide (1 < length (vs_shards s))%nat.

(** Map entries written in the order of the shards: the last one wins. *)
Definition byShardID (s : ValkeyStore) (shardID : string) : option shardSpec :=
  find_map (fun spec => if decide (sh_ShardID spec = shardID) then Some spec else None) (reverse (vs_shards s)).

Definition hashKey (namespaceID queue : string) : Z := fnv32a (bytes namespaceID ++ bytes ":" ++ bytes queue).

Definition remoteShardOwner (spec : shardSpec) : verror :=
  VRemote (sh_ShardID spec) (sh_OwnerNodeID spec) (sh_AdvertiseAddr spec).

Definition targetShardSpec (s : ValkeyStore) (namespaceID queue : string) : result verror shardSpec :=
  let namespaceID := Strings.TrimSpace namespaceID in
  let queue := Strings.TrimSpace queue in
  if decide (namespaceID = "")%string then Err VNamespaceRequired
  else if decide (queue = "")%string then Err VQueueRequired
  else
    let idx := Z.to_nat (hashKey namespaceID queue `mod` Z.of_nat (length (vs_shards s))) in
    match vs_shards s !! idx with
    | Some spec => Ok spec
    | None => Err VNoShards
    end.

Definition targetShard (s : ValkeyStore) (namespaceID queue : string) : result verror shardSpec :=
  match targetShardSpec s namespaceID queue with
  | Err e => Err e
  | Ok spec =>
      if vs_ownerRouted s && negb (ownsShard (vs_nodeID s) spec) then Err (remoteShardOwner spec)
      else match byShardID s (sh_ShardID spec) with
           | Some shard => Ok shard
           | None => Err (VNotLocal (sh_ShardID spec))
           end
  end.

(** The shard the request's context names, if it names one.  [byShardID] and
    [specByShardID] have the same keys. *)
Definition shardFromHint (s : ValkeyStore) (hint : string) : option (result verror shardSpec) :=
  let shardID := Strings.TrimSpace hint in
  if decide (shardID = "")%string then None
  else match byShardID s shardID with
       | Some shard =>
           if vs_ownerRouted s && negb (ownsShard (vs_nodeID s) shard) then Some (Err (remoteShardOwner shard))
           else Some (Ok shard)
       | None => Some (Err (VUnknownShard shardID))
       end.

(** [s.shards[0]]; a store always has a shard. *)
Definition first_shard (s : ValkeyStore) : result verror shardSpec :=
  match vs_shards s with shard :: _ => Ok shard | [] => Err VNoShards end.

Definition shardFromAgent (s : ValkeyStore) (t : Agent) : result verror shardSpec :=
  if isSharded s then
    let namespaceID := Strings.TrimSpace (a_NamespaceID t) in
    let namespaceID := if decide (namespaceID = "")%string
                       then Strings.TrimSpace (omget (a_Metadata t) NamespaceMetadataKey) else namespaceID in
    targetShard s namespaceID (Strings.TrimSpace (omget (a_Metadata t) QueueMetadataKey))
  else first_shard s.

Definition shardFromQuery (s : ValkeyStore) (query : option Query) : option (result verror shardSpec) :=
  if isSharded s then
    match query with
    | None => None
    | Some q =>
        let queue := Strings.TrimSpace (omget (q_Metadata q) QueueMetadataKey) in
        if decide (Strings.TrimSpace (q_NamespaceID q) = "" \/ queue = "")%string then None
        else Some (targetShard s (q_NamespaceID q) queue)
    end
  else Some (first_shard s).

Definition shardForMutation (s : ValkeyStore) (hint : string) (query : option Query) : option (result verror shardSpec) :=
  match shardFromHint s hint with
  | Some r => Some r
  | None => shardFromQuery s query
  end.

Definition orderedShardIDs (s : ValkeyStore) : list string := sort_strings (sh_ShardID <$> vs_shards s).

(** ** The environment *)

(** How a wait for work ends: the context, the deadline, or a signal. *)
Inductive wakeup : Type := WDone | WTimer | WSignal.

(** The readings of [time.Now()], the UUIDs drawn, the error of the n-th
    command (with whether it took effect before the error), what the other
    clients have done before the n-th command, the servers' clock in
    milliseconds, and how the n-th wait ends. *)
Class VkEnv : Type := {
  vclock_at : nat -> Z;
  vuuid_at : nat -> string;
  vfault_at : nat -> option (bool * string);
  vothers_at : nat -> gmap string Shard -> gmap string Shard;
  vserver_ms_at : nat -> Z;
  vwait_at : nat -> wakeup;
}.

(** Nobody else is connected and nothing fails. *)
Definition valone (E : VkEnv) : Prop :=
  (forall n, vfault_at n = None) /\ (forall n db, vothers_at n db = db).

(** [pendingValkeyEvent]. *)
Record pendingValkeyEvent : Type := MkPendingV {
  pv_event : Event;
  pv_namespaceID : string;
  pv_shardID : string;
}.

(** The servers by address, the counters into the environment, the shard each
    agent was last seen on ([idToShard]), the events handed to subscribers,
    the deferred events, the wake-up messages published, and how often
    [signalWakeups] ran. *)
Record VW : Type := MkVW {
  vw_db : gmap string Shard;
  vw_clock : nat;
  vw_uuid : nat;
  vw_call : nat;
  vw_ids : gmap string string;
  vw_notified : list Event;
  vw_queue : list pendingValkeyEvent;
  vw_published : list (string * string);
  vw_signals : nat;
}.

Definition vset_db (db : gmap string Shard) (w : VW) : VW :=
  MkVW db (vw_clock w) (vw_uuid w) (vw_call w) (vw_ids w) (vw_notified w) (vw_queue w) (vw_published w) (vw_signals w).
Definition vset_queue (q : list pendingValkeyEvent) (w : VW) : VW :=
  MkVW (vw_db w) (vw_clock w) (vw_uuid w) (vw_call w) (vw_ids w) (vw_notified w) q (vw_published w) (vw_signals w).
Definition vtick (w : VW) : VW :=
  MkVW (vw_db w) (vw_clock w) (vw_uuid w) (S (vw_call w)) (vw_ids w) (vw_notified w) (vw_queue w) (vw_published w)
    (vw_signals w).

(** What the server at an address keeps. *)
Definition server (db : gmap string Shard) (addr : string) : Shard := default empty_shard (db !! addr).

(** ** The monad *)

Definition VM (A : Type) : Type := VW -> result verror A * VW.

#[export] Instance VM_ret : MRet VM := fun A a w => (Ok a, w).
#[export] Instance VM_bind : MBind VM := fun A B f m w =>
  match m w with
  | (Ok a, w) => f a w
  | (Err e, w) => (Err e, w)
  end.

Definition vfail {A} (e : verror) : VM A := fun w => (Err e, w).
Definition vresult {A} (r : result verror A) : VM A := fun w => (r, w).
Definition vtry {A} (m : VM A) : VM (result verror A) := fun w => let '(r, w) := m w in (Ok r, w).

Fixpoint vfor_each {A B} (f : A -> VM B) (l : list A) : VM (list B) :=
  match l with
  | [] => mret []
  | x :: l => y ← f x; ys ← vfor_each f l; mret (y :: ys)
  end.

(** Texts between Lua and Go: a script writes tables with Lua's [cjson], Go
    reads them with [json.Unmarshal].  [reread t] is what comes of an agent's
    table, [reread_list l] of a list of agents' texts. *)
Class Cjson : Type := {
  reread : Agent -> result verror Agent;
  reread_list : list Agent -> result verror (list Agent);
}.

Section Calls.
Context `{E : VkEnv} `{CJ : Cjson}.

Definition vnow : VM Z := fun w =>
  (Ok (vclock_at (vw_clock w)),
   MkVW (vw_db w) (S (vw_clock w)) (vw_uuid w) (vw_call w) (vw_ids w) (vw_notified w) (vw_queue w) (vw_published w)
     (vw_signals w)).

Definition vuuid : VM string := fun w =>
  (Ok (vuuid_at (vw_uuid w)),
   MkVW (vw_db w) (vw_clock w) (S (vw_uuid w)) (vw_call w) (vw_ids w) (vw_notified w) (vw_queue w) (vw_published w)
     (vw_signals w)).

(** [s.idToShard.Store]. *)
Definition remember (id shardID : string) : VM unit := fun w =>
  (Ok tt, MkVW (vw_db w) (vw_clock w) (vw_uuid w) (vw_call w) (<[id := shardID]> (vw_ids w)) (vw_notified w) (vw_queue w)
            (vw_published w) (vw_signals w)).

(** [s.idToShard.Load]. *)
Definition recall (id : string) : VM (option string) := fun w => (Ok (vw_ids w !! id), w).

Definition notifySubscribers (event : Event) : VM unit := fun w =>
  (Ok tt, MkVW (vw_db w) (vw_clock w) (vw_uuid w) (vw_call w) (vw_ids w) (vw_notified w ++ [event]) (vw_queue w)
            (vw_published w) (vw_signals w)).

Definition signalWakeups : VM unit := fun w =>
  (Ok tt, MkVW (vw_db w) (vw_clock w) (vw_uuid w) (vw_call w) (vw_ids w) (vw_notified w) (vw_queue w) (vw_published w)
            (S (vw_signals w))).

(** The world in which the next command runs. *)
Definition vadvance (w : VW) : VW := vset_db (vothers_at (vw_call w) (vw_db w)) (vtick w).

(** A command to the server of a shard, given the command's number. *)
Definition command {A} (shard : shardSpec) (f : nat -> Shard -> A * Shard) : VM A := fun w =>
  let n := vw_call w in
  let w := vadvance w in
  let '(a, d) := f n (server (vw_db w) (sh_Addr shard)) in
  let done := vset_db (<[sh_Addr shard := d]> (vw_db w)) w in
  match vfault_at n with
  | None => (Ok a, done)
  | Some (true, msg) => (Err (VClient msg), done)
  | Some (false, msg) => (Err (VClient msg), w)
  end.

(** A command that only reads. *)
Definition fetch {A} (shard : shardSpec) (f : Shard -> A) : VM A := command shard (fun _ d => (f d, d)).

(** What decoding a script's answer gives: its lists may not survive. *)
Definition decode_list (l : option (list Agent)) : result verror (option (list Agent)) :=
  match l with
  | None => Ok None
  | Some l => match reread_list l with Ok l => Ok (Some l) | Err e => Err e end
  end.

Definition decode_response (r : scriptResponse) : result verror scriptResponse :=
  match decode_list (sr_Agents r), decode_list (sr_Created r) with
  | Ok agents, Ok created => Ok (MkResponse (sr_Code r) (sr_Agent r) agents created (sr_Count r))
  | Err e, _ | _, Err e => Err e
  end.

(** [execScriptJSON]. *)
Definition exec (shard : shardSpec) (f : Shard -> scriptResponse * Shard) : VM scriptResponse :=
  r ← command shard (fun _ => f); vresult (decode_response r).

(** [isValkeyNil]: the error's text mentions nil. *)
Definition upper_byte (c : ascii) : ascii :=
  let v := byte_val c in
  if decide (97 <= v <= 122) then ascii_of_N (Z.to_N (v - 32)) else c.

Definition isValkeyNil (e : verror) : bool :=
  match e with
  | VClient msg => Strings.Contains (of_bytes (upper_byte <$> bytes msg)) "NIL"
  | _ => false
  end.

(** A read whose nil error counts as an empty answer. *)
Definition or_nil {A} (empty : A) (m : VM A) : VM A :=
  r ← vtry m;
  match r with
  | Ok a => mret a
  | Err e => if isValkeyNil e then mret empty else vfail e
  end.

Definition waitForWakeup : VM unit := fun w =>
  match vwait_at (vw_call w) with
  | WDone => (Err VCtxDone, vtick w)
  | _ => (Ok tt, vtick w)
  end.

(** The messages known to have been published. *)
Definition published (addr payload : string) : VM unit := fun w =>
  (Ok tt, MkVW (vw_db w) (vw_clock w) (vw_uuid w) (vw_call w) (vw_ids w) (vw_notified w) (vw_queue w)
            (vw_published w ++ [(addr, payload)]) (vw_signals w)).

Definition publishWakeup (s : ValkeyStore) (shard : shardSpec) (namespaceID queue : string) : VM unit :=
  if vs_publishPubSub s then
    let payload := Strings.TrimSpace namespaceID +:+ "|" +:+ Strings.TrimSpace queue in
    r ← vtry (fetch shard (fun _ => tt));
    match r with
    | Ok _ => published (sh_Addr shard) payload
    | Err _ => mret tt
    end
  else mret tt.

End Calls.
