(* ===== verification/ValkeyStore.v ===== *)
(** * Valkey: the store's operations

    The operations of [ValkeyStore] in [src/pkg/store/valkey/store.go], as
    sequences of the commands and scripts they send. *)

From S2P Require Import Prelude GoLib GoSort Agent Common Effects Sql ValkeyKeys ValkeyScripts ValkeyContract ValkeyClient.
From stdpp Require Import gmap strings list fin_maps sets.
From Stdlib Require Import ZArith Lia.

Open Scope Z_scope.

(** ** Values *)

Section Values.
Context `{CJ : Cjson}.

Definition decodeAgent (raw : Agent) : result verror Agent :=
  match reread raw with
  | Err e => Err e
  | Ok t =>
      let t := set_Metadata (Some (default ∅ (a_Metadata t))) t in
      let ns := omget (a_Metadata t) NamespaceMetadataKey in
      let t := if decide (a_NamespaceID t = "" /\ ns <> "")%string then set_NamespaceID ns t else t in
      let rawLease := Strings.TrimSpace (omget (a_Metadata t) internalLeaseUntilMsKey) in
      if Time.IsZero (a_LeaseUntil t) then
        match Strconv.Atoi rawLease with
        | Some leaseMS => Ok (if decide (0 < leaseMS) then set_LeaseUntil (Time.of_UnixMilli leaseMS) t else t)
        | None => Ok t
        end
      else Ok t
  end.

End Values.

Definition isExpired (t : Agent) (now : Z) : bool :=
  bool_decide (0 < a_TTL t) && negb (Time.IsZero (a_CreatedAt t)) && bool_decide (Time.Add (a_CreatedAt t) (a_TTL t) < now).

Definition normalizeAgentMetadata (t : Agent) (shardID : string) : Agent :=
  let m := default ∅ (a_Metadata t) in
  let ns := Strings.TrimSpace (mget m NamespaceMetadataKey) in
  let '(m, t) := if decide (a_NamespaceID t <> "")%string then (<[NamespaceMetadataKey := a_NamespaceID t]> m, t)
                 else if decide (ns <> "")%string then (m, set_NamespaceID ns t) else (m, t) in
  let created := Strconv.FormatInt (Time.UnixMilli (a_CreatedAt t)) in
  let m := <[internalCreatedMsKey := created]> m in
  let m := if decide (Strings.TrimSpace (mget m QueueMetadataKey) <> "" /\ Strings.TrimSpace (mget m QueueCreatedMsKey) = "")%string
           then <[QueueCreatedMsKey := created]> m else m in
  let m := if Time.IsZero (a_LeaseUntil t) then delete internalLeaseUntilMsKey m
           else <[internalLeaseUntilMsKey := Strconv.FormatInt (Time.UnixMilli (a_LeaseUntil t))]> m in
  let t := if decide (shardID = "")%string then t else set_ShardID shardID t in
  set_Metadata (Some m) t.

(** [fresh] is the identifier drawn when the agent has none. *)
Definition normalizeAgentForOut (fresh : string) (t : Agent) (now : Z) (shardID : string) : Agent :=
  let t := if decide (a_ID t = "")%string then set_ID fresh t else t in
  let t := if Time.IsZero (a_CreatedAt t) then set_CreatedAt now t else t in
  let t := if decide (a_Status t = "")%string then set_Status StatusNew t else t in
  let t := set_UpdatedAt now t in
  let t := if decide (a_Version t = 0) then set_Version 1 t else t in
  let t := if decide (shardID = "")%string then t else set_ShardID shardID t in
  normalizeAgentMetadata t shardID.

Definition normalizeOutputForParent (fresh : string) (out parent : Agent) (now : Z) (shardID : string) : Agent :=
  let out := if decide (a_ID out = "")%string then set_ID fresh out else out in
  let out := if Time.IsZero (a_CreatedAt out) then set_CreatedAt now out else out in
  let out := set_UpdatedAt now out in
  let out := if decide (a_Version out = 0) then set_Version 1 out else out in
  let out := if decide (a_Status out = "")%string then set_Status StatusNew out else out in
  let out := if decide (a_ParentID out = "")%string then set_ParentID (a_ID parent) out else out in
  let out := if decide (a_TraceID out = "")%string then set_TraceID (a_TraceID parent) out else out in
  let out := if decide (a_NamespaceID out = "")%string then set_NamespaceID (a_NamespaceID parent) out else out in
  let out := if decide (shardID = "")%string then out else set_ShardID shardID out in
  normalizeAgentMetadata out shardID.

Definition matchesQueryFilters (t : Agent) (query : option Query) : bool :=
  match query with
  | None => true
  | Some q =>
      let namespaceID := if decide (a_NamespaceID t = "")%string then omget (a_Metadata t) NamespaceMetadataKey
                         else a_NamespaceID t in
      crit (q_Kind q) (a_Kind t) && crit (q_Status q) (a_Status t) && crit (q_Owner q) (a_Owner t)
      && crit (q_ParentID q) (a_ParentID t) && crit (q_TraceID q) (a_TraceID t) && crit (q_NamespaceID q) namespaceID
      && HasAllTags t (q_Tags q)
      && forallb (fun kv => bool_decide (kv.1 = "agent_id"%string)
                            || bool_decide (default ∅ (a_Metadata t) !! kv.1 = Some kv.2))
           (map_to_list (default ∅ (q_Metadata q)))
  end.

Definition extractAgentID (query : option Query) : string :=
  match query with
  | None => ""
  | Some q =>
      let id := Strings.TrimSpace (q_AgentID q) in
      if decide (id = "")%string then Strings.TrimSpace (omget (q_Metadata q) "agent_id") else id
  end.

Definition agentID_or_default (query : option Query) : string :=
  let id := extractAgentID query in if decide (id = "")%string then "agent"%string else id.

Definition agent_before (a b : Agent) : bool :=
  if decide (a_CreatedAt a = a_CreatedAt b) then string_ltb (a_ID a) (a_ID b)
  else bool_decide (a_CreatedAt a < a_CreatedAt b).

Definition sortAgents (values : list Agent) : list Agent := SliceStable agent_before values.

Definition applyAgentLimitOffset (values : list Agent) (query : option Query) : list Agent :=
  match query with None => values | Some q => paginate (q_Limit q) (q_Offset q) values end.

Definition cloneQueryWithoutPagination (query : option Query) : option Query :=
  (fun q => MkQuery (q_Kind q) (q_Status q) (q_Tags q) (q_Owner q) (q_ParentID q) (q_TraceID q) (q_NamespaceID q)
              (q_AgentID q) (q_Metadata q) 0 0) <$> query.

Definition createdEventData (t : Agent) (slim : bool) : gmap string any :=
  if slim then <["status" := VStr (a_Status t)]> (<["kind" := VStr (a_Kind t)]> {["tuple_id" := VStr (a_ID t)]})%string
  else {["agent"%string := agent_json t]}.

Definition leaseDurationFromMetadata (metadata : option (gmap string string)) (fallback : Z) : Z :=
  let positive k unit_ := n ← positive_entry metadata k; Some (int64 (n * unit_)) in
  match positive "lease_sec"%string Time.Second with
  | Some d => d
  | None => match positive "lease_ms"%string Time.Millisecond with Some d => d | None => fallback end
  end.

(** ** Hot states *)

Definition hotStateMatchesQuery (state : hotAgentState) (query : option Query) : bool :=
  match query with
  | None => true
  | Some q =>
      crit (q_Kind q) (ht_Kind state) && crit (q_Status q) (ht_Status state) && crit (q_Owner q) (ht_Owner state)
      && crit (q_NamespaceID q) (ht_NamespaceID state)
      && crit (Strings.TrimSpace (omget (q_Metadata q) QueueMetadataKey)) (ht_Queue state)
      && crit (Strings.TrimSpace (omget (q_Metadata q) NamespaceMetadataKey)) (ht_NamespaceID state)
  end.

Definition queryRequiresFullAgent (q : Query) : bool :=
  bool_decide (q_ParentID q <> "")%string || bool_decide (q_TraceID q <> "")%string || negb (bool_decide (q_Tags q = []))
  || existsb (fun kv => negb (bool_decide (kv.1 ∈ [""; "agent_id"; QueueMetadataKey; NamespaceMetadataKey]%string)))
       (map_to_list (default ∅ (q_Metadata q))).

Definition canUseQueueTakeScript (query : option Query) : bool :=
  match query with
  | None => false
  | Some q =>
      crit (q_Status q) StatusNew
      && bool_decide (Strings.TrimSpace (q_NamespaceID q) <> "")%string
      && bool_decide (Strings.TrimSpace (omget (q_Metadata q) QueueMetadataKey) <> "")%string
      && negb (queryRequiresFullAgent q)
  end.

Section Store.
Context `{L : Lua} `{SI : StreamIds} `{E : VkEnv} `{CJ : Cjson} (s : ValkeyStore).

(** Scripts write the events themselves unless the store defers them. *)
Notation write_events := (negb (vs_deferEvents s)).

(** ** Deferred events *)

(** The entry [appendEventToStreams] adds. *)
Definition event_entry (ev : Event) (namespaceID sid : string) : stream_entry :=
  MkStreamEntry sid (e_TupleID ev) (e_Type ev) (e_Kind ev) (e_Timestamp ev) (e_AgentID ev) (e_TraceID ev) (e_Version ev)
    (e_Data ev) namespaceID.

(** All commands are sent; the first failure is the answer. *)
Fixpoint append_all (shard : shardSpec) (keys : list string) (entry : string -> stream_entry) : VM unit :=
  match keys with
  | [] => mret tt
  | key :: keys =>
      r ← vtry (command shard (fun _ d => (tt, XADD key entry d)));
      rest ← vtry (append_all shard keys entry);
      match r with
      | Err e => vfail e
      | Ok _ => vresult rest
      end
  end.

Definition appendEventToStreams (shard : shardSpec) (ev : Event) (namespaceID : string) : VM unit :=
  append_all shard
    ([globalEventsKey; agentEventsStreamKey (e_TupleID ev)]
     ++ (if decide (e_TraceID ev = "")%string then [] else [traceEventsStreamKey (e_TraceID ev)]))
    (event_entry ev namespaceID).

Definition eventQueue_cap : nat := Z.to_nat (Z.max 256 (vs_eventBatchSize s * 4)).

Definition enqueueEvent (ev : Event) (namespaceID shardID : string) : VM unit := fun w =>
  if decide (length (vw_queue w) < eventQueue_cap)%nat
  then (Ok tt, vset_queue (vw_queue w ++ [MkPendingV ev namespaceID shardID]) w)
  else match byShardID s shardID with
       | None => (Ok tt, w)
       | Some shard => (_ ← vtry (appendEventToStreams shard ev namespaceID); mret tt) w
       end.

Fixpoint flushDeferredEvents (events : list pendingValkeyEvent) : VM unit :=
  match events with
  | [] => mret tt
  | pending :: events =>
      match byShardID s (pv_shardID pending) with
      | None => flushDeferredEvents events
      | Some shard =>
          _ ← vtry (appendEventToStreams shard (pv_event pending) (pv_namespaceID pending));
          flushDeferredEvents events
      end
  end.

(** What wakes the event writer. *)
Inductive writer_input : Type := WStop | WRecv | WTick.

(** One turn of [eventWriterLoop] with its buffer; [None] when it returns. *)
Definition writer_turn (input : writer_input) (buffer : list pendingValkeyEvent)
    : VM (option (list pendingValkeyEvent)) := fun w =>
  match input with
  | WStop => (_ ← flushDeferredEvents (buffer ++ vw_queue w); mret None) (vset_queue [] w)
  | WRecv =>
      match vw_queue w with
      | [] => (Ok (Some buffer), w)
      | pending :: queue =>
          let buffer := buffer ++ [pending] in
          if decide (vs_eventBatchSize s <= Z.of_nat (length buffer))
          then (_ ← flushDeferredEvents buffer; mret (Some [])) (vset_queue queue w)
          else (Ok (Some buffer), vset_queue queue w)
      end
  | WTick => (_ ← flushDeferredEvents buffer; mret (Some [])) w
  end.

Fixpoint eventWriterLoop (inputs : list writer_input) (buffer : list pendingValkeyEvent)
    : VM (option (list pendingValkeyEvent)) :=
  match inputs with
  | [] => mret (Some buffer)
  | input :: inputs =>
      o ← writer_turn input buffer;
      match o with
      | Some buffer => eventWriterLoop inputs buffer
      | None => mret None
      end
  end.

(** Tell subscribers of an event and, if events are deferred, queue it. *)
Definition announce (shard : shardSpec) (ty : string) (t : Agent) (timestamp : Z) (agentID : string)
    (data : gmap string any) : VM unit :=
  eid ← vuuid;
  let event := MkEvent eid (a_ID t) ty (a_Kind t) timestamp agentID data (a_TraceID t) (a_Version t) in
  _ ← notifySubscribers event;
  if vs_deferEvents s then enqueueEvent event (a_NamespaceID t) (sh_ShardID shard) else mret tt.

(** Wake whoever waits for the agent's queue. *)
Definition wake (shard : shardSpec) (t : Agent) : VM unit :=
  _ ← signalWakeups; publishWakeup s shard (a_NamespaceID t) (omget (a_Metadata t) QueueMetadataKey).

(** ** Reading agents *)

Definition getFromShard (shard : shardSpec) (id : string) : VM Agent :=
  raw ← or_nil None (fetch shard (get_agent (agentKey id)));
  match raw with
  | None => vfail (VNotFound id)
  | Some raw =>
      t ← vresult (decodeAgent raw);
      now ← vnow;
      if isExpired t now then vfail (VNotFound id)
      else _ ← remember (a_ID t) (sh_ShardID shard); mret (set_ShardID (sh_ShardID shard) t)
  end.

Fixpoint search_shards (id : string) (shardIDs : list string) : VM shardSpec :=
  match shardIDs with
  | [] => vfail (VNotFound id)
  | shardID :: shardIDs =>
      match byShardID s shardID with
      | None => search_shards id shardIDs
      | Some shard =>
          r ← vtry (getFromShard shard id);
          match r with
          | Ok _ => mret shard
          | Err _ => search_shards id shardIDs
          end
      end
  end.

Definition shardByID (id : string) : VM shardSpec :=
  cached ← recall id;
  match cached ≫= byShardID s with
  | Some shard =>
      r ← vtry (getFromShard shard id);
      match r with
      | Ok _ => mret shard
      | Err _ => search_shards id (orderedShardIDs s)
      end
  | None => search_shards id (orderedShardIDs s)
  end.

Definition Get (id : string) : VM Agent := shard ← shardByID id; getFromShard shard id.

Fixpoint decode_all (shardID : string) (now : Z) (values : list (string * option Agent)) : VM (list Agent) :=
  match values with
  | [] => mret []
  | (id, value) :: values =>
      match decodeAgent <$> value with
      | Some (Ok t) =>
          if isExpired t now then decode_all shardID now values
          else _ ← remember id shardID;
               ts ← decode_all shardID now values;
               mret (set_ShardID shardID t :: ts)
      | _ => decode_all shardID now values
      end
  end.

Definition getManyFromShard (shard : shardSpec) (ids : list string) : VM (list Agent) :=
  match ids with
  | [] => mret []
  | _ =>
      values ← fetch shard (fun d => (fun id => (id, get_agent (agentKey id) d)) <$> ids);
      now ← vnow;
      decode_all (sh_ShardID shard) now values
  end.

Definition getManyHotStatesFromShard (shard : shardSpec) (ids : list string) : VM (gmap string hotAgentState) :=
  match ids with
  | [] => mret ∅
  | _ => fetch shard (fun d => list_to_map (omap (fun id => (fun h => (id, h)) <$> get_hot (hotStateKey id) d) ids))
  end.

(** ** Queries *)

(** The sets a query is answered from. *)
Definition query_sources (query : option Query) : list index :=
  match query with
  | None => []
  | Some q =>
      unless_empty (q_Status q) (IStatus (q_Status q))
      ++ unless_empty (q_Kind q) (IKind (q_Kind q))
      ++ unless_empty (q_Owner q) (IOwner (q_Owner q))
      ++ unless_empty (q_ParentID q) (IParent (q_ParentID q))
      ++ unless_empty (q_TraceID q) (ITrace (q_TraceID q))
      ++ unless_empty (q_NamespaceID q) (INamespace (q_NamespaceID q))
      ++ (ITag <$> q_Tags q)
      ++ ((fun kv => IMeta kv.1 kv.2) <$> filter (fun kv => kv.1 <> "agent_id"%string) (map_to_list (default ∅ (q_Metadata q))))
  end.

Definition members (shard : shardSpec) (ix : index) : VM (list string) :=
  or_nil [] (fetch shard (fun d => elements (SMEMBERS (index_key ix) d))).

(** Keep what every further source allows. *)
Definition intersect (base : list string) (sources : list (list string)) : list string :=
  elements (foldl (fun allowed source => allowed ∩ list_to_set source) (list_to_set base : gset string) sources).

Definition shorter (a b : list string) : bool := bool_decide (length a < length b)%nat.

Definition candidateIDsForQuery (shard : shardSpec) (query : option Query) : VM (list string) :=
  sources ← vfor_each (members shard) (query_sources query);
  match SliceStable shorter sources with
  | [] => members shard IAll
  | [base] => mret base
  | base :: sources => mret (intersect base sources)
  end.

Fixpoint keep_matching (shardID : string) (query : option Query) (values : list Agent) : VM (list Agent) :=
  match values with
  | [] => mret []
  | t :: values =>
      if matchesQueryFilters t query then
        _ ← remember (a_ID t) shardID;
        ts ← keep_matching shardID query values;
        mret (set_ShardID shardID t :: ts)
      else keep_matching shardID query values
  end.

Definition queryShard (shard : shardSpec) (query : option Query) : VM (list Agent) :=
  candidateIDs ← candidateIDsForQuery shard query;
  values ← getManyFromShard shard candidateIDs;
  filtered ← keep_matching (sh_ShardID shard) query values;
  mret (sortAgents filtered).

Definition query_ (query : option Query) : VM (list Agent) :=
  match shardFromQuery s query with
  | Some (Err e) => vfail e
  | Some (Ok shard) => values ← queryShard shard query; mret (applyAgentLimitOffset values query)
  | None =>
      all ← vfor_each (fun shard => queryShard shard (cloneQueryWithoutPagination query)) (vs_shards s);
      mret (applyAgentLimitOffset (sortAgents (concat all)) query)
  end.

Definition Count (query : option Query) : VM Z :=
  values ← query_ (cloneQueryWithoutPagination query); mret (Z.of_nat (length values)).

Definition without_status (query : option Query) : option Query :=
  (fun q => MkQuery (q_Kind q) "" (q_Tags q) (q_Owner q) (q_ParentID q) (q_TraceID q) (q_NamespaceID q)
              (q_AgentID q) (q_Metadata q) (q_Limit q) (q_Offset q)) <$> query.

Definition count_statuses (values : list Agent) : gmap string Z :=
  foldl (fun counts t => <[a_Status t := default 0 (counts !! a_Status t) + 1]> counts) ∅ values.

Definition CountByStatus (query : option Query) : VM (gmap string Z) :=
  values ← query_ (without_status (cloneQueryWithoutPagination query)); mret (count_statuses values).

Fixpoint read_loop (fuel : nat) (query : option Query) (timeout deadline : Z) : VM (option (option Agent)) :=
  match fuel with
  | O => mret None
  | S fuel =>
      values ← query_ query;
      match values with
      | t :: _ => mret (Some (Some t))
      | [] =>
          if decide (timeout <= 0) then mret (Some None)
          else now ← vnow;
               if decide (deadline < now) then mret (Some None)
               else _ ← waitForWakeup; read_loop fuel query timeout deadline
      end
  end.

Definition Read (fuel : nat) (query : option Query) (timeout : Z) : VM (option (option Agent)) :=
  start ← vnow; read_loop fuel query timeout (Time.Add start timeout).

(** ** Taking work *)

Definition leaseDurationForAgent (t : Agent) : Z := leaseDurationFromMetadata (a_Metadata t) (vs_leaseDuration s).

(** What the store makes of a claim a script answered with. *)
Definition claimed_answer (shard : shardSpec) (agentID : string) (now : Z) (claimed : Agent) : VM Agent :=
  let claimed := set_ShardID (sh_ShardID shard) claimed in
  _ ← remember (a_ID claimed) (sh_ShardID shard);
  _ ← announce shard EventClaimed claimed now agentID {["agent_id"%string := VStr agentID]};
  mret claimed.

(** [claimed.LeaseUntil = now.Add(leaseDurationFromMetadata(...))]. *)
Definition hot_lease (now : Z) (claimed : Agent) : Agent :=
  set_LeaseUntil (Time.Add now (leaseDurationFromMetadata (a_Metadata claimed) (vs_leaseDuration s))) claimed.

Definition takeFromQueueHotPath (shard : shardSpec) (query : option Query) (agentID : string) : VM (option Agent) :=
  match query with
  | None => mret None
  | Some q =>
      let namespaceID := Strings.TrimSpace (q_NamespaceID q) in
      let queue := Strings.TrimSpace (omget (q_Metadata q) QueueMetadataKey) in
      if decide (namespaceID = "" \/ queue = "")%string then mret None
      else
        now ← vnow;
        leaseToken ← vuuid;
        resp ← exec shard (run_script
                 (SQueueTake namespaceID queue (Strings.TrimSpace (q_Kind q)) (Strings.TrimSpace (q_Owner q)) agentID leaseToken
                    now (Time.UnixMilli now) (Time.Milliseconds (vs_leaseDuration s)) write_events));
        if decide (sr_Code resp = "CLAIMED")%string then
          match sr_Agent resp with
          | None => vfail VJSON
          | Some raw =>
              claimed ← vresult (decodeAgent raw);
              t ← claimed_answer shard agentID now (hot_lease now claimed);
              mret (Some t)
          end
        else if decide (sr_Code resp ∈ ["EMPTY"; "NOT_FOUND"; "STATUS_CHANGED"; "NOT_QUEUE_HEAD"]%string) then mret None
        else vfail (VCode (sr_Code resp))
  end.

Fixpoint first_match (shard : shardSpec) (hotStates : gmap string hotAgentState) (query : option Query) (ids : list string)
    : VM (option Agent) :=
  match ids with
  | [] => mret None
  | id :: ids =>
      match hotStates !! id with
      | None => first_match shard hotStates query ids
      | Some state =>
          if hotStateMatchesQuery state query then
            r ← vtry (getFromShard shard id);
            match r with
            | Err _ => first_match shard hotStates query ids
            | Ok t => if matchesQueryFilters t query then mret (Some t) else first_match shard hotStates query ids
            end
          else first_match shard hotStates query ids
      end
  end.

Definition query_queue (query : option Query) : string :=
  Strings.TrimSpace (omget (query ≫= q_Metadata) QueueMetadataKey).

Definition nextTakeCandidate (shard : shardSpec) (query : option Query) : VM (option Agent) :=
  let queue := query_queue query in
  if decide (queue <> "")%string then
    let namespaceID := default ""%string (q_NamespaceID <$> query) in
    ids ← or_nil [] (fetch shard (ZRANGE (queueIndexKey namespaceID queue) 1));
    match ids with
    | [] => mret None
    | id :: _ => t ← getFromShard shard id; mret (Some t)
    end
  else
    ids ← or_nil [] (fetch shard (ZRANGE globalOrderKey 128));
    hotStates ← getManyHotStatesFromShard shard ids;
    first_match shard hotStates query ids.

Fixpoint take_attempts (attempts : nat) (shard : shardSpec) (query : option Query) (agentID : string) : VM (option Agent) :=
  match attempts with
  | O => mret None
  | S attempts =>
      candidate ← nextTakeCandidate shard query;
      match candidate with
      | None => mret None
      | Some candidate =>
          if matchesQueryFilters candidate query then
            let leaseDuration := leaseDurationForAgent candidate in
            now ← vnow;
            let leaseUntil := Time.Add now leaseDuration in
            leaseToken ← vuuid;
            resp ← exec shard (run_script
                     (SClaim (a_ID candidate) agentID leaseToken now (Time.UnixMilli leaseUntil) leaseUntil write_events));
            if decide (sr_Code resp = "CLAIMED")%string then
              match sr_Agent resp with
              | None => vfail VJSON
              | Some raw =>
                  claimed ← vresult (decodeAgent raw);
                  t ← claimed_answer shard agentID now claimed;
                  mret (Some t)
              end
            else if decide (sr_Code resp ∈ ["STATUS_CHANGED"; "NOT_FOUND"]%string)
            then take_attempts attempts shard query agentID
            else vfail (VCode (sr_Code resp))
          else if decide (query_queue query <> "")%string then mret None
          else take_attempts attempts shard query agentID
      end
  end.

(** The shard a take goes to. *)
Definition take_shard (hint : string) (query : option Query) : VM shardSpec :=
  match shardForMutation s hint query with
  | Some r => vresult r
  | None => if isSharded s then vfail VTakeUnrouted else vresult (first_shard s)
  end.

Definition take_ (hint : string) (query : option Query) : VM (option Agent) :=
  if match query with Some q => negb (crit (q_Status q) StatusNew) | None => false end then mret None
  else
    shard ← take_shard hint query;
    let agentID := agentID_or_default query in
    if canUseQueueTakeScript query then takeFromQueueHotPath shard query agentID
    else take_attempts 64 shard query agentID.

Definition Take (query : option Query) : VM (option Agent) := take_ "" query.

Fixpoint claimed_answers (shard : shardSpec) (agentID : string) (now : Z) (raws : list Agent) : VM (list Agent) :=
  match raws with
  | [] => mret []
  | raw :: raws =>
      claimed ← vresult (decodeAgent raw);
      t ← claimed_answer shard agentID now (hot_lease now claimed);
      ts ← claimed_answers shard agentID now raws;
      mret (t :: ts)
  end.

Definition batchTakeFromQueueHotPath (shard : shardSpec) (query : option Query) (agentID : string) (limit : Z)
    : VM (list Agent) :=
  match query with
  | None => mret []
  | Some q =>
      let namespaceID := Strings.TrimSpace (q_NamespaceID q) in
      let queue := Strings.TrimSpace (omget (q_Metadata q) QueueMetadataKey) in
      if decide (namespaceID = "" \/ queue = "")%string then mret []
      else
        now ← vnow;
        prefix ← vuuid;
        resp ← exec shard (run_script
                 (SBatchTake namespaceID queue (Strings.TrimSpace (q_Kind q)) (Strings.TrimSpace (q_Owner q)) agentID prefix
                    now (Time.UnixMilli now) (Time.Milliseconds (vs_leaseDuration s)) limit write_events));
        if decide (sr_Code resp = "BATCH_CLAIMED")%string then claimed_answers shard agentID now (agents_of resp)
        else if decide (sr_Code resp ∈ ["EMPTY"; "NOT_FOUND"; "STATUS_CHANGED"; "NOT_QUEUE_HEAD"]%string) then mret []
        else vfail (VCode (sr_Code resp))
  end.

Fixpoint take_each (n : nat) (query : option Query) : VM (list Agent) :=
  match n with
  | O => mret []
  | S n =>
      o ← Take query;
      match o with
      | None => mret []
      | Some t => ts ← take_each n query; mret (t :: ts)
      end
  end.

Definition BatchTake (query : option Query) (limit : Z) : VM (list Agent) :=
  if decide (limit <= 0) then mret []
  else if canUseQueueTakeScript query then
    shard ← take_shard "" query;
    batchTakeFromQueueHotPath shard query (agentID_or_default query) limit
  else take_each (Z.to_nat limit) query.

Fixpoint in_loop (fuel : nat) (hint : string) (query : option Query) (timeout deadline : Z) : VM (option (option Agent)) :=
  match fuel with
  | O => mret None
  | S fuel =>
      o ← take_ hint query;
      match o with
      | Some t => mret (Some (Some t))
      | None =>
          if decide (timeout <= 0) then mret (Some None)
          else now ← vnow;
               if decide (deadline < now) then mret (Some None)
               else _ ← waitForWakeup; in_loop fuel hint query timeout deadline
      end
  end.

Definition In_ (fuel : nat) (hint : string) (query : option Query) (timeout : Z) : VM (option (option Agent)) :=
  start ← vnow; in_loop fuel hint query timeout (Time.Add start timeout).

(** ** Changing agents *)

Definition Out (t : Agent) : VM Agent :=
  shard ← vresult (shardFromAgent s t);
  now ← vnow;
  fresh ← (if decide (a_ID t = "")%string then vuuid else mret ""%string);
  let t := normalizeAgentForOut fresh t now (sh_ShardID shard) in
  let who := omget (a_Metadata t) "agent_id" in
  resp ← exec shard (run_script (SOut t now who (createdEventData t (vs_slimEvents s)) write_events));
  if decide (sr_Code resp = "CREATED")%string then
    _ ← remember (a_ID t) (sh_ShardID shard);
    _ ← announce shard EventCreated t now who (createdEventData t (vs_slimEvents s));
    _ ← wake shard t;
    mret t
  else vfail (VCode (sr_Code resp)).

(** A new queue in the metadata of an update. *)
Definition moves_queue (updates : option (gmap string any)) (current : Agent) : bool :=
  match updates ≫= lookup "metadata"%string with
  | Some (VStrMap metadata) =>
      let queue := Strings.TrimSpace (mget metadata QueueMetadataKey) in
      bool_decide (queue <> "")%string && bool_decide (queue <> omget (a_Metadata current) QueueMetadataKey)
  | _ => false
  end.

Definition UpdateAndGet (id : string) (updates : option (gmap string any)) : VM Agent :=
  shard ← shardByID id;
  current ← getFromShard shard id;
  if isSharded s && moves_queue updates current then vfail VMovesQueue
  else
    let next := ApplyUpdates current (default ∅ updates) in
    now ← vnow;
    let next := set_Version (a_Version next + 1) (set_UpdatedAt now next) in
    let next := normalizeAgentMetadata next (sh_ShardID shard) in
    let who := omget (a_Metadata current) "agent_id" in
    resp ← exec shard (run_script (SUpdate id next (a_UpdatedAt next) who (default ∅ updates) write_events));
    if decide (sr_Code resp = "UPDATED")%string then
      match sr_Agent resp with
      | None => vfail VJSON
      | Some raw =>
          updated ← vresult (decodeAgent raw);
          let updated := set_ShardID (sh_ShardID shard) updated in
          _ ← remember (a_ID updated) (sh_ShardID shard);
          _ ← announce shard EventUpdated updated (a_UpdatedAt updated) who (default ∅ updates);
          _ ← wake shard updated;
          mret updated
      end
    else vfail (VCode (sr_Code resp)).

Definition classifyValkeyCode (verb code id : string) : verror :=
  if decide (code = "NOT_FOUND")%string then VNotFound id
  else if decide (code = "INVALID_STATUS")%string then VInvalidStatus
  else if decide (code = "OWNER_MISMATCH")%string then VOwnershipMismatch verb
  else if decide (code = "LEASE_TOKEN_MISMATCH")%string then VTokenMismatch
  else VCode code.

Definition classifyValkeyCompleteCode (code id : string) : verror :=
  if decide (code = "STALE_TOKEN")%string then VStaleToken else classifyValkeyCode "complete" code id.
Definition classifyValkeyReleaseCode (code id : string) : verror := classifyValkeyCode "release" code id.
Definition classifyValkeyRenewCode (code id : string) : verror := classifyValkeyCode "renew" code id.

(** Both arguments are required. *)
Definition lease_arguments (agentID leaseToken : string) : VM unit :=
  if decide (agentID = "")%string then vfail VAgentIDRequired
  else if decide (leaseToken = "")%string then vfail VLeaseTokenRequired
  else mret tt.

(** The agent of an answer, on its shard. *)
Definition answered (shard : shardSpec) (raw : option Agent) : VM Agent :=
  match raw with
  | None => vfail VJSON
  | Some raw =>
      t ← vresult (decodeAgent raw);
      let t := set_ShardID (sh_ShardID shard) t in
      _ ← remember (a_ID t) (sh_ShardID shard);
      mret t
  end.

Definition CompleteAndGet (id agentID leaseToken : string) (result : option (gmap string any)) : VM Agent :=
  _ ← lease_arguments agentID leaseToken;
  shard ← shardByID id;
  now ← vnow;
  let result := default ∅ result in
  resp ← exec shard (run_script (SComplete id agentID leaseToken result now write_events));
  if decide (sr_Code resp ∈ ["COMPLETED"; "ALREADY_COMPLETED"]%string) then
    t ← answered shard (sr_Agent resp);
    if decide (sr_Code resp = "ALREADY_COMPLETED")%string then mret t
    else
      _ ← announce shard EventCompleted t now agentID result;
      _ ← wake shard t;
      mret t
  else vfail (classifyValkeyCompleteCode (sr_Code resp) id).

Definition ReleaseAndGet (id agentID leaseToken reason : string) : VM Agent :=
  _ ← lease_arguments agentID leaseToken;
  shard ← shardByID id;
  now ← vnow;
  resp ← exec shard (run_script (SRelease id agentID leaseToken reason now write_events));
  if decide (sr_Code resp = "RELEASED")%string then
    t ← answered shard (sr_Agent resp);
    _ ← announce shard EventReleased t now agentID (released_data agentID reason);
    _ ← wake shard t;
    mret t
  else vfail (classifyValkeyReleaseCode (sr_Code resp) id).

Definition RenewLease (id agentID leaseToken : string) (leaseDuration : Z) : VM Agent :=
  _ ← lease_arguments agentID leaseToken;
  shard ← shardByID id;
  current ← getFromShard shard id;
  let leaseDuration := if decide (leaseDuration <= 0) then leaseDurationForAgent current else leaseDuration in
  now ← vnow;
  let leaseUntil := Time.Add now leaseDuration in
  resp ← exec shard (run_script (SRenew id agentID leaseToken now (Time.UnixMilli leaseUntil) leaseUntil));
  if decide (sr_Code resp = "RENEWED")%string then answered shard (sr_Agent resp)
  else vfail (classifyValkeyRenewCode (sr_Code resp) id).

(** Prepare the outputs of a completion; all must belong on its shard. *)
Fixpoint prepare_outputs (shard : shardSpec) (source : Agent) (now : Z) (outputs : list Agent) : VM (list Agent) :=
  match outputs with
  | [] => mret []
  | out :: outputs =>
      fresh ← (if decide (a_ID out = "")%string then vuuid else mret ""%string);
      let out := normalizeOutputForParent fresh out source now (sh_ShardID shard) in
      targetShard ← vresult (shardFromAgent s out);
      if decide (sh_ShardID targetShard <> sh_ShardID shard) then vfail (VCrossShard (sh_ShardID shard) (sh_ShardID targetShard))
      else outs ← prepare_outputs shard source now outputs; mret (out :: outs)
  end.

Definition announce_output (shard : shardSpec) (completed : Agent) (agentID : string) (now : Z) (out : Agent) : VM unit :=
  _ ← announce shard EventCreated out now agentID
        (<["parent_id"%string := VStr (a_ID completed)]> (createdEventData out (vs_slimEvents s)));
  publishWakeup s shard (a_NamespaceID out) (omget (a_Metadata out) QueueMetadataKey).

Definition CompleteAndOut (id agentID leaseToken : string) (result : option (gmap string any)) (outputs : list Agent)
    : VM (Agent * list Agent) :=
  _ ← lease_arguments agentID leaseToken;
  source ← Get id;
  shard ← vresult (match byShardID s (a_ShardID source) with Some shard => Ok shard | None => Err (VSourceShard (a_ShardID source)) end);
  now ← vnow;
  let result := default ∅ result in
  outputs ← prepare_outputs shard source now outputs;
  resp ← exec shard (run_script (SCompleteAndOut id agentID leaseToken result outputs now write_events (vs_slimEvents s)));
  if decide (sr_Code resp = "COMPLETED_AND_OUT")%string then
    completed ← answered shard (sr_Agent resp);
    created ← vfor_each (fun raw => answered shard (Some raw)) (created_of resp);
    _ ← announce shard EventCompleted completed now agentID result;
    _ ← vfor_each (announce_output shard completed agentID now) created;
    _ ← wake shard completed;
    mret (completed, created)
  else vfail (classifyValkeyCompleteCode (sr_Code resp) id).

(** ** The reaper *)

(** [SET key value NX PX ttl] and [SET key value XX PX ttl] on a lock that
    lapses: whether the value was set. *)
Definition live_leader (key : string) (now_ms : Z) (d : Shard) : option string :=
  match v_leaders d !! key with
  | Some (owner, until) => if decide (now_ms < until) then Some owner else None
  | None => None
  end.

Definition set_leader (key owner : string) (until : Z) (d : Shard) : Shard :=
  MkShard (v_agents d) (v_hot d) (v_sets d) (v_zsets d) (v_streams d) (<[key := (owner, until)]> (v_leaders d)) (v_seq d).

Definition set_nx (key owner : string) (ttl now_ms : Z) (d : Shard) : bool * Shard :=
  match live_leader key now_ms d with
  | None => (true, set_leader key owner (now_ms + ttl) d)
  | Some _ => (false, d)
  end.

Definition set_xx (key owner : string) (ttl now_ms : Z) (d : Shard) : bool * Shard :=
  match live_leader key now_ms d with
  | Some _ => (true, set_leader key owner (now_ms + ttl) d)
  | None => (false, d)
  end.

(** Whether a command succeeded with a true answer. *)
Definition succeeded (r : result verror bool) : bool := match r with Ok b => b | Err _ => false end.

Definition tryAcquireReaperLeadership (shard : shardSpec) : VM bool :=
  if vs_ownerRouted s then mret (ownsShard (vs_nodeID s) shard)
  else
    let ttl := Z.max 1000 (Time.Milliseconds (vs_leaseReapInterval s) * 3) in
    let lockKey := reaperLeaderKey (sh_ShardID shard) in
    r ← vtry (command shard (fun n => set_nx lockKey (vs_reaperID s) ttl (vserver_ms_at n)));
    if succeeded r then mret true
    else
      currentOwner ← vtry (command shard (fun n d => (live_leader lockKey (vserver_ms_at n) d, d)));
      match currentOwner with
      | Ok (Some owner) =>
          if decide (owner = vs_reaperID s) then
            r ← vtry (command shard (fun n => set_xx lockKey (vs_reaperID s) ttl (vserver_ms_at n)));
            mret (succeeded r)
          else mret false
      | _ => mret false
      end.

Definition reap_shard (now : Z) (shard : shardSpec) : VM unit :=
  if vs_ownerRouted s && negb (ownsShard (vs_nodeID s) shard) then mret tt
  else
    leader ← tryAcquireReaperLeadership shard;
    if (leader : bool) then
      r ← vtry (exec shard (run_script (SReap now (Time.UnixMilli now) (vs_leaseReapBatch s) true)));
      match r with
      | Ok resp => if decide (0 < sr_Count resp) then _ ← signalWakeups; publishWakeup s shard "" "" else mret tt
      | Err _ => mret tt
      end
    else mret tt.

Definition reapExpiredLeases : VM unit :=
  now ← vnow; _ ← vfor_each (reap_shard now) (vs_shards s); mret tt.

(** ** Events *)

Definition parse_entry (entry : stream_entry) : Event :=
  MkEvent (se_ID entry) (se_TupleID entry) (se_Type entry) (se_Kind entry) (se_Timestamp entry) (se_AgentID entry)
    (se_Data entry) (se_TraceID entry) (se_Version entry).

Definition parseStreamEntries (entries : list stream_entry) : list Event := parse_entry <$> entries.

Definition GetEvents (tupleID : string) : VM (list Event) :=
  shard ← shardByID tupleID;
  entries ← or_nil [] (fetch shard (XRANGE (agentEventsStreamKey tupleID)));
  mret (parseStreamEntries entries).

Definition event_before (a b : Event) : bool :=
  if decide (e_Timestamp a = e_Timestamp b) then string_ltb (e_ID a) (e_ID b)
  else bool_decide (e_Timestamp b < e_Timestamp a).

(** The newest [count] entries of every shard's stream. *)
Definition recent_events (count : Z) : VM (list Event) :=
  all ← vfor_each (fun shard => entries ← or_nil [] (fetch shard (fun d => take (Z.to_nat count) (reverse (XRANGE globalEventsKey d))));
                                mret (parseStreamEntries entries)) (vs_shards s);
  mret (SliceStable event_before (concat all)).

Definition GetGlobalEvents (limit offset : Z) : VM (list Event) :=
  let limit := if decide (limit <= 0) then 100 else limit in
  let count := int64 (limit + offset) in
  let count := if decide (count <= 0) then limit else count in
  all ← recent_events count;
  mret (paginate limit offset all).

Definition filterEvents (events : list Event) (q : EventQuery) : list Event :=
  filter (fun e => crit (eq_TupleID q) (e_TupleID e) && crit (eq_AgentID q) (e_AgentID e) && crit (eq_Type q) (e_Type e)
                   && crit (eq_TraceID q) (e_TraceID e)) events.

Definition QueryEvents (query : option EventQuery) : VM EventPage :=
  let q := default (MkEventQuery "" "" "" "" 0 0 "") query in
  let limit := if decide (eq_Limit q <= 0) then 100 else eq_Limit q in
  let offset := if decide (eq_Offset q < 0) then 0 else eq_Offset q in
  let count := int64 (limit + offset) in
  events ← (if decide (eq_TupleID q <> "")%string then
              shard ← shardByID (eq_TupleID q);
              entries ← or_nil [] (fetch shard (fun d => take (Z.to_nat count) (XRANGE (agentEventsStreamKey (eq_TupleID q)) d)));
              mret (parseStreamEntries entries)
            else recent_events count);
  let filtered := filterEvents events q in
  mret (MkEventPage (paginate limit offset filtered) (Z.of_nat (length filtered)) "").

(** ** The graph of related agents *)

Fixpoint dag_loop (fuel : nat) (visited : gset string) (queue : list string) (dag : DAG) : VM (option DAG) :=
  match queue with
  | [] => mret (Some dag)
  | id :: queue =>
      match fuel with
      | O => mret None
      | S fuel =>
          if decide (id ∈ visited) then dag_loop fuel visited queue dag
          else
            let visited := {[id]} ∪ visited in
            found ← vtry (Get id);
            match found with
            | Err _ => dag_loop fuel visited queue dag
            | Ok t =>
                let nodes := <[id := dag_node t]> (dag_Nodes dag) in
                let up := if decide (a_ParentID t = "")%string then [] else [a_ParentID t] in
                let dag := MkDAG nodes (dag_Edges dag ++ ((fun p => MkEdge p (a_ID t) "parent") <$> up)) in
                children ← vtry (query_ (Some (parent_query (a_ID t))));
                match children with
                | Err _ => dag_loop fuel visited (queue ++ up) dag
                | Ok children =>
                    dag_loop fuel visited (queue ++ up ++ (a_ID <$> children))
                      (MkDAG nodes (dag_Edges dag ++ ((fun child => MkEdge (a_ID t) (a_ID child) "spawned") <$> children)))
                end
            end
      end
  end.

Definition GetDAG (fuel : nat) (rootID : string) : VM (option DAG) := dag_loop fuel ∅ [rootID] (MkDAG ∅ []).

(** ** Reports *)

Definition ShardQueueStats (namespaceID queue : string) : VM (gmap string Z * Z) :=
  shard ← (if isSharded s then
             match targetShard s namespaceID queue with Ok shard => mret shard | Err _ => vfail VNoShards end
           else vresult (first_shard s));
  values ← queryShard shard (Some (MkQuery "" "" [] "" "" "" namespaceID "" (Some {[QueueMetadataKey := queue]}) 0 0));
  mret (count_statuses values, Z.of_nat (length values)).

End Store.
