(* ===== verification/ValkeySession.v ===== *)
(** * Valkey: a client beside other clients

    The operations of one store while other clients use the same servers and
    commands fail: what this client's scripts did to the servers, in the order
    they ran, and what its answers tell of that. *)

From S2P Require Import Prelude GoLib GoSort Agent Common Effects Sql Lease SharedLease ValkeyKeys ValkeyScripts ValkeyIndex ValkeyContract ValkeyClient ValkeyStore.
From stdpp Require Import gmap strings list fin_maps sets.
From Stdlib Require Import ZArith Lia.

Open Scope Z_scope.

(** What a text round trip through Lua's [cjson] keeps, when it succeeds:
    strings, and the elements of a list. *)
Class CjsonKeeps (CJ : Cjson) : Prop := {
  reread_strings : forall t t', reread t = Ok t' ->
    a_ID t' = a_ID t /\ a_Kind t' = a_Kind t /\ a_Status t' = a_Status t /\ a_Owner t' = a_Owner t
    /\ a_ParentID t' = a_ParentID t /\ a_TraceID t' = a_TraceID t /\ a_NamespaceID t' = a_NamespaceID t
    /\ a_LeaseToken t' = a_LeaseToken t /\ a_Tags t' = a_Tags t
    /\ default ∅ (a_Metadata t') = default ∅ (a_Metadata t);
  reread_list_keeps : forall l l', reread_list l = Ok l' -> l' = l;
}.

(** Steps with the address of the server they happened on. *)
Notation steps := (list (string * label)).

Definition on_server (addr : string) (own : steps) : list label := (filter (fun al => al.1 = addr) own).*2.

Lemma on_server_at addr addr' ls : on_server addr (pair addr' <$> ls) = if decide (addr = addr') then ls else [].
Proof.
  unfold on_server. induction ls as [|l ls IH]; [by case_decide|]. rewrite fmap_cons, filter_cons. cbn [fst].
  destruct (decide (addr = addr')) as [->|Hne].
  - rewrite decide_True by done. cbn. by rewrite IH.
  - by rewrite decide_False by congruence.
Qed.

Lemma on_server_app addr l1 l2 : on_server addr (l1 ++ l2) = on_server addr l1 ++ on_server addr l2.
Proof. unfold on_server. by rewrite filter_app, fmap_app. Qed.

(** The steps the other clients' changes amount to; they keep the contract
    and the indexes. *)
Class VCooperative `{Lua} (E : VkEnv) : Type := {
  vothers_labels : nat -> gmap string Shard -> steps;
  others_move n db addr : indexed (server db addr) ->
    moved (server db addr) (on_server addr (vothers_labels n db)) (server (vothers_at n db) addr);
}.

(** Where the servers stand: the number of the next command, and their data. *)
Notation vplace := (nat * gmap string Shard)%type.
Definition vplace_of (w : VW) : vplace := (vw_call w, vw_db w).

Lemma server_insert db addr d addr' : server (<[addr := d]> db) addr' = if decide (addr' = addr) then d else server db addr'.
Proof. unfold server. case_decide as Ha; [subst; by rewrite lookup_insert_eq|by rewrite lookup_insert_ne]. Qed.

Section Session.
Context `{L : Lua} `{SI : StreamIds} `{E : VkEnv} `{CJ : Cjson} `{!VCooperative E} `{!CjsonKeeps CJ}.

(** ** What a client did *)

Lemma same_data_moved d d' : indexed d -> same_data d d' -> moved d [] d'.
Proof.
  intros Hd Hs. split; [by eapply same_data_indexed|]. intros id. unfold cells. rewrite (same_data_table d d' id Hs). constructor.
Qed.

(** One command of this client: a script, with the steps it takes, or a
    command that touches neither agents nor indexes. *)
Definition effect (d : Shard) (ls : list label) (d' : Shard) : Prop :=
  (same_data d d' /\ ls = [])
  \/ exists sc, proper sc d /\ ls = steps_of sc (run_script sc d).1 d /\ d' = (run_script sc d).2.

Lemma effect_moved d ls d' : indexed d -> effect d ls d' -> moved d ls d'.
Proof.
  intros Hd [[Hs ->]|(sc & Hp & -> & ->)]; [by apply same_data_moved|by apply script_moved].
Qed.

(** The servers went from one place to another by what really ran: before
    command [n] the other clients made of the servers what the environment says
    they make of them; the rest are commands of this client.  [own] are this
    client's steps, [all] those of everybody, in the order they happened. *)
Inductive execution : steps -> steps -> vplace -> vplace -> Prop :=
| execution_none p : execution [] [] p p
| execution_others own all p n db :
    execution own all p (n, db) -> execution own (all ++ vothers_labels n db) p (S n, vothers_at n db)
| execution_wait own all p n db : execution own all p (n, db) -> execution own all p (S n, db)
| execution_own own all p n db addr ls d :
    execution own all p (n, db) -> effect (server db addr) ls d ->
    execution (own ++ (pair addr <$> ls)) (all ++ (pair addr <$> ls)) p (n, <[addr := d]> db).

Lemma execution_app own1 all1 own2 all2 p q r :
  execution own1 all1 p q -> execution own2 all2 q r -> execution (own1 ++ own2) (all1 ++ all2) p r.
Proof.
  intros H1 H2. revert p own1 all1 H1. induction H2; intros p0 own1 all1 H1.
  - by rewrite !app_nil_r.
  - rewrite app_assoc. apply execution_others. eauto.
  - apply execution_wait. eauto.
  - rewrite !app_assoc. apply execution_own; eauto.
Qed.

Lemma execution_moved own all p p' addr :
  execution own all p p' -> (forall addr, indexed (server p.2 addr)) ->
  moved (server p.2 addr) (on_server addr all) (server p'.2 addr).
Proof.
  intros H. revert addr. induction H as [p|own all p n db _ IH|own all p n db _ IH|own all p n db addr0 ls d _ IH He];
    intros addr Hi; cbn [snd] in *.
  - by apply moved_refl.
  - rewrite on_server_app. eapply moved_app; [by apply IH|]. apply others_move. exact (proj1 (IH addr Hi)).
  - by apply IH.
  - rewrite on_server_app, on_server_at, server_insert. eapply moved_app; [by apply IH|].
    pose proof (proj1 (IH addr Hi)) as Hd. case_decide as Ha; [subst addr|by apply moved_refl].
    by apply effect_moved.
Qed.

(** Nobody else took a step. *)
Lemma execution_own_only own all p p' :
  execution own all p p' -> (forall n db, vothers_labels n db = []) -> all = own.
Proof. intros H Hn. induction H; [done|by rewrite Hn, app_nil_r|done|by f_equal]. Qed.

Definition servers_indexed (w : VW) : Prop := forall addr, indexed (server (vw_db w) addr).

Definition reaches (own : steps) (w w' : VW) : Prop := exists all, execution own all (vplace_of w) (vplace_of w').

Lemma reaches_indexed own w w' : reaches own w w' -> servers_indexed w -> servers_indexed w'.
Proof. intros (all & H) Hw addr. exact (proj1 (execution_moved _ _ _ _ addr H Hw)). Qed.

Lemma reaches_refl w w' : vplace_of w' = vplace_of w -> reaches [] w w'.
Proof. intros Heq. exists []. rewrite Heq. constructor. Qed.

Lemma reaches_app own1 own2 w1 w2 w3 : reaches own1 w1 w2 -> reaches own2 w2 w3 -> reaches (own1 ++ own2) w1 w3.
Proof. intros (all1 & H1) (all2 & H2). exists (all1 ++ all2). by eapply execution_app. Qed.

(** [m] does what [Q] says of its answer and its steps. *)
Definition vserves {A} (m : VM A) (Q : result verror A -> steps -> Prop) : Prop :=
  forall w, servers_indexed w -> exists own, Q (m w).1 own /\ reaches own w (m w).2.

(** No steps of its own; on success the answer satisfies [P]. *)
Definition quiet {A} (m : VM A) (P : A -> Prop) : Prop :=
  vserves m (fun r own => own = [] /\ match r with Ok a => P a | Err _ => True end).

Lemma vserves_mono {A} (m : VM A) Q Q' : vserves m Q -> (forall r own, Q r own -> Q' r own) -> vserves m Q'.
Proof. intros H HQ w Hw. destruct (H w Hw) as (own & Hq & Hr). exists own. auto. Qed.

Lemma valkey_quiet_mono {A} (m : VM A) (P P' : A -> Prop) : quiet m P -> (forall a, P a -> P' a) -> quiet m P'.
Proof. intros H HP. eapply vserves_mono; [exact H|]. intros [a|e] own [-> Ha]; auto. Qed.

Lemma quiet_ret {A} (a : A) (P : A -> Prop) : P a -> quiet (mret a) P.
Proof. intros Ha w Hw. exists []. split; [done|]. by apply reaches_refl. Qed.

Lemma vserves_ret {A} (a : A) (Q : result verror A -> steps -> Prop) : Q (Ok a) [] -> vserves (mret a) Q.
Proof. intros Ha w Hw. exists []. split; [done|]. by apply reaches_refl. Qed.

Lemma quiet_result {A} (r : result verror A) (P : A -> Prop) :
  match r with Ok a => P a | Err _ => True end -> quiet (vresult r) P.
Proof. intros Ha w Hw. exists []. split; [done|]. by apply reaches_refl. Qed.

Lemma quiet_fail {A} e (P : A -> Prop) : quiet (vfail e) P.
Proof. by apply (quiet_result (Err e)). Qed.

Lemma vserves_bind {A B} (m : VM A) (f : A -> VM B) Q1 Q :
  vserves m Q1 -> (forall e own, Q1 (Err e) own -> Q (Err e) own) ->
  (forall a own1, Q1 (Ok a) own1 -> vserves (f a) (fun r own2 => Q r (own1 ++ own2))) ->
  vserves (m ≫= f) Q.
Proof.
  intros Hm He Hf w Hw. destruct (Hm w Hw) as (own1 & Hq & Hr). unfold mbind, VM_bind. destruct (m w) as [[a|e] w1].
  - destruct (Hf a own1 Hq w1 (reaches_indexed _ _ _ Hr Hw)) as (own2 & Hq2 & Hr2). exists (own1 ++ own2).
    split; [done|]. by eapply reaches_app.
  - exists own1. split; [by apply He|done].
Qed.

(** A quiet part in front. *)
Lemma vserves_after {A B} (m : VM A) (f : A -> VM B) P Q :
  quiet m P -> (forall e, Q (Err e) []) -> (forall a, P a -> vserves (f a) Q) -> vserves (m ≫= f) Q.
Proof.
  intros Hm He Hf. eapply vserves_bind; [exact Hm|intros e own [-> _]; apply He|]. intros a own [-> Ha]. by apply Hf.
Qed.

Lemma quiet_bind {A B} (m : VM A) (f : A -> VM B) P P' :
  quiet m P -> (forall a, P a -> quiet (f a) P') -> quiet (m ≫= f) P'.
Proof. intros Hm Hf. eapply vserves_after; [exact Hm|done|exact Hf]. Qed.

Lemma quiet_try {A} (m : VM A) (P : A -> Prop) :
  quiet m P -> quiet (vtry m) (fun r => match r with Ok a => P a | Err _ => True end).
Proof. intros Hm w Hw. destruct (Hm w Hw) as (own & Hq & Hr). exists own. unfold vtry. by destruct (m w). Qed.

(** Code that only works on the store's own fields. *)
Definition untouched {A} (m : VM A) : Prop := forall w, vplace_of (m w).2 = vplace_of w /\ exists a, (m w).1 = Ok a.

Lemma quiet_untouched {A} (m : VM A) : untouched m -> quiet m (fun _ => True).
Proof. intros H w Hw. exists []. destruct (H w) as [Hdb [a ->]]. split; [done|]. by apply reaches_refl. Qed.

(** ** Commands *)

Lemma advance_reaches w : reaches [] w (vadvance w).
Proof. eexists. exact (execution_others _ _ _ _ _ (execution_none _)). Qed.

(** A command: refused, carried out, or carried out and its answer lost. *)
Lemma command_serves {A} shard (f : nat -> Shard -> A * Shard) (Q : result verror A -> steps -> Prop) :
  (forall e, Q (Err e) []) ->
  (forall n d, indexed d -> exists ls, effect d ls (f n d).2
     /\ Q (Ok (f n d).1) (pair (sh_Addr shard) <$> ls) /\ forall e, Q (Err e) (pair (sh_Addr shard) <$> ls)) ->
  vserves (command shard f) Q.
Proof.
  intros He Hf w Hw. unfold command. pose proof (advance_reaches w) as Ha.
  destruct (Hf (vw_call w) (server (vw_db (vadvance w)) (sh_Addr shard)) (reaches_indexed _ _ _ Ha Hw _)) as (ls & Hm & Hq & Hq').
  destruct (f (vw_call w) _) as [a d] eqn:Hfd. cbn [fst snd] in *.
  assert (Hdone : reaches (pair (sh_Addr shard) <$> ls) w
            (vset_db (<[sh_Addr shard := d]> (vw_db (vadvance w))) (vadvance w))).
  { rewrite <-(app_nil_l (pair _ <$> ls)). eapply reaches_app; [exact Ha|]. eexists.
    exact (execution_own _ _ _ _ _ _ _ _ (execution_none _) Hm). }
  destruct (vfault_at (vw_call w)) as [[[] msg]|].
  - eexists. split; [apply Hq'|exact Hdone].
  - eexists. split; [apply He|exact Ha].
  - eexists. split; [exact Hq|exact Hdone].
Qed.

Lemma command_quiet {A} shard (f : nat -> Shard -> A * Shard) :
  (forall n d, same_data d (f n d).2) -> quiet (command shard f) (fun _ => True).
Proof.
  intros Hf. apply command_serves; [done|]. intros n d Hd. exists []. split; [by left|done].
Qed.

Lemma fetch_quiet {A} shard (f : Shard -> A) : quiet (fetch shard f) (fun _ => True).
Proof. by apply command_quiet. Qed.

Lemma or_nil_quiet {A} (empty : A) m : quiet m (fun _ => True) -> quiet (or_nil empty m) (fun _ => True).
Proof.
  intros Hm. eapply quiet_bind; [apply quiet_try, Hm|]. intros [a|e] _; [by apply quiet_ret|].
  destruct (isValkeyNil e); [by apply quiet_ret|apply quiet_fail].
Qed.

Lemma for_each_quiet {A B} (f : A -> VM B) l : (forall x, quiet (f x) (fun _ => True)) -> quiet (vfor_each f l) (fun _ => True).
Proof.
  intros Hf. induction l as [|x l IH]; cbn [vfor_each]; [by apply quiet_ret|].
  eapply quiet_bind; [apply Hf|]. intros y _. eapply quiet_bind; [exact IH|]. intros ys _. by apply quiet_ret.
Qed.

(** What a script did, from its answer; without one it did not run, or its
    answer was lost. *)
Definition script_told (shard : shardSpec) (sc : script) (r : result verror scriptResponse) (own : steps) : Prop :=
  match r with
  | Ok resp => exists d, indexed d /\ resp = (run_script sc d).1 /\ own = pair (sh_Addr shard) <$> steps_of sc resp d
  | Err _ => own = [] \/ exists d, indexed d /\ own = pair (sh_Addr shard) <$> steps_of sc (run_script sc d).1 d
  end.

Lemma decode_response_keeps r r' : decode_response r = Ok r' -> r' = r.
Proof.
  assert (Hl : forall l l', decode_list l = Ok l' -> l' = l).
  { intros [l|] l'; cbn; [|congruence]. destruct (reread_list l) as [k|] eqn:Hk; [|done]. apply reread_list_keeps in Hk as ->. congruence. }
  unfold decode_response. destruct (decode_list (sr_Agents r)) as [x|] eqn:H1; [|done].
  destruct (decode_list (sr_Created r)) as [y|] eqn:H2; [|done]. apply Hl in H1 as ->, H2 as ->. intros [= <-]. by destruct r.
Qed.

Lemma exec_serves shard sc : (forall d, proper sc d) -> vserves (exec shard (run_script sc)) (script_told shard sc).
Proof.
  intros Hp. unfold exec. eapply (vserves_bind _ _ (script_told shard sc)).
  - apply command_serves; [by left|]. intros _ d Hd. exists (steps_of sc (run_script sc d).1 d).
    split_and!; [by right; exists sc|by exists d|]. intros e. right. by exists d.
  - done.
  - intros resp own (d & Hd & -> & ->). intros w Hw. exists []. rewrite app_nil_r. split; [|by apply reaches_refl]. cbn.
    destruct (decode_response _) as [r|e] eqn:Hr.
    + apply decode_response_keeps in Hr as ->. by exists d.
    + right. by exists d.
Qed.

(** The steps of a request that failed are of its kind. *)
Definition of_kind (K : label -> Prop) (own : steps) : Prop := Forall (fun al => K al.2) own.

Lemma of_kind_at (K : label -> Prop) addr ls : Forall K ls -> of_kind K (pair addr <$> ls).
Proof. intros H. unfold of_kind. by rewrite Forall_fmap. Qed.

End Session.

(** ** Automation: quiet code *)

Create HintDb vquiet.

(** Step through code that has no steps of its own. *)
Ltac quiet_step :=
  match goal with
  | |- quiet (mret _) _ => by apply quiet_ret
  | |- quiet (vfail _) _ => apply quiet_fail
  | |- quiet (vresult ?r) (fun _ => True) => apply quiet_result; by destruct r
  | |- quiet (vtry _) _ => eapply valkey_quiet_mono; [apply (quiet_try _ (fun _ => True))|done]
  | |- quiet (or_nil _ _) _ => apply or_nil_quiet
  | |- quiet (fetch _ _) _ => apply fetch_quiet
  | |- quiet (vfor_each _ _) _ => apply for_each_quiet; intros ?
  | |- quiet (_ ≫= _) _ => eapply (quiet_bind _ _ (fun _ => True)); [|intros ? _]
  | |- quiet (if ?b then _ else _) _ => destruct b
  | |- quiet (match ?x with _ => _ end) _ => destruct x
  end.

Ltac quiet_code := repeat first [solve [eauto with vquiet nocore] | quiet_step]; try done.

Ltac no_steps := first [done | intros; constructor].

(** The steps of a script are of the kind its request asks for. *)
Ltac steps_kind :=
  intros; apply of_kind_at; cbn [steps_of]; repeat case_decide;
  rewrite ?Forall_fmap; repeat first [apply Forall_nil_2 | apply Forall_cons_2]; try apply Forall_true; eauto.

#[local] Hint Constructors Forall : core.

Section Operations.
Context `{L : Lua} `{SI : StreamIds} `{E : VkEnv} `{CJ : Cjson} `{!VCooperative E} `{!CjsonKeeps CJ} (s : ValkeyStore).

Lemma vnow_quiet : quiet vnow (fun _ => True).
Proof. apply quiet_untouched. intros w. split; [done|by eexists]. Qed.
Lemma vuuid_quiet : quiet vuuid (fun _ => True).
Proof. apply quiet_untouched. intros w. split; [done|by eexists]. Qed.
Lemma remember_quiet id sh : quiet (remember id sh) (fun _ => True).
Proof. apply quiet_untouched. intros w. split; [done|by eexists]. Qed.
Lemma recall_quiet id : quiet (recall id) (fun _ => True).
Proof. apply quiet_untouched. intros w. split; [done|by eexists]. Qed.
Lemma notify_quiet e : quiet (notifySubscribers e) (fun _ => True).
Proof. apply quiet_untouched. intros w. split; [done|by eexists]. Qed.
Lemma signal_quiet : quiet signalWakeups (fun _ => True).
Proof. apply quiet_untouched. intros w. split; [done|by eexists]. Qed.
Lemma published_quiet addr p : quiet (published addr p) (fun _ => True).
Proof. apply quiet_untouched. intros w. split; [done|by eexists]. Qed.
Hint Resolve vnow_quiet vuuid_quiet remember_quiet recall_quiet notify_quiet signal_quiet published_quiet : vquiet.

Lemma wait_quiet : quiet waitForWakeup (fun _ => True).
Proof.
  intros w Hw. exists []. unfold waitForWakeup.
  destruct (vwait_at _); (split; [done|]); eexists; exact (execution_wait _ _ _ _ _ (execution_none _)).
Qed.

Lemma publish_quiet shard ns q : quiet (publishWakeup s shard ns q) (fun _ => True).
Proof. unfold publishWakeup. quiet_code. Qed.
Hint Resolve publish_quiet wait_quiet : vquiet.

Lemma append_all_quiet shard keys entry : quiet (append_all shard keys entry) (fun _ => True).
Proof.
  induction keys as [|key keys IH]; cbn [append_all]; [by apply quiet_ret|]. repeat quiet_step; [|exact IH].
  by apply command_quiet.
Qed.

Lemma enqueue_quiet ev ns sh : quiet (enqueueEvent s ev ns sh) (fun _ => True).
Proof.
  intros w Hw. unfold enqueueEvent. case_decide.
  { exists []. split; [done|by apply reaches_refl]. }
  destruct (byShardID s sh) as [shard|]; [|exists []; split; [done|by apply reaches_refl]].
  assert (quiet (_ ← vtry (appendEventToStreams shard ev ns); mret tt) (fun _ => True)) as Hq.
  { repeat quiet_step. apply append_all_quiet. }
  exact (Hq w Hw).
Qed.
Hint Resolve enqueue_quiet : vquiet.

Lemma announce_quiet shard ty t ts who data : quiet (announce s shard ty t ts who data) (fun _ => True).
Proof. unfold announce. quiet_code. Qed.

Lemma wake_quiet shard t : quiet (wake s shard t) (fun _ => True).
Proof. unfold wake. quiet_code. Qed.

Lemma getFromShard_quiet shard id : quiet (getFromShard shard id) (fun _ => True).
Proof. unfold getFromShard. quiet_code. Qed.
Hint Resolve announce_quiet wake_quiet getFromShard_quiet : vquiet.

Lemma search_quiet id l : quiet (search_shards s id l) (fun _ => True).
Proof. induction l as [|sh l IH]; cbn [search_shards]; quiet_code. Qed.
Hint Resolve search_quiet : vquiet.

Lemma shardByID_quiet id : quiet (shardByID s id) (fun _ => True).
Proof. unfold shardByID. quiet_code. Qed.
Hint Resolve shardByID_quiet : vquiet.

Lemma Get_quiet id : quiet (Get s id) (fun _ => True).
Proof. unfold Get. quiet_code. Qed.

Lemma decode_all_quiet sh now l : quiet (decode_all sh now l) (fun _ => True).
Proof. induction l as [|[id v] l IH]; cbn [decode_all]; quiet_code. Qed.

Lemma keep_matching_quiet sh q l : quiet (keep_matching sh q l) (fun _ => True).
Proof. induction l as [|t l IH]; cbn [keep_matching]; quiet_code. Qed.
Hint Resolve Get_quiet decode_all_quiet keep_matching_quiet : vquiet.

Lemma query_quiet q : quiet (query_ s q) (fun _ => True).
Proof.
  unfold query_, queryShard, candidateIDsForQuery, members, getManyFromShard. quiet_code.
Qed.

Lemma hot_states_quiet shard ids : quiet (getManyHotStatesFromShard shard ids) (fun _ => True).
Proof. unfold getManyHotStatesFromShard. quiet_code. Qed.

Lemma first_match_quiet shard hot q ids : quiet (first_match shard hot q ids) (fun _ => True).
Proof. induction ids as [|id ids IH]; cbn [first_match]; quiet_code. Qed.
Hint Resolve hot_states_quiet first_match_quiet : vquiet.

Lemma candidate_quiet shard q : quiet (nextTakeCandidate shard q) (fun _ => True).
Proof. unfold nextTakeCandidate. quiet_code. Qed.

Lemma take_shard_quiet hint q : quiet (take_shard s hint q) (fun _ => True).
Proof. unfold take_shard. quiet_code. Qed.
Hint Resolve candidate_quiet take_shard_quiet query_quiet : vquiet.

(** ** Answers *)

Lemma set_ShardID_keeps sh t :
  a_ID (set_ShardID sh t) = a_ID t /\ a_LeaseToken (set_ShardID sh t) = a_LeaseToken t.
Proof. by destruct t. Qed.

Lemma decode_keeps raw t : decodeAgent raw = Ok t -> a_ID t = a_ID raw /\ a_LeaseToken t = a_LeaseToken raw.
Proof.
  unfold decodeAgent. destruct (reread raw) as [t0|] eqn:Hr; [|done].
  destruct (reread_strings raw t0 Hr) as (H1 & _ & _ & _ & _ & _ & _ & H2 & _).
  cbn zeta. repeat case_match; intros [= <-]; destruct t0; cbn in *; by subst.
Qed.

Lemma hot_lease_keeps now t :
  a_ID (hot_lease s now t) = a_ID t /\ a_LeaseToken (hot_lease s now t) = a_LeaseToken t.
Proof. by destruct t. Qed.

Lemma answered_quiet shard raw :
  quiet (answered shard raw) (fun t => exists r, raw = Some r /\ a_ID t = a_ID r).
Proof.
  unfold answered. destruct raw as [raw|]; [|apply quiet_fail].
  eapply (quiet_bind _ _ (fun t => a_ID t = a_ID raw)).
  { apply quiet_result. destruct (decodeAgent raw) as [t|] eqn:Hd; [|done]. by apply decode_keeps. }
  intros t Ht. eapply quiet_bind; [apply remember_quiet|]. intros _ _. apply quiet_ret. exists raw.
  split; [done|]. by rewrite (proj1 (set_ShardID_keeps _ _)).
Qed.

Lemma claimed_answer_quiet shard who now t0 :
  quiet (claimed_answer s shard who now t0) (fun t => a_ID t = a_ID t0 /\ a_LeaseToken t = a_LeaseToken t0).
Proof.
  unfold claimed_answer. eapply quiet_bind; [apply remember_quiet|]. intros _ _.
  eapply quiet_bind; [apply announce_quiet|]. intros _ _. apply quiet_ret. apply set_ShardID_keeps.
Qed.

Lemma decode_quiet raw :
  quiet (vresult (decodeAgent raw)) (fun t => a_ID t = a_ID raw /\ a_LeaseToken t = a_LeaseToken raw).
Proof. apply quiet_result. destruct (decodeAgent raw) as [t|] eqn:Hd; [|done]. by apply decode_keeps. Qed.

(** Claims an answer tells of. *)
Definition claims_of (shard : shardSpec) (who : string) (ts : list Agent) : list (string * label) :=
  (fun t => (sh_Addr shard, LClaim (a_ID t) who (a_LeaseToken t))) <$> ts.

(** After a script, code that only adds its answer. *)
Lemma serves_then {A} shard sc (f : scriptResponse -> VM A) (Q : result verror A -> list (string * label) -> Prop) :
  (forall d, proper sc d) -> (forall e, Q (Err e) []) ->
  (forall d e, indexed d -> Q (Err e) (pair (sh_Addr shard) <$> steps_of sc (run_script sc d).1 d)) ->
  (forall d, indexed d -> let resp := (run_script sc d).1 in
     quiet (f resp) (fun a => Q (Ok a) (pair (sh_Addr shard) <$> steps_of sc resp d))) ->
  vserves (r ← exec shard (run_script sc); f r) Q.
Proof.
  intros Hp He Hl Hf. eapply vserves_bind; [by apply exec_serves|intros e own [->|(d & Hd & ->)]; auto|].
  intros resp own (d & Hd & -> & ->). eapply vserves_mono; [apply (Hf d Hd)|]. intros [a|e] own [-> Ha]; rewrite app_nil_r; auto.
Qed.

(** A claim by [who]. *)
Definition claims_by (who : string) (l : label) : Prop := exists id tok, l = LClaim id who tok.

Lemma claims_by_intro who id tok : claims_by who (LClaim id who tok).
Proof. by exists id, tok. Qed.
Hint Resolve claims_by_intro : core.

Lemma claim_answer id who tok ts ms until w d :
  indexed d -> let r := (run_script (SClaim id who tok ts ms until w) d).1 in
  sr_Code r = "CLAIMED"%string -> exists raw, sr_Agent r = Some raw /\ a_ID raw = id /\ a_LeaseToken raw = tok.
Proof.
  intros Hd. cbn [run_script]. unfold claimScript. destruct (load_agent (agentKey id) d) as [t|] eqn:Hl; [|done].
  case_decide; [done|]. intros _. eexists. split; [done|]. rewrite <-(loaded_keyed d id t Hd Hl). by destruct t.
Qed.

Lemma queue_take_answer ns q kind owner who tok ts now def w d :
  indexed d -> let r := (run_script (SQueueTake ns q kind owner who tok ts now def w) d).1 in
  match sr_Agent r with Some raw => a_LeaseToken raw = tok | None => sr_Code r <> "CLAIMED"%string end.
Proof.
  intros Hd. cbn [run_script]. unfold queueTakeScript.
  pose proof (queue_round_moved 16 d ns q kind owner who (fun _ => tok) ts now def w Hd) as H.
  destruct (queue_round _ _ _ _ _ _ _ _ _ _ _ _ d) as [[t| |] d']; [|done..]. apply H.
Qed.

(** ** Taking *)

(** What a take tells: a claim, by the query's agent. *)
Definition took (shard : shardSpec) (who : string) (r : result verror (option Agent)) (own : list (string * label)) : Prop :=
  match r with Ok o => own = claims_of shard who (option_list o) | Err _ => of_kind (claims_by who) own end.

Lemma took_none shard who : vserves (mret None) (took shard who).
Proof.
  eapply vserves_mono; [by apply (quiet_ret None (fun o => o = None))|]. intros [o|e] own [-> Ho]; [by subst o|constructor].
Qed.

Lemma hot_take_serves shard q who : vserves (takeFromQueueHotPath s shard q who) (took shard who).
Proof.
  pose proof (took_none shard who) as Hnone.
  unfold takeFromQueueHotPath. destruct q as [q|]; [|done]. cbn zeta. case_decide; [done|].
  eapply vserves_after; [apply vnow_quiet|no_steps|]. intros now _. eapply vserves_after; [apply vuuid_quiet|no_steps|]. intros tok _.
  apply serves_then; [done|constructor|steps_kind|]. intros d Hd. cbn zeta. cbn [steps_of].
  pose proof (queue_take_answer (Strings.TrimSpace (q_NamespaceID q)) (Strings.TrimSpace (omget (q_Metadata q) QueueMetadataKey))
    (Strings.TrimSpace (q_Kind q)) (Strings.TrimSpace (q_Owner q)) who tok now (Time.UnixMilli now)
    (Time.Milliseconds (vs_leaseDuration s)) (negb (vs_deferEvents s)) d Hd) as Hans. cbn zeta in Hans.
  set (r := (run_script _ d).1) in *. case_decide as Hc.
  - destruct (sr_Agent r) as [raw|]; [|done]. eapply quiet_bind; [apply decode_quiet|]. intros t (H1 & H2).
    eapply quiet_bind; [apply claimed_answer_quiet|]. intros t' (H3 & H4). apply quiet_ret. cbn.
    destruct (hot_lease_keeps now t) as [H5 H6]. by rewrite H3, H4, H5, H6, H1, H2, Hans.
  - assert (sr_Agent r = None) as ->.
    { destruct (sr_Agent r) eqn:Ha; [|done]. exfalso. revert Ha Hc. unfold r. cbn [run_script]. unfold queueTakeScript.
      by destruct (queue_round _ _ _ _ _ _ _ _ _ _ _ _ d) as [[? | |] ?]. }
    case_decide; [by apply quiet_ret|apply quiet_fail].
Qed.

Lemma attempts_serve n shard q who : vserves (take_attempts s n shard q who) (took shard who).
Proof.
  pose proof (took_none shard who) as Hnone.
  induction n as [|n IH]; cbn [take_attempts]; [done|].
  eapply vserves_after; [apply candidate_quiet|no_steps|]. intros [c|] _; [|done].
  destruct (matchesQueryFilters c q); [|by case_decide].
  eapply vserves_after; [apply vnow_quiet|no_steps|]. intros now _. eapply vserves_after; [apply vuuid_quiet|no_steps|]. intros tok _.
  eapply vserves_bind; [by apply exec_serves|intros e own [->|(d & Hd & ->)]; [constructor|steps_kind]|].
  intros resp own (d & Hd & Hresp & ->). cbn [steps_of].
  pose proof (claim_answer (a_ID c) who tok now (Time.UnixMilli (Time.Add now (leaseDurationForAgent s c)))
    (Time.Add now (leaseDurationForAgent s c)) (negb (vs_deferEvents s)) d Hd) as Hans. cbn zeta in Hans.
  rewrite <-Hresp in Hans. case_decide as Hc.
  - destruct (Hans Hc) as (raw & -> & Hid & Htok).
    eapply vserves_mono with (Q := fun r own => own = [] /\ match r with
      | Ok o => exists t, o = Some t /\ a_ID t = a_ID c /\ a_LeaseToken t = tok | Err _ => True end).
    + eapply quiet_bind; [apply decode_quiet|]. intros t (H1 & H2). eapply quiet_bind; [apply claimed_answer_quiet|].
      intros t' (H3 & H4). apply quiet_ret. exists t'. split_and!; [done|congruence..].
    + intros [o|e] own [-> H]; [|constructor; [apply claims_by_intro|constructor]]. destruct H as (t & -> & H1 & H2). cbn. by rewrite H1, H2.
  - cbn [app fmap list_fmap]. case_decide; [exact IH|]. eapply vserves_mono; [by apply (quiet_fail _ (fun _ => False))|].
    intros [?|?] own [-> ?]; [done|constructor].
Qed.

Lemma claimed_answers_quiet shard who now raws :
  quiet (claimed_answers s shard who now raws) (fun ts => claims_of shard who ts = claims_of shard who raws).
Proof.
  induction raws as [|raw raws IH]; cbn [claimed_answers]; [by apply quiet_ret|].
  eapply quiet_bind; [apply decode_quiet|]. intros t (H1 & H2). eapply quiet_bind; [apply claimed_answer_quiet|].
  intros t' (H3 & H4). eapply quiet_bind; [exact IH|]. intros ts Hts. apply quiet_ret. unfold claims_of in *.
  rewrite !fmap_cons, Hts. destruct (hot_lease_keeps now t) as [H5 H6]. by rewrite H3, H4, H5, H6, H1, H2.
Qed.

(** A batch may have claimed more than its answer lists. *)
Definition took_all (shard : shardSpec) (who : string) (r : result verror (list Agent)) (own : list (string * label)) : Prop :=
  match r with
  | Ok ts => claims_of shard who ts `sublist_of` own /\ of_kind (claims_by who) own
  | Err _ => of_kind (claims_by who) own
  end.

Lemma quiet_took_all {A} (m : VM A) (P : A -> Prop) (Q : result verror A -> list (string * label) -> Prop) :
  quiet m P -> (forall a, P a -> Q (Ok a) []) -> (forall e, Q (Err e) []) -> vserves m Q.
Proof. intros Hm HP He. eapply vserves_mono; [exact Hm|]. intros [a|e] own [-> Ha]; auto. Qed.

Lemma hot_batch_serves shard q who limit : vserves (batchTakeFromQueueHotPath s shard q who limit) (took_all shard who).
Proof.
  assert (Hnone : vserves (mret []) (took_all shard who)).
  { eapply quiet_took_all; [by apply (quiet_ret [] (fun o => o = []))|intros ? ->; by split; constructor|constructor]. }
  unfold batchTakeFromQueueHotPath. destruct q as [q|]; [|done]. cbn zeta. case_decide; [done|].
  eapply vserves_after; [apply vnow_quiet|no_steps|]. intros now _. eapply vserves_after; [apply vuuid_quiet|no_steps|]. intros prefix _.
  apply serves_then; [done|constructor|steps_kind|].
  intros d Hd. cbn zeta. cbn [steps_of]. set (r := (run_script _ d).1).
  assert (Hk : of_kind (claims_by who) (pair (sh_Addr shard) <$> ((fun t => LClaim (a_ID t) who (a_LeaseToken t)) <$> agents_of r)))
    by (apply of_kind_at; rewrite Forall_fmap; apply Forall_true; intros; apply claims_by_intro).
  case_decide as Hc.
  - eapply valkey_quiet_mono; [apply claimed_answers_quiet|]. intros ts Hts. split; [|exact Hk].
    rewrite Hts. unfold claims_of. by rewrite <-list_fmap_compose.
  - case_decide; [|apply quiet_fail]. apply quiet_ret. split; [apply sublist_nil_l|exact Hk].
Qed.

(** ** One step *)

Definition told_one (shard : shardSpec) (l : label) : list (string * label) := [(sh_Addr shard, l)].

Lemma normalizeMetadata_lease t sh :
  a_ID (normalizeAgentMetadata t sh) = a_ID t /\ a_Status (normalizeAgentMetadata t sh) = a_Status t
  /\ a_Owner (normalizeAgentMetadata t sh) = a_Owner t /\ a_LeaseToken (normalizeAgentMetadata t sh) = a_LeaseToken t.
Proof.
  unfold normalizeAgentMetadata. cbn zeta. generalize (Strings.TrimSpace (mget (default ∅ (a_Metadata t)) NamespaceMetadataKey)).
  intros ns. destruct (decide (a_NamespaceID t <> "")%string), (decide (ns <> "")%string), (decide (sh = "")%string);
    destruct t; split_and!; reflexivity.
Qed.

(** An agent offered to the store. *)
Definition offered (t : Agent) : Prop :=
  (a_Status t = ""%string \/ a_Status t = StatusNew) /\ a_Owner t = ""%string /\ a_LeaseToken t = ""%string.

(** Preparing it changes neither owner nor token, and gives it a status. *)
Lemma offered_if {P : Prop} (c : Decision P) t u : offered t -> offered u -> offered (if c then t else u).
Proof. by destruct c. Qed.
Lemma offered_ifb (c : bool) t u : offered t -> offered u -> offered (if c then t else u).
Proof. by destruct c. Qed.
Lemma fresh_if {P : Prop} (c : Decision P) t u : fresh_agent t -> fresh_agent u -> fresh_agent (if c then t else u).
Proof. by destruct c. Qed.

Lemma fresh_status (t : Agent) : offered t -> fresh_agent (if decide (a_Status t = "")%string then set_Status StatusNew t else t).
Proof. intros ([H1|H1] & H2 & H3); case_decide; destruct t; cbn in *; unfold fresh_agent; by subst. Qed.

Lemma offered_set t v z :
  offered t -> offered (set_ID v t) /\ offered (set_CreatedAt z t) /\ offered (set_UpdatedAt z t) /\ offered (set_Version z t).
Proof. by destruct t. Qed.

Lemma fresh_set t v z :
  fresh_agent t -> fresh_agent (set_ShardID v t) /\ fresh_agent (set_ParentID v t) /\ fresh_agent (set_TraceID v t)
    /\ fresh_agent (set_NamespaceID v t) /\ fresh_agent (set_UpdatedAt z t) /\ fresh_agent (set_Version z t).
Proof. by destruct t. Qed.

Lemma fresh_metadata t sh : fresh_agent t -> fresh_agent (normalizeAgentMetadata t sh).
Proof. intros H. unfold fresh_agent. destruct (normalizeMetadata_lease t sh) as (_ & -> & -> & ->). exact H. Qed.

Lemma prepared_let (P Q : Agent -> Prop) v f : P v -> (forall x, P x -> Q (f x)) -> Q (let x := v in f x).
Proof. intros Hv Hf. exact (Hf v Hv). Qed.

Ltac prepared := repeat first
  [assumption | apply fresh_metadata | apply fresh_status | apply fresh_if | apply offered_if | apply offered_ifb
  |apply (fresh_set _ _ 0) | apply (fresh_set _ ""%string) | apply (offered_set _ _ 0) | apply (offered_set _ ""%string)].
(** One assignment of a preparation at a time, so that its value is not copied into the next ones. *)
Ltac prepare P :=
  lazymatch goal with |- fresh_agent (let x := ?v in @?f x) => apply (prepared_let P fresh_agent v f); [prepared|intros ? ?] end.

Lemma normalizeOut_fresh fresh t now sh : offered t -> fresh_agent (normalizeAgentForOut fresh t now sh).
Proof. intros Ht. cbv beta delta [normalizeAgentForOut]. do 2 prepare offered. repeat prepare fresh_agent. prepared. Qed.

Lemma normalizeOutput_fresh fresh t parent now sh : offered t -> fresh_agent (normalizeOutputForParent fresh t parent now sh).
Proof. intros Ht. cbv beta delta [normalizeOutputForParent]. do 4 prepare offered. repeat prepare fresh_agent. prepared. Qed.

(** The id an agent is created under: its own, or a new one. *)
Definition new_id (t : Agent) (id : string) : Prop :=
  if decide (a_ID t = ""%string) then exists n, id = vuuid_at n else id = a_ID t.

Definition fresh_id (t : Agent) : VM string := if decide (a_ID t = "")%string then vuuid else mret ""%string.

Lemma fresh_id_quiet t :
  quiet (fresh_id t) (fun fresh => new_id t (if decide (a_ID t = "")%string then fresh else a_ID t)).
Proof.
  unfold fresh_id, new_id. destruct (decide (a_ID t = "")%string); [|by apply quiet_ret].
  intros w Hw. exists []. split; [split; [done|by eexists]|by apply reaches_refl].
Qed.

(** Preparing an agent gives it an id if it has none. *)
Ltac keep_id :=
  lazymatch goal with |- a_ID (let x := ?w in @?f x) = ?v =>
    apply (prepared_let (fun t => a_ID t = v) (fun t => a_ID t = v) w f); [|intros ? ?]
  end.
Ltac keep_ids :=
  keep_id; [case_decide; by match goal with |- a_ID (_ _ ?t) = _ => destruct t | |- _ => done end|];
  match goal with H : a_ID ?u = ?v |- _ => revert u H; generalize v end; intros ? ? ?;
  repeat (keep_id; [repeat case_match; by match goal with H : a_ID ?x = _ |- _ => destruct x end|]).

Lemma normalizeOut_id fresh t now sh :
  a_ID (normalizeAgentForOut fresh t now sh) = if decide (a_ID t = "")%string then fresh else a_ID t.
Proof.
  cbv beta delta [normalizeAgentForOut].
  keep_ids. by rewrite (proj1 (normalizeMetadata_lease _ _)).
Qed.

Lemma normalizeOutput_id fresh t parent now sh :
  a_ID (normalizeOutputForParent fresh t parent now sh) = if decide (a_ID t = "")%string then fresh else a_ID t.
Proof.
  cbv beta delta [normalizeOutputForParent].
  keep_ids. by rewrite (proj1 (normalizeMetadata_lease _ _)).
Qed.

Lemma Out_serves t :
  offered t ->
  vserves (Out s t) (fun r own => match r with
    | Ok t' => exists shard who, own = told_one shard (LCreate (a_ID t') who) /\ new_id t (a_ID t')
    | Err _ => of_kind (fun l => exists id who, l = LCreate id who /\ new_id t id) own end).
Proof.
  intros Ht. unfold Out. eapply vserves_after; [apply (quiet_result _ (fun _ => True)); by destruct (shardFromAgent s t)|no_steps|]. intros shard _.
  eapply vserves_after; [apply vnow_quiet|no_steps|]. intros now _.
  eapply vserves_after; [apply fresh_id_quiet|no_steps|]. intros fresh Hid. cbn beta in Hid. rewrite <-(normalizeOut_id _ _ now (sh_ShardID shard)) in Hid.
  apply serves_then; [intros d; by apply normalizeOut_fresh|constructor|steps_kind|]. intros d Hd. cbn zeta. cbn [steps_of].
  case_decide; [|apply quiet_fail].
  eapply quiet_bind; [apply remember_quiet|]. intros _ _. eapply quiet_bind; [apply announce_quiet|]. intros _ _.
  eapply quiet_bind; [apply wake_quiet|]. intros _ _. apply quiet_ret. by eexists _, _.
Qed.

Lemma arguments_quiet who tok : quiet (lease_arguments who tok) (fun _ => tok <> ""%string).
Proof. unfold lease_arguments. case_decide; [apply quiet_fail|]. case_decide; [apply quiet_fail|by apply quiet_ret]. Qed.

Lemma valkey_complete_serves id who tok res :
  vserves (CompleteAndGet s id who tok res) (fun r own => match r with
    | Ok _ => exists shard, own = told_one shard (LComplete id who tok) \/ own = told_one shard (LReplay id tok)
    | Err _ => of_kind (fun l => l = LComplete id who tok \/ l = LReplay id tok) own end).
Proof.
  unfold CompleteAndGet. eapply vserves_after; [apply arguments_quiet|no_steps|]. intros ? Htok.
  eapply vserves_after; [apply shardByID_quiet|no_steps|]. intros shard _. eapply vserves_after; [apply vnow_quiet|no_steps|]. intros now _.
  apply serves_then; [done|constructor|steps_kind|]. intros d Hd. cbn zeta. cbn [steps_of]. set (r := (run_script _ d).1).
  case_decide as Hc; [|apply quiet_fail]. eapply quiet_bind; [apply answered_quiet|]. intros t _.
  apply elem_of_cons in Hc. rewrite list_elem_of_singleton in Hc. destruct Hc as [Hc|Hc]; rewrite Hc.
  - rewrite !decide_False by done. rewrite decide_True by done. eapply quiet_bind; [apply announce_quiet|]. intros _ _.
    eapply quiet_bind; [apply wake_quiet|]. intros _ _. apply quiet_ret. exists shard. by left.
  - rewrite !decide_True by done. apply quiet_ret. exists shard. by right.
Qed.

Lemma valkey_release_serves id who tok reason :
  vserves (ReleaseAndGet s id who tok reason) (fun r own => match r with
    | Ok _ => exists shard, own = told_one shard (LRelease id who tok)
    | Err _ => of_kind (fun l => l = LRelease id who tok) own end).
Proof.
  unfold ReleaseAndGet. eapply vserves_after; [apply arguments_quiet|no_steps|]. intros _ _.
  eapply vserves_after; [apply shardByID_quiet|no_steps|]. intros shard _. eapply vserves_after; [apply vnow_quiet|no_steps|]. intros now _.
  apply serves_then; [done|constructor|steps_kind|]. intros d Hd. cbn zeta. cbn [steps_of]. set (r := (run_script _ d).1).
  case_decide; [|apply quiet_fail]. eapply quiet_bind; [apply answered_quiet|]. intros t _.
  eapply quiet_bind; [apply announce_quiet|]. intros _ _. eapply quiet_bind; [apply wake_quiet|]. intros _ _.
  apply quiet_ret. by exists shard.
Qed.

Lemma valkey_renew_serves id who tok dur :
  vserves (RenewLease s id who tok dur) (fun r own => match r with
    | Ok _ => exists shard, own = told_one shard (LRenew id who tok)
    | Err _ => of_kind (fun l => l = LRenew id who tok) own end).
Proof.
  unfold RenewLease. eapply vserves_after; [apply arguments_quiet|no_steps|]. intros _ _.
  eapply vserves_after; [apply shardByID_quiet|no_steps|]. intros shard _.
  eapply vserves_after; [apply getFromShard_quiet|no_steps|]. intros cur _. eapply vserves_after; [apply vnow_quiet|no_steps|]. intros now _.
  apply serves_then; [done|constructor|steps_kind|]. intros d Hd. cbn zeta. cbn [steps_of]. set (r := (run_script _ d).1).
  case_decide; [|apply quiet_fail]. eapply valkey_quiet_mono; [apply answered_quiet|]. intros t _. by exists shard.
Qed.

(** ** Completing with outputs *)

Lemma prepare_quiet shard source now outs :
  Forall offered outs ->
  quiet (prepare_outputs s shard source now outs)
    (fun outs' => Forall fresh_agent outs' /\ Forall2 (fun t t' => new_id t (a_ID t')) outs outs').
Proof.
  induction 1 as [|t outs Ht _ IH]; cbn [prepare_outputs]; [by apply quiet_ret|].
  eapply quiet_bind; [apply fresh_id_quiet|]. intros fresh Hid. cbn beta in Hid. rewrite <-(normalizeOutput_id _ _ source now (sh_ShardID shard)) in Hid.
  eapply (quiet_bind _ _ (fun _ => True)); [apply quiet_result; by destruct (shardFromAgent s _)|]. intros target _.
  case_decide; [apply quiet_fail|]. eapply quiet_bind; [exact IH|]. intros outs' [Houts Hids]. apply quiet_ret.
  split; (constructor; [|done]); [by apply normalizeOutput_fresh|done].
Qed.

Lemma create_outputs_created id who ts w slim outs d : (create_outputs id who ts w slim outs d).1 = normalize_agent <$> outs.
Proof.
  revert d. induction outs as [|t outs IH]; intros d; [done|]. cbn [create_outputs]. set (d1 := log_change _ _ _ _ _ _ _ _).
  specialize (IH d1). destruct (create_outputs _ _ _ _ _ outs d1) as [created d2]. cbn in *. by rewrite IH.
Qed.

Lemma completeAndOut_created id who tok res outs ts w slim d :
  let r := (run_script (SCompleteAndOut id who tok res outs ts w slim) d).1 in
  sr_Code r = "COMPLETED_AND_OUT"%string -> created_of r = normalize_agent <$> outs.
Proof.
  cbn [run_script]. unfold completeAndOutScript. destruct (load_agent (agentKey id) d) as [t|]; [|done].
  destruct (lease_code t who tok) as [c|] eqn:Hg; [unfold lease_code in Hg; repeat case_decide; simplify_eq; done|].
  cbn zeta. set (d1 := log_change _ _ _ _ _ _ _ _). pose proof (create_outputs_created id who ts w slim outs d1) as H.
  by destruct (create_outputs _ _ _ _ _ outs d1).
Qed.

Lemma answered_all_quiet shard raws :
  quiet (vfor_each (fun raw => answered shard (Some raw)) raws) (fun ts => a_ID <$> ts = a_ID <$> raws).
Proof.
  induction raws as [|raw raws IH]; cbn [vfor_each]; [by apply quiet_ret|].
  eapply quiet_bind; [apply answered_quiet|]. intros t (? & [= <-] & Ht). eapply quiet_bind; [exact IH|]. intros ts Hts.
  apply quiet_ret. cbn. by rewrite Ht, Hts.
Qed.

(** The steps of a completion with outputs. *)
Definition told_outputs (shard : shardSpec) (id who tok : string) (created : list Agent) : list (string * label) :=
  (sh_Addr shard, LComplete id who tok) :: ((fun t => (sh_Addr shard, LCreate (a_ID t) who)) <$> created).

Lemma valkey_completeAndOut_serves id who tok res outs :
  Forall offered outs ->
  vserves (CompleteAndOut s id who tok res outs) (fun r own => match r with
    | Ok (_, created) => exists shard, own = told_outputs shard id who tok created
        /\ Forall2 (fun t t' => new_id t (a_ID t')) outs created
    | Err _ => of_kind (fun l => l = LComplete id who tok
                                 \/ exists t i, t ∈ outs /\ new_id t i /\ l = LCreate i who) own end).
Proof.
  intros Houts. unfold CompleteAndOut. eapply vserves_after; [apply arguments_quiet|no_steps|]. intros ? _.
  eapply vserves_after; [apply Get_quiet|no_steps|]. intros source _.
  eapply (vserves_after _ _ (fun _ => True)); [apply quiet_result; by destruct (byShardID s _)|no_steps|]. intros shard _.
  eapply vserves_after; [apply vnow_quiet|no_steps|]. intros now _. eapply vserves_after; [by apply prepare_quiet|no_steps|]. intros outs' [Hf Hnew].
  apply serves_then; [done|constructor| |].
  { intros d e Hd. apply of_kind_at. cbn [steps_of]. case_decide; constructor; [by left|]. rewrite Forall_fmap.
    apply Forall_forall. intros t' (i & Ht')%list_elem_of_lookup_1. right.
    destruct (Forall2_lookup_r _ _ _ _ _ Hnew Ht') as (t & Ht & Hid). exists t, (a_ID t').
    split_and!; [by eapply list_elem_of_lookup_2|done|done]. }
  intros d Hd. cbn zeta. cbn [steps_of].
  pose proof (completeAndOut_created id who tok (default ∅ res) outs' now (negb (vs_deferEvents s)) (vs_slimEvents s) d) as Hcr.
  cbn zeta in Hcr. set (r := (run_script _ d).1) in *. case_decide as Hc; [|apply quiet_fail].
  eapply quiet_bind; [apply answered_quiet|]. intros completed _. eapply quiet_bind; [apply answered_all_quiet|]. intros created Hids.
  eapply quiet_bind; [apply announce_quiet|]. intros _ _. eapply (quiet_bind _ _ (fun _ => True)).
  { apply for_each_quiet. intros out. unfold announce_output. eapply quiet_bind; [apply announce_quiet|]. intros _ _. apply publish_quiet. }
  intros _ _. eapply quiet_bind; [apply wake_quiet|]. intros _ _. apply quiet_ret. exists shard.
  rewrite (Hcr Hc) in Hids. split; [unfold told_outputs|].
  2:{ apply (proj1 (Forall2_fmap_r a_ID new_id outs created)). rewrite Hids, <-list_fmap_compose. apply Forall2_fmap_r.
      eapply Forall2_impl; [exact Hnew|]. intros t t' Ht. cbn. by rewrite (proj1 (normalize_fields t')). }
   rewrite fmap_cons. f_equal. rewrite <-list_fmap_compose.
  transitivity ((fun i => (sh_Addr shard, LCreate i who)) <$> (a_ID <$> created)); [|by rewrite <-list_fmap_compose].
  rewrite Hids, <-!list_fmap_compose. apply list_fmap_ext. intros i t _. cbn. by rewrite (proj1 (normalize_fields t)).
Qed.

(** ** The reaper *)

Lemma leadership_quiet shard : quiet (tryAcquireReaperLeadership s shard) (fun _ => True).
Proof.
  assert (Hnx : forall k o t m d, same_data d (set_nx k o t m d).2) by (intros; unfold set_nx; by case_match).
  assert (Hxx : forall k o t m d, same_data d (set_xx k o t m d).2) by (intros; unfold set_xx; by case_match).
  unfold tryAcquireReaperLeadership. repeat quiet_step; by apply command_quiet.
Qed.

(** Reaping steps, on any of the servers. *)
Definition reaps (own : list (string * label)) : Prop := Forall (fun al => exists id, al.2 = LReap id) own.

Lemma reap_shard_serves now shard : vserves (reap_shard s now shard) (fun _ own => reaps own).
Proof.
  assert (Hquiet : forall m : VM unit, quiet m (fun _ => True) -> vserves m (fun _ own => reaps own)).
  { intros m Hm. eapply quiet_took_all; [exact Hm|intros; constructor..]. }
  unfold reap_shard. case_match; [apply Hquiet; by apply quiet_ret|].
  eapply vserves_after; [apply leadership_quiet|no_steps|]. intros [] _; [|apply Hquiet; by apply quiet_ret].
  eapply (vserves_bind _ _ (fun r own => match r with Ok _ => reaps own | Err _ => False end)).
  - intros w Hw. destruct (exec_serves shard (SReap now (Time.UnixMilli now) (vs_leaseReapBatch s) true) ltac:(done) w Hw)
      as (own & Ht & Hr). exists own. unfold vtry. destruct (exec _ _ w) as [r w']. split; [|done]. cbn in *.
    assert (Hk : forall d resp, reaps (pair (sh_Addr shard) <$> steps_of (SReap now (Time.UnixMilli now) (vs_leaseReapBatch s) true) resp d)).
    { intros d resp. cbn [steps_of]. unfold reaps. rewrite Forall_fmap, Forall_fmap. apply Forall_true. intros id. by exists id. }
    destruct r as [resp|e]; [destruct Ht as (d & _ & _ & ->)|destruct Ht as [->|(d & _ & ->)]]; [done|constructor|done].
  - done.
  - intros r own1 Hown. eapply quiet_took_all with (P := fun _ => True).
    + destruct r as [resp|e]; [case_decide|]; [|by apply quiet_ret..]. eapply quiet_bind; [apply signal_quiet|]. intros _ _. apply publish_quiet.
    + intros _ _. by rewrite app_nil_r.
    + intros _. by rewrite app_nil_r.
Qed.

Lemma valkey_reap_serves : vserves (reapExpiredLeases s) (fun _ own => reaps own).
Proof.
  unfold reapExpiredLeases. eapply vserves_after; [apply vnow_quiet|no_steps|]. intros now _.
  eapply (vserves_bind _ _ (fun _ own => reaps own)).
  - induction (vs_shards s) as [|shard l IH]; cbn [vfor_each].
    { eapply quiet_took_all; [by apply (quiet_ret [] (fun _ => True))|constructor..]. }
    eapply vserves_bind; [apply reap_shard_serves|done|]. intros [] own1 H1. eapply vserves_bind; [exact IH| |].
    + intros e own H. by apply Forall_app.
    + intros ys own2 H2. eapply quiet_took_all; [by apply (quiet_ret _ (fun _ => True))|intros; rewrite app_nil_r; by apply Forall_app..].
  - done.
  - intros a own H. eapply quiet_took_all; [by apply (quiet_ret _ (fun _ => True))|intros; by rewrite app_nil_r..].
Qed.

(** ** Takes *)

Definition claimed_by (who : string) (own : list (string * label)) (ts : list Agent) : Prop :=
  exists addrs, length addrs = length ts
    /\ own = zip_with (fun addr t => (addr, LClaim (a_ID t) who (a_LeaseToken t))) addrs ts.

Lemma claims_claimed shard who ts : claimed_by who (claims_of shard who ts) ts.
Proof.
  exists (replicate (length ts) (sh_Addr shard)). rewrite length_replicate. split; [done|].
  unfold claims_of. induction ts as [|t ts IH]; [done|]. cbn. by rewrite IH.
Qed.

Lemma claimed_kind who own ts : claimed_by who own ts -> of_kind (claims_by who) own.
Proof.
  intros (addrs & _ & ->). revert addrs. induction ts as [|t ts IH]; intros [|addr addrs]; cbn; try constructor; [|apply IH].
  apply claims_by_intro.
Qed.

(** What a batch tells: its claims are among those it took. *)
Definition batch_claims (who : string) (own : list (string * label)) (ts : list Agent) : Prop :=
  exists told, claimed_by who told ts /\ told `sublist_of` own /\ of_kind (claims_by who) own.

Lemma valkey_take_serves hint q :
  vserves (take_ s hint q) (fun r own => match r with
    | Ok o => claimed_by (agentID_or_default q) own (option_list o)
    | Err _ => of_kind (claims_by (agentID_or_default q)) own end).
Proof.
  assert (Hnone : claimed_by (agentID_or_default q) [] []) by (by exists []).
  unfold take_. case_match.
  { eapply quiet_took_all; [by apply (quiet_ret None (fun o => o = None))|intros ? ->; done|no_steps]. }
  eapply vserves_after; [apply take_shard_quiet|no_steps|]. intros shard _. cbn zeta.
  assert (Hw : forall r own, took shard (agentID_or_default q) r own ->
    match r with Ok o => claimed_by (agentID_or_default q) own (option_list o)
               | Err _ => of_kind (claims_by (agentID_or_default q)) own end).
  { intros [o|e] own; [|done]. cbn. intros ->. apply claims_claimed. }
  destruct (canUseQueueTakeScript q); (eapply vserves_mono; [|exact Hw]); [apply hot_take_serves|apply attempts_serve].
Qed.

Lemma claimed_app who own1 ts1 own2 ts2 :
  claimed_by who own1 ts1 -> claimed_by who own2 ts2 -> claimed_by who (own1 ++ own2) (ts1 ++ ts2).
Proof.
  intros (a1 & L1 & ->) (a2 & L2 & ->). exists (a1 ++ a2). rewrite !length_app, L1, L2. split; [done|]. by rewrite zip_with_app.
Qed.

Lemma take_each_serves n q :
  vserves (take_each s n q) (fun r own => match r with
    | Ok ts => claimed_by (agentID_or_default q) own ts
    | Err _ => of_kind (claims_by (agentID_or_default q)) own end).
Proof.
  induction n as [|n IH]; cbn [take_each]; [apply vserves_ret; by exists []|].
  eapply vserves_bind; [apply valkey_take_serves|done|]. intros [t|] own1 H1; [|apply vserves_ret; by rewrite app_nil_r].
  eapply vserves_bind; [exact IH| |].
  - intros e own2 H2. apply Forall_app. split; [by eapply claimed_kind|exact H2].
  - intros ts own2 H2. apply vserves_ret. rewrite app_nil_r. by apply (claimed_app _ own1 [t] own2 ts).
Qed.

Lemma batch_serves q limit :
  vserves (BatchTake s q limit) (fun r own => match r with
    | Ok ts => batch_claims (agentID_or_default q) own ts
    | Err _ => of_kind (claims_by (agentID_or_default q)) own end).
Proof.
  unfold BatchTake. case_decide; [apply vserves_ret; exists []; split_and!; [by exists []|done|constructor]|].
  destruct (canUseQueueTakeScript q).
  - eapply vserves_after; [apply take_shard_quiet|no_steps|]. intros shard _.
    eapply vserves_mono; [apply hot_batch_serves|]. intros [ts|e] own; [|done]. intros [H1 H2].
    exists (claims_of shard (agentID_or_default q) ts). by split; [apply claims_claimed|].
  - eapply vserves_mono; [apply take_each_serves|]. intros [ts|e] own; [|done]. intros Hts. exists own.
    split_and!; [done|done|by eapply claimed_kind].
Qed.

Lemma In_serves fuel hint q timeout :
  vserves (In_ s fuel hint q timeout) (fun r own => match r with
    | Ok (Some (Some t)) => claimed_by (agentID_or_default q) own [t]
    | Ok _ => own = []
    | Err _ => of_kind (claims_by (agentID_or_default q)) own end).
Proof.
  unfold In_. eapply vserves_after; [apply vnow_quiet|no_steps|]. intros start _. generalize (Time.Add start timeout). intros deadline.
  induction fuel as [|fuel IH]; cbn [in_loop]; [by apply vserves_ret|].
  eapply vserves_bind; [apply valkey_take_serves|done|]. intros [t|] own1 H1; [apply vserves_ret; by rewrite app_nil_r|].
  destruct H1 as ([|] & Hlen & ->); [|done]. cbn [zip_with]. case_decide; [by apply vserves_ret|].
  eapply vserves_after; [apply vnow_quiet|no_steps|]. intros now _. case_decide; [by apply vserves_ret|].
  eapply vserves_after; [apply wait_quiet|no_steps|]. intros _ _. exact IH.
Qed.

End Operations.
