(* ===== verification/ValkeyRequests.v ===== *)
(** * Valkey: requests of a client

    Requests served one after the other by a store while other clients work
    on the same servers, what they did there, and what their answers tell of
    it. *)

From S2P Require Import Prelude GoLib GoSort Agent Common Effects Sql Lease SharedLease ValkeyKeys ValkeyScripts ValkeyIndex ValkeyContract ValkeySafety ValkeyClient ValkeyStore ValkeySession.
From stdpp Require Import gmap strings list fin_maps sets.
From Stdlib Require Import ZArith Lia.

Open Scope Z_scope.

Inductive vrequest : Type :=
| VOut (t : Agent)
| VTake (q : option Query)
| VIn (fuel : nat) (q : option Query) (timeout : Z)
| VBatch (q : option Query) (limit : Z)
| VComplete (id who tok : string) (res : option (gmap string any))
| VCompleteAndOut (id who tok : string) (res : option (gmap string any)) (outs : list Agent)
| VRelease (id who tok reason : string)
| VRenew (id who tok : string) (dur : Z)
| VReap
| VQuery (q : option Query).

Inductive vanswer : Type :=
| VCreated (t : Agent)
| VClaimed (ts : list Agent)
| VCompleted (t : Agent) (outs : list Agent)
| VReleased (t : Agent)
| VRenewed (t : Agent)
| VDone
| VFound (ts : list Agent).

Section Requests.
Context `{L : Lua} `{SI : StreamIds} `{E : VkEnv} `{CJ : Cjson} (s : ValkeyStore).

Definition vserve (rq : vrequest) : VM vanswer :=
  match rq with
  | VOut t => t ← Out s t; mret (VCreated t)
  | VTake q => o ← take_ s "" q; mret (VClaimed (option_list o))
  | VIn fuel q timeout => o ← In_ s fuel "" q timeout; mret (VClaimed (option_list (mjoin o)))
  | VBatch q limit => ts ← BatchTake s q limit; mret (VClaimed ts)
  | VComplete id who tok res => t ← CompleteAndGet s id who tok res; mret (VCompleted t [])
  | VCompleteAndOut id who tok res outs => x ← CompleteAndOut s id who tok res outs; mret (VCompleted x.1 x.2)
  | VRelease id who tok reason => t ← ReleaseAndGet s id who tok reason; mret (VReleased t)
  | VRenew id who tok dur => t ← RenewLease s id who tok dur; mret (VRenewed t)
  | VReap => _ ← reapExpiredLeases s; mret VDone
  | VQuery q => ts ← query_ s q; mret (VFound ts)
  end.

Fixpoint run_requests (rqs : list vrequest) (w : VW) : list (result verror vanswer) * VW :=
  match rqs with
  | [] => ([], w)
  | rq :: rqs =>
      let '(r, w1) := vserve rq w in
      let '(rs, w2) := run_requests rqs w1 in
      (r :: rs, w2)
  end.

End Requests.

(** Agents are offered new and unowned. *)
Definition vproper (rq : vrequest) : Prop :=
  match rq with
  | VOut t => offered t
  | VCompleteAndOut _ _ _ _ outs => Forall offered outs
  | _ => True
  end.

Section Told.
Context `{E : VkEnv}.

(** The steps of a request that was answered, with the servers they happened
    on; a batch may have claimed agents besides those it lists. *)
Definition vtells (rq : vrequest) (a : vanswer) (own : list (string * label)) : Prop :=
  match rq, a with
  | VOut t, VCreated t' => exists shard who, own = told_one shard (LCreate (a_ID t') who) /\ new_id t (a_ID t')
  | VTake q, VClaimed ts | VIn _ q _, VClaimed ts => claimed_by (agentID_or_default q) own ts
  | VBatch q _, VClaimed ts => batch_claims (agentID_or_default q) own ts
  | VComplete id who tok _, VCompleted _ _ =>
      exists shard, own = told_one shard (LComplete id who tok) \/ own = told_one shard (LReplay id tok)
  | VCompleteAndOut id who tok _ outs, VCompleted _ created =>
      exists shard, own = told_outputs shard id who tok created
        /\ Forall2 (fun t t' => new_id t (a_ID t')) outs created
  | VRelease id who tok _, VReleased _ => exists shard, own = told_one shard (LRelease id who tok)
  | VRenew id who tok _, VRenewed _ => exists shard, own = told_one shard (LRenew id who tok)
  | VReap, VDone => reaps own
  | VQuery _, VFound _ => own = []
  | _, _ => False
  end.

(** The steps a request may have taken when it ends in an error: those it
    asked for, if the command took effect and its answer was lost. *)
Definition vattempts (rq : vrequest) (l : label) : Prop :=
  match rq with
  | VOut t => exists id who, l = LCreate id who /\ new_id t id
  | VTake q | VIn _ q _ | VBatch q _ => claims_by (agentID_or_default q) l
  | VComplete id who tok _ => l = LComplete id who tok \/ l = LReplay id tok
  | VCompleteAndOut id who tok _ outs =>
      l = LComplete id who tok \/ exists t i, t ∈ outs /\ new_id t i /\ l = LCreate i who
  | VRelease id who tok _ => l = LRelease id who tok
  | VRenew id who tok _ => l = LRenew id who tok
  | VReap => exists id, l = LReap id
  | VQuery _ => False
  end.

(** The steps of a run of requests, one request after the other. *)
Inductive vdid : list vrequest -> list (result verror vanswer) -> list (string * label) -> Prop :=
| vdid_nil : vdid [] [] []
| vdid_ok rq rqs a rs own owns : vtells rq a own -> vdid rqs rs owns -> vdid (rq :: rqs) (Ok a :: rs) (own ++ owns)
| vdid_err rq rqs e rs own owns :
    of_kind (vattempts rq) own -> vdid rqs rs owns -> vdid (rq :: rqs) (Err e :: rs) (own ++ owns).

End Told.

Section Proofs.
Context `{L : Lua} `{SI : StreamIds} `{E : VkEnv} `{CJ : Cjson} `{!VCooperative E} `{!CjsonKeeps CJ} (s : ValkeyStore).

Lemma map_answer {A B} (m : VM A) (f : A -> B) Q (Q' : B -> list (string * label) -> Prop) K :
  vserves m Q -> (forall a own, Q (Ok a) own -> Q' (f a) own) -> (forall e own, Q (Err e) own -> of_kind K own) ->
  vserves (a ← m; mret (f a)) (fun r own => match r with Ok b => Q' b own | Err _ => of_kind K own end).
Proof.
  intros Hm HQ HK. eapply vserves_bind; [exact Hm|exact HK|]. intros a own1 H1.
  apply vserves_ret. rewrite app_nil_r. by apply HQ.
Qed.

Lemma vserve_tells rq :
  vproper rq ->
  vserves (vserve s rq) (fun r own => match r with Ok a => vtells rq a own | Err _ => of_kind (vattempts rq) own end).
Proof.
  destruct rq as [t|q|fuel q timeout|q limit|id who tok res|id who tok res outs|id who tok reason|id who tok dur| |q]; cbn [vserve vproper]; intros Hp.
  - eapply map_answer; [by apply Out_serves|done|done].
  - eapply map_answer; [apply valkey_take_serves|done|done].
  - eapply map_answer; [apply In_serves| |done]. intros [[t|]|] own H; [done|by rewrite H; exists []..].
  - eapply map_answer; [apply batch_serves|done|done].
  - eapply map_answer; [apply valkey_complete_serves|done|done].
  - eapply map_answer; [by apply valkey_completeAndOut_serves| |done]. by intros [t created] own.
  - eapply map_answer; [apply valkey_release_serves|done|done].
  - eapply map_answer; [apply valkey_renew_serves|done|done].
  - eapply map_answer; [apply valkey_reap_serves|done|done].
  - eapply map_answer; [apply query_quiet|by intros ts own [-> _]|]. intros e own [-> _]. constructor.
Qed.

Lemma run_reaches rqs w :
  Forall vproper rqs -> servers_indexed w ->
  exists own, vdid rqs (run_requests s rqs w).1 own /\ reaches own w (run_requests s rqs w).2.
Proof.
  intros Hp. revert w. induction Hp as [|rq rqs Hrq _ IH]; intros w Hw; cbn [run_requests].
  { exists []. split; [constructor|by apply reaches_refl]. }
  destruct (vserve_tells rq Hrq w Hw) as (own & Ht & Hr). destruct (vserve s rq w) as [r w1]. cbn [fst snd] in *.
  destruct (IH w1 (reaches_indexed _ _ _ Hr Hw)) as (owns & Hts & Hrs). destruct (run_requests s rqs w1) as [rs w2]. cbn [fst snd] in *.
  exists (own ++ owns). split; [by destruct r; constructor|by eapply reaches_app].
Qed.

End Proofs.

(** ** A run to evaluate *)

#[local] Existing Instance demo_lua.
#[local] Existing Instance demo_ids.

(** Lua encodes an empty list as an object, which Go does not read as a
    list. *)
Definition plain_cjson : Cjson := {|
  reread t := Ok t;
  reread_list l := match l with [] => Err VJSON | _ => Ok l end;
|}.
#[local] Existing Instance plain_cjson.

Lemma plain_keeps : CjsonKeeps plain_cjson.
Proof. split; [intros t t' [= <-]; by split_and!|]. by intros [|t l] l' [= <-]. Qed.

Definition one_shard : ValkeyStore :=
  MkVStore [MkSpec "valkey-0" "h:1" "" ""] false "" "" (5 * Time.Minute) Time.Second 200 false false false 100 "r".

Definition vstart : VW := MkVW ∅ 0 0 0 ∅ [] [] [] 0.

(** Another client runs a script just before the [k]-th command. *)
Definition vrival (k : nat) (sc : script) : VkEnv := {|
  vclock_at n := Z.of_nat n * Time.Second;
  vuuid_at n := "u" +:+ Strconv.FormatInt (Z.of_nat n);
  vfault_at _ := None;
  vothers_at n db := if decide (n = k) then <["h:1" := (run_script sc (server db "h:1")).2]> db else db;
  vserver_ms_at n := Z.of_nat n;
  vwait_at _ := WTimer;
|}.

Definition rival_labels (k : nat) (sc : script) (n : nat) (db : gmap string Shard) : list (string * label) :=
  if decide (n = k) then pair "h:1" <$> steps_of sc (run_script sc (server db "h:1")).1 (server db "h:1") else [].

Lemma rival_moves k sc : (forall d, proper sc d) -> VCooperative (vrival k sc).
Proof.
  intros Hp. refine {| vothers_labels := rival_labels k sc |}. intros n db addr Hd. unfold rival_labels. cbn.
  case_decide; [|by apply moved_refl]. rewrite server_insert, on_server_at. case_decide as Ha.
  - subst addr. by apply script_moved.
  - by apply moved_refl.
Defined.

(** Mallory takes from the queue before Alice's second take. *)
Definition mallory : VkEnv := vrival 3 (SQueueTake "n" "q" "" "" "mallory" "m" 7 7 1000 true).
#[local] Instance mallory_moves : VCooperative mallory.
Proof. by apply rival_moves. Qed.

Definition from_queue (who : string) : option Query :=
  Some (MkQuery "" "" [] "" "" "" "n" who (Some {[QueueMetadataKey := "q"%string]}) 0 0).

Definition demo_requests : list vrequest :=
  [ VOut (job "a" "10" ""); VOut (job "b" "20" ""); VTake (from_queue "alice"); VTake (from_queue "alice");
    VComplete "a" "alice" "u2" None; VComplete "b" "alice" "u2" None; VComplete "a" "alice" "u2" None ].

(** The second take finds nothing, and the completion of "b" is refused. *)
Example demo_answers :
  (fun r => match r with
            | Ok (VClaimed ts) => Some (a_ID <$> ts)
            | Ok (VCompleted t _) => Some [a_Status t]
            | Ok _ => Some []
            | Err _ => None
            end) <$> (run_requests (E := mallory) one_shard demo_requests vstart).1
  = [Some []; Some []; Some ["a"]; Some []; Some ["COMPLETED"]; None; Some ["COMPLETED"]]%string.
Proof. vm_compute. reflexivity. Qed.

(** ** The theorems *)

(** C23: a Valkey client keeps the lifecycle contract beside others.  Let the
    other clients' changes be contract steps, [vothers_labels n db] those they
    take before this client's command [n] on the servers [db].  For a run of
    requests other than updates, with agents offered new and unowned, from
    exact indexes, whichever commands fail, before or after they took effect:
    every request took the steps its answer tells (a batch perhaps further
    claims for its agent), and one that ended in an error only steps it had
    asked for; the servers moved by exactly the others' changes and this
    client's scripts, whose steps are those; the indexes stay exact.  On every
    server, each agent's steps in the order they happened, everybody's, are a
    path of the contract from its first state to its last.  In it, as long as
    the agent is not created anew, it is completed at most once; and a
    completion, release or renewal by [who] with token [tok] has the claim by
    [who] under [tok] before it with no other claim, completion, release or
    reaping in between, or the agent was so held at the start.  When the others
    take no steps these are this client's steps alone. *)
Theorem client_keeps_contract `{L : Lua} `{SI : StreamIds} `{E : VkEnv} `{CJ : Cjson} `{!VCooperative E} `{!CjsonKeeps CJ}
    (s : ValkeyStore) rqs w rs w' :
  Forall vproper rqs -> (forall addr, indexed (server (vw_db w) addr)) -> run_requests s rqs w = (rs, w') ->
  exists own all, vdid rqs rs own
    /\ execution own all (vw_call w, vw_db w) (vw_call w', vw_db w')
    /\ ((forall n db, vothers_labels n db = []) -> all = own)
    /\ forall addr, indexed (server (vw_db w') addr)
         /\ forall id, let ls := about id (on_server addr all) in
              cell_steps id (cells (server (vw_db w) addr) id) ls (cells (server (vw_db w') addr) id)
              /\ (forall l1 l2 l3, ls = l1 ++ l2 ++ l3 -> one_life id l2 -> (completions id l2 <= 1)%nat)
              /\ (forall l1 l l2 who tok, ls = l1 ++ l :: l2 -> presents id who tok l ->
                    (exists k1 k2, l1 = k1 ++ LClaim id who tok :: k2
                       /\ Forall (fun k => ends_claim id k = false /\ creates id k = false) k2)
                    \/ (held_by who tok (cells (server (vw_db w) addr) id)
                        /\ Forall (fun k => ends_claim id k = false /\ creates id k = false) l1)).
Proof.
  intros Hp Hw Hrun. destruct (run_reaches s rqs w Hp Hw) as (own & Ht & all & Hr). rewrite Hrun in Ht, Hr. exists own, all.
  split_and!; [done|done|exact (execution_own_only _ _ _ _ Hr)|]. intros addr.
  destruct (execution_moved _ _ _ _ addr Hr Hw) as [Hi Hm]. split; [done|]. intros id. specialize (Hm id). split_and!; [done| |].
  - intros l1 l2 l3. exact (path_completes_once _ _ _ _ l1 l2 l3 Hm).
  - intros l1 l l2 who tok. exact (path_fenced _ _ _ _ l1 l l2 who tok Hm).
Qed.

Lemma client_keeps_contract_witness :
  let run := run_requests (E := mallory) one_shard demo_requests vstart in
  exists own all, vdid (E := mallory) demo_requests run.1 own
    /\ execution (E := mallory) own all (0%nat, ∅) (vw_call run.2, vw_db run.2)
    /\ forall addr, indexed (server (vw_db run.2) addr)
         /\ forall id, cell_steps id None (about id (on_server addr all)) (cells (server (vw_db run.2) addr) id).
Proof.
  intros run. pose proof plain_keeps as HK.
  destruct (client_keeps_contract (E := mallory) one_shard demo_requests vstart run.1 run.2
              ltac:(repeat constructor; by right) (fun _ => indexed_empty) (surjective_pairing _)) as (own & all & H1 & H2 & _ & H3).
  exists own, all. split; [exact H1|split; [exact H2|]]. intros addr. destruct (H3 addr) as [H4 H5].
  split; [exact H4|]. intros id. exact (proj1 (H5 id)).
Defined.

(** *** What updates do *)

(** An update reads the agent and later writes all of it back.  Here the agent
    is completed in between. *)
Definition completed_meanwhile : VkEnv := vrival 4 (SComplete "a" "alice" "u1" ∅ 9 true).

Definition racing_update : result verror Agent * VW :=
  (_ ← Out (E := completed_meanwhile) one_shard (job "a" "10" "");
   _ ← take_ (E := completed_meanwhile) one_shard "" (from_queue "alice");
   _ ← UpdateAndGet (E := completed_meanwhile) one_shard "a" (Some {["kind"%string := VStr "job"]});
   CompleteAndGet (E := completed_meanwhile) one_shard "a" "alice" "u1" None) vstart.

(** The update undoes the completion: the agent is in progress again under the
    same token, and is completed a second time. *)
Theorem racing_update_completes_twice :
  (exists t, racing_update.1 = Ok t /\ a_Status t = StatusCompleted)
  /\ se_Type <$> XRANGE (agentEventsStreamKey "a") (server (vw_db racing_update.2) "h:1")
     = [EventCreated; EventClaimed; EventCompleted; EventUpdated; EventCompleted].
Proof. split; [eexists; split|]; vm_compute; reflexivity. Qed.

(** *** What a batch loses *)

Definition with_kind (kind : string) (t : Agent) : Agent := set_Kind kind t.

(** Two agents wait, the second of another kind. *)
Definition lost_batch : result verror (list Agent) * VW :=
  (_ ← Out (E := mallory) one_shard (job "a" "10" "");
   _ ← Out (E := mallory) one_shard (with_kind "other" (job "b" "20" ""));
   BatchTake (E := mallory) one_shard
     (Some (MkQuery "job" "" [] "" "" "" "n" "alice" (Some {[QueueMetadataKey := "q"%string]}) 0 0)) 2) vstart.

(** The batch claims "a", meets "b", and answers with nothing: "a" stays
    claimed under a token nobody was told. *)
Theorem batch_drops_its_claims :
  lost_batch.1 = Ok []
  /\ (fun t => (a_Status t, a_Owner t, a_LeaseToken t)) <$> table (server (vw_db lost_batch.2) "h:1") "a"
     = Some (StatusInProgress, "alice", "u2:1:a")%string.
Proof. split; vm_compute; reflexivity. Qed.
