(* ===== verification/ValkeyReads.v ===== *)
(** * Valkey: queries

    A query answered from the index sets finds exactly what a scan of all
    stored agents would. *)

From S2P Require Import Prelude GoLib GoSort Agent Common Effects Sql Lease SharedLease Shards ShardsReads ValkeyKeys ValkeyScripts ValkeyIndex ValkeyContract ValkeySafety ValkeyClient ValkeyStore ValkeySession ValkeyRequests.
From stdpp Require Import gmap strings list fin_maps sets sorting.
From Stdlib Require Import ZArith Lia.

Open Scope Z_scope.

Section Scan.
Context `{CJ : Cjson}.

(** A stored table as a query sees it. *)
Definition live_table (shardID : string) (now : Z) (t : Agent) : option Agent :=
  match decodeAgent t with
  | Ok t => if isExpired t now then None else Some (set_ShardID shardID t)
  | Err _ => None
  end.

(** The reference: every stored agent that is alive and matches, oldest
    first. *)
Definition scan (shardID : string) (now : Z) (query : option Query) (d : Shard) : list Agent :=
  sortAgents (filter (fun t => matchesQueryFilters t query) (omap (live_table shardID now) (map_to_list (v_agents d)).*2)).

End Scan.

Section Queries.
Context `{L : Lua} `{SI : StreamIds} `{E : VkEnv} `{CJ : Cjson} `{!CjsonKeeps CJ}.

(** ** Reading by oneself *)

(** The servers keep what they have. *)
Definition same_servers (w w' : VW) : Prop := forall addr, server (vw_db w') addr = server (vw_db w) addr.

Lemma fetch_alone {A} shard (f : Shard -> A) w :
  valone E -> exists w', fetch shard f w = (Ok (f (server (vw_db w) (sh_Addr shard))), w') /\ same_servers w w' /\ vw_clock w' = vw_clock w.
Proof.
  intros [Hf Ho]. unfold fetch, command. cbn zeta. rewrite Hf. eexists. unfold vadvance. cbn [vw_db vset_db vtick]. rewrite Ho.
  split; [done|]. split; [|done]. intros addr. cbn [vw_db vset_db]. rewrite server_insert. by case_decide as Ha; [subst|].
Qed.

Lemma members_alone shard ix w :
  valone E -> exists w', members shard ix w = (Ok (elements (SMEMBERS (index_key ix) (server (vw_db w) (sh_Addr shard)))), w')
    /\ same_servers w w' /\ vw_clock w' = vw_clock w.
Proof.
  intros Ha. destruct (fetch_alone shard (fun d => elements (SMEMBERS (index_key ix) d)) w Ha) as (w' & Hf & Hw).
  exists w'. split; [|done]. unfold members, or_nil, vtry, mbind, VM_bind. by rewrite Hf.
Qed.

Lemma sources_alone shard ixs w :
  valone E -> exists w', vfor_each (members shard) ixs w
    = (Ok ((fun ix => elements (SMEMBERS (index_key ix) (server (vw_db w) (sh_Addr shard)))) <$> ixs), w')
    /\ same_servers w w' /\ vw_clock w' = vw_clock w.
Proof.
  intros Ha. revert w. induction ixs as [|ix ixs IH]; intros w; cbn [vfor_each]; [by exists w|].
  destruct (members_alone shard ix w Ha) as (w1 & H1 & Hs1 & Hc1). destruct (IH w1) as (w2 & H2 & Hs2 & Hc2).
  exists w2. unfold mbind, VM_bind. rewrite H1, H2. cbn. rewrite (Hs1 (sh_Addr shard)). split; [done|].
  split; [intros addr; by rewrite Hs2|congruence].
Qed.

(** ** Candidates *)

(** The members of all the sets a query names, or of the set of all. *)
Definition candidate (query : option Query) (d : Shard) (id : string) : Prop :=
  match query_sources query with
  | [] => id ∈ SMEMBERS (index_key IAll) d
  | ixs => forall ix, ix ∈ ixs -> id ∈ SMEMBERS (index_key ix) d
  end.

Lemma elem_of_intersect base sources id : id ∈ intersect base sources <-> id ∈ base /\ forall l, l ∈ sources -> id ∈ l.
Proof.
  unfold intersect. rewrite elem_of_elements. generalize (list_to_set base : gset string) (elem_of_list_to_set (C := gset string) id base).
  intros X HX. rewrite <-HX. clear HX. revert X. induction sources as [|l sources IH]; intros X; cbn [foldl]; [set_solver|].
  rewrite IH. set_solver.
Qed.

Lemma candidates_alone shard query w :
  valone E -> exists ids w', candidateIDsForQuery shard query w = (Ok ids, w') /\ same_servers w w' /\ vw_clock w' = vw_clock w
    /\ NoDup ids /\ forall id, id ∈ ids <-> candidate query (server (vw_db w) (sh_Addr shard)) id.
Proof.
  intros Ha. unfold candidateIDsForQuery, candidate. set (d := server (vw_db w) (sh_Addr shard)).
  destruct (sources_alone shard (query_sources query) w Ha) as (w1 & H1 & Hs1 & Hc1).
  unfold mbind, VM_bind. rewrite H1. fold d. set (sources := _ <$> query_sources query).
  assert (Hperm : SliceStable shorter sources ≡ₚ sources) by apply SliceStable_perm.
  assert (Hnd : forall l, l ∈ sources -> NoDup l) by (intros l (ix & -> & _)%list_elem_of_fmap; apply NoDup_elements).
  assert (Hmem : forall id, (forall l, l ∈ sources -> id ∈ l) <-> forall ix, ix ∈ query_sources query -> id ∈ SMEMBERS (index_key ix) d).
  { intros id. split.
    - intros H ix Hix. apply elem_of_elements, H, list_elem_of_fmap. by exists ix.
    - intros H l (ix & -> & Hix)%list_elem_of_fmap. by apply elem_of_elements, H. }
  destruct (SliceStable shorter sources) as [|base rest] eqn:Hsort.
  - apply Permutation_nil_l in Hperm. symmetry in Hperm. apply fmap_nil_inv in Hperm. rewrite Hperm.
    destruct (members_alone shard IAll w1 Ha) as (w2 & H2 & Hs2 & Hc2). eexists _, w2. split; [exact H2|].
    rewrite (Hs1 (sh_Addr shard)). split_and!; [intros addr; by rewrite Hs2|congruence|apply NoDup_elements|apply elem_of_elements].
  - destruct (query_sources query) as [|ix0 ixs] eqn:Hq; [by apply Permutation_length in Hperm|]. rewrite <-Hq in *.
    assert (Hall : forall id, (id ∈ base /\ forall l, l ∈ rest -> id ∈ l) <-> forall l, l ∈ sources -> id ∈ l).
    { intros id. split.
      - intros [H2 H3] l Hl. rewrite <-Hperm in Hl. apply elem_of_cons in Hl as [->|Hl]; auto.
      - intros H. split; [apply H; rewrite <-Hperm; by left|]. intros l Hl. apply H. rewrite <-Hperm. by right. }
    destruct rest as [|l2 rest].
    + exists base, w1. split_and!; [done..|apply Hnd; rewrite <-Hperm; by left|]. intros id. rewrite <-Hmem, <-Hall.
      split; [intros H; split; [done|]; intros l Hl; by apply elem_of_nil in Hl|by intros [H _]].
    + exists (intersect base (l2 :: rest)), w1. split_and!; [done..|apply NoDup_elements|]. intros id.
      by rewrite elem_of_intersect, Hall, Hmem.
Qed.

(** ** What matches is indexed *)

Lemma decode_fields raw t :
  decodeAgent raw = Ok t ->
  a_ID t = a_ID raw /\ a_Kind t = a_Kind raw /\ a_Status t = a_Status raw /\ a_Owner t = a_Owner raw
  /\ a_ParentID t = a_ParentID raw /\ a_TraceID t = a_TraceID raw /\ a_Tags t = a_Tags raw
  /\ default ∅ (a_Metadata t) = default ∅ (a_Metadata raw) /\ namespace_value t = namespace_value raw.
Proof.
  unfold decodeAgent. destruct (reread raw) as [t0|] eqn:Hr; [|done].
  destruct (reread_strings raw t0 Hr) as (H1 & H2 & H3 & H4 & H5 & H6 & H7 & _ & H8 & H9).
  intros Ht. unfold namespace_value, metadata_value. rewrite !(omget_default (a_Metadata _)), <-H7, <-H9.
  set (t1 := set_Metadata _ t0) in *. cbn zeta in Ht.
  set (t2 := if decide (a_NamespaceID t1 = "" /\ omget (a_Metadata t1) NamespaceMetadataKey <> "")%string then _ else _) in Ht.
  assert (Hl : exists z, t = set_LeaseUntil z t2).
  { assert (t2 = set_LeaseUntil (a_LeaseUntil t2) t2) as Hid by (by destruct t2).
    repeat case_match; simplify_eq; eauto. }
  destruct Hl as [z ->]. subst t2.
  assert (Hns : (if decide (a_NamespaceID t1 = "" /\ omget (a_Metadata t1) NamespaceMetadataKey <> "")%string
                 then set_NamespaceID (omget (a_Metadata t1) NamespaceMetadataKey) t1 else t1)
    = set_NamespaceID (if decide (a_NamespaceID t0 = "")%string then mget (default ∅ (a_Metadata t0)) NamespaceMetadataKey
                       else a_NamespaceID t0) t1).
  { subst t1. destruct t0 as [? ? ? ? ? ? ? ? ? ns ? ? ? ? ? ? ? m]. cbn.
    destruct (decide (ns = "")%string) as [->|Hn]; [|rewrite decide_False by tauto; done].
    destruct (decide (mget (default ∅ m) NamespaceMetadataKey = "")%string) as [Hm|Hm].
    - rewrite decide_False by tauto. by rewrite Hm.
    - by rewrite decide_True. }
  rewrite Hns. subst t1. destruct t0 as [? ? ? ? ? ? ? ? ? ns ? ? ? ? ? ? ? m]. cbn in *. split_and!; try done.
  destruct (decide (ns = "")%string); repeat case_decide; done.
Qed.

Lemma elem_unless v (ix ix' : index) : ix' ∈ unless_empty v ix <-> v <> ""%string /\ ix' = ix.
Proof. unfold unless_empty. case_decide; [set_solver|]. rewrite list_elem_of_singleton. naive_solver. Qed.

Lemma matching_indexed raw t query ix :
  decodeAgent raw = Ok t -> matchesQueryFilters t query = true -> ix ∈ query_sources query -> ix ∈ set_indexes raw.
Proof.
  intros Hdec Hm Hix. destruct query as [q|]; [|by apply elem_of_nil in Hix].
  destruct (decode_fields raw t Hdec) as (_ & Hk & Hs & Ho & Hp & Htr & Htg & Hmd & Hns).
  unfold matchesQueryFilters in Hm. cbn zeta in Hm. rewrite !andb_true_iff, !crit_spec in Hm.
  destruct Hm as (((((((K & S) & O) & P) & T) & N) & TG) & MD). apply HasAllTags_spec in TG. rewrite forallb_forall in MD.
  fold (metadata_value t NamespaceMetadataKey) in N. fold (namespace_value t) in N.
  rewrite Hk in K. rewrite Hs in S. rewrite Ho in O. rewrite Hp in P. rewrite Htr in T. rewrite Hns in N. rewrite Htg in TG.
  unfold query_sources in Hix. unfold set_indexes. rewrite !elem_of_app, !elem_unless in *. rewrite !list_elem_of_fmap in *.
  destruct Hix as [[Hne ->]|[[Hne ->]|[[Hne ->]|[[Hne ->]|[[Hne ->]|[[Hne ->]|[(tag & -> & Htag)|(kv & -> & Hkv)]]]]]]].
  - destruct S as [S|S]; [done|]. left. rewrite <-S. right. by left.
  - destruct K as [K|K]; [done|]. rewrite K. tauto.
  - destruct O as [O|O]; [done|]. rewrite O. tauto.
  - destruct P as [P|P]; [done|]. rewrite P. tauto.
  - destruct T as [T|T]; [done|]. rewrite T. tauto.
  - destruct N as [N|N]; [done|]. rewrite N. tauto.
  - do 6 right. left. exists tag. split; [done|]. by apply TG.
  - do 7 right. apply list_elem_of_filter in Hkv as [Hna Hkv]. exists kv. split; [done|].
    specialize (MD kv (proj1 (list_elem_of_In _ _) Hkv)). apply orb_true_iff in MD.
    rewrite !bool_decide_eq_true in MD. destruct MD as [MD|MD]; [done|]. rewrite Hmd in MD.
    destruct kv as [k v]. by apply elem_of_map_to_list.
Qed.

(** Whatever is stored, alive and matching is among the candidates. *)
Lemma matching_candidate d id raw t query :
  indexed d -> table d id = Some raw -> decodeAgent raw = Ok t -> matchesQueryFilters t query = true -> candidate query d id.
Proof.
  intros Hd Ht Hdec Hm. unfold candidate. destruct (query_sources query) as [|ix0 ixs] eqn:Hq.
  - apply (ix_sets _ Hd). exists raw. split; [done|]. by left.
  - rewrite <-Hq. intros ix Hix. apply (ix_sets _ Hd). exists raw. split; [done|]. by eapply matching_indexed.
Qed.

Lemma matches_ShardID sh t query : matchesQueryFilters (set_ShardID sh t) query = matchesQueryFilters t query.
Proof. by destruct query, t. Qed.

(** ** The answer *)

(** What [decode_all] and [keep_matching] compute. *)
Lemma decode_all_alone sh now values w :
  exists w', decode_all sh now values w = (Ok (omap (fun v => v.2 ≫= live_table sh now) values), w')
    /\ same_servers w w'.
Proof.
  revert w. induction values as [|[id v] values IH]; intros w; cbn [decode_all]; [by exists w|].
  cbn [omap list_omap snd]. destruct v as [raw|]; cbn [fmap option_fmap option_map mbind option_bind]; [|apply IH].
  replace (live_table sh now raw) with (match decodeAgent raw with Ok t => if isExpired t now then None else Some (set_ShardID sh t) | Err _ => None end) by done. destruct (decodeAgent raw) as [t|e]; [|apply IH]. destruct (isExpired t now); [apply IH|].
  unfold mbind, VM_bind, remember. match goal with |- context [decode_all sh now values ?w1] => destruct (IH w1) as (w' & H1 & H2) end.
  exists w'. rewrite H1. split; [done|exact H2].
Qed.

Lemma keep_matching_alone sh query values w :
  exists w', keep_matching sh query values w
    = (Ok (set_ShardID sh <$> filter (fun t => matchesQueryFilters t query) values), w') /\ same_servers w w'.
Proof.
  revert w. induction values as [|t values IH]; intros w; cbn [keep_matching]; [by exists w|]. rewrite filter_cons.
  destruct (matchesQueryFilters t query) eqn:Hm.
  - rewrite decide_True by done. unfold mbind, VM_bind, remember.
    match goal with |- context [keep_matching sh query values ?w1] => destruct (IH w1) as (w' & H1 & H2) end.
    exists w'. rewrite H1. split; [done|exact H2].
  - rewrite decide_False by (by intros ?). apply IH.
Qed.

Lemma live_Some sh now raw t : live_table sh now raw = Some t ->
  exists t0, decodeAgent raw = Ok t0 /\ t = set_ShardID sh t0.
Proof. unfold live_table. destruct (decodeAgent raw) as [t0|]; [|done]. destruct (isExpired t0 now); [done|]. intros [= <-]. by exists t0. Qed.

Lemma live_ID sh now raw t : live_table sh now raw = Some t -> a_ID t = a_ID raw.
Proof. intros (t0 & Hd & ->)%live_Some. rewrite (proj1 (set_ShardID_keeps _ _)). by apply decode_keeps. Qed.

Lemma omap_sublist {A B C} (f : A -> option B) (g : B -> C) (h : A -> C) l :
  (forall a b, f a = Some b -> g b = h a) -> g <$> omap f l `sublist_of` h <$> l.
Proof.
  intros Hf. induction l as [|a l IH]; [done|]. cbn. destruct (f a) as [b|] eqn:Hfa; cbn; [rewrite (Hf _ _ Hfa)|]; by constructor.
Qed.

Lemma filter_NoDup_by {A B} (g : A -> B) (P : A -> Prop) `{!forall x, Decision (P x)} l : NoDup (g <$> l) -> NoDup (g <$> filter P l).
Proof. intros Hg. eapply sublist_NoDup; [exact Hg|]. apply fmap_sublist, sublist_filter. Qed.

Lemma sorted_by_ID l k : NoDup (a_ID <$> l) -> l ≡ₚ k -> sortAgents l = sortAgents k.
Proof.
  intros Hnd. apply (SliceStable_unique created_before); [apply created_before_asym|apply merged_le_trans|].
  intros x y Hx Hy H1 H2. apply merged_le_iff in H1, H2. destruct H1 as [H1|[H1 S1]], H2 as [H2|[H2 S2]]; [lia..|].
  pose proof (string_leb_antisymm _ _ S1 S2) as Hid.
  apply list_elem_of_lookup in Hx as [i Hi], Hy as [j Hj].
  assert (i = j) as ->; [|congruence]. apply (NoDup_lookup (a_ID <$> l) i j (a_ID x)); [done| |];
    rewrite list_lookup_fmap; [by rewrite Hi|by rewrite Hj; cbn; rewrite Hid].
Qed.

(** The candidates' answers are the scan. *)
Lemma candidates_scan sh now query d ids :
  indexed d -> NoDup ids -> (forall id, id ∈ ids <-> candidate query d id) ->
  sortAgents (filter (fun t => matchesQueryFilters t query) (omap (fun id => table d id ≫= live_table sh now) ids))
  = scan sh now query d.
Proof.
  intros Hd Hnd Hids.
  assert (Hkeyed : forall k raw, (k, raw) ∈ map_to_list (v_agents d) -> table d (a_ID raw) = Some raw).
  { intros k raw Hk%elem_of_map_to_list. unfold table, get_agent. by rewrite <-(ix_keyed _ Hd _ _ Hk). }
  assert (N1 : NoDup (a_ID <$> filter (fun t => matchesQueryFilters t query) (omap (fun id => table d id ≫= live_table sh now) ids))).
  { apply filter_NoDup_by. eapply sublist_NoDup; [|apply (omap_sublist _ _ (fun id => id))]; [by rewrite list_fmap_id|].
    intros id t Ht. destruct (table d id) as [raw|] eqn:Hr; [|done]. rewrite (live_ID _ _ _ _ Ht). by eapply table_keyed. }
  apply sorted_by_ID; [done|]. apply NoDup_Permutation.
  - by eapply NoDup_fmap_1.
  - apply (NoDup_fmap_1 a_ID), filter_NoDup_by. eapply sublist_NoDup; [|apply omap_sublist, live_ID].
    apply (NoDup_fmap_1 agentKey). rewrite <-!list_fmap_compose.
    erewrite list_fmap_ext; [apply (NoDup_fst_map_to_list (v_agents d))|]. intros i [k raw] Hi%list_elem_of_lookup_2. cbn.
    symmetry. by apply (ix_keyed _ Hd), elem_of_map_to_list.
  - intros t. rewrite !list_elem_of_filter, !list_elem_of_omap. split; intros [Hm (x & Hx & Hl)]; (split; [done|]).
    + destruct (table d x) as [raw|] eqn:Hr; [|done]. exists raw. split; [|done].
      apply list_elem_of_fmap. exists (agentKey x, raw). split; [done|]. by apply elem_of_map_to_list.
    + apply list_elem_of_fmap in Hx as ([k raw] & -> & Hk). cbn in *. exists (a_ID raw). rewrite (Hkeyed _ _ Hk). split; [|done].
      apply Hids. destruct (live_Some _ _ _ _ Hl) as (t0 & Hdec & ->).
      assert (matchesQueryFilters t0 query = true) as Hm0 by (rewrite <-(matches_ShardID sh); by destruct (matchesQueryFilters _ _)).
      by eapply matching_candidate; [| |exact Hdec|]; [done|apply (Hkeyed k)|done].
Qed.

Lemma omap_values sh now d (l : list string) :
  omap (fun v => v.2 ≫= live_table sh now) ((fun id => (id, get_agent (agentKey id) d)) <$> l)
  = omap (fun id => table d id ≫= live_table sh now) l.
Proof.
  induction l as [|x l IH]; [done|]. rewrite fmap_cons. cbn [omap list_omap snd]. fold (table d x).
  destruct (table d x ≫= live_table sh now); [f_equal|]; exact IH.
Qed.

Lemma queryShard_alone shard query w :
  valone E -> indexed (server (vw_db w) (sh_Addr shard)) ->
  exists w', queryShard shard query w
    = (Ok (scan (sh_ShardID shard) (vclock_at (vw_clock w)) query (server (vw_db w) (sh_Addr shard))), w')
    /\ same_servers w w'.
Proof.
  intros Ha Hd. set (d := server (vw_db w) (sh_Addr shard)) in *. set (now := vclock_at (vw_clock w)).
  destruct (candidates_alone shard query w Ha) as (ids & w1 & H1 & Hs1 & Hc1 & Hnd & Hids). fold d in Hids.
  assert (Hget : exists w2, getManyFromShard shard ids w1
    = (Ok (omap (fun id => table d id ≫= live_table (sh_ShardID shard) now) ids), w2) /\ same_servers w1 w2).
  { unfold getManyFromShard. destruct ids as [|id ids]; [by exists w1|]. unfold mbind, VM_bind.
    destruct (fetch_alone shard (fun d => (fun id => (id, get_agent (agentKey id) d)) <$> id :: ids) w1 Ha) as (w2 & H2 & Hs2 & Hc2).
    rewrite H2, (Hs1 (sh_Addr shard)). unfold vnow. rewrite Hc2, Hc1.
    match goal with |- context [decode_all ?sh ?n ?v ?w3] => destruct (decode_all_alone sh n v w3) as (w4 & H4 & Hs4) end.
    exists w4. rewrite H4. split; [|intros addr; by rewrite Hs4, <-(Hs2 addr)]. f_equal. f_equal.
    apply omap_values. }
  destruct Hget as (w2 & H2 & Hs2). unfold queryShard, mbind, VM_bind. rewrite H1, H2.
  destruct (keep_matching_alone (sh_ShardID shard) query (omap (fun id => table d id ≫= live_table (sh_ShardID shard) now) ids) w2)
    as (w3 & H3 & Hs3). rewrite H3. exists w3. split; [|intros addr; by rewrite Hs3, Hs2, Hs1]. unfold mret, VM_ret.
  rewrite <-(candidates_scan (sh_ShardID shard) now query d ids Hd Hnd Hids). f_equal. f_equal. f_equal.
  transitivity (@id Agent <$> filter (fun t => matchesQueryFilters t query) (omap (fun x => table d x ≫= live_table (sh_ShardID shard) now) ids));
    [|apply list_fmap_id].
  apply list_fmap_ext. intros i t [_ (x & _ & Hl)%list_elem_of_omap]%list_elem_of_lookup_2%list_elem_of_filter.
  destruct (table d x) as [raw|]; [|done]. destruct (live_Some _ _ _ _ Hl) as (t0 & _ & ->). by destruct t0.
Qed.

End Queries.

(** ** A query to evaluate *)

#[local] Existing Instance demo_lua.
#[local] Existing Instance demo_ids.
#[local] Existing Instance plain_cjson.

Definition lone_client : VkEnv := {|
  vclock_at n := Z.of_nat n * Time.Second;
  vuuid_at n := "u" +:+ Strconv.FormatInt (Z.of_nat n);
  vfault_at _ := None;
  vothers_at _ db := db;
  vserver_ms_at n := Z.of_nat n;
  vwait_at _ := WTimer;
|}.

Lemma lone_alone : valone lone_client.
Proof. done. Qed.

Definition demo_world : VW := MkVW {["h:1"%string := demo_shard]} 0 0 0 ∅ [] [] [] 0.

Definition jobs_of_queue : option Query :=
  Some (MkQuery "job" "" [] "" "" "" "n" "" (Some {[QueueMetadataKey := "q"%string]}) 2 1).

Lemma demo_world_indexed : indexed (server (vw_db demo_world) "h:1").
Proof. unfold server, demo_world. cbn [vw_db]. rewrite lookup_singleton_eq. apply demo_indexed. Qed.

(** ** The theorem *)

(** C26: a query answered from the index sets is a scan.  For a store by
    itself, on a shard whose indexes are exact: whatever criteria a query
    combines, [Query] answers the page asked for of the list of all stored
    agents that are alive and match it, by creation time and then identifier,
    and [Count] their number. *)
Theorem query_is_scan `{L : Lua} `{SI : StreamIds} `{E : VkEnv} `{CJ : Cjson} `{!CjsonKeeps CJ} (s : ValkeyStore) query shard w :
  valone E -> shardFromQuery s query = Some (Ok shard) -> indexed (server (vw_db w) (sh_Addr shard)) ->
  let all := scan (sh_ShardID shard) (vclock_at (vw_clock w)) query (server (vw_db w) (sh_Addr shard)) in
  (query_ s query w).1 = Ok (applyAgentLimitOffset all query)
  /\ (Count s query w).1 = Ok (Z.of_nat (length all))
  /\ forall addr, server (vw_db (query_ s query w).2) addr = server (vw_db w) addr.
Proof.
  intros Ha Hr Hd all.
  assert (Hr' : shardFromQuery s (cloneQueryWithoutPagination query) = Some (Ok shard)) by (rewrite <-Hr; by destruct query).
  assert (Hscan : forall sh now d, scan sh now (cloneQueryWithoutPagination query) d = scan sh now query d) by (by destruct query).
  destruct (queryShard_alone shard query w Ha Hd) as (w1 & H1 & Hs1).
  destruct (queryShard_alone shard (cloneQueryWithoutPagination query) w Ha Hd) as (w2 & H2 & _). rewrite Hscan in H2.
  unfold Count, query_ at 1 2 3. rewrite Hr, Hr'. unfold mbind, VM_bind. rewrite H1, H2. split_and!; [done| |exact Hs1].
  fold all. by destruct query.
Qed.

Lemma query_is_scan_witness :
  let shard := MkSpec "valkey-0" "h:1" "" "" in
  let all := scan (sh_ShardID shard) (@vclock_at lone_client (vw_clock demo_world)) jobs_of_queue
               (server (vw_db demo_world) (sh_Addr shard)) in
  a_ID <$> all = ["a"; "b"; "c"]%string
  /\ (query_ (E := lone_client) one_shard jobs_of_queue demo_world).1 = Ok (applyAgentLimitOffset all jobs_of_queue).
Proof.
  split; [vm_compute; reflexivity|]. pose proof plain_keeps as HK.
  refine (proj1 (query_is_scan (E := lone_client) one_shard jobs_of_queue (MkSpec "valkey-0" "h:1" "" "") demo_world
              lone_alone eq_refl demo_world_indexed)).
Defined.

(** ** Valkey: cases the operations treat unexpectedly

    Runs of the store by itself, evaluated.*)


#[local] Existing Instance demo_lua.
#[local] Existing Instance demo_ids.
#[local] Existing Instance plain_cjson.
#[local] Existing Instance lone_client.

(** An agent with further metadata entries. *)
Definition with_entry (k v : string) (t : Agent) : Agent := WithMetadata k v t.

(** ** Queue names with white space *)

(** The agent is stored under the queue's name as given, a take looks under
    the trimmed name: it is never found. *)
Theorem padded_queue_never_taken :
  ((_ ← Out one_shard (with_entry "queue" " q " (job "a" "10" ""));
    t1 ← take_ one_shard "" (from_queue "alice");
    t2 ← take_ one_shard ""
           (Some (MkQuery "" "" [] "" "" "" "n" "alice" (Some {[QueueMetadataKey := " q "%string]}) 0 0));
    n ← Count one_shard (Some (MkQuery "" StatusNew [] "" "" "" "n" "" None 0 0));
    mret (t1, t2, n)) vstart).1
  = Ok (None, None, 1).
Proof. vm_compute. reflexivity. Qed.

(** ** Expired agents at the head of a queue *)

(** The agent at the head has outlived its TTL: a take that needs the whole
    agent fails, though a younger agent waits behind it, while a plain take
    claims the expired one. *)
Definition expired_head : VM unit :=
  _ ← Out one_shard (set_CreatedAt 1 (set_TTL 1 (with_entry "k" "v" (job "old" "10" ""))));
  _ ← Out one_shard (with_entry "k" "v" (job "young" "20" ""));
  mret tt.

Theorem expired_head_blocks :
  ((_ ← expired_head;
    take_ one_shard ""
      (Some (MkQuery "" "" [] "" "" "" "n" "alice" (Some (<["k" := "v"]> {[QueueMetadataKey := "q"]})%string) 0 0))) vstart).1
  = Err (VNotFound "old")
  /\ ((_ ← expired_head; o ← take_ one_shard "" (from_queue "alice"); mret (a_ID <$> o)) vstart).1 = Ok (Some "old"%string).
Proof. split; vm_compute; reflexivity. Qed.

(** ** Two lease lengths *)

(** With both entries, the script takes [lease_ms] and the answer tells the
    end that [lease_sec] gives: a minute is answered, a tenth of a second is
    stored. *)
Theorem lease_answered_not_stored :
  let run := (_ ← Out one_shard (with_entry "lease_sec" "60" (job "a" "10" "100"));
              o ← take_ one_shard "" (from_queue "alice");
              mret (default 0 (a_LeaseUntil <$> o))) vstart in
  run.1 = Ok (61 * Time.Second)
  /\ lease_score <$> table (server (vw_db run.2) "h:1") "a" = Some (Time.UnixMilli (1 * Time.Second + 100 * Time.Millisecond)).
Proof. split; vm_compute; reflexivity. Qed.

(** ** Filtered event queries *)

(** Only the newest [limit + offset] entries are looked at: the claim is
    there, and a query for claims does not find it. *)
Theorem event_query_misses :
  let run := (_ ← Out one_shard (job "a" "10" "");
              _ ← take_ one_shard "" (from_queue "alice");
              _ ← Out one_shard (job "b" "20" "");
              page ← QueryEvents one_shard (Some (MkEventQuery "" "" EventClaimed "" 1 0 ""));
              all ← QueryEvents one_shard (Some (MkEventQuery "" "" EventClaimed "" 3 0 ""));
              mret (ep_Total page, ep_Total all)) vstart in
  run.1 = Ok (0, 1).
Proof. vm_compute. reflexivity. Qed.

(** ** Empty lists *)

(** With the encoding of [plain_cjson] a batch take from an empty queue fails
    instead of answering with nothing. *)
Theorem empty_batch_fails : (BatchTake one_shard (from_queue "alice") 5 vstart).1 = Err VJSON.
Proof. vm_compute. reflexivity. Qed.

(** A completion without outputs takes effect and answers with an error. *)
Theorem no_outputs_completes_and_fails :
  let run := (_ ← Out one_shard (job "a" "10" "");
              _ ← take_ one_shard "" (from_queue "alice");
              CompleteAndOut one_shard "a" "alice" "u1" None []) vstart in
  run.1 = Err VJSON /\ a_Status <$> table (server (vw_db run.2) "h:1") "a" = Some StatusCompleted.
Proof. split; vm_compute; reflexivity. Qed.
