(* ===== verification/GoSha.v ===== *)
(** * Package crypto/sha256

    The digest the loader stores beside a migration, word for word of FIPS
    180-4 as the package computes it, and its hexadecimal text. *)

From S2P Require Import Prelude GoLib.
From stdpp Require Import strings list list_numbers.
From Stdlib Require Import ZArith Lia Ascii.

Open Scope Z_scope.

Module Sha256.

(** ** Words of 32 bits *)

Definition word (z : Z) : Z := z mod 2 ^ 32.
Definition rotr (n x : Z) : Z := Z.lor (Z.shiftr x n) (word (Z.shiftl x (32 - n))).
Definition flip (x : Z) : Z := Z.lxor x (2 ^ 32 - 1).

Definition xor3 (a b c : Z) : Z := Z.lxor (Z.lxor a b) c.
Definition big_sigma0 (x : Z) : Z := xor3 (rotr 2 x) (rotr 13 x) (rotr 22 x).
Definition big_sigma1 (x : Z) : Z := xor3 (rotr 6 x) (rotr 11 x) (rotr 25 x).
Definition small_sigma0 (x : Z) : Z := xor3 (rotr 7 x) (rotr 18 x) (Z.shiftr x 3).
Definition small_sigma1 (x : Z) : Z := xor3 (rotr 17 x) (rotr 19 x) (Z.shiftr x 10).
Definition choose (x y z : Z) : Z := Z.lxor (Z.land x y) (Z.land (flip x) z).
Definition majority (x y z : Z) : Z := xor3 (Z.land x y) (Z.land x z) (Z.land y z).

(** The constants are fractional parts of roots of the first primes, in 32
    bits: square roots for the initial digest, cube roots for the rounds. *)
Definition is_prime (n : Z) : bool := forallb (fun d => negb (n mod d =? 0)) (seqZ 2 (n - 2)).

Definition first_primes : list Z := Eval vm_compute in filter (fun n => is_prime n = true) (seqZ 2 310).

(** The largest number below [r + 2 ^ n] whose cube is at most [x]. *)
Fixpoint cube_root (n : nat) (r x : Z) : Z :=
  match n with
  | O => r
  | S n => let r' := r + 2 ^ Z.of_nat n in cube_root n (if r' ^ 3 <=? x then r' else r) x
  end.

Definition round_constants : list Z := Eval vm_compute in (fun p => word (cube_root 36 0 (p * 2 ^ 96))) <$> first_primes.

(** The eight words of the running digest. *)
Record digest : Type := MkDigest { dA : Z; dB : Z; dC : Z; dD : Z; dE : Z; dF : Z; dG : Z; dH : Z }.

Definition initial : digest := Eval vm_compute in
  match (fun p => word (Z.sqrt (p * 2 ^ 64))) <$> take 8 first_primes with
  | [a; b; c; d; e; f; g; h] => MkDigest a b c d e f g h
  | _ => MkDigest 0 0 0 0 0 0 0 0
  end.

(** ** One block *)

(** The message schedule, newest word first. *)
Fixpoint expand (n : nat) (ws : list Z) : list Z :=
  match n with
  | O => ws
  | S n => expand n (word (small_sigma1 (nth 1 ws 0) + nth 6 ws 0 + small_sigma0 (nth 14 ws 0) + nth 15 ws 0) :: ws)
  end.

Definition turn (d : digest) (kw : Z * Z) : digest :=
  let '(MkDigest a b c d e f g h) := d in
  let t1 := h + big_sigma1 e + choose e f g + kw.1 + kw.2 in
  let t2 := big_sigma0 a + majority a b c in
  MkDigest (word (t1 + t2)) a b c (word (d + t1)) e f g.

Definition add (x y : digest) : digest :=
  MkDigest (word (dA x + dA y)) (word (dB x + dB y)) (word (dC x + dC y)) (word (dD x + dD y))
           (word (dE x + dE y)) (word (dF x + dF y)) (word (dG x + dG y)) (word (dH x + dH y)).

Definition block (d : digest) (ws : list Z) : digest :=
  add d (foldl turn d (zip round_constants (rev (expand 48 (rev ws))))).

(** ** Messages *)

Fixpoint big_endian (n : nat) (z : Z) : list Z :=
  match n with O => [] | S n => big_endian n (Z.shiftr z 8) ++ [z mod 256] end.

Definition of_big_endian (l : list Z) : Z := foldl (fun a b => a * 256 + b) 0 l.

(** The message, a one bit, zeros, and the length in bits, in blocks of 64
    bytes. *)
Definition padded (l : list Z) : list Z :=
  l ++ [128] ++ replicate (Z.to_nat ((55 - Z.of_nat (length l)) mod 64)) 0
    ++ big_endian 8 (8 * Z.of_nat (length l)).

Fixpoint chunks {A} (n fuel : nat) (l : list A) : list (list A) :=
  match fuel, l with
  | O, _ | _, [] => []
  | S fuel, l => take n l :: chunks n fuel (drop n l)
  end.

Definition words (d : digest) : list Z := [dA d; dB d; dC d; dD d; dE d; dF d; dG d; dH d].

(** [sha256.Sum256]. *)
Definition Sum256 (s : string) : list Z :=
  let m := padded (byte_val <$> bytes s) in
  words (foldl (fun d c => block d (of_big_endian <$> chunks 4 16 c)) initial (chunks 64 (length m) m))
    ≫= big_endian 4.

(** [fmt.Sprintf("%x", ...)] of a byte slice. *)
Definition hex_digit (z : Z) : ascii :=
  ascii_of_N (Z.to_N (if decide (z < 10) then 48 + z else 87 + z)).

Definition Hex (l : list Z) : string :=
  of_bytes (l ≫= fun b => [hex_digit (b / 16); hex_digit (b mod 16)]).

(** ** The text of a digest *)

Definition is_hex (c : ascii) : Prop := 48 <= byte_val c <= 57 \/ 97 <= byte_val c <= 102.

Lemma hex_digit_hex z : 0 <= z < 16 -> is_hex (hex_digit z).
Proof.
  intros Hz. unfold is_hex, byte_val, hex_digit. rewrite N_ascii_embedding; case_decide; lia.
Qed.

Lemma big_endian_bytes n z : Forall (fun b => 0 <= b < 256) (big_endian n z).
Proof.
  revert z. induction n as [|n IH]; intros z; simpl; [done|].
  apply Forall_app. split; [apply IH|]. repeat constructor; apply Z.mod_pos_bound; lia.
Qed.

Lemma Sum256_bytes s : Forall (fun b => 0 <= b < 256) (Sum256 s) /\ Sum256 s <> [].
Proof.
  unfold Sum256, words. set (d := foldl _ _ _). clearbody d. split.
  - apply Forall_bind. repeat (apply Forall_cons; split; [apply big_endian_bytes|]). constructor.
  - intros H. apply (f_equal length) in H. by cbn in H.
Qed.

Lemma Hex_hex l : Forall (fun b => 0 <= b < 256) l -> Forall is_hex (bytes (Hex l)).
Proof.
  intros Hl. unfold Hex. rewrite bytes_of_bytes. apply Forall_bind.
  eapply Forall_impl; [exact Hl|]. intros b Hb. cbn beta in Hb |- *.
  assert (0 <= b mod 16 < 16) by (apply Z.mod_pos_bound; lia). assert (0 <= b / 16 < 16) by (split; [apply Z.div_pos|apply Z.div_lt_upper_bound]; lia).
  apply Forall_cons; split; [apply hex_digit_hex; lia|]. apply Forall_cons; split; [apply hex_digit_hex; lia|constructor].
Qed.

(** Such a text is not blank, and trimming leaves it as it is. *)
Lemma space_len_hex l : Forall is_hex l -> Strings.space_len l = None.
Proof.
  intros Hl. unfold Strings.space_len, is_hex in *.
  destruct l as [|a l]; [done|]. inversion Hl as [|? ? Ha Hl']; subst. simpl.
  rewrite decide_False by lia. destruct l as [|b l]; [done|]. simpl. rewrite decide_False by lia.
  destruct l as [|c l]; [done|]. simpl. by rewrite decide_False by lia.
Qed.

Lemma space_len_rev_hex l : Forall is_hex l -> Strings.space_len_rev l = None.
Proof.
  intros Hl. unfold Strings.space_len_rev.
  destruct l as [|a [|b [|c l]]]; [done| | |]; repeat (apply Forall_cons in Hl as [? Hl]);
    rewrite !space_len_hex by (repeat (apply Forall_cons; split; [assumption|]); constructor); reflexivity.
Qed.

Lemma TrimSpace_hex s : Forall is_hex (bytes s) -> Strings.TrimSpace s = s.
Proof.
  intros Hs. unfold Strings.TrimSpace, Strings.trim_bytes. rewrite (Strings.strip_none Strings.space_len) by by apply space_len_hex.
  rewrite Strings.strip_none by (apply space_len_rev_hex; by apply Forall_rev).
  rewrite rev_involutive. apply of_bytes_bytes.
Qed.

Lemma Sum256_text s : Strings.TrimSpace (Hex (Sum256 s)) = Hex (Sum256 s) /\ Hex (Sum256 s) <> ""%string.
Proof.
  destruct (Sum256_bytes s) as [Hb Hne]. split; [by apply TrimSpace_hex, Hex_hex|].
  intros H. apply (f_equal bytes) in H. unfold Hex in H. rewrite bytes_of_bytes in H. by destruct (Sum256 s).
Qed.

Example Sum256_abc :
  Hex (Sum256 "abc") = "ba7816bf8f01cfea414140de5dae2223b00361a396177a9cb410ff61f20015ad"%string.
Proof. vm_compute. reflexivity. Qed.

Example Sum256_two_blocks :
  Hex (Sum256 "abcdbcdecdefdefgefghfghighijhijkijkljklmklmnlmnomnopnopq")
  = "248d6a61d20638b8e5c026930c3e6039a33ce45964ff2167f6ecedd419db06c1"%string.
Proof. vm_compute. reflexivity. Qed.

End Sha256.
