(* ===== verification/MigrationFiles.v ===== *)
(** * The migrations loader

    [src/pkg/store/migrations]: the embedded files are a list of paths and
    contents in the order a directory is read.  [Load] picks those of one
    backend and direction, reads version, name and text out of each, refuses
    a non-transactional Postgres file that is not one statement, and sorts
    them.  [lexes] is the lexical grammar [countTopLevelSQLStatements] is
    compared with. *)

From S2P Require Import Prelude GoLib GoSort GoSha Effects.
From stdpp Require Import gmap strings list.
From Stdlib Require Import ZArith Lia Ascii.

Open Scope Z_scope.
Open Scope string_scope.

(** ** Package unicode *)

(** [unicode.IsSpace(rune(b))] of one byte, and [utf8.DecodeRune]: the rune a
    text starts with and its width; an invalid byte is U+FFFD of width 1. *)
Definition is_space_byte (c : ascii) : bool :=
  bool_decide (9 <= byte_val c <= 13 \/ byte_val c = 32 \/ byte_val c = 133 \/ byte_val c = 160).

Definition rune_error : Z * nat := (65533, 1%nat).

Definition continues (z : Z) : Prop := 128 <= z <= 191.
#[export] Instance continues_dec z : Decision (continues z).
Proof. unfold continues. apply _. Defined.

Definition decode_rune (l : list ascii) : Z * nat :=
  match byte_val <$> take 4 l with
  | [] => rune_error
  | a :: rest =>
      if decide (a < 128) then (a, 1%nat) else
      match rest with
      | b :: rest =>
          if decide (194 <= a <= 223 /\ continues b) then ((a - 192) * 64 + (b - 128), 2%nat) else
          match rest with
          | c :: rest =>
              if decide (224 <= a <= 239 /\ continues b /\ continues c /\ (a = 224 -> 160 <= b) /\ (a = 237 -> b <= 159))
              then ((a - 224) * 4096 + (b - 128) * 64 + (c - 128), 3%nat) else
              match rest with
              | d :: _ =>
                  if decide (240 <= a <= 244 /\ continues b /\ continues c /\ continues d
                             /\ (a = 240 -> 144 <= b) /\ (a = 244 -> b <= 143))
                  then ((a - 240) * 262144 + (b - 128) * 4096 + (c - 128) * 64 + (d - 128), 4%nat)
                  else rune_error
              | [] => rune_error
              end
          | [] => rune_error
          end
      | [] => rune_error
      end
  end.

(** [for _, ch := range s]. *)
Fixpoint runes_go (fuel : nat) (l : list ascii) : list Z :=
  match fuel, l with
  | O, _ | _, [] => []
  | S fuel, l => let '(r, n) := decode_rune l in r :: runes_go fuel (drop n l)
  end.
Definition runes (l : list ascii) : list Z := runes_go (length l) l.

(** [unicode.IsLetter] or [unicode.IsDigit]: the runes of one byte, and the
    tables of the package for the others. *)
Class UnicodeTables : Type := { wide_letter_or_digit : Z -> bool }.

Definition letter_or_digit `{UnicodeTables} (r : Z) : bool :=
  if decide (r < 256)
  then bool_decide (48 <= r <= 57 \/ 65 <= r <= 90 \/ 97 <= r <= 122 \/ r = 170 \/ r = 181 \/ r = 186
                    \/ 192 <= r <= 214 \/ 216 <= r <= 246 \/ 248 <= r <= 255)
  else wide_letter_or_digit r.

(** ** Constants and specs *)

Definition DirectionUp := "up".
Definition DirectionDown := "down".
Definition BackendPostgres := "postgres".
Definition BackendSQLite := "sqlite".
Definition SchemaTargetVersion : Z := 17.
Definition SchemaMinCompatVersion : Z := SchemaTargetVersion - 1.

Record Spec : Type := MkSpec {
  s_Backend : string;
  s_Version : Z;
  s_Name : string;
  s_Direction : string;
  s_File : string;
  s_SQL : string;
  s_Checksum : string;
  s_Transactional : bool;
}.

(** [%q] of a text without quotes, backslashes or control characters. *)
Definition quoted (s : string) : string := String "034" (s +:+ String "034" "").

(** ** The text of a migration *)

Definition newline : ascii := "010".

Definition parseMigrationSQL (raw : string) : string * bool :=
  let lines := Strings.Split raw newline in
  let directive line := bool_decide (Strings.TrimSpace line = "-- migrate:nontransactional") in
  (Strings.Join (filter (fun line => directive line = false) lines) (String newline ""),
   negb (existsb directive lines)).

(** ** Counting statements *)

(** [scanQuotedString], from the byte after the opening quote: the text after
    the closing one. *)
Fixpoint scanQuotedString (quote : ascii) (l : list ascii) : option (list ascii) :=
  match l with
  | [] => None
  | c :: l =>
      if decide (c <> quote) then scanQuotedString quote l
      else match l with
           | d :: l' => if decide (d = quote) then scanQuotedString quote l' else Some l
           | [] => Some l
           end
  end.

Section Lexer.
Context `{U : UnicodeTables}.

Definition dollar : ascii := "$".

(** [matchDollarQuote]. *)
Definition matchDollarQuote (l : list ascii) : option (list ascii) :=
  match l with
  | c :: l =>
      if decide (c = dollar)
      then match Strings.cut_bytes dollar l with
           | (inner, Some _) =>
               if forallb (fun ch => letter_or_digit ch || bool_decide (ch = 95)) (runes inner)
               then Some (dollar :: inner ++ [dollar]) else None
           | (_, None) => None
           end
      else None
  | [] => None
  end.

(** The variables of [countTopLevelSQLStatements]. *)
Record Scan : Type := MkScan {
  sc_count : Z;
  sc_hasContent : bool;
  sc_blockCommentDepth : Z;
  sc_lineComment : bool;
  sc_dollarQuote : list ascii;
}.

Definition starts (l : list ascii) (p : string) : bool := Strings.prefix_bytes (bytes p) l.

(** One iteration of its loop, at a text that has not ended: the variables
    and the rest of the text. *)
Definition scan_step (s : Scan) (c : ascii) (l : list ascii) : result string (Scan * list ascii) :=
  let 'MkScan count hasContent depth lineComment dollarQuote := s in
  let text := c :: l in
  if lineComment then
    Ok (MkScan count hasContent depth (negb (bool_decide (c = newline))) dollarQuote, l)
  else if decide (depth > 0) then
    if starts text "/*" then Ok (MkScan count hasContent (depth + 1) lineComment dollarQuote, drop 2 text)
    else if starts text "*/" then Ok (MkScan count hasContent (depth - 1) lineComment dollarQuote, drop 2 text)
    else Ok (s, l)
  else if decide (dollarQuote <> []) then
    if Strings.prefix_bytes dollarQuote text
    then Ok (MkScan count hasContent depth lineComment [], drop (length dollarQuote) text)
    else Ok (s, l)
  else if starts text "--" then Ok (MkScan count hasContent depth true dollarQuote, drop 2 text)
  else if starts text "/*" then Ok (MkScan count hasContent 1 lineComment dollarQuote, drop 2 text)
  else if decide (c = "'"%char \/ c = "034"%char) then
    match scanQuotedString c l with
    | Some rest => Ok (MkScan count true depth lineComment dollarQuote, rest)
    | None => Err "unterminated quoted string"
    end
  else if decide (c = dollar) then
    match matchDollarQuote text with
    | Some tag => Ok (MkScan count true depth lineComment tag, drop (length tag) text)
    | None => Ok (MkScan count true depth lineComment dollarQuote, l)
    end
  else if decide (c = ";"%char) then
    Ok (MkScan (if hasContent then count + 1 else count) false depth lineComment dollarQuote, l)
  else Ok (MkScan count (if is_space_byte c then hasContent else true) depth lineComment dollarQuote, l).

Definition scan_end (s : Scan) : result string Z :=
  if sc_lineComment s || bool_decide (sc_blockCommentDepth s > 0) || bool_decide (sc_dollarQuote s <> [])
  then Err "unterminated SQL construct"
  else Ok (if sc_hasContent s then sc_count s + 1 else sc_count s).

(** The loop; every iteration consumes a byte, so the length of the text is
    enough fuel. *)
Fixpoint scan_loop (fuel : nat) (s : Scan) (l : list ascii) : result string Z :=
  match l with
  | [] => scan_end s
  | c :: l =>
      match fuel with
      | O => Err "unterminated SQL construct"
      | S fuel => match scan_step s c l with
                  | Ok (s, l) => scan_loop fuel s l
                  | Err e => Err e
                  end
      end
  end.

Definition countTopLevelSQLStatements (sqlText : string) : result string Z :=
  scan_loop (String.length sqlText) (MkScan 0 false 0 false []) (bytes sqlText).

Definition validateSpec (spec : Spec) : result string unit :=
  if decide (s_Backend spec <> BackendPostgres) then Ok tt
  else if s_Transactional spec then Ok tt
  else match countTopLevelSQLStatements (s_SQL spec) with
  | Err e => Err ("validate migration " +:+ quoted (s_File spec) +:+ ": " +:+ e)
  | Ok count =>
      if decide (count <> 1)
      then Err ("validate migration " +:+ quoted (s_File spec)
                +:+ ": non-transactional postgres migrations must contain exactly 1 top-level statement, found "
                +:+ Strconv.FormatInt count)
      else Ok tt
  end.

(** ** Loading *)

(** [fs.Glob(migrationFiles, backend/*.direction.sql)]: a star matches any
    text without a slash. *)
Definition glob_match (backend direction file : string) : bool :=
  Strings.HasPrefix file (backend +:+ "/")
  && (let rest := Strings.TrimPrefix file (backend +:+ "/") in
      Strings.HasSuffix rest ("." +:+ direction +:+ ".sql")
      && negb (Strings.Contains rest "/")).

(** [path.Base] of a path that does not end in a slash. *)
Definition path_Base (file : string) : string := default "." (last (Strings.Split file "/"%char)).

(** The body of the loop over the files; the text of an error is given up to
    the cause it wraps. *)
Definition parse_file (backend direction : string) (f : string * string) : result string Spec :=
  let '(file, raw) := f in
  let base := path_Base file in
  match Strings.Split base "."%char with
  | [stem; _; _] =>
      match Strings.cut_bytes "_"%char (bytes stem) with
      | (version, Some name) =>
          match Strconv.Atoi (of_bytes version) with
          | Some version =>
              let '(sqlText, transactional) := parseMigrationSQL raw in
              Ok (MkSpec backend version (of_bytes name) direction file sqlText
                    (Sha256.Hex (Sha256.Sum256 raw)) transactional)
          | None => Err ("parse migration version from " +:+ quoted base)
          end
      | (_, None) => Err ("invalid migration filename " +:+ quoted base)
      end
  | _ => Err ("invalid migration filename " +:+ quoted base)
  end.

Fixpoint all_ok {A B} (f : A -> result string B) (l : list A) : result string (list B) :=
  match l with
  | [] => Ok []
  | x :: l => match f x with
              | Ok y => match all_ok f l with Ok ys => Ok (y :: ys) | Err e => Err e end
              | Err e => Err e
              end
  end.

(** The order of [sort.Slice]; it leaves open how specs of equal version and
    name are placed. *)
Definition spec_before (direction : string) (a b : Spec) : bool :=
  if decide (s_Version a = s_Version b) then string_ltb (s_Name a) (s_Name b)
  else if decide (direction = DirectionDown) then bool_decide (s_Version a > s_Version b)
  else bool_decide (s_Version a < s_Version b).

Definition Load (migrationFiles : list (string * string)) (backend direction : string) : result string (list Spec) :=
  let backend := Strings.ToLower (Strings.TrimSpace backend) in
  let direction := Strings.ToLower (Strings.TrimSpace direction) in
  if decide (backend <> BackendPostgres /\ backend <> BackendSQLite)
  then Err ("unsupported migration backend " +:+ quoted backend) else
  if decide (direction <> DirectionUp /\ direction <> DirectionDown)
  then Err ("unsupported migration direction " +:+ quoted direction) else
  let files := filter (fun f => glob_match backend direction f.1 = true) migrationFiles in
  if decide (files = [])
  then Err ("no migration files found for backend=" +:+ backend +:+ " direction=" +:+ direction) else
  match all_ok (parse_file backend direction) files with
  | Err e => Err e
  | Ok specs =>
      match all_ok validateSpec specs with
      | Err e => Err e
      | Ok _ => Ok (SliceStable (spec_before direction) specs)
      end
  end.

End Lexer.

(** ** What loading gives *)

Lemma all_ok_Forall2 {A B} (f : A -> result string B) l ys : all_ok f l = Ok ys -> Forall2 (fun x y => f x = Ok y) l ys.
Proof.
  revert ys. induction l as [|x l IH]; intros ys; cbn; [intros [= <-]; constructor|].
  destruct (f x) as [y|] eqn:Hx; [|done]. destruct (all_ok f l) as [ys'|]; [|done]. intros [= <-]. constructor; auto.
Qed.

(** Every spec is read from a file of the backend and direction. *)
Lemma Load_parses `{U : UnicodeTables} files backend direction specs spec :
  Load files backend direction = Ok specs -> spec ∈ specs ->
  let backend := Strings.ToLower (Strings.TrimSpace backend) in
  let direction := Strings.ToLower (Strings.TrimSpace direction) in
  exists f, f ∈ files /\ glob_match backend direction f.1 = true /\ parse_file backend direction f = Ok spec.
Proof.
  unfold Load. cbn zeta. case_decide; [done|]. case_decide; [done|]. case_decide; [done|].
  destruct (all_ok (parse_file _ _) _) as [ss|] eqn:Hp; [|done]. destruct (all_ok validateSpec ss); [|done].
  intros [= <-] Hs. rewrite elem_of_SliceStable in Hs. apply all_ok_Forall2 in Hp.
  apply list_elem_of_lookup in Hs as [i Hi]. destruct (Forall2_lookup_r _ _ _ _ _ Hp Hi) as (f & Hf & Hx).
  apply list_elem_of_lookup_2, list_elem_of_filter in Hf as [Hg Hf]. by exists f.
Qed.

(** Its checksum is the file's digest, and its version is in the file's name. *)
Definition file_version (file : string) : option Z :=
  match Strings.Split (path_Base file) "."%char with
  | stem :: _ => Strconv.Atoi (of_bytes (Strings.cut_bytes "_"%char (bytes stem)).1)
  | [] => None
  end.

Lemma parse_file_spec backend direction file raw spec :
  parse_file backend direction (file, raw) = Ok spec ->
  s_Checksum spec = Sha256.Hex (Sha256.Sum256 raw) /\ file_version file = Some (s_Version spec).
Proof.
  unfold parse_file, file_version. destruct (Strings.Split (path_Base file) "."%char) as [|stem [|? [|? []]]]; try done.
  destruct (Strings.cut_bytes "_"%char (bytes stem)) as [version [name|]]; [|done]. cbn [fst].
  destruct (Strconv.Atoi (of_bytes version)); [|done]. destruct (parseMigrationSQL raw). by intros [= <-].
Qed.
