(* ===== verification/MigrationLexer.v ===== *)
(** * Statements of a migration, lexically

    A grammar of SQL text as a sequence of blanks, marks, separators,
    comments and literals ([lexes]), and the proof that
    [countTopLevelSQLStatements] accepts exactly the texts of the grammar and
    answers their number of statements. *)

From S2P Require Import Prelude GoLib GoSort GoSha Effects MigrationFiles.
From stdpp Require Import gmap strings list.
From Stdlib Require Import ZArith Lia Ascii.

Open Scope Z_scope.

(** ** The grammar *)

(** What separates, what is blank (white space and comments), and what makes
    a statement. *)
Inductive token : Type := Separator | Blank | Content.
#[export] Instance token_eq_dec : EqDecision token.
Proof. solve_decision. Defined.

(** The statements: the runs between separators that have content. *)
Fixpoint segments (ts : list token) : list (list token) :=
  match ts with
  | [] => [[]]
  | Separator :: ts => [] :: segments ts
  | t :: ts => match segments ts with
               | seg :: segs => (t :: seg) :: segs
               | [] => [[t]]
               end
  end.

Definition statements (ts : list token) : Z :=
  Z.of_nat (length (filter (fun seg => Content ∈ seg) (segments ts))).

(** [closes n l rest]: inside [n] nested block comments, [l] closes them all
    and goes on with [rest]. *)
Inductive closes : nat -> list ascii -> list ascii -> Prop :=
| closes_done rest : closes 0 rest rest
| closes_open n l rest : closes (S (S n)) l rest -> closes (S n) ("/"%char :: "*"%char :: l) rest
| closes_close n l rest : closes n l rest -> closes (S n) ("*"%char :: "/"%char :: l) rest
| closes_skip n c l rest :
    starts (c :: l) "/*" = false -> starts (c :: l) "*/" = false ->
    closes (S n) l rest -> closes (S n) (c :: l) rest.

(** A quoted literal: its quotes are doubled inside. *)
Definition escape (quote : ascii) (s : list ascii) : list ascii :=
  s ≫= fun c => if decide (c = quote) then [quote; quote] else [c].

(** [tag] does not occur in [body ++ tag ++ rest] before the end of [body]. *)
Definition first_at (tag body rest : list ascii) : Prop :=
  forall k, (k < length body)%nat -> Strings.prefix_bytes tag (drop k (body ++ tag ++ rest)) = false.

Definition is_quote (c : ascii) : Prop := c = "'"%char \/ c = "034"%char.
#[export] Instance is_quote_dec c : Decision (is_quote c).
Proof. unfold is_quote. apply _. Defined.

Section Grammar.
Context `{U : UnicodeTables}.

(** A byte that starts none of the longer constructs. *)
Definition lone (c : ascii) (l : list ascii) : Prop :=
  starts (c :: l) "--" = false /\ starts (c :: l) "/*" = false /\ ~ is_quote c
  /\ matchDollarQuote (c :: l) = None.

Inductive lexes : list ascii -> list token -> Prop :=
| lexes_end : lexes [] []
| lexes_separator l ts : lexes l ts -> lexes (";"%char :: l) (Separator :: ts)
| lexes_blank c l ts : lone c l -> is_space_byte c = true -> lexes l ts -> lexes (c :: l) (Blank :: ts)
| lexes_mark c l ts :
    lone c l -> is_space_byte c = false -> c <> ";"%char -> lexes l ts -> lexes (c :: l) (Content :: ts)
| lexes_line_comment body l ts :
    newline ∉ body -> lexes l ts -> lexes ("-"%char :: "-"%char :: body ++ newline :: l) (Blank :: ts)
| lexes_block_comment l rest ts :
    closes 1 l rest -> lexes rest ts -> lexes ("/"%char :: "*"%char :: l) (Blank :: ts)
| lexes_quoted quote s l ts :
    is_quote quote -> head l <> Some quote -> lexes l ts ->
    lexes (quote :: escape quote s ++ quote :: l) (Content :: ts)
| lexes_dollar tag body l ts :
    matchDollarQuote (tag ++ body ++ tag ++ l) = Some tag -> first_at tag body l -> lexes l ts ->
    lexes (tag ++ body ++ tag ++ l) (Content :: ts).

(** ** The loop, without its fuel *)

(** What the scan of a literal accepts: escaped text and a closing quote. *)
Lemma scanQuotedString_escape quote s rest :
  head rest <> Some quote -> scanQuotedString quote (escape quote s ++ quote :: rest) = Some rest.
Proof.
  intros Hh. induction s as [|c s IH]; cbn -[scanQuotedString].
  - cbn [scanQuotedString]. rewrite decide_False by auto. destruct rest as [|d rest]; [done|].
    rewrite decide_False by (intros ->; by apply Hh). done.
  - destruct (decide (c = quote)) as [->|Hc]; cbn [app scanQuotedString].
    + rewrite decide_False by auto. by rewrite decide_True.
    + by rewrite decide_True.
Qed.

Lemma scanQuotedString_inv n quote l rest :
  (length l <= n)%nat -> scanQuotedString quote l = Some rest ->
  exists s, l = escape quote s ++ quote :: rest /\ head rest <> Some quote.
Proof.
  revert l. induction n as [|n IH]; intros [|c l] Hn H; cbn [length] in Hn; try lia; try done.
  cbn [scanQuotedString] in H. case_decide as Hc.
  - destruct (IH l) as (s & -> & Hh); [lia|done|]. exists (c :: s). split; [|done].
    cbn. by rewrite decide_False.
  - subst c. destruct l as [|d l']; [exists []; by simplify_eq/=|].
    case_decide as Hd; [|exists []; simplify_eq/=; split; [done|congruence]].
    subst d. cbn [length] in Hn. destruct (IH l') as (s & -> & Hh); [lia|done|].
    exists (quote :: s). split; [|done]. cbn. by rewrite decide_True.
Qed.

Lemma scanQuotedString_shorter quote l rest :
  scanQuotedString quote l = Some rest -> (length rest <= length l)%nat.
Proof.
  intros H. apply (scanQuotedString_inv (length l)) in H as (s & -> & _); [|done].
  rewrite length_app. cbn [length]. lia.
Qed.

Lemma drop_cons_shorter {A} n (c : A) l : (0 < n)%nat -> (length (drop n (c :: l)) <= length l)%nat.
Proof. rewrite length_drop. cbn [length]. lia. Qed.

Lemma matchDollarQuote_tag l tag : matchDollarQuote l = Some tag -> (0 < length tag)%nat.
Proof.
  unfold matchDollarQuote. destruct l as [|c l]; [done|]. case_decide; [|done].
  destruct (Strings.cut_bytes dollar l) as [inner [rest|]]; [|done].
  destruct (forallb _ _); [|done]. intros [= <-]. cbn [length]. lia.
Qed.

Lemma scan_step_shorter s c l s' l' : scan_step s c l = Ok (s', l') -> (length l' <= length l)%nat.
Proof.
  unfold scan_step. destruct s as [count has depth line dq].
  repeat first [case_decide | case_match; simplify_eq/=]; intros; simplify_eq; try done;
    repeat match goal with
    | H : scanQuotedString _ _ = Some _ |- _ => apply scanQuotedString_shorter in H
    | H : matchDollarQuote _ = Some _ |- _ => apply matchDollarQuote_tag in H
    end; try lia; rewrite ?length_drop; cbn [length]; try lia.
  all: destruct dq; [done|]; cbn [length]; lia.
Qed.

Definition scan (s : Scan) (l : list ascii) : result string Z := scan_loop (length l) s l.

Lemma scan_loop_fuel f g s l :
  (length l <= f)%nat -> (length l <= g)%nat -> scan_loop f s l = scan_loop g s l.
Proof.
  revert g s l. induction f as [|f IH]; intros [|g] s [|c l] Hf Hg; cbn [length] in *; try lia; try done.
  cbn [scan_loop]. destruct (scan_step s c l) as [[s' l']|e] eqn:E; [|done].
  apply scan_step_shorter in E. apply IH; lia.
Qed.

Lemma scan_cons s c l :
  scan s (c :: l) = match scan_step s c l with Ok (s', l') => scan s' l' | Err e => Err e end.
Proof.
  unfold scan at 1. cbn [length scan_loop]. destruct (scan_step s c l) as [[s' l']|e] eqn:E; [|done].
  apply scan_step_shorter in E. apply scan_loop_fuel; lia.
Qed.

(** The modes of the loop. *)
Definition top (count : Z) (has : bool) : Scan := MkScan count has 0 false [].
Definition in_line (count : Z) (has : bool) : Scan := MkScan count has 0 true [].
Definition in_block (count : Z) (has : bool) (depth : nat) : Scan := MkScan count has (Z.of_nat depth) false [].
Definition in_dollar (count : Z) (has : bool) (tag : list ascii) : Scan := MkScan count has 0 false tag.

Lemma scan_line count has c l :
  scan (in_line count has) (c :: l)
  = scan (if decide (c = newline) then top count has else in_line count has) l.
Proof. rewrite scan_cons. cbn. case_decide as Hc; [by rewrite bool_decide_true|by rewrite bool_decide_false]. Qed.

Lemma scan_block count has n c l :
  scan (in_block count has (S n)) (c :: l)
  = if starts (c :: l) "/*" then scan (in_block count has (S (S n))) (drop 1 l)
    else if starts (c :: l) "*/" then scan (in_block count has n) (drop 1 l)
    else scan (in_block count has (S n)) l.
Proof.
  rewrite scan_cons. unfold scan_step, in_block. rewrite decide_True by lia.
  destruct (starts _ _); [cbn [drop]; do 2 f_equal; lia|].
  destruct (starts _ _); [cbn [drop]; do 2 f_equal; lia|done].
Qed.

Lemma scan_dollar count has tag c l :
  tag <> [] ->
  scan (in_dollar count has tag) (c :: l)
  = if Strings.prefix_bytes tag (c :: l) then scan (top count has) (drop (length tag) (c :: l))
    else scan (in_dollar count has tag) l.
Proof.
  intros Ht. rewrite scan_cons. unfold scan_step, in_dollar. rewrite decide_False by lia. rewrite decide_True by done.
  by destruct (Strings.prefix_bytes _ _).
Qed.

Lemma prefix_bytes_same p l : Strings.prefix_bytes p (p ++ l) = true.
Proof. induction p as [|c p IH]; cbn; [done|]. rewrite IH. by rewrite bool_decide_true. Qed.

Lemma prefix_bytes_split p l : Strings.prefix_bytes p l = true -> l = p ++ drop (length p) l.
Proof.
  revert l. induction p as [|a p IH]; intros [|b l]; cbn; try done.
  intros [->%bool_decide_eq_true_1 H]%andb_true_iff. f_equal. by apply IH.
Qed.

(** ** The grammar's texts are counted *)

Lemma scan_line_comment count has body l :
  newline ∉ body -> scan (in_line count has) (body ++ newline :: l) = scan (top count has) l.
Proof.
  induction body as [|c body IH]; intros Hb; cbn [app]; rewrite scan_line.
  - by rewrite decide_True.
  - apply not_elem_of_cons in Hb as [? ?]. rewrite decide_False by auto. by apply IH.
Qed.

Lemma scan_block_comment count has n l rest :
  closes n l rest -> scan (in_block count has n) l = scan (top count has) rest.
Proof. induction 1 as [| | |n c l rest H1 H2 _ IH]; rewrite ?scan_block; [done..|]. by rewrite H1, H2. Qed.

Lemma scan_dollar_body count has tag body l :
  tag <> [] -> first_at tag body l ->
  scan (in_dollar count has tag) (body ++ tag ++ l) = scan (top count has) l.
Proof.
  intros Ht. induction body as [|c body IH]; intros Hf; cbn [app].
  - destruct tag as [|t tag]; [done|]. cbn [app]. rewrite scan_dollar by done.
    change (t :: tag ++ l) with ((t :: tag) ++ l). by rewrite prefix_bytes_same, drop_app_length.
  - rewrite scan_dollar by done. pose proof (Hf 0%nat ltac:(cbn; lia)) as H0. cbn [drop app] in H0. rewrite H0.
    apply IH. intros k Hk. apply (Hf (S k)). cbn [length]. lia.
Qed.

Lemma matchDollarQuote_other c l : c <> dollar -> matchDollarQuote (c :: l) = None.
Proof. intros Hc. unfold matchDollarQuote. by rewrite decide_False. Qed.

Lemma scan_top count has c l :
  scan (top count has) (c :: l)
  = if starts (c :: l) "--" then scan (in_line count has) (drop 1 l)
    else if starts (c :: l) "/*" then scan (in_block count has 1) (drop 1 l)
    else if decide (is_quote c) then
      match scanQuotedString c l with
      | Some rest => scan (top count true) rest
      | None => Err "unterminated quoted string"%string
      end
    else match matchDollarQuote (c :: l) with
    | Some tag => scan (in_dollar count true tag) (drop (length tag) (c :: l))
    | None =>
        if decide (c = ";"%char) then scan (top (if has then count + 1 else count) false) l
        else scan (top count (if is_space_byte c then has else true)) l
    end.
Proof.
  rewrite scan_cons. unfold scan_step, top at 1. rewrite decide_False by lia. rewrite decide_False by auto.
  destruct (starts _ "--"); [done|]. destruct (starts _ "/*"); [done|].
  unfold is_quote. destruct (decide (c = _ \/ c = _)); [by destruct (scanQuotedString c l)|].
  destruct (decide (c = dollar)) as [->|Hc]; [by destruct (matchDollarQuote _)|].
  rewrite matchDollarQuote_other by done. by destruct (decide (c = ";"%char)).
Qed.

(** Statements still to come, when the current one has content already. *)
Fixpoint pending (has : bool) (ts : list token) : Z :=
  match ts with
  | [] => if has then 1 else 0
  | Separator :: ts => (if has then 1 else 0) + pending false ts
  | Blank :: ts => pending has ts
  | Content :: ts => pending true ts
  end.

Definition nonblank (segs : list (list token)) : Z := Z.of_nat (length (filter (fun seg => Content ∈ seg) segs)).

Lemma nonblank_cons seg segs : nonblank (seg :: segs) = (if decide (Content ∈ seg) then 1 else 0) + nonblank segs.
Proof. unfold nonblank. rewrite filter_cons. case_decide; cbn [length]; lia. Qed.

Lemma pending_segments has ts :
  exists seg segs, segments ts = seg :: segs
    /\ pending has ts = (if has then 1 else if decide (Content ∈ seg) then 1 else 0) + nonblank segs.
Proof.
  revert has. induction ts as [|t ts IH]; intros has.
  - exists [], []. split; [done|]. rewrite decide_False by apply not_elem_of_nil. by destruct has.
  - destruct t; cbn [segments pending].
    + destruct (IH false) as (seg & segs & Hs & ->). exists [], (segments ts). split; [done|].
      rewrite Hs, nonblank_cons. rewrite (decide_False (P := Content ∈ [])) by apply not_elem_of_nil. by destruct has.
    + destruct (IH has) as (seg & segs & -> & ->). exists (Blank :: seg), segs. split; [done|].
      f_equal. destruct has; [done|]. by apply decide_ext; rewrite elem_of_cons; naive_solver.
    + destruct (IH true) as (seg & segs & -> & ->). exists (Content :: seg), segs. split; [done|].
      rewrite (decide_True (P := Content ∈ _)) by left. by destruct has.
Qed.

Lemma pending_statements ts : pending false ts = statements ts.
Proof.
  destruct (pending_segments false ts) as (seg & segs & Hs & ->).
  change (statements ts) with (nonblank (segments ts)). by rewrite Hs, nonblank_cons.
Qed.

Lemma lone_semicolon l : lone ";"%char l.
Proof. repeat split; try done. by intros [|]. Qed.

Lemma scan_lone count has c l :
  lone c l ->
  scan (top count has) (c :: l)
  = if decide (c = ";"%char) then scan (top (if has then count + 1 else count) false) l
    else scan (top count (if is_space_byte c then has else true)) l.
Proof. intros (H1 & H2 & H3 & H4). rewrite scan_top, H1, H2, H4. by rewrite decide_False. Qed.

Lemma lexes_counted l ts :
  lexes l ts -> forall count has, scan (top count has) l = Ok (count + pending has ts).
Proof.
  induction 1 as [|l ts _ IH|c l ts Hl Hs _ IH|c l ts Hl Hs Hc _ IH|body l ts Hb _ IH|l rest ts Hc _ IH
                 |quote s l ts Hq Hh _ IH|tag body l ts Ht Hf _ IH]; intros count has; cbn [pending].
  - by destruct has; cbn -[Z.add]; rewrite ?Z.add_0_r.
  - rewrite (scan_lone _ _ _ _ (lone_semicolon l)), decide_True by done. rewrite IH. f_equal. destruct has; lia.
  - rewrite (scan_lone _ _ _ _ Hl), decide_False by (intros ->; done). by rewrite Hs, IH.
  - rewrite (scan_lone _ _ _ _ Hl), decide_False by done. by rewrite Hs, IH.
  - rewrite scan_top. cbn [drop]. change (starts _ "--") with true. cbn iota. by rewrite drop_0, scan_line_comment.
  - rewrite scan_top. cbn [drop]. change (starts _ "--") with false. change (starts _ "/*") with true. cbn iota.
    by rewrite drop_0, (scan_block_comment _ _ _ _ _ Hc).
  - rewrite scan_top, (decide_True (P := is_quote quote)), scanQuotedString_escape by done.
    by destruct Hq as [-> | ->]; rewrite IH.
  - pose proof (matchDollarQuote_tag _ _ Ht) as Hlen. destruct tag as [|t tag]; [cbn in Hlen; lia|].
    assert (t = dollar) as ->.
    { destruct (decide (t = dollar)); [done|]. cbn [app] in Ht. by rewrite matchDollarQuote_other in Ht. }
    cbn [app]. rewrite scan_top. change (starts _ "--") with false. change (starts _ "/*") with false. cbn iota.
    rewrite decide_False by (by intros [|]). cbn [app] in Ht. rewrite Ht.
    change (dollar :: tag ++ body ++ dollar :: tag ++ l) with ((dollar :: tag) ++ body ++ (dollar :: tag) ++ l).
    rewrite drop_app_length. by rewrite scan_dollar_body.
Qed.

(** ** Every counted text is in the grammar *)

Lemma scan_line_inv count has l n :
  scan (in_line count has) l = Ok n ->
  exists body rest, l = body ++ newline :: rest /\ newline ∉ body /\ scan (top count has) rest = Ok n.
Proof.
  induction l as [|c l IH]; [done|]. rewrite scan_line. case_decide as Hc.
  - subst. intros H. exists [], l. split_and!; [done|apply not_elem_of_nil|done].
  - intros H. destruct (IH H) as (body & rest & -> & Hb & Hr). exists (c :: body), rest.
    split_and!; [done| |done]. apply not_elem_of_cons. auto.
Qed.

Lemma starts_two (a b : ascii) l : starts l (String a (String b "")) = true -> exists l', l = a :: b :: l'.
Proof. intros H. apply prefix_bytes_split in H. rewrite H. cbn [length bytes app]. by eexists. Qed.

Lemma scan_block_inv m count has k l n :
  (length l <= m)%nat -> scan (in_block count has k) l = Ok n ->
  exists rest, closes k l rest /\ (length rest <= length l)%nat /\ scan (top count has) rest = Ok n.
Proof.
  revert k l. induction m as [|m IH]; intros [|k] l Hm H;
    try (exists l; split_and!; [constructor|lia|done]);
    destruct l as [|c l]; cbn [length] in Hm; try lia; try done.
  rewrite scan_block in H. destruct (starts (c :: l) "/*") eqn:H1; [|destruct (starts (c :: l) "*/") eqn:H2].
  - destruct (starts_two _ _ _ H1) as [l' [= -> ->]]. cbn [drop length] in *. rewrite drop_0 in H.
    apply IH in H as (rest & Hc & Hl & Hr); [|lia]. exists rest. split_and!; [by constructor|lia|done].
  - destruct (starts_two _ _ _ H2) as [l' [= -> ->]]. cbn [drop length] in *. rewrite drop_0 in H.
    apply IH in H as (rest & Hc & Hl & Hr); [|lia]. exists rest. split_and!; [by constructor|lia|done].
  - apply IH in H as (rest & Hc & Hl & Hr); [|lia]. exists rest. cbn [length]. split_and!; [by constructor|lia|done].
Qed.

Lemma scan_dollar_inv count has tag l n :
  tag <> [] -> scan (in_dollar count has tag) l = Ok n ->
  exists body rest, l = body ++ tag ++ rest /\ first_at tag body rest /\ scan (top count has) rest = Ok n.
Proof.
  intros Ht. induction l as [|c l IH].
  - by destruct tag.
  - rewrite scan_dollar by done. destruct (Strings.prefix_bytes tag (c :: l)) eqn:Hp; intros H.
    + apply prefix_bytes_split in Hp. exists [], (drop (length tag) (c :: l)).
      split_and!; [done| |done]. intros k Hk. cbn in Hk. lia.
    + destruct (IH H) as (body & rest & -> & Hf & Hr). exists (c :: body), rest. split_and!; [done| |done].
      intros [|k] Hk; [done|]. apply Hf. cbn [length] in Hk. lia.
Qed.

Lemma matchDollarQuote_split l tag : matchDollarQuote l = Some tag -> l = tag ++ drop (length tag) l.
Proof.
  unfold matchDollarQuote. destruct l as [|c l]; [done|]. case_decide as Hc; [|done]. subst c.
  destruct (Strings.cut_bytes dollar l) as [inner [rest|]] eqn:E; [|done]. destruct (forallb _ _); [|done]. intros [= <-].
  assert (l = inner ++ dollar :: rest) as ->.
  { revert inner E. clear. induction l as [|c l IH]; intros inner; cbn; [done|].
    case_decide; [by intros [= <- ->]; subst|]. destruct (Strings.cut_bytes dollar l) as [a b]. intros [= <- ->].
    cbn. f_equal. by apply IH. }
  change (inner ++ dollar :: rest) with (inner ++ [dollar] ++ rest). rewrite (app_assoc inner).
  change (dollar :: (inner ++ [dollar]) ++ rest) with ((dollar :: inner ++ [dollar]) ++ rest).
  by rewrite drop_app_length.
Qed.

Lemma counted_lexes m l count has n :
  (length l <= m)%nat -> scan (top count has) l = Ok n -> exists ts, lexes l ts /\ n = count + pending has ts.
Proof.
  revert l count has. induction m as [|m IH]; intros [|c l] count has Hm H; cbn [length] in Hm; try lia.
  1,2: exists []; split; [constructor|]; cbn -[Z.add] in H; injection H as <-; cbn [pending]; destruct has; lia.
  rewrite scan_top in H. destruct (starts (c :: l) "--") eqn:H1.
  { destruct (starts_two _ _ _ H1) as [l' [= -> ->]]. cbn [drop] in H. rewrite drop_0 in H.
    apply scan_line_inv in H as (body & rest & -> & Hb & H). cbn [length] in Hm. rewrite length_app in Hm. cbn [length] in Hm.
    apply IH in H as (ts & Hts & ->); [|lia]. exists (Blank :: ts). split; [by constructor|done]. }
  destruct (starts (c :: l) "/*") eqn:H2.
  { destruct (starts_two _ _ _ H2) as [l' [= -> ->]]. cbn [drop] in H. rewrite drop_0 in H. cbn [length] in Hm.
    apply (scan_block_inv (length l')) in H as (rest & Hc & Hl & H); [|done].
    apply IH in H as (ts & Hts & ->); [|lia]. exists (Blank :: ts). split; [by econstructor|done]. }
  destruct (decide (is_quote c)) as [Hq|Hq].
  { destruct (scanQuotedString c l) as [rest|] eqn:E; [|done].
    pose proof (scanQuotedString_shorter _ _ _ E). apply (scanQuotedString_inv (length l)) in E as (s & -> & Hh); [|done].
    apply IH in H as (ts & Hts & ->); [|lia]. exists (Content :: ts). split; [by constructor|done]. }
  destruct (matchDollarQuote (c :: l)) as [tag|] eqn:E.
  { pose proof (matchDollarQuote_tag _ _ E) as Hpos. pose proof (matchDollarQuote_split _ _ E) as Hs.
    apply scan_dollar_inv in H as (body & rest & Hd & Hf & H); [|by destruct tag; [cbn in Hpos; lia|]].
    rewrite Hd in Hs. assert (length rest <= length l)%nat.
    { apply (f_equal length) in Hs. rewrite !length_app in Hs. cbn [length] in Hs. lia. }
    apply IH in H as (ts & Hts & ->); [|lia]. exists (Content :: ts). split; [|done].
    rewrite Hs in E |- *. by constructor. }
  assert (lone c l) as Hlone by done. case_decide as Hc; apply IH in H as (ts & Hts & ->); try lia.
  - subst c. exists (Separator :: ts). split; [by constructor|]. cbn [pending]. destruct has; lia.
  - destruct (is_space_byte c) eqn:Hsp; [exists (Blank :: ts)|exists (Content :: ts)]; (split; [by constructor|done]).
Qed.

(** ** The property *)

(** C30: [countTopLevelSQLStatements] answers a number exactly for the texts of
    the lexical grammar, comments and literals closed, and the number is that
    of the runs between separators with something besides blanks and
    comments; separators inside comments, quoted and dollar-quoted literals
    do not count. *)
Theorem counts_statements (sqlText : string) (n : Z) :
  countTopLevelSQLStatements sqlText = Ok n
  <-> exists ts, lexes (bytes sqlText) ts /\ n = statements ts.
Proof.
  assert (countTopLevelSQLStatements sqlText = scan (top 0 false) (bytes sqlText)) as ->.
  { apply scan_loop_fuel; [|done]. induction sqlText; cbn; lia. }
  split.
  - intros (ts & Hts & ->)%(counted_lexes (length (bytes sqlText))); [|done]. exists ts. by rewrite pending_statements.
  - intros (ts & Hts & ->). by rewrite (lexes_counted _ _ Hts), pending_statements.
Qed.

(** A text that ends inside a line comment, which SQL allows, is refused. *)
Example trailing_comment_refused :
  countTopLevelSQLStatements "DROP INDEX i; -- done" = Err "unterminated SQL construct"%string
  /\ countTopLevelSQLStatements ("DROP INDEX i; -- done" +:+ String newline "") = Ok 1.
Proof. split; vm_compute; reflexivity. Qed.

Example separators_inside :
  countTopLevelSQLStatements "DO $f$ BEGIN a; b; END $f$; /* x; /* y; */ */ SELECT ';' ;; " = Ok 2.
Proof. vm_compute. reflexivity. Qed.
End Grammar.
