(* ===== verification/SchemaActions.v ===== *)
(** * Schema actions: validate, migrate, roll back

    [src/pkg/store/sqlite/sqlite_migrations.go] and
    [src/pkg/store/postgres/postgres_migrations.go], which are the same
    program but for the names in their messages, the accepted checksums and
    the migrations Postgres runs outside a transaction ([Backend]).  The
    database is the table [schema_migrations] and the rest of the schema,
    which only the migrations' texts touch; running a text is the engine's
    ([SqlEngine]).  The time a migration was applied at is written and never
    read, and is left out; one process migrates at a time. *)

From S2P Require Import Prelude GoLib GoSort GoSha Effects MigrationFiles.
From stdpp Require Import gmap strings list.
From Stdlib Require Import ZArith Lia Ascii.

Open Scope Z_scope.
Open Scope string_scope.

(** ** The database *)

(** [schema_migrations]: whether it has its checksum column (a table of an
    older release may not), and name and checksum by version, the primary
    key. *)
Record MigTable : Type := MkMigTable {
  t_checksum : bool;
  t_rows : gmap Z (string * string);
}.

Record MigDB (X : Type) : Type := MkMigDB { m_table : option MigTable; m_schema : X }.
Arguments MkMigDB {X} _ _.
Arguments m_table {X} _.
Arguments m_schema {X} _.

(** The engine running the text of a migration, and what a text that is cut
    short or fails outside a transaction leaves behind, which depends on the
    moment: an index that is built [CONCURRENTLY] stays, marked invalid. *)
Class SqlEngine (X : Type) : Type := {
  run_text : string -> MigDB X -> result gerror (MigDB X);
  left_by : nat -> string -> MigDB X -> MigDB X;
}.

Record appliedRow : Type := MkAppliedRow { ar_Version : Z; ar_Name : string; ar_Checksum : string }.

Section Statements.
Context {X : Type}.
Implicit Types d : MigDB X.

Definition no_table : gerror := ESQL "no such table: schema_migrations".
Definition no_column : gerror := ESQL "no such column: checksum".

Definition create_table d : result gerror (MigDB X * unit) :=
  Ok (match m_table d with
      | Some _ => d
      | None => MkMigDB (Some (MkMigTable true ∅)) (m_schema d)
      end, tt).

(** [ALTER TABLE ... ADD COLUMN checksum TEXT NOT NULL DEFAULT ''], without
    and with [IF NOT EXISTS]. *)
Definition add_column d : result gerror (MigDB X * unit) :=
  match m_table d with
  | None => Err no_table
  | Some t =>
      if t_checksum t then Err (ESQL "duplicate column name: checksum")
      else Ok (MkMigDB (Some (MkMigTable true ((fun r => (r.1, "")) <$> t_rows t))) (m_schema d), tt)
  end.

Definition add_column_if_not_exists d : result gerror (MigDB X * unit) :=
  match m_table d with
  | Some (MkMigTable true _) => Ok (d, tt)
  | _ => add_column d
  end.

(** A statement that names the checksum column. *)
Definition on_table {A} (f : gmap Z (string * string) -> A) d : result gerror A :=
  match m_table d with
  | None => Err no_table
  | Some t => if t_checksum t then Ok (f (t_rows t)) else Err no_column
  end.

Definition change_rows (f : gmap Z (string * string) -> gmap Z (string * string)) d : result gerror (MigDB X * unit) :=
  result_map (fun rows => (MkMigDB (Some (MkMigTable true rows)) (m_schema d), tt)) (on_table f d).

(** [SELECT version, name, checksum ... ORDER BY version ASC]. *)
Definition rows_in_order (rows : gmap Z (string * string)) : list appliedRow :=
  SliceStable (fun a b => bool_decide (ar_Version a < ar_Version b))
    ((fun kv => MkAppliedRow kv.1 kv.2.1 kv.2.2) <$> map_to_list rows).

(** [SELECT COALESCE(MAX(version), 0)]. *)
Definition max_version (rows : gmap Z (string * string)) : Z :=
  default 0 (foldr (fun kv acc => Some (match acc with Some m => Z.max kv.1 m | None => kv.1 end)) None
               (map_to_list rows)).

Definition select_max_version d : result gerror Z :=
  match m_table d with None => Err no_table | Some t => Ok (max_version (t_rows t)) end.

Definition update_checksum (version : Z) (checksum : string) : MigDB X -> result gerror (MigDB X * unit) :=
  change_rows (alter (fun r => (r.1, checksum)) version).

Definition upsert_migration (spec : Spec) : MigDB X -> result gerror (MigDB X * unit) :=
  change_rows (insert (s_Version spec) (s_Name spec, s_Checksum spec)).

(** [DELETE FROM schema_migrations WHERE version = ...]: it does not name the
    checksum column. *)
Definition delete_migration (version : Z) d : result gerror (MigDB X * unit) :=
  match m_table d with
  | None => Err no_table
  | Some t => Ok (MkMigDB (Some (MkMigTable (t_checksum t) (delete version (t_rows t)))) (m_schema d), tt)
  end.

End Statements.

(** ** Results *)

Record AppliedStep : Type := MkAppliedStep {
  st_Version : Z; st_Name : string; st_Direction : string; st_Checksum : string }.

Record Result : Type := MkResult {
  r_Backend : string;
  r_Action : string;
  r_RequestedVersion : Z;
  r_PreviousVersion : Z;
  r_CurrentVersion : Z;
  r_TargetVersion : Z;
  r_MinCompatVersion : Z;
  r_CompatibilityRange : Z * Z;
  r_Compatible : bool;
  r_Applied : list AppliedStep;
  r_RolledBack : list AppliedStep;
}.

Definition step_of (direction : string) (spec : Spec) : AppliedStep :=
  MkAppliedStep (s_Version spec) (s_Name spec) direction (s_Checksum spec).

Definition schemaActionValidate := "validate".
Definition schemaActionMigrate := "migrate".
Definition schemaActionRollback := "rollback".

(** ** What the two backends do differently *)

(** [b_in_tx spec]: the migration runs in a transaction; [b_ignores]: the
    errors of adding the column that are ignored. *)
Record Backend : Type := MkBackend {
  b_name : string;
  b_word : string;
  b_add_column : forall X, MigDB X -> result gerror (MigDB X * unit);
  b_ignores : gerror -> bool;
  b_accepts : Z -> string -> string -> bool;
  b_in_tx : Spec -> bool;
}.

(** The text of an error of the driver. *)
Definition driver_text (e : gerror) : string := match e with ESQL msg | EDB msg => msg | _ => "" end.

Definition sqliteIgnoreColumnErr (err : gerror) : bool :=
  let msg := Strings.ToLower (driver_text err) in
  Strings.Contains msg "duplicate column" || Strings.Contains msg "already exists".

Definition legacyPostgresMigrationChecksums : gmap Z (gset string) :=
  {[ 6 := {["5776530a74c7b9f65d49b207bd1555c6f89927245dd1e3f2651b6ef77f38646c"]};
     7 := {["d01aa52ff1458434284c74fc4c8ba6cb78f9484acfc4f65fab74587944b29aa8"]} ]}.

Definition migrationChecksumAccepted (version : Z) (existing current : string) : bool :=
  if decide (existing = current) then true
  else match legacyPostgresMigrationChecksums !! version with
       | None => false
       | Some accepted => bool_decide (existing ∈ accepted)
       end.

Definition sqlite : Backend :=
  MkBackend BackendSQLite "sqlite" (fun X => add_column) sqliteIgnoreColumnErr
    (fun _ existing current => bool_decide (existing = current)) (fun _ => true).

Definition postgres : Backend :=
  MkBackend BackendPostgres "postgres" (fun X => add_column_if_not_exists) (fun _ => false)
    migrationChecksumAccepted s_Transactional.

(** ** The actions *)

Section Actions.
Context `{E : Env} `{U : UnicodeTables} {X : Type} `{Eng : SqlEngine X}.
Context (b : Backend) (files : list (string * string)).
Local Notation MM := (M (MigDB X)).

(** A statement outside a transaction commits by itself. *)
Definition db_exec {A} (f : MigDB X -> result gerror (MigDB X * A)) : MM A :=
  call (fun w => match f (w_db w) with
                 | Ok (d, a) => (Ok a, set_db d w)
                 | Err e => (Err e, w)
                 end).

Definition exec_text (sql : string) (d : MigDB X) : result gerror (MigDB X * unit) :=
  result_map (fun d => (d, tt)) (run_text sql d).

(** The text of a migration outside a transaction. *)
Definition db_exec_text (sql : string) : MM unit := fun w =>
  let left := set_db (left_by (w_call w) sql (w_db w)) (tick w) in
  match fault_at (w_call w) with
  | Some msg => (Err (EDB msg), left)
  | None => match run_text sql (w_db w) with
            | Ok d => (Ok tt, set_db d (tick w))
            | Err e => (Err e, left)
            end
  end.

Definition ensureMigrationTable : MM unit :=
  _ ← wrap "ensure schema_migrations table" (db_exec create_table);
  r ← try_ (db_exec (b_add_column b X));
  match r with
  | Ok _ => mret tt
  | Err e => if b_ignores b e then mret tt else fail (EWrap "ensure schema_migrations.checksum column" e)
  end.

Definition loadAppliedRows : MM (list appliedRow) :=
  rows ← wrap "load applied migrations" (db_read (on_table rows_in_order));
  _ ← wrap "iterate applied migrations" rows_Err;
  mret rows.

Definition by_version (specs : list Spec) : gmap Z Spec :=
  foldl (fun m spec => <[s_Version spec := spec]> m) ∅ specs.

Definition reconcile_row (upByVersion : gmap Z Spec) (row : appliedRow) : MM unit :=
  match upByVersion !! ar_Version row with
  | None => fail (EMessage ("database has migration version " +:+ Strconv.FormatInt (ar_Version row)
                            +:+ " with no corresponding up migration file"))
  | Some spec =>
      let existing := Strings.TrimSpace (ar_Checksum row) in
      if decide (existing = "") then
        wrap ("backfill migration checksum for version " +:+ Strconv.FormatInt (ar_Version row))
          (db_exec (update_checksum (ar_Version row) (s_Checksum spec)))
      else if b_accepts b (ar_Version row) existing (s_Checksum spec) then mret tt
      else fail (EMessage ("checksum mismatch for migration version " +:+ Strconv.FormatInt (ar_Version row)
                           +:+ " (db=" +:+ existing +:+ " file=" +:+ s_Checksum spec +:+ ")"))
  end.

Definition reconcileAppliedChecksums (upByVersion : gmap Z Spec) (rows : list appliedRow) : MM unit :=
  _ ← for_each (reconcile_row upByVersion) rows; mret tt.

Definition currentVersion : MM Z := wrap "query current migration version" (db_read select_max_version).

(** [applyUpSpec] and [applyDownSpec]: the text, then the record. *)
Definition apply_spec (spec : Spec) (record : MigDB X -> result gerror (MigDB X * unit)) : MM unit :=
  if b_in_tx b spec
  then with_tx (_ ← tx_exec (exec_text (s_SQL spec)); _ ← tx_exec record; Commit)
  else _ ← db_exec_text (s_SQL spec); db_exec record.

Definition applyUpSpec (spec : Spec) : MM unit := apply_spec spec (upsert_migration spec).
Definition applyDownSpec (spec : Spec) : MM unit := apply_spec spec (delete_migration (s_Version spec)).

(** The loop over the up migrations. *)
Definition migrate_loop (previousVersion target : Z) (upSpecs : list Spec) : MM (list AppliedStep) :=
  for_each (fun spec =>
    _ ← wrap ("apply " +:+ b_word b +:+ " migration " +:+ Strconv.FormatInt (s_Version spec)
              +:+ " (" +:+ s_Name spec +:+ ")") (applyUpSpec spec);
    mret (step_of DirectionUp spec))
  (filter (fun spec => ~ (s_Version spec <= previousVersion \/ s_Version spec > target)) upSpecs).

(** The loop from the current version down: [n] steps are left from version
    [v]. *)
Fixpoint rollback_loop (downByVersion : gmap Z Spec) (n : nat) (v : Z) : MM (list AppliedStep) :=
  match n with
  | O => mret []
  | S n =>
      match downByVersion !! v with
      | None => fail (EMessage ("missing down migration for version " +:+ Strconv.FormatInt v))
      | Some spec =>
          _ ← wrap ("apply " +:+ b_word b +:+ " rollback " +:+ Strconv.FormatInt (s_Version spec)
                    +:+ " (" +:+ s_Name spec +:+ ")") (applyDownSpec spec);
          steps ← rollback_loop downByVersion n (v - 1);
          mret (step_of DirectionDown spec :: steps)
      end
  end.

Definition load (direction : string) : MM (list Spec) :=
  match Load files (b_name b) direction with Ok specs => mret specs | Err e => fail (EMessage e) end.

(** The [switch] over the action: the requested version of the result, and
    the steps up and down. *)
Definition perform (action : string) (requestedVersion previousVersion : Z) (upSpecs : list Spec)
    (downByVersion : gmap Z Spec) : MM (Z * list AppliedStep * list AppliedStep) :=
  if decide (action = schemaActionMigrate) then
    let target := if decide (requestedVersion <= 0) then SchemaTargetVersion else requestedVersion in
    if decide (target > SchemaTargetVersion) then
      fail (EMessage ("requested migration target " +:+ Strconv.FormatInt target +:+ " exceeds schema target "
                      +:+ Strconv.FormatInt SchemaTargetVersion))
    else if decide (target < previousVersion) then
      fail (EMessage ("requested migration target " +:+ Strconv.FormatInt target +:+ " is below current version "
                      +:+ Strconv.FormatInt previousVersion +:+ "; use rollback"))
    else applied ← migrate_loop previousVersion target upSpecs; mret (target, applied, [])
  else if decide (action = schemaActionRollback) then
    if decide (requestedVersion < 0) then fail (EMessage "rollback requires explicit target version >= 0")
    else if decide (requestedVersion > previousVersion) then
      fail (EMessage ("rollback target " +:+ Strconv.FormatInt requestedVersion +:+ " exceeds current version "
                      +:+ Strconv.FormatInt previousVersion))
    else rolledBack ← rollback_loop downByVersion (Z.to_nat (previousVersion - requestedVersion)) previousVersion;
         mret (requestedVersion, [], rolledBack)
  else mret (requestedVersion, [], []).

Definition compatible (version : Z) : bool :=
  bool_decide (SchemaMinCompatVersion <= version <= SchemaTargetVersion).

Definition runSchemaAction (action : string) (requestedVersion : Z) : MM Result :=
  let action := Strings.ToLower (Strings.TrimSpace action) in
  let action := if decide (action = "") then schemaActionValidate else action in
  if decide (action <> schemaActionValidate /\ action <> schemaActionMigrate /\ action <> schemaActionRollback)
  then fail (EMessage ("unsupported " +:+ b_word b +:+ " schema action: " +:+ action)) else
  _ ← ensureMigrationTable;
  upSpecs ← load DirectionUp;
  downSpecs ← load DirectionDown;
  let upByVersion := by_version upSpecs in
  let downByVersion := by_version downSpecs in
  appliedRows ← loadAppliedRows;
  _ ← reconcileAppliedChecksums upByVersion appliedRows;
  previousVersion ← currentVersion;
  done ← perform action requestedVersion previousVersion upSpecs downByVersion;
  curr ← currentVersion;
  if decide (action = schemaActionValidate /\ compatible curr = false) then
    fail (EMessage ("schema version " +:+ Strconv.FormatInt curr +:+ " outside compatible window ["
                    +:+ Strconv.FormatInt SchemaMinCompatVersion +:+ ", "
                    +:+ Strconv.FormatInt SchemaTargetVersion +:+ "]"))
  else
  let '(requested, applied, rolledBack) := done in
  mret (MkResult (b_name b) action requested previousVersion curr SchemaTargetVersion SchemaMinCompatVersion
          (SchemaMinCompatVersion, SchemaTargetVersion) (compatible curr) applied rolledBack).

Definition runSchemaMode (mode : string) : MM unit :=
  let mode := Strings.ToLower (Strings.TrimSpace mode) in
  let mode := if decide (mode = "") then schemaActionMigrate else mode in
  if decide (mode <> schemaActionMigrate /\ mode <> schemaActionValidate)
  then fail (EMessage ("unsupported " +:+ b_word b +:+ " schema mode: " +:+ mode))
  else _ ← runSchemaAction mode 0; mret tt.

End Actions.

(** ** The two stores *)

Section Stores.
Context `{E : Env} `{U : UnicodeTables} {X : Type} `{Eng : SqlEngine X} (files : list (string * string)).
Local Notation MM := (M (MigDB X)).

Definition runSchemaActionWithDB (action : string) (requestedVersion : Z) : MM Result :=
  runSchemaAction sqlite files action requestedVersion.
Definition sqlite_runSchemaMode (mode : string) : MM unit := runSchemaMode sqlite files mode.

Definition runSchemaActionWithPool (action : string) (requestedVersion : Z) : MM Result :=
  runSchemaAction postgres files action requestedVersion.
Definition pg_ensureMigrationTable : MM unit := ensureMigrationTable postgres.
Definition pg_reconcileAppliedChecksums (upByVersion : gmap Z Spec) (rows : list appliedRow) : MM unit :=
  reconcileAppliedChecksums postgres upByVersion rows.
Definition pg_applyUpSpec (spec : Spec) : MM unit := applyUpSpec postgres spec.
Definition pg_applyDownSpec (spec : Spec) : MM unit := applyDownSpec postgres spec.
Definition pg_runSchemaMode (mode : string) : MM unit := runSchemaMode postgres files mode.

End Stores.
