(* ===== verification/SchemaProgress.v ===== *)
(** * Migrations make progress

    The files of one backend, numbered from 1 without gaps, and a database
    on its way through them: some prefix is recorded, and the schema is at
    that stage, or has the next migration begun, when that one runs outside a
    transaction and was cut short or not recorded.  Every attempt to migrate
    keeps the database on its way, whichever calls fail, and an attempt in
    which none fails brings it to the end. *)

From S2P Require Import Prelude GoLib GoSort GoSha Effects MigrationFiles SchemaActions.
From stdpp Require Import gmap strings list.
From Stdlib Require Import ZArith Lia Ascii.

Open Scope Z_scope.

(** ** Laws of a backend *)

Definition blank_checksums (rows : gmap Z (string * string)) : gmap Z (string * string) :=
  (fun r => (r.1, ""%string)) <$> rows.

Class BackendLaws (b : Backend) : Prop := {
  adds_column X (d : MigDB X) rows :
    m_table d = Some (MkMigTable false rows) ->
    b_add_column b X d = Ok (MkMigDB (Some (MkMigTable true (blank_checksums rows))) (m_schema d), tt);
  has_column X (d : MigDB X) rows :
    m_table d = Some (MkMigTable true rows) ->
    b_add_column b X d = Ok (d, tt) \/ exists e, b_add_column b X d = Err e /\ b_ignores b e = true;
  accepts_same v c : b_accepts b v c c = true;
}.

#[export] Instance sqlite_laws : BackendLaws sqlite.
Proof.
  split.
  - intros X [? x] rows Ht. cbn in *. subst. reflexivity.
  - intros X [? x] rows Ht. cbn in *. subst. right. eexists. split; reflexivity.
  - intros v c. by apply bool_decide_true.
Qed.

#[export] Instance postgres_laws : BackendLaws postgres.
Proof.
  split.
  - intros X [? x] rows Ht. cbn in *. subst. reflexivity.
  - intros X [? x] rows Ht. cbn in *. subst. by left.
  - intros v c. cbn. unfold migrationChecksumAccepted. by rewrite decide_True.
Qed.

(** ** Rules *)

Section ExecRules.
Context `{E : Env} {X : Type}.
Implicit Types w : World (MigDB X).

Lemma wp_db_exec {A} (f : MigDB X -> result gerror (MigDB X * A)) Q w :
  (forall msg, fault_at (w_call w) = Some msg -> Q (Err (EDB msg)) (tick w)) ->
  (fault_at (w_call w) = None ->
   match f (w_db w) with Ok (d, a) => Q (Ok a) (set_db d (tick w)) | Err e => Q (Err e) (tick w) end) ->
  wp (db_exec f) Q w.
Proof.
  intros H1 H2. apply wp_call; [done|]. intros H. specialize (H2 H). unfold wp. cbn.
  by destruct (f (w_db w)) as [[d a]|e].
Qed.

Lemma wp_db_exec_text `{Eng : SqlEngine X} sql Q w :
  (forall e, ~ fault_free E \/ run_text sql (w_db w) = Err e ->
     Q (Err e) (set_db (left_by (w_call w) sql (w_db w)) (tick w))) ->
  (forall d, run_text sql (w_db w) = Ok d -> Q (Ok tt) (set_db d (tick w))) ->
  wp (db_exec_text sql) Q w.
Proof.
  intros H1 H2. unfold wp, db_exec_text. destruct (fault_at (w_call w)) as [msg|] eqn:Hf.
  - apply H1. left. intros HF. by rewrite HF in Hf.
  - destruct (run_text sql (w_db w)) as [d|e] eqn:Hr; [by apply H2|]. apply H1. by right.
Qed.

Lemma wp_db_read {A} (f : MigDB X -> result gerror A) Q w :
  (forall msg, fault_at (w_call w) = Some msg -> Q (Err (EDB msg)) (tick w)) ->
  (fault_at (w_call w) = None -> Q (f (w_db w)) (tick w)) ->
  wp (db_read f) Q w.
Proof. intros H1 H2. apply wp_call; [done|]. intros H. exact (H2 H). Qed.

Lemma ff_no_fault msg n : fault_at n = Some msg -> ~ fault_free E.
Proof. intros H HF. by rewrite HF in H. Qed.

Lemma load_rows w :
  wp loadAppliedRows (fun r w' => w_db w' = w_db w
    /\ match r with
       | Ok l => exists rows, m_table (w_db w) = Some (MkMigTable true rows) /\ l = rows_in_order rows
       | Err _ => ~ fault_free E \/ ~ exists rows, m_table (w_db w) = Some (MkMigTable true rows)
       end) w.
Proof.
  unfold loadAppliedRows. apply wp_bind, wp_wrap, wp_db_read.
  { intros msg H. split; [done|]. left. by eapply ff_no_fault. }
  intros _. unfold on_table. destruct (m_table (w_db w)) as [[[] rows]|] eqn:Et;
    [|split; [done|]; right; intros [? [=]]..].
  apply wp_bind, wp_wrap, wp_call; cbn [tick w_call]; intros.
  - split; [done|]. left. by eapply ff_no_fault.
  - split; [done|]. by exists rows.
Qed.

End ExecRules.

(** ** Lists of numbered specs *)

(** The versions are 1, 2, ... in this order. *)
Definition numbered (specs : list Spec) : Prop :=
  forall i spec, specs !! i = Some spec -> s_Version spec = Z.of_nat i + 1.

(** A checksum as the loader computes it: not blank, and trimmed. *)
Definition checksums_plain (specs : list Spec) : Prop :=
  Forall (fun spec => Strings.TrimSpace (s_Checksum spec) = s_Checksum spec /\ s_Checksum spec <> ""%string) specs.

Definition checksums (specs : list Spec) : gmap Z string :=
  list_to_map ((fun spec => (s_Version spec, s_Checksum spec)) <$> specs).

Section Numbered.
Context (ups : list Spec) (Hnum : numbered ups).

Lemma numbered_NoDup (specs : list Spec) : numbered specs -> NoDup (s_Version <$> specs).
Proof.
  intros Hn. apply NoDup_alt. intros i j v Hi Hj. rewrite list_lookup_fmap in Hi, Hj.
  destruct (specs !! i) as [a|] eqn:Ha; [|done]. destruct (specs !! j) as [c|] eqn:Hc; [|done].
  simplify_eq/=. apply Hn in Ha, Hc. lia.
Qed.

Lemma numbered_take k : numbered (take k ups).
Proof. intros i spec [Hi _]%lookup_take_Some. by apply Hnum. Qed.

Lemma checksums_lookup k v c :
  checksums (take k ups) !! v = Some c
  <-> exists i spec, (i < k)%nat /\ ups !! i = Some spec /\ v = Z.of_nat i + 1 /\ c = s_Checksum spec.
Proof.
  unfold checksums. rewrite <- elem_of_list_to_map.
  - rewrite list_elem_of_fmap. split.
    + intros (spec & [= -> ->] & (i & [Hi Hk]%lookup_take_Some)%list_elem_of_lookup_1).
      exists i, spec. split_and!; [lia|done|by apply Hnum|done].
    + intros (i & spec & Hk & Hi & -> & ->). exists spec. split; [by rewrite (Hnum _ _ Hi)|].
      apply (list_elem_of_lookup_2 _ i). by rewrite lookup_take_lt.
  - rewrite <- list_fmap_compose. apply (numbered_NoDup _ (numbered_take k)).
Qed.

Lemma checksums_S k spec :
  ups !! k = Some spec ->
  checksums (take (S k) ups) = <[s_Version spec := s_Checksum spec]> (checksums (take k ups)).
Proof.
  intros Hk. apply map_eq. intros v. apply option_eq. intros c. rewrite lookup_insert_Some, !checksums_lookup.
  pose proof (Hnum _ _ Hk) as Hv. split.
  - intros (i & sp & Hi & Hl & -> & ->). destruct (decide (i = k)) as [->|].
    + left. by simplify_eq.
    + right. split; [lia|]. exists i, sp. split_and!; [lia|done..].
  - intros [[<- <-]|(Hne & i & sp & Hi & Hl & -> & ->)].
    + exists k, spec. split_and!; [lia|done|done|done].
    + exists i, sp. split_and!; [lia|done..].
Qed.

(** The migrations between two versions, in order. *)
Lemma pending_specs k target :
  Z.of_nat k <= target ->
  filter (fun spec => ~ (s_Version spec <= Z.of_nat k \/ s_Version spec > target)) ups
  = take (Z.to_nat (target - Z.of_nat k)) (drop k ups).
Proof.
  intros Ht. set (m := Z.to_nat (target - Z.of_nat k)).
  rewrite <- (take_drop k ups) at 1. rewrite <- (take_drop m (drop k ups)) at 1. rewrite !filter_app.
  rewrite filter_none, (filter_none (drop m _)), filter_all; [by rewrite app_nil_r| | |].
  - intros spec (i & [Hi Hm]%lookup_take_Some)%list_elem_of_lookup_1. rewrite lookup_drop in Hi. apply Hnum in Hi. lia.
  - intros spec (i & Hi)%list_elem_of_lookup_1. rewrite !lookup_drop in Hi. apply Hnum in Hi. lia.
  - intros spec (i & [Hi Hk]%lookup_take_Some)%list_elem_of_lookup_1. apply Hnum in Hi. lia.
Qed.

Lemma by_version_lookup (specs : list Spec) i spec :
  numbered specs -> specs !! i = Some spec -> by_version specs !! (Z.of_nat i + 1) = Some spec.
Proof.
  revert i. induction specs as [|s specs IH] using rev_ind; intros i Hn Hi; [done|].
  unfold by_version. rewrite foldl_app. cbn. apply lookup_app_Some in Hi as [Hi|[Hl Hi]].
  - rewrite lookup_insert_ne.
    + apply IH; [|done]. intros j sp Hj. apply Hn. by apply lookup_app_l_Some.
    + pose proof (Hn (length specs) s) as Hs. rewrite Hs by (by rewrite lookup_app_r, Nat.sub_diag).
      apply lookup_lt_Some in Hi. lia.
  - destruct (i - length specs)%nat as [|j] eqn:Ej; [|done]. injection Hi as ->.
    rewrite (Hn i spec); [by rewrite lookup_insert_eq|]. by rewrite lookup_app_r, Ej by lia.
Qed.

(** Down migrations are loaded from the newest to the oldest. *)
Lemma by_version_NoDup (specs : list Spec) spec :
  NoDup (s_Version <$> specs) -> spec ∈ specs -> by_version specs !! s_Version spec = Some spec.
Proof.
  induction specs as [|s specs IH] using rev_ind; intros Hn Hs; [by apply elem_of_nil in Hs|].
  unfold by_version. rewrite foldl_app. cbn. rewrite fmap_app in Hn. apply NoDup_app in Hn as (Hn & Hd & _).
  apply elem_of_app in Hs as [Hs|Hs%list_elem_of_singleton]; [|subst; by rewrite lookup_insert_eq].
  rewrite lookup_insert_ne; [by apply IH|]. intros Heq. apply (Hd (s_Version spec)).
  - by apply list_elem_of_fmap_2.
  - cbn. rewrite Heq. left.
Qed.

Lemma by_version_reverse (specs : list Spec) i spec :
  numbered specs -> specs !! i = Some spec -> by_version (reverse specs) !! (Z.of_nat i + 1) = Some spec.
Proof.
  intros Hn Hi. rewrite <- (Hn _ _ Hi). apply by_version_NoDup.
  - rewrite fmap_reverse. rewrite reverse_Permutation. by apply numbered_NoDup.
  - apply elem_of_reverse. by eapply list_elem_of_lookup_2.
Qed.

(** ** Recorded rows *)

(** The rows of the first [k] migrations, some checksums possibly blank. *)
Definition known (k : nat) (rows : gmap Z (string * string)) : Prop :=
  forall v, match rows !! v, checksums (take k ups) !! v with
            | None, None => True
            | Some r, Some c => Strings.TrimSpace r.2 = ""%string \/ r.2 = c
            | _, _ => False
            end.

Lemma known_row k rows v r :
  known k rows -> rows !! v = Some r ->
  exists i spec, (i < k)%nat /\ ups !! i = Some spec /\ v = Z.of_nat i + 1
    /\ (Strings.TrimSpace r.2 = ""%string \/ r.2 = s_Checksum spec).
Proof.
  intros Hk Hr. specialize (Hk v). rewrite Hr in Hk. destruct (checksums _ !! v) as [c|] eqn:Hc; [|done].
  apply checksums_lookup in Hc as (i & spec & Hi & Hl & -> & ->). eauto 10.
Qed.

Lemma known_has k rows i : known k rows -> (i < k)%nat -> (i < length ups)%nat -> is_Some (rows !! (Z.of_nat i + 1)).
Proof.
  intros Hk Hi Hl. apply lookup_lt_is_Some in Hl as [spec Hs]. specialize (Hk (Z.of_nat i + 1)).
  assert (checksums (take k ups) !! (Z.of_nat i + 1) = Some (s_Checksum spec)) as Hc by (apply checksums_lookup; eauto 10).
  rewrite Hc in Hk. destruct (rows !! _); [by eexists|done].
Qed.

Lemma known_blank k rows : known k rows -> known k (blank_checksums rows).
Proof.
  intros Hk v. specialize (Hk v). unfold blank_checksums. rewrite lookup_fmap.
  destruct (rows !! v), (checksums _ !! v); cbn; try done. by left.
Qed.

Lemma known_0 : known 0 ∅.
Proof. intros v. by rewrite !lookup_empty. Qed.

Lemma known_backfill k rows v spec :
  known k rows -> by_version ups !! v = Some spec -> known k (alter (fun r => (r.1, s_Checksum spec)) v rows).
Proof.
  intros Hk Hs u. specialize (Hk u). destruct (decide (u = v)) as [->|Hne]; [|by rewrite lookup_alter_ne].
  rewrite lookup_alter_eq. destruct (rows !! v) as [r|]; [|done]. cbn.
  destruct (checksums _ !! v) as [c|] eqn:Hc; [|done]. apply checksums_lookup in Hc as (i & sp & Hi & Hl & -> & ->).
  rewrite (by_version_lookup _ _ _ Hnum Hl) in Hs. injection Hs as ->. by right.
Qed.

Lemma known_S k rows spec n :
  known k rows -> ups !! k = Some spec -> known (S k) (<[s_Version spec := (n, s_Checksum spec)]> rows).
Proof.
  intros Hk Hs v. rewrite (checksums_S _ _ Hs). destruct (decide (v = s_Version spec)) as [->|Hne].
  - rewrite !lookup_insert_eq. by right.
  - rewrite !lookup_insert_ne by done. apply Hk.
Qed.

Lemma foldr_max (l : list (Z * (string * string))) :
  match foldr (fun kv acc => Some (match acc with Some m => Z.max kv.1 m | None => kv.1 end)) None l with
  | Some m => m ∈ l.*1 /\ Forall (fun kv => kv.1 <= m) l
  | None => l = []
  end.
Proof.
  induction l as [|kv l IH]; cbn [foldr fmap list_fmap]; [done|].
  destruct (foldr _ None l) as [m|].
  - destruct IH as [Hin HF]. split.
    + rewrite elem_of_cons. destruct (Z.max_spec kv.1 m) as [[_ ->]|[_ ->]]; auto.
    + constructor; [lia|]. eapply Forall_impl; [exact HF|]. cbn. lia.
  - subst. split; [left|]. constructor; [lia|done].
Qed.

(** The current version of a database with the first [k] recorded. *)
Lemma known_max k rows : (k <= length ups)%nat -> known k rows -> max_version rows = Z.of_nat k.
Proof.
  intros Hl Hk. unfold max_version. pose proof (foldr_max (map_to_list rows)) as Hm.
  assert (forall m, m ∈ (map_to_list rows).*1 -> m <= Z.of_nat k) as Hle.
  { intros m ([v r] & -> & Hr%elem_of_map_to_list)%list_elem_of_fmap.
    destruct (known_row _ _ _ _ Hk Hr) as (i & spec & Hi & _ & -> & _). cbn. lia. }
  destruct (foldr _ None _) as [m|]; cbn.
  - destruct Hm as [Hin HF]. apply Hle in Hin as Hmk. destruct k as [|k].
    + apply list_elem_of_fmap in Hin as ([v r] & -> & Hr%elem_of_map_to_list).
      destruct (known_row _ _ _ _ Hk Hr) as (i & ? & Hi & _). lia.
    + destruct (known_has _ _ k Hk) as [r Hr]; [lia..|]. apply elem_of_map_to_list in Hr.
      rewrite Forall_forall in HF. specialize (HF _ Hr). cbn in HF. lia.
  - apply map_to_list_empty_iff in Hm. destruct k as [|k]; [done|].
    destruct (known_has _ _ k Hk) as [r Hr]; [lia..|]. by rewrite Hm, lookup_empty in Hr.
Qed.

Lemma rows_in_order_row rows v n c :
  MkAppliedRow v n c ∈ rows_in_order rows <-> rows !! v = Some (n, c).
Proof.
  unfold rows_in_order. rewrite elem_of_SliceStable, list_elem_of_fmap. split.
  - intros ([v' [n' c']] & [= -> -> ->] & H). by apply elem_of_map_to_list in H.
  - intros H. exists (v, (n, c)). split; [done|]. by apply elem_of_map_to_list.
Qed.
End Numbered.

(** ** Databases on their way *)

Section Way.
(** [stage k]: the schemas that the first [k] migrations may leave; [begun k]:
    those in which the next migration, outside a transaction, has begun. *)
Context {X : Type} `{Eng : SqlEngine X} (b : Backend) (ups : list Spec) (stage begun : nat -> X -> Prop).

Definition reaches_stage (k : nat) (sql : string) (t : MigTable) (x : X) : Prop :=
  exists x', run_text sql (MkMigDB (Some t) x) = Ok (MkMigDB (Some t) x') /\ stage k x'.

(** The texts of the migrations run, one after the other, and none touches
    the record.  One that runs outside a transaction also runs on what was left
    when it was cut short, and when it had run but was not recorded. *)
Definition texts_run : Prop :=
  forall k spec t, ups !! k = Some spec ->
  if b_in_tx b spec then forall x, stage k x -> reaches_stage (S k) (s_SQL spec) t x
  else (forall x, stage k x \/ stage (S k) x -> begun k x)
       /\ forall x, begun k x -> reaches_stage (S k) (s_SQL spec) t x
            /\ forall n, exists x', left_by n (s_SQL spec) (MkMigDB (Some t) x) = MkMigDB (Some t) x' /\ begun k x'.

(** The schema of a database with the first [k] recorded. *)
Definition schema_at (k : nat) (x : X) : Prop :=
  stage k x \/ exists spec, ups !! k = Some spec /\ b_in_tx b spec = false /\ begun k x.

Definition on_way (k : nat) (d : MigDB X) : Prop :=
  (k <= length ups)%nat /\ schema_at k (m_schema d)
  /\ match m_table d with
     | None => k = 0%nat
     | Some t => known ups k (if t_checksum t then t_rows t else blank_checksums (t_rows t))
     end.

(** Every recorded checksum is that of its file. *)
Definition exact (rows : gmap Z (string * string)) : Prop :=
  forall v n c, rows !! v = Some (n, c) -> exists spec, by_version ups !! v = Some spec /\ c = s_Checksum spec.

Definition ready (k : nat) (d : MigDB X) : Prop :=
  (k <= length ups)%nat /\ schema_at k (m_schema d)
  /\ exists rows, m_table d = Some (MkMigTable true rows) /\ known ups k rows /\ exact rows.

(** A database whose current version is [k]. *)
Definition versioned (k : nat) (d : MigDB X) : Prop :=
  (k <= length ups)%nat /\ exists rows, m_table d = Some (MkMigTable true rows) /\ known ups k rows.

Lemma ready_versioned k d : ready k d -> versioned k d.
Proof. intros (Hk & _ & rows & Ht & Hr & _). split; [done|by exists rows]. Qed.

Lemma ready_on_way k d : ready k d -> on_way k d.
Proof. intros (Hk & Hs & rows & Ht & Hr & _). split_and!; [done..|]. by rewrite Ht. Qed.

Context (Hnum : numbered ups).

Lemma exact_checksums k rows : known ups k rows -> exact rows -> snd <$> rows = checksums (take k ups).
Proof.
  intros Hk He. apply map_eq. intros v. rewrite lookup_fmap. pose proof (Hk v) as Hv.
  destruct (rows !! v) as [[n c]|] eqn:Hr, (checksums _ !! v) as [c'|] eqn:Hc; try done. cbn. f_equal.
  apply He in Hr as (spec & Hs & ->). apply (checksums_lookup _ Hnum) in Hc as (i & sp & _ & Hl & -> & ->).
  rewrite (by_version_lookup _ _ _ Hnum Hl) in Hs. by injection Hs as ->.
Qed.

Context `{BL : BackendLaws b} (Hplain : checksums_plain ups) (Htexts : texts_run).

Lemma plain_spec i spec :
  ups !! i = Some spec -> Strings.TrimSpace (s_Checksum spec) = s_Checksum spec /\ s_Checksum spec <> ""%string.
Proof. intros Hi. unfold checksums_plain in Hplain. rewrite Forall_lookup in Hplain. by apply (Hplain i). Qed.

Section Calls.
Context `{E : Env}.
Implicit Types w : World (MigDB X).

Lemma ensure_way k w :
  on_way k (w_db w) ->
  wp (ensureMigrationTable b) (fun r w' =>
    on_way k (w_db w') /\ match r with Ok _ => True | Err _ => ~ fault_free E end
    /\ (fault_free E -> exists rows, m_table (w_db w') = Some (MkMigTable true rows))) w.
Proof.
  intros Hw. unfold ensureMigrationTable. apply wp_bind, wp_wrap, wp_db_exec.
  { intros msg H. split_and!; [done|by eapply ff_no_fault|]. intros HF. by destruct (ff_no_fault _ _ H). }
  intros _. cbn [create_table]. set (d := match m_table (w_db w) with Some _ => _ | None => _ end).
  assert (on_way k d /\ is_Some (m_table d)) as [Hd [[[] rows] Ht]].
  { destruct Hw as (Hk & Hs & Ht). unfold d. destruct (m_table (w_db w)) as [t|] eqn:Et.
    - unfold on_way. rewrite Et. split; [done|by eexists].
    - subst k. split; [|by eexists]. split_and!; [done|done|]. apply known_0. }
  all: apply wp_bind, wp_try, wp_db_exec; cbn [tick set_db w_db w_call]; intros;
    [assert (~ fault_free E) by (by eapply ff_no_fault); destruct (b_ignores b _); [apply wp_ret|apply wp_fail]; done|].
  - destruct (has_column (b := b) X d rows Ht) as [-> | (e & -> & He)]; [apply wp_ret; eauto|].
    rewrite He. apply wp_ret. eauto.
  - rewrite (adds_column (b := b) X d rows Ht). apply wp_ret. cbn. split_and!; [|done|eauto].
    destruct Hd as (Hk & Hs & Hr). rewrite Ht in Hr. by split_and!.
Qed.

(** What is known of a row the loop has still to look at. *)
Definition row_known (row : appliedRow) : Prop :=
  exists spec, by_version ups !! ar_Version row = Some spec
    /\ Strings.TrimSpace (s_Checksum spec) = s_Checksum spec /\ s_Checksum spec <> ""%string
    /\ (Strings.TrimSpace (ar_Checksum row) = ""%string \/ ar_Checksum row = s_Checksum spec).

Definition exact_but (l : list appliedRow) (rows : gmap Z (string * string)) : Prop :=
  forall v n c, rows !! v = Some (n, c) ->
  MkAppliedRow v n c ∈ l \/ exists spec, by_version ups !! v = Some spec /\ c = s_Checksum spec.

Lemma exact_but_backfill v spec r l rows :
  by_version ups !! v = Some spec -> ar_Version r = v -> exact_but (r :: l) rows ->
  exact_but l (alter (fun r => (r.1, s_Checksum spec)) v rows).
Proof.
  intros Hs Hv He u n c Hu. destruct (decide (u = v)) as [->|Hne].
  - right. rewrite lookup_alter_eq in Hu. destruct (rows !! v); [|done]. cbn in Hu. injection Hu as <- <-. eauto.
  - rewrite lookup_alter_ne in Hu by done. destruct (He _ _ _ Hu) as [[<-|?]%elem_of_cons|?]; [done|by left|by right].
Qed.

Lemma exact_but_keep spec r l rows :
  by_version ups !! ar_Version r = Some spec -> ar_Checksum r = s_Checksum spec ->
  exact_but (r :: l) rows -> exact_but l rows.
Proof.
  intros Hs Hc He u n c Hu. destruct (He _ _ _ Hu) as [[<-|?]%elem_of_cons|?]; [|by left|by right].
  right. eauto.
Qed.

Lemma reconcile_loop k l w rows :
  Forall row_known l -> (k <= length ups)%nat -> schema_at k (m_schema (w_db w)) ->
  m_table (w_db w) = Some (MkMigTable true rows) -> known ups k rows -> exact_but l rows ->
  wp (for_each (reconcile_row b (by_version ups)) l) (fun r w' =>
    on_way k (w_db w') /\ match r with Ok _ => ready k (w_db w') | Err _ => ~ fault_free E end) w.
Proof.
  intros Hl Hk. revert w rows. induction Hl as [|row l (spec & Hs & Htrim & Hne & Hrow) _ IH]; intros w rows Hsch Ht Hr He.
  { apply wp_ret. assert (ready k (w_db w)); [|split; [by apply ready_on_way|done]].
    split_and!; [done..|]. exists rows. split_and!; [done..|]. intros v n c Hv.
    destruct (He _ _ _ Hv) as [[]%not_elem_of_nil|?]; done. }
  cbn [for_each]. apply wp_bind. unfold reconcile_row. rewrite Hs. case_decide as Hblank.
  - apply wp_wrap, wp_db_exec; [intros msg H; split; [unfold on_way; cbn; rewrite Ht; by split_and!|by eapply ff_no_fault]|].
    intros _. unfold update_checksum, change_rows, on_table. rewrite Ht. cbn [t_checksum t_rows result_map].
    apply wp_bind. eapply wp_mono; [eapply IH; [done|done|by apply known_backfill|by eapply exact_but_backfill]|].
    intros [?|?] w' [? ?]; [by apply wp_ret|done].
  - destruct Hrow as [?|Hrow]; [done|]. rewrite Hrow, Htrim, accepts_same.
    apply wp_ret, wp_bind. eapply wp_mono; [by eapply IH; [..|eapply exact_but_keep]|].
    intros [?|?] w' [? ?]; [by apply wp_ret|done].
Qed.

Lemma known_rows_known k rows : known ups k rows -> Forall row_known (rows_in_order rows).
Proof.
  intros Hk. apply Forall_forall. intros [v n c] Hr%rows_in_order_row.
  destruct (known_row _ Hnum _ _ _ _ Hk Hr) as (i & spec & Hi & Hl & -> & Hc).
  destruct (plain_spec _ _ Hl) as [? ?]. exists spec. split_and!; [by apply by_version_lookup|done..].
Qed.

Lemma reconcile_way k w rows :
  on_way k (w_db w) -> m_table (w_db w) = Some (MkMigTable true rows) ->
  wp (reconcileAppliedChecksums b (by_version ups) (rows_in_order rows)) (fun r w' =>
    on_way k (w_db w') /\ match r with Ok _ => ready k (w_db w') | Err _ => ~ fault_free E end) w.
Proof.
  intros (Hk & Hs & Ht') Ht. rewrite Ht in Ht'. cbn in Ht'. unfold reconcileAppliedChecksums. apply wp_bind.
  eapply wp_mono; [eapply reconcile_loop; try done; [by eapply known_rows_known|]|].
  - intros v n c Hv. left. by apply rows_in_order_row.
  - intros [?|?] w' [? ?]; [by apply wp_ret|done].
Qed.

Lemma version_way k w :
  versioned k (w_db w) ->
  wp currentVersion (fun r w' => w_db w' = w_db w
    /\ match r with Ok v => v = Z.of_nat k | Err _ => ~ fault_free E end) w.
Proof.
  intros (Hk & rows & Ht & Hr). unfold currentVersion. apply wp_wrap, wp_db_read.
  - intros msg H. split; [done|by eapply ff_no_fault].
  - intros _. unfold select_max_version. rewrite Ht. cbn. split; [done|]. by eapply known_max.
Qed.

(** ** One migration *)

Lemma ready_next k rows (spec : Spec) n x :
  ups !! k = Some spec -> known ups k rows -> exact rows -> stage (S k) x ->
  ready (S k) (MkMigDB (Some (MkMigTable true (<[s_Version spec := (n, s_Checksum spec)]> rows))) x).
Proof.
  intros Hs Hk He Hx. split_and!; [by apply lookup_lt_Some in Hs|by left|]. eexists. split_and!; [done|by apply known_S|].
  intros v m c Hv. destruct (decide (v = s_Version spec)) as [->|Hne].
  - rewrite lookup_insert_eq in Hv. injection Hv as <- <-. exists spec. split; [|done].
    rewrite (Hnum _ _ Hs). by apply by_version_lookup.
  - rewrite lookup_insert_ne in Hv by done. by eapply He.
Qed.

Lemma apply_way k spec w :
  ready k (w_db w) -> ups !! k = Some spec ->
  wp (applyUpSpec b spec) (fun r w' => match r with
    | Ok _ => ready (S k) (w_db w')
    | Err _ => on_way k (w_db w') /\ ~ fault_free E
    end) w.
Proof.
  intros Hw Hs. pose proof (ready_on_way _ _ Hw) as Hway. destruct Hw as (Hk & Hsch & rows & Ht & Hr & He).
  pose proof (fun t => Htexts k spec t Hs) as Hrun. destruct (w_db w) as [t x] eqn:Ew. cbn in Ht, Hsch. subst t.
  unfold applyUpSpec, apply_spec. destruct (b_in_tx b spec) eqn:Htx.
  - destruct Hsch as [Hx|(sp & Hs' & Hn & _)]; [|congruence].
    destruct (Hrun (MkMigTable true rows) x Hx) as (x' & Hrx & Hx').
    apply wp_with_tx; [intros; cbn; split; [by rewrite Ew|by eapply ff_no_fault]|]. intros _.
    apply wp_bind, wp_call; [intros; cbn; split; [by rewrite Ew|by eapply ff_no_fault]|]. intros _.
    unfold wp at 1. cbn. rewrite Ew. unfold exec_text. rewrite Hrx. cbn.
    apply wp_bind, wp_call; [intros; cbn; split; [by rewrite Ew|by eapply ff_no_fault]|]. intros _.
    unfold wp at 1. cbn.
    apply wp_call; [intros; cbn; split; [by rewrite Ew|by eapply ff_no_fault]|]. intros _.
    unfold wp. cbn. by apply ready_next.
  - destruct (Hrun (MkMigTable true rows)) as [Hin Hgo].
    assert (begun k x) as Hb by (destruct Hsch as [?|(? & ? & ? & ?)]; [by apply Hin; left|done]).
    destruct (Hgo x Hb) as [(x' & Hrx & Hx') Hleft].
    assert (forall y, begun k y -> on_way k (MkMigDB (Some (MkMigTable true rows)) y)) as Hcut.
    { intros y Hy. split_and!; [done| |done]. right. exists spec. by split_and!. }
    apply wp_bind, wp_db_exec_text; rewrite Ew.
    + intros e He'. destruct (Hleft (w_call w)) as (y & -> & Hy). cbn. split; [by apply Hcut|].
      destruct He' as [?|He']; [done|congruence].
    + rewrite Hrx. intros d [= <-]. apply wp_db_exec.
      * intros msg H. split; [|by eapply ff_no_fault]. apply Hcut, Hin. by right.
      * intros _. cbn. by apply ready_next.
Qed.

(** ** The loop and the action *)

Lemma migrate_way n k w :
  ready k (w_db w) ->
  wp (for_each (fun spec =>
        _ ← wrap ("apply " +:+ b_word b +:+ " migration " +:+ Strconv.FormatInt (s_Version spec)
                  +:+ " (" +:+ s_Name spec +:+ ")") (applyUpSpec b spec);
        mret (step_of DirectionUp spec)) (take n (drop k ups)))
    (fun r w' => match r with
     | Ok steps => ready (k + length (take n (drop k ups))) (w_db w') /\ steps = step_of DirectionUp <$> take n (drop k ups)
     | Err _ => (exists k', on_way k' (w_db w')) /\ ~ fault_free E
     end) w.
Proof.
  revert k w. induction n as [|n IH]; intros k w Hw.
  { apply wp_ret. cbn [take length]. rewrite Nat.add_0_r. done. }
  destruct (ups !! k) as [spec|] eqn:Hs.
  - rewrite (drop_S _ _ _ Hs). cbn [take for_each]. apply wp_bind, wp_bind, wp_wrap.
    eapply wp_mono; [by apply apply_way|]. intros [?|?] w' H'; [|split; [exists k|]; apply H'].
    apply wp_ret, wp_bind. eapply wp_mono; [by apply IH|]. intros [steps|?] w'' H''; [|done].
    apply wp_ret. destruct H'' as [H'' ->]. split; [|done]. cbn [length]. by rewrite Nat.add_succ_r.
  - apply lookup_ge_None in Hs. rewrite drop_ge by done. cbn [take for_each]. apply wp_ret. cbn [length].
    rewrite Nat.add_0_r. done.
Qed.

(** An action that the code takes to its end when no call fails. *)
Definition to_the_end (action : string) (requested : Z) : Prop :=
  action = schemaActionMigrate /\ requested <= 0 /\ Z.of_nat (length ups) <= SchemaTargetVersion.

Lemma perform_way k w action requested downs :
  ready k (w_db w) -> action <> schemaActionRollback ->
  wp (perform b action requested (Z.of_nat k) ups downs) (fun r w' => match r with
     | Ok (q, applied, _) => exists k', ready k' (w_db w')
         /\ (to_the_end action requested -> k' = length ups /\ applied = step_of DirectionUp <$> drop k ups)
     | Err _ => (exists k', on_way k' (w_db w')) /\ (to_the_end action requested -> ~ fault_free E)
     end) w.
Proof.
  intros Hw Hact. pose proof (ready_on_way _ _ Hw) as Hway. assert (k <= length ups)%nat as Hk by apply Hw.
  unfold perform. destruct (decide (action = schemaActionMigrate)) as [->|Hm]; cbn zeta.
  - set (target := if decide (requested <= 0) then _ else _).
    assert (to_the_end schemaActionMigrate requested -> target = SchemaTargetVersion) as Htgt.
    { intros (_ & Hr & _). unfold target. by rewrite decide_True. }
    case_decide as H1; [apply wp_fail; split; [eauto|]; intros Ht; specialize (Htgt Ht); lia|].
    case_decide as H2; [apply wp_fail; split; [eauto|]; intros Ht; specialize (Htgt Ht); destruct Ht as (_ & _ & ?); lia|].
    apply wp_bind. unfold migrate_loop. rewrite (pending_specs _ Hnum) by lia.
    eapply wp_mono; [by apply migrate_way|]. intros [steps|?] w' H'; [|split; [apply H'|intros _; apply H']].
    apply wp_ret. destruct H' as [Hr ->]. eexists. split; [exact Hr|]. intros Ht. specialize (Htgt Ht).
    destruct Ht as (_ & _ & Hn). rewrite (take_ge (drop k ups)) by (rewrite length_drop; lia).
    split; [rewrite length_drop; lia|done].
  - rewrite decide_False by done. apply wp_ret. exists k. split; [done|]. by intros [? _].
Qed.

Context (files : list (string * string)) (downs : list Spec).
Context `{U : UnicodeTables} (Hup : Load files (b_name b) DirectionUp = Ok ups)
        (Hdown : Load files (b_name b) DirectionDown = Ok downs).

Definition finished (k : nat) (r : result gerror Result) (d : MigDB X) : Prop :=
  exists res rows x, r = Ok res /\ r_PreviousVersion res = Z.of_nat k
    /\ r_CurrentVersion res = Z.of_nat (length ups) /\ r_Compatible res = compatible (Z.of_nat (length ups))
    /\ r_Applied res = step_of DirectionUp <$> drop k ups
    /\ d = MkMigDB (Some (MkMigTable true rows)) x /\ stage (length ups) x /\ snd <$> rows = checksums ups.

Lemma ready_end d :
  ready (length ups) d ->
  exists rows x, d = MkMigDB (Some (MkMigTable true rows)) x /\ stage (length ups) x /\ snd <$> rows = checksums ups.
Proof.
  intros (_ & Hs & rows & Ht & Hr & He). destruct d as [t x]. exists rows, x. cbn in *. subst t. split_and!; [done| |].
  - destruct Hs as [?|(sp & Hl & _)]; [done|]. apply lookup_lt_Some in Hl. lia.
  - rewrite (exact_checksums _ _ Hr He). by rewrite take_ge.
Qed.

Definition action_of (action : string) : string :=
  let action := Strings.ToLower (Strings.TrimSpace action) in
  if decide (action = ""%string) then schemaActionValidate else action.

Lemma load_up_way Q w : Q (Ok ups) w -> wp (load (X := X) b files DirectionUp) Q w.
Proof. intros H. unfold load. rewrite Hup. by apply wp_ret. Qed.
Lemma load_down_way Q w : Q (Ok downs) w -> wp (load (X := X) b files DirectionDown) Q w.
Proof. intros H. unfold load. rewrite Hdown. by apply wp_ret. Qed.

(** The action up to its [switch], and from there. *)
Lemma run_rule k w action requested Q :
  on_way k (w_db w) ->
  (action_of action = schemaActionValidate \/ action_of action = schemaActionMigrate
   \/ action_of action = schemaActionRollback) ->
  (forall e w', on_way k (w_db w') -> ~ fault_free E -> Q (Err e) w') ->
  (forall w1, ready k (w_db w1) ->
    wp (perform b (action_of action) requested (Z.of_nat k) ups (by_version downs)) (fun r w2 => match r with
      | Err e => Q (Err e) w2
      | Ok (q, applied, rolledBack) => exists k', versioned k' (w_db w2)
          /\ (forall e w3, w_db w3 = w_db w2 -> ~ fault_free E -> Q (Err e) w3)
          /\ forall w3, w_db w3 = w_db w2 ->
             if decide (action_of action = schemaActionValidate /\ compatible (Z.of_nat k') = false)
             then forall e, Q (Err e) w3
             else Q (Ok (MkResult (b_name b) (action_of action) q (Z.of_nat k) (Z.of_nat k') SchemaTargetVersion
                       SchemaMinCompatVersion (SchemaMinCompatVersion, SchemaTargetVersion)
                       (compatible (Z.of_nat k')) applied rolledBack)) w3
      end) w1) ->
  wp (runSchemaAction b files action requested) Q w.
Proof.
  intros Hw Hact Hfault Hgo. unfold runSchemaAction. fold (action_of action). set (act := action_of action) in *. clearbody act.
  rewrite decide_False by naive_solver.
  apply wp_bind. eapply wp_mono; [by apply ensure_way|]. intros [?|?] w1 (H1 & Hr1 & Hc1); [|eauto].
  apply wp_bind, load_up_way, wp_bind, load_down_way. cbn zeta. apply wp_bind. eapply wp_mono; [apply load_rows|].
  intros [l|?] w2 [E2 Hr2]; rewrite <- E2 in *; [|apply Hfault; [done|]; tauto].
  destruct Hr2 as (rows & Ht & ->). apply wp_bind. eapply wp_mono; [by apply (reconcile_way k)|].
  intros [?|?] w3 [H3 Hr3]; [|eauto]. apply wp_bind. eapply wp_mono; [by apply version_way, ready_versioned|].
  intros [?|?] w4 [E4 Hr4]; rewrite <- ?E4 in *; [|eauto]. subst. apply wp_bind. eapply wp_mono; [by apply Hgo|].
  intros [[[q applied] back]|?] w5 H5; [|done]. destruct H5 as (k' & H5 & Herr & Hok).
  apply wp_bind. eapply wp_mono; [by apply version_way|]. intros [?|?] w6 [E6 Hr6]; [|eauto]. subst.
  specialize (Hok _ E6). case_decide; [apply wp_fail; eauto|by apply wp_ret].
Qed.

Lemma run_way k w action requested :
  on_way k (w_db w) -> action_of action <> schemaActionRollback ->
  wp (runSchemaAction b files action requested) (fun r w' =>
    (exists k', on_way k' (w_db w'))
    /\ (to_the_end (action_of action) requested -> fault_free E -> finished k r (w_db w'))) w.
Proof.
  intros Hw Hact. destruct (decide (action_of action = schemaActionValidate \/ action_of action = schemaActionMigrate)) as [Ha|Ha].
  2:{ unfold runSchemaAction. fold (action_of action). rewrite decide_True by naive_solver. apply wp_fail.
      split; [eauto|]. intros (Hm & _). naive_solver. }
  apply (run_rule k); [done|naive_solver|intros; split; [eauto|done]|]. intros w1 H1.
  eapply wp_mono; [by apply (perform_way k)|]. intros [[[q applied] back]|?] w2 H2.
  - destruct H2 as (k' & H2 & Hend). pose proof (ready_on_way _ _ H2). exists k'. split_and!; [by apply ready_versioned| |].
    + intros e w3 -> HF. split; [eauto|done].
    + intros w3 E3. case_decide as Hval; [intros e; split; [rewrite E3; eauto|]; intros (Hm & _); destruct Hval as [Hv _]; by rewrite Hm in Hv|].
      split; [rewrite E3; eauto|]. intros Ht' _. destruct (Hend Ht') as [-> ->].
      rewrite E3. destruct (ready_end _ H2) as (rows' & x' & Hd & Hx' & Hr). eexists _, rows', x'. by split_and!.
  - split; [apply H2|]. intros Hend HF. by destruct (proj2 H2 Hend).
Qed.
End Calls.
End Way.
