(* ===== verification/SchemaSafety.v ===== *)
(** * What the schema actions promise

    Interrupted migrations resume; a record that does not fit the files stops
    every action; the SQLite files cannot pass validation.
    The witnesses use two Postgres migrations, a table and an index built
    outside a transaction, and an engine whose schema is the list of what
    exists; the index is left invalid when its building is cut short. *)

From S2P Require Import Prelude GoLib GoSort GoSha Agent Effects Sql Scenario MigrationFiles SchemaActions SchemaProgress.
From stdpp Require Import gmap strings list relations.
From Stdlib Require Import ZArith Lia Ascii.

Open Scope Z_scope.

(** ** Two migrations to try the actions on *)

Section Demo.
Local Open Scope string_scope.

#[export] Instance latin1 : UnicodeTables := {| wide_letter_or_digit := fun _ => false |}.

Definition directive : string := "-- migrate:nontransactional" +:+ String newline "".

Definition demo_files : list (string * string) :=
  [("postgres/0001_base.down.sql", "DROP TABLE a, schema_migrations;");
   ("postgres/0001_base.up.sql", "CREATE TABLE a();");
   ("postgres/0002_index.down.sql", directive +:+ "DROP INDEX IF EXISTS i;");
   ("postgres/0002_index.up.sql", directive +:+ "CREATE INDEX CONCURRENTLY IF NOT EXISTS i ON a;")].

Definition demo_specs (direction : string) : list Spec :=
  match Load demo_files BackendPostgres direction with Ok specs => specs | Err _ => [] end.

(** The index is there, valid or not. *)
Definition demo_stage (k : nat) (x : list string) : Prop :=
  match k with
  | 0%nat => x = []
  | 1%nat => x = ["a"]
  | _ => x = ["a"; "i"] \/ x = ["a"; "i INVALID"]
  end.
Definition demo_begun (k : nat) (x : list string) : Prop := x = ["a"] \/ demo_stage 2 x.

Definition demo_run (sql : string) (d : MigDB (list string)) : result gerror (MigDB (list string)) :=
  if decide (sql = "CREATE TABLE a();") then
    if decide ("a" ∈ m_schema d) then Err (ESQL "relation a already exists") else Ok (MkMigDB (m_table d) ((m_schema d ++ ["a"])%list))
  else if decide (sql = "CREATE INDEX CONCURRENTLY IF NOT EXISTS i ON a;") then
    Ok (MkMigDB (m_table d) (if decide ("i" ∈ m_schema d \/ "i INVALID" ∈ m_schema d) then m_schema d
                             else (m_schema d ++ ["i"])%list))
  else if decide (sql = "DROP INDEX IF EXISTS i;") then Ok (MkMigDB (m_table d) (filter (fun x => x <> "i") (m_schema d)))
  else if decide (sql = "DROP TABLE a, schema_migrations;") then Ok (MkMigDB None (filter (fun x => x <> "a") (m_schema d)))
  else Err (ESQL "syntax error").

(** Cut short, the index is there but invalid. *)
Definition demo_left (n : nat) (sql : string) (d : MigDB (list string)) : MigDB (list string) :=
  if decide (sql = "CREATE INDEX CONCURRENTLY IF NOT EXISTS i ON a;" /\ m_schema d = ["a"])
  then MkMigDB (m_table d) ["a"; "i INVALID"] else d.

#[export] Instance demo_engine : SqlEngine (list string) := {| run_text := demo_run; left_by := demo_left |}.

(** Before the first run; after a run that lost the connection between
    building the index and recording it; after one that lost it while the
    index was built. *)
Definition demo_start : World (MigDB (list string)) := start (MkMigDB None []).
Definition demo_cut : World (MigDB (list string)) :=
  (runSchemaAction (E := demo_env [10%nat]) postgres demo_files "migrate" 0 demo_start).2.
Definition demo_torn : World (MigDB (list string)) :=
  (runSchemaAction (E := demo_env [9%nat]) postgres demo_files "migrate" 0 demo_start).2.

(** With both migrations recorded. *)
Definition demo_rows (specs : list Spec) : gmap Z (string * string) :=
  foldl (fun m spec => <[s_Version spec := (s_Name spec, s_Checksum spec)]> m) ∅ specs.
Definition demo_full : World (MigDB (list string)) :=
  start (MkMigDB (Some (MkMigTable true (demo_rows (demo_specs DirectionUp)))) ["a"; "i"]).

Example demo_cut_state :
  m_schema (w_db demo_cut) = ["a"; "i"] /\ (dom ∘ t_rows) <$> m_table (w_db demo_cut) = Some {[1]}
  /\ m_schema (w_db demo_torn) = ["a"; "i INVALID"] /\ (dom ∘ t_rows) <$> m_table (w_db demo_torn) = Some {[1]}.
Proof. vm_compute. auto. Qed.

Lemma demo_up : Load demo_files BackendPostgres DirectionUp = Ok (demo_specs DirectionUp).
Proof. vm_compute. reflexivity. Qed.
Lemma demo_down : Load demo_files BackendPostgres DirectionDown = Ok (reverse (reverse (demo_specs DirectionDown))).
Proof. vm_compute. reflexivity. Qed.

Lemma demo_up_numbered : numbered (demo_specs DirectionUp).
Proof. intros [|[|i]] spec H; vm_compute in H; [injection H as <-..|discriminate H]; reflexivity. Qed.

Lemma demo_texts_run : texts_run postgres (demo_specs DirectionUp) demo_stage demo_begun.
Proof.
  intros [|[|i]] spec t H; vm_compute in H; [injection H as <-..|discriminate H].
  - cbn. intros x ->. by eexists.
  - cbn. split; [unfold demo_begun; cbn; tauto|]. intros x [->|[->| ->]];
      (split; [eexists; split; [vm_compute; reflexivity|vm_compute; auto]
              |intros n; eexists; split; [vm_compute; reflexivity|unfold demo_begun; vm_compute; auto]]).
Qed.

Lemma demo_on_way : on_way postgres (demo_specs DirectionUp) demo_stage demo_begun 0 (w_db demo_start).
Proof. split_and!; [vm_compute; lia|by left|done]. Qed.

(** The down migrations from the oldest on. *)
Definition demo_downs : list Spec := reverse (demo_specs DirectionDown).

Lemma demo_downs_numbered : numbered demo_downs.
Proof. intros [|[|i]] spec H; vm_compute in H; [injection H as <-..|discriminate H]; reflexivity. Qed.

End Demo.

(** ** Interrupted migrations *)

(** One run of an action that does not roll back, in some environment: any of
    its database calls may have failed. *)
Definition attempt `{U : UnicodeTables} {X} `{Eng : SqlEngine X} (b : Backend) (files : list (string * string))
    (w w' : World (MigDB X)) : Prop :=
  exists (E : Env) action requested r,
    action_of action <> schemaActionRollback /\ runSchemaAction (E := E) b files action requested w = (r, w').

(** The files of a backend as the loader gives them. *)
Definition loaded `{U : UnicodeTables} (b : Backend) (files : list (string * string)) (ups downs : list Spec) : Prop :=
  Load files (b_name b) DirectionUp = Ok ups /\ Load files (b_name b) DirectionDown = Ok downs /\ numbered ups.

Lemma loaded_plain `{U : UnicodeTables} b files ups downs : loaded b files ups downs -> checksums_plain ups.
Proof.
  intros (Hup & _ & _). apply Forall_forall. intros spec Hs.
  destruct (Load_parses _ _ _ _ _ Hup Hs) as ([file raw] & _ & _ & Hf).
  apply parse_file_spec in Hf as [-> _]. apply Sha256.Sum256_text.
Qed.

Section Resume.
Context `{U : UnicodeTables} {X : Type} `{Eng : SqlEngine X} (b : Backend) `{BL : BackendLaws b}.
Context (files : list (string * string)) (ups downs : list Spec) (stage begun : nat -> X -> Prop).

Lemma attempts_on_way k w0 w :
  loaded b files ups downs -> texts_run b ups stage begun ->
  on_way b ups stage begun k (w_db w0) -> rtc (attempt b files) w0 w -> exists k', on_way b ups stage begun k' (w_db w).
Proof.
  intros Hl Ht Hw. pose proof (loaded_plain _ _ _ _ Hl) as Hp. destruct Hl as (Hup & Hdown & Hn). revert k Hw.
  intros k Hw H. revert k Hw. induction H as [w|w w1 w2 (E & action & req & r & Hact & Hrun) _ IH]; intros k Hw; [eauto|].
  destruct (wp_run _ _ _ _ _ (run_way b ups stage begun Hn Hp Ht files downs Hup Hdown k w action req Hw Hact) Hrun)
    as [[k' Hk'] _]. by eapply IH.
Qed.
End Resume.

(** C27: Take a database that is fresh, or has the first migrations recorded
    (some checksums missing, as an older release left them), and migrations
    numbered without gaps, no more than the target version, whose texts run on
    every schema the ones before them may leave ([stage]); those outside a
    transaction also on whatever they left when they were cut short ([begun]).
    However many attempts to validate or migrate were cut short, wherever their
    database calls failed, the next run of migrate in which none fails
    succeeds: it applies exactly the migrations that were not recorded, in
    order, leaves a schema that all the migrations may leave, and records every
    migration with the digest of its file.  Where every migration runs in a
    transaction (SQLite) [stage] may be the one schema of an uninterrupted run;
    an index built [CONCURRENTLY IF NOT EXISTS] may be left invalid
    ([invalid_index_stays]). *)
Theorem interrupted_migrations_resume `{U : UnicodeTables} {X : Type} `{Eng : SqlEngine X} (b : Backend) `{BL : BackendLaws b}
    (files : list (string * string)) (ups downs : list Spec) (stage begun : nat -> X -> Prop) (k0 : nat)
    (w0 w : World (MigDB X)) (E : Env) :
  loaded b files ups downs -> Z.of_nat (length ups) <= SchemaTargetVersion ->
  texts_run b ups stage begun ->
  on_way b ups stage begun k0 (w_db w0) -> rtc (attempt b files) w0 w ->
  fault_free E ->
  exists k r w', runSchemaAction b files "migrate" 0 w = (r, w') /\ finished ups stage k r (w_db w').
Proof.
  intros Hl Hlen Ht Hw Hrtc HF. destruct (attempts_on_way b files ups downs stage begun k0 w0 w Hl Ht Hw Hrtc) as [k Hk].
  pose proof (loaded_plain _ _ _ _ Hl) as Hp. destruct Hl as (Hup & Hdown & Hn).
  destruct (runSchemaAction b files "migrate" 0 w) as [r w'] eqn:Hrun. exists k, r, w'. split; [done|].
  assert (action_of "migrate" = schemaActionMigrate) as Hact by reflexivity.
  apply (wp_run _ _ _ _ _ (run_way b ups stage begun Hn Hp Ht files downs Hup Hdown k w "migrate" 0 Hk ltac:(by rewrite Hact)) Hrun);
    [|done]. rewrite Hact. by split_and!.
Qed.

Lemma demo_loaded : loaded postgres demo_files (demo_specs DirectionUp) (reverse demo_downs).
Proof. split_and!; [apply demo_up|apply demo_down|apply demo_up_numbered]. Qed.

Lemma demo_attempt : attempt postgres demo_files demo_start demo_cut.
Proof.
  exists (demo_env [10%nat]), "migrate"%string, 0, (runSchemaAction (E := demo_env [10%nat]) postgres demo_files "migrate" 0 demo_start).1.
  split; [discriminate|]. apply surjective_pairing.
Qed.

Lemma demo_torn_attempt : attempt postgres demo_files demo_start demo_torn.
Proof.
  exists (demo_env [9%nat]), "migrate"%string, 0, (runSchemaAction (E := demo_env [9%nat]) postgres demo_files "migrate" 0 demo_start).1.
  split; [discriminate|]. apply surjective_pairing.
Qed.

Lemma interrupted_migrations_resume_witness :
  exists k r w', runSchemaAction (E := quiet) postgres demo_files "migrate" 0 demo_torn = (r, w')
    /\ finished (demo_specs DirectionUp) demo_stage k r (w_db w').
Proof.
  refine (interrupted_migrations_resume postgres demo_files (demo_specs DirectionUp) (reverse demo_downs) demo_stage demo_begun 0
    demo_start demo_torn quiet demo_loaded _ demo_texts_run demo_on_way (rtc_once _ _ demo_torn_attempt) quiet_fault_free).
  vm_compute. discriminate.
Defined.

(** The migrations of Postgres that build an index [CONCURRENTLY IF NOT
    EXISTS]: cut short while the index is built, the next migrate finds the
    invalid index, passes over it, and records the version. *)
Example invalid_index_stays :
  let again := runSchemaAction (E := quiet) postgres demo_files "migrate" 0 demo_torn in
  m_schema (w_db again.2) = ["a"; "i INVALID"]%string
  /\ (r_CurrentVersion <$> match again.1 with Ok res => Some res | Err _ => None end) = Some 2.
Proof. vm_compute. auto. Qed.

(** ** Records that do not fit the files *)

Section Foreign.
Context {X : Type} (b : Backend) (ups : list Spec).

(** A recorded migration that the files do not have, or have otherwise. *)
Definition foreign (v : Z) (checksum : string) : Prop :=
  match by_version ups !! v with
  | None => True
  | Some spec => Strings.TrimSpace checksum <> ""%string
                 /\ b_accepts b v (Strings.TrimSpace checksum) (s_Checksum spec) = false
  end.

(** [rows'] is [rows] with some blank checksums filled in from the files. *)
Definition backfilled (rows rows' : gmap Z (string * string)) : Prop :=
  forall v, rows' !! v = rows !! v
    \/ exists n c spec, rows !! v = Some (n, c) /\ Strings.TrimSpace c = ""%string
         /\ by_version ups !! v = Some spec /\ rows' !! v = Some (n, s_Checksum spec).

Lemma backfilled_step rows rows' v n c spec :
  backfilled rows rows' -> rows !! v = Some (n, c) -> Strings.TrimSpace c = ""%string -> by_version ups !! v = Some spec ->
  backfilled rows (alter (fun r => (r.1, s_Checksum spec)) v rows').
Proof.
  intros Hb Hr Hc Hs u. destruct (decide (u = v)) as [->|Hne]; [|rewrite lookup_alter_ne by done; apply Hb].
  right. exists n, c, spec. split_and!; [done..|]. rewrite lookup_alter_eq.
  destruct (Hb v) as [->|(n' & c' & spec' & Hr' & _ & _ & ->)]; [by rewrite Hr|by simplify_eq].
Qed.

(** What an action that ends in an error may have done to the record. *)
Definition untouched (d d' : MigDB X) (rows : gmap Z (string * string)) : Prop :=
  m_schema d' = m_schema d /\ exists rows', m_table d' = Some (MkMigTable true rows') /\ backfilled rows rows'.

Lemma untouched_here (d : MigDB X) rows : m_table d = Some (MkMigTable true rows) -> untouched d d rows.
Proof. intros Ht. split; [done|]. exists rows. split; [done|]. intros v. by left. Qed.

Context `{E : Env} `{U : UnicodeTables} `{Eng : SqlEngine X} `{BL : BackendLaws b}.
Implicit Types w : World (MigDB X).

Lemma reconcile_foreign l w d rows :
  untouched d (w_db w) rows ->
  (forall row, row ∈ l -> rows !! ar_Version row = Some (ar_Name row, ar_Checksum row)) ->
  wp (for_each (reconcile_row b (by_version ups)) l) (fun r w' =>
    untouched d (w_db w') rows
    /\ match r with
       | Ok _ => Forall (fun row => ~ foreign (ar_Version row) (ar_Checksum row)) l
       | Err _ => True
       end) w.
Proof.
  revert w. induction l as [|row l IH]; intros w Hu Hl; [by apply wp_ret|].
  assert (forall row, row ∈ l -> rows !! ar_Version row = Some (ar_Name row, ar_Checksum row)) as Hl'
    by (intros row' ?; apply Hl; by right).
  assert (forall w', untouched d (w_db w') rows -> ~ foreign (ar_Version row) (ar_Checksum row) ->
    wp (ys ← for_each (reconcile_row b (by_version ups)) l; mret (tt :: ys)) (fun r w' =>
      untouched d (w_db w') rows
      /\ match r with Ok _ => Forall (fun row => ~ foreign (ar_Version row) (ar_Checksum row)) (row :: l) | Err _ => True end) w') as Hnext.
  { intros w' Hw' Hf. apply wp_bind. eapply wp_mono; [by apply IH|]. intros [?|?] w'' [? ?]; [|done].
    apply wp_ret. split; [done|by constructor]. }
  cbn [for_each]. apply wp_bind. unfold reconcile_row. unfold foreign in Hnext at 1.
  destruct (by_version ups !! ar_Version row) as [spec|] eqn:Hs; [|by apply wp_fail]. case_decide as Hblank.
  - apply wp_wrap, wp_db_exec; [by intros|]. intros _. destruct Hu as (Hsch & rows' & Ht & Hb).
    unfold update_checksum, change_rows, on_table. rewrite Ht. cbn [t_checksum t_rows result_map]. apply Hnext; [|by intros [? _]].
    split; [done|]. eexists. split; [done|]. eapply backfilled_step; eauto. apply Hl. left.
  - destruct (b_accepts b _ _ _) eqn:Ha; [|by apply wp_fail]. apply wp_ret. apply Hnext; [done|]. by intros [_ ?].
Qed.

Lemma ensure_keeps w rows :
  m_table (w_db w) = Some (MkMigTable true rows) ->
  wp (ensureMigrationTable b) (fun _ w' => w_db w' = w_db w) w.
Proof.
  intros Ht. unfold ensureMigrationTable. apply wp_bind, wp_wrap, wp_db_exec; [done|]. intros _.
  cbn [create_table]. rewrite Ht. apply wp_bind, wp_try, wp_db_exec; cbn [tick set_db w_db w_call]; intros.
  - by destruct (b_ignores b _).
  - destruct (has_column (b := b) X _ _ Ht) as [-> | (e & -> & He)]; [by apply wp_ret|]. rewrite He. by apply wp_ret.
Qed.
End Foreign.

(** C28: A database whose record has a migration the files lack, or one whose
    checksum is neither blank nor accepted for its file, is not touched: every
    action (validate, migrate, roll back, to any version) returns an error,
    whichever calls fail, the schema stays as it is, and of the record only
    blank checksums may have been filled in. *)
Theorem foreign_record_refused `{U : UnicodeTables} {X : Type} `{Eng : SqlEngine X} (b : Backend) `{BL : BackendLaws b}
    (files : list (string * string)) (ups : list Spec) (E : Env) (w : World (MigDB X))
    (rows : gmap Z (string * string)) (v : Z) (n c action : string) (requested : Z) :
  Load files (b_name b) DirectionUp = Ok ups ->
  m_table (w_db w) = Some (MkMigTable true rows) -> rows !! v = Some (n, c) -> foreign b ups v c ->
  exists e w', runSchemaAction b files action requested w = (Err e, w') /\ untouched ups (w_db w) (w_db w') rows.
Proof.
  intros Hup Ht Hv Hf.
  assert (wp (runSchemaAction b files action requested) (fun r w' =>
    (exists e, r = Err e) /\ untouched ups (w_db w) (w_db w') rows) w) as H.
  { pose proof (untouched_here ups _ _ Ht) as Hu. unfold runSchemaAction. fold (action_of action). set (act := action_of action).
    case_decide; [apply wp_fail; eauto|].
    apply wp_bind. eapply wp_mono; [by eapply ensure_keeps|]. intros [?|?] w1 E1; [|rewrite E1; eauto].
    apply wp_bind. unfold load at 1. rewrite Hup. apply wp_ret. apply wp_bind. unfold load.
    destruct (Load files (b_name b) DirectionDown); [apply wp_ret|apply wp_fail; rewrite E1; eauto]. cbn zeta.
    apply wp_bind. eapply wp_mono; [apply load_rows|]. intros [l|?] w2 [E2 Hl]; rewrite E1 in E2; [|rewrite E2; eauto].
    destruct Hl as (rows' & Ht' & ->). rewrite E1, Ht in Ht'. injection Ht' as <-. apply wp_bind. unfold reconcileAppliedChecksums. apply wp_bind.
    eapply wp_mono; [apply (reconcile_foreign b ups _ _ (w_db w) rows); [by rewrite E2|]|].
    - intros [u m k] Hr%rows_in_order_row. done.
    - intros [?|?] w3 [H3 Hall]; [|eauto]. rewrite Forall_forall in Hall.
      destruct (Hall (MkAppliedRow v n c)); [by apply rows_in_order_row|done]. }
  destruct (runSchemaAction b files action requested w) as [r w'] eqn:Hrun.
  destruct (wp_run _ _ _ _ _ H Hrun) as [[e ->] Hu]. by exists e, w'.
Qed.

(** The first migration recorded with another file's checksum. *)
Definition demo_tampered : World (MigDB (list string)) :=
  start (MkMigDB (Some (MkMigTable true {[1 := ("base", "0badc0de")]})) ["a"])%string.

Lemma foreign_record_refused_witness :
  exists e w', runSchemaAction (E := quiet) postgres demo_files "migrate" 2 demo_tampered = (Err e, w')
    /\ untouched (demo_specs DirectionUp) (w_db demo_tampered) (w_db w') {[1 := ("base", "0badc0de")]}%string.
Proof.
  refine (foreign_record_refused postgres demo_files (demo_specs DirectionUp) quiet demo_tampered
    {[1 := ("base", "0badc0de")]}%string 1 "base" "0badc0de" "migrate" 2 demo_up eq_refl eq_refl _).
  vm_compute. split; [discriminate|reflexivity].
Defined.

(** ** Validation *)

Lemma by_version_elem specs v spec : by_version specs !! v = Some spec -> spec ∈ specs /\ s_Version spec = v.
Proof.
  induction specs as [|s specs IH] using rev_ind; [done|]. unfold by_version. rewrite foldl_app. cbn.
  intros [[<- <-]|[Hne H]]%lookup_insert_Some.
  - split; [apply elem_of_app; right; by apply list_elem_of_singleton|done].
  - apply IH in H as [? ?]. split; [apply elem_of_app; by left|done].
Qed.

Lemma max_version_lt (rows : gmap Z (string * string)) m :
  0 < m -> (forall v r, rows !! v = Some r -> v < m) -> max_version rows < m.
Proof.
  intros Hm Hr. unfold max_version. pose proof (foldr_max (map_to_list rows)) as Hf.
  destruct (foldr _ None _) as [x|]; cbn; [|done]. destruct Hf as [Hin _].
  apply list_elem_of_fmap in Hin as ([v r] & -> & Hv%elem_of_map_to_list). by eapply Hr.
Qed.

(** The up migrations of SQLite that are built into the binary. *)
Definition sqlite_up_files : list string :=
  ["sqlite/0001_baseline.up.sql"; "sqlite/0002_namespace_columns_additive.up.sql"; "sqlite/0003_namespace_backfill.up.sql";
   "sqlite/0004_namespace_indexes.up.sql"; "sqlite/0005_namespace_constraints.up.sql";
   "sqlite/0006_rename_tables_tuple_to_agent.up.sql"]%string.

Lemma sqlite_up_versions file v : file ∈ sqlite_up_files -> file_version file = Some v -> v < SchemaMinCompatVersion.
Proof.
  intros Hf. assert (Forall (fun f => match file_version f with Some v => v < SchemaMinCompatVersion | None => True end) sqlite_up_files) as HF.
  { repeat constructor. }
  rewrite Forall_forall in HF. specialize (HF _ Hf). intros E. by rewrite E in HF.
Qed.

(** The migrations built in for SQLite end at version 6, and the binary
    accepts versions 16 and 17: validating a SQLite database returns an error
    whatever its state, also when every migration has been applied. *)
Theorem sqlite_never_validates `{U : UnicodeTables} {X : Type} `{Eng : SqlEngine X}
    (files : list (string * string)) (E : Env) (w : World (MigDB X)) (action : string) (requested : Z) :
  (forall f, f ∈ files -> glob_match BackendSQLite DirectionUp f.1 = true -> f.1 ∈ sqlite_up_files) ->
  action_of action = schemaActionValidate ->
  exists e w', runSchemaAction sqlite files action requested w = (Err e, w').
Proof.
  intros Hfiles Hact. assert (wp (runSchemaAction sqlite files action requested) (fun r _ => exists e, r = Err e) w) as H.
  { unfold runSchemaAction. fold (action_of action). rewrite Hact. case_decide; [apply wp_fail; eauto|].
    apply wp_bind. unfold wp at 1. destruct (ensureMigrationTable sqlite w) as [[?|?] w1]; [|eauto].
    apply wp_bind. unfold load. destruct (Load files (b_name sqlite) DirectionUp) as [ups|] eqn:Hup; [apply wp_ret|apply wp_fail; eauto].
    apply wp_bind. destruct (Load files (b_name sqlite) DirectionDown); [apply wp_ret|apply wp_fail; eauto]. cbn zeta.
    apply wp_bind. eapply wp_mono; [apply load_rows|]. intros [l|?] w2 [E2 Hl]; [|eauto].
    destruct Hl as (rows & Ht & ->). rewrite <- E2 in Ht.
    apply wp_bind. unfold reconcileAppliedChecksums. apply wp_bind.
    eapply wp_mono; [apply (reconcile_foreign sqlite ups _ _ (w_db w2) rows); [by apply untouched_here|]|].
    { intros [u m k] Hr%rows_in_order_row. done. }
    intros [?|?] w3 [(_ & rows' & Ht' & Hb) Hall]; [apply wp_ret|eauto].
    assert (max_version rows' < SchemaMinCompatVersion) as Hmax.
    { apply max_version_lt; [done|]. intros v r Hv. assert (exists n c, rows !! v = Some (n, c)) as (n & c & Hr).
      { destruct (Hb v) as [Hbv|(n & c & _ & Hbv & _)]; [rewrite Hbv in Hv; destruct r|]; eauto. }
      rewrite Forall_forall in Hall. specialize (Hall (MkAppliedRow v n c)). unfold foreign in Hall. cbn in Hall.
      destruct (by_version ups !! v) as [spec|] eqn:Hs; [|by destruct Hall; [apply rows_in_order_row|]].
      apply by_version_elem in Hs as [Hs <-]. destruct (Load_parses _ _ _ _ _ Hup Hs) as ([file raw] & Hin & Hg & Hp).
      apply parse_file_spec in Hp as [_ Hp]. by eapply sqlite_up_versions; [apply Hfiles|]. }
    assert (forall Q, (forall msg, Q (Err (EWrap "query current migration version" (EDB msg))) (tick w3)) ->
      Q (Ok (max_version rows')) (tick w3) -> wp currentVersion Q w3) as Hcur.
    { intros Q H1 H2. apply wp_wrap, wp_db_read; [eauto|]. intros _. unfold select_max_version. by rewrite Ht'. }
    apply wp_bind, Hcur; [eauto|]. apply wp_bind. unfold perform. rewrite !decide_False by done. apply wp_ret.
    apply wp_bind, wp_wrap, wp_db_read; [eauto|]. intros _. unfold select_max_version. cbn [tick w_db]. rewrite Ht'. cbn [t_rows].
    rewrite decide_True; [apply wp_fail; eauto|]. split; [done|]. apply bool_decide_false. lia. }
  destruct (runSchemaAction sqlite files action requested w) as [r w'] eqn:Hrun.
  destruct (wp_run _ _ _ _ _ H Hrun) as [e ->]. by exists e, w'.
Qed.

(** A database with all six recorded. *)
Definition demo_sqlite_files : list (string * string) := (fun f => (f, "SELECT 1;"%string)) <$> sqlite_up_files.

Lemma sqlite_never_validates_witness :
  exists e w', runSchemaAction (E := quiet) sqlite demo_sqlite_files "validate" 0 demo_start = (Err e, w').
Proof.
  refine (sqlite_never_validates demo_sqlite_files quiet demo_start "validate" 0 _ eq_refl).
  intros f Hf _. apply list_elem_of_fmap in Hf as (g & -> & Hg). exact Hg.
Defined.
