(* ===== verification/SchemaRollback.v ===== *)
(** * Rolling back

    In an environment where no call fails: a rollback runs the texts of the
    down migrations from the newest on, takes one record with each, and stops
    at the first text that fails; what the texts do to the schema, and whether
    they undo what the up migrations did, is the files' matter.  A rollback to
    version 0 ends in an error at version 1, since the baseline's down
    migration drops the table its own record is in. *)

From S2P Require Import Prelude GoLib GoSort Agent Common Effects Sql Scenario ShardMap GoSha MigrationFiles SchemaActions SchemaProgress SchemaSafety.
From stdpp Require Import gmap strings list relations.
From Stdlib Require Import ZArith Lia Ascii.

Open Scope Z_scope.

(** What the texts do to the schema. *)
Fixpoint unwind {X} (undo : nat -> X -> result gerror X) (n v : nat) (x : X) : nat * X * option gerror :=
  match n with
  | O => (v, x, None)
  | S n => match undo v x with
           | Ok x' => unwind undo n (Nat.pred v) x'
           | Err e => (v, x, Some e)
           end
  end.

Section Down.
Context {X : Type} `{Eng : SqlEngine X} (b : Backend) (ups downs : list Spec).

(** The migrations up to version [k] are recorded, with their digests. *)
Definition recorded (k : nat) (d : MigDB X) : Prop :=
  exists rows, m_table d = Some (MkMigTable true rows) /\ known ups k rows /\ exact ups rows.

Definition at_version (k : nat) (x : X) (d : MigDB X) : Prop := m_schema d = x /\ recorded k d.

(** [undo v] is what the text of the down migration of version [v] does to a
    schema: from version 2 on it works on the schema and not on the record,
    also when it is cut short outside a transaction; the baseline's drops
    every table, [schema_migrations] included. *)
Definition downs_act (undo : nat -> X -> result gerror X) : Prop :=
  (forall k spec t x, downs !! S k = Some spec ->
     run_text (s_SQL spec) (MkMigDB (Some t) x) = result_map (MkMigDB (Some t)) (undo (S (S k)) x)
     /\ forall n, m_table (left_by n (s_SQL spec) (MkMigDB (Some t) x)) = Some t)
  /\ (forall spec, downs !! 0%nat = Some spec ->
       b_in_tx b spec = true /\ forall d, exists x, run_text (s_SQL spec) d = Ok (MkMigDB None x)).

Context (undo : nat -> X -> result gerror X).
Context (Hnum : numbered ups) (Hdnum : numbered downs) (Hact : downs_act undo).

Lemma known_delete k rows : known ups (S k) rows -> known ups k (delete (Z.of_nat k + 1) rows).
Proof.
  intros Hk v. specialize (Hk v). destruct (decide (v = Z.of_nat k + 1)) as [->|Hne].
  - rewrite lookup_delete_eq. destruct (checksums (take k ups) !! _) as [c|] eqn:Hc; [|done].
    apply (checksums_lookup _ Hnum) in Hc as (i & ? & ? & _ & ? & _). lia.
  - rewrite lookup_delete_ne by done. destruct (ups !! k) as [spec|] eqn:Hs.
    + rewrite (checksums_S _ Hnum _ _ Hs), lookup_insert_ne in Hk by (rewrite (Hnum _ _ Hs); done). done.
    + apply lookup_ge_None in Hs. by rewrite (take_ge ups (S k)), <- (take_ge ups k) in Hk by lia.
Qed.

Lemma recorded_delete k rows (x : X) :
  known ups (S k) rows -> exact ups rows ->
  recorded k (MkMigDB (Some (MkMigTable true (delete (Z.of_nat k + 1) rows))) x).
Proof.
  intros Hr He. eexists. split_and!; [done|by apply known_delete|].
  intros v n c [_ Hv]%lookup_delete_Some. by eapply He.
Qed.

(** In a transaction a text that fails leaves the schema as it was. *)
Definition stopped (k : nat) (x : X) (d : MigDB X) : Prop :=
  recorded k d /\ forall spec, downs !! Nat.pred k = Some spec -> b_in_tx b spec = true -> m_schema d = x.

Context `{E : Env} (HF : fault_free E).
Implicit Types w : World (MigDB X).

Lemma wp_call_ff {A} (m : M (MigDB X) A) Q w : wp m Q (tick w) -> wp (call m) Q w.
Proof. intros H. apply wp_call; [intros msg Hm; by rewrite HF in Hm|done]. Qed.

Lemma down_step k x spec w :
  at_version (S (S k)) x (w_db w) -> downs !! S k = Some spec ->
  wp (applyDownSpec b spec) (fun r w' => match undo (S (S k)) x with
    | Ok x' => r = Ok tt /\ at_version (S k) x' (w_db w')
    | Err e => r = Err e /\ stopped (S (S k)) x (w_db w')
    end) w.
Proof.
  intros (Hx & rows & Ht & Hr & He) Hs. destruct (w_db w) as [t y] eqn:Ew. cbn in Hx, Ht. subst t y.
  pose proof (fun y => proj1 Hact k spec (MkMigTable true rows) y Hs) as Hrun.
  pose proof (recorded_delete (S k) rows) as Hdel. rewrite <- (Hdnum _ _ Hs) in Hdel.
  unfold applyDownSpec, apply_spec. destruct (b_in_tx b spec) eqn:Htx.
  - assert (stopped (S (S k)) x (w_db w)) as Hstop by (rewrite Ew; split; [by exists rows|done]).
    apply wp_with_tx; [intros msg Hm; by rewrite HF in Hm|intros _].
    apply wp_bind, wp_call_ff. unfold wp at 1. cbn. rewrite Ew. unfold exec_text. rewrite (proj1 (Hrun x)).
    destruct (undo (S (S k)) x) as [x'|e]; cbn; [|done].
    apply wp_bind, wp_call_ff. unfold wp at 1. cbn. apply wp_call_ff. unfold wp. cbn. split; [done|]. split; [done|by apply Hdel].
  - apply wp_bind, wp_db_exec_text; rewrite Ew.
    + rewrite (proj1 (Hrun x)). intros e [Hn|He']; [by destruct Hn|].
      destruct (undo (S (S k)) x) as [x'|e'] eqn:Hu; cbn in He'; [done|]. injection He' as ->. split; [done|]. split.
      * exists rows. split_and!; [|done..]. apply (Hrun x).
      * intros sp Hsp Hn. cbn in Hsp. rewrite Hs in Hsp. injection Hsp as <-. congruence.
    + rewrite (proj1 (Hrun x)). intros d Hd. destruct (undo (S (S k)) x) as [x'|e'] eqn:Hu; cbn in Hd; [|done]. injection Hd as <-.
      apply wp_call_ff. unfold wp. cbn. split; [done|]. split; [done|by apply Hdel].
Qed.

(** The baseline's record cannot be removed after its table. *)
Lemma baseline_step x spec w :
  at_version 1 x (w_db w) -> downs !! 0%nat = Some spec ->
  wp (applyDownSpec b spec) (fun r w' => (exists e, r = Err e) /\ at_version 1 x (w_db w')) w.
Proof.
  intros Hw Hs. unfold applyDownSpec, apply_spec.
  destruct (proj2 Hact spec Hs) as [-> Hrun].
  apply wp_with_tx; [intros msg Hm; by rewrite HF in Hm|intros _].
  apply wp_bind, wp_call_ff. unfold wp at 1. cbn. unfold exec_text. destruct (Hrun (w_db w)) as [y ->]. cbn.
  apply wp_bind, wp_call_ff. unfold wp. cbn. eauto.
Qed.

(** What the loop leaves, after [n] steps down from version [S j + n]. *)
Definition unwound (n j : nat) (x : X) (r : result gerror (list AppliedStep)) (d : MigDB X) : Prop :=
  match unwind undo n (S j + n) x with
  | (v, x', None) =>
      r = Ok (step_of DirectionDown <$> reverse (take n (drop (S j) downs))) /\ at_version (S j) x' d
  | (v, x', Some e) => (exists context, r = Err (EWrap context e)) /\ stopped v x' d
  end.

Lemma rollback_steps n j x w :
  (S j + n <= length downs)%nat -> at_version (S j + n) x (w_db w) ->
  wp (rollback_loop b (by_version (reverse downs)) n (Z.of_nat (S j + n))) (fun r w' => unwound n j x r (w_db w')) w.
Proof.
  unfold unwound. revert x w. induction n as [|n IH]; intros x w Hl Hw; cbn [rollback_loop unwind].
  { apply wp_ret. rewrite Nat.add_0_r in Hw. done. }
  destruct (lookup_lt_is_Some_2 downs (S j + n)) as [spec Hs]; [lia|].
  replace (Z.of_nat (S j + S n)) with (Z.of_nat (S j + n) + 1) by lia. rewrite (by_version_reverse _ _ _ Hdnum Hs).
  replace (S j + S n)%nat with (S (S (j + n))) in * by lia.
  apply wp_bind, wp_wrap. eapply wp_mono; [by eapply down_step|]. intros r w' Hw'.
  destruct (undo (S (S (j + n))) x) as [x'|e]; destruct Hw' as [-> Hw']; [|by split; [eexists|]].
  apply wp_bind. replace (Z.of_nat (S j + n) + 1 - 1) with (Z.of_nat (S j + n)) by lia.
  eapply wp_mono; [apply (IH x'); [lia|exact Hw']|]. cbn [Nat.pred]. change (S j + n)%nat with (S (j + n)).
  intros r w'' Hw''. destruct (unwind undo n (S (j + n)) x') as [[v y] [e|]].
  - destruct Hw'' as [[c ->] Hst]. by split; [eexists|].
  - destruct Hw'' as [-> Hat]. apply wp_ret. split; [|done]. do 2 f_equal.
    rewrite (take_S_r _ _ spec) by (by rewrite lookup_drop). rewrite reverse_app. done.
Qed.

Lemma rollback_to_zero n x w :
  (S n <= length downs)%nat -> at_version (S n) x (w_db w) ->
  wp (rollback_loop b (by_version (reverse downs)) (S n) (Z.of_nat (S n))) (fun r w' =>
    (exists e, r = Err e) /\ match unwind undo n (S n) x with
      | (v, x', None) => at_version 1 x' (w_db w')
      | (v, x', Some _) => stopped v x' (w_db w')
      end) w.
Proof.
  revert x w. induction n as [|n IH]; intros x w Hl Hw.
  - cbn [rollback_loop unwind]. destruct (lookup_lt_is_Some_2 downs 0) as [spec Hs]; [lia|].
    rewrite (by_version_reverse _ 0 spec Hdnum Hs : by_version (reverse downs) !! Z.of_nat 1 = Some spec). apply wp_bind, wp_wrap.
    eapply wp_mono; [by eapply baseline_step|]. intros ? w' [[e ->] Hw']. eauto.
  - destruct (lookup_lt_is_Some_2 downs (S n)) as [spec Hs]; [lia|].
    remember (S n) as m eqn:Em. cbn [rollback_loop unwind].
    replace (Z.of_nat (S m)) with (Z.of_nat m + 1) by lia. rewrite (by_version_reverse _ _ _ Hdnum Hs). subst m.
    apply wp_bind, wp_wrap. eapply wp_mono; [by eapply down_step|]. intros r w' Hw'. cbn [unwind].
    destruct (undo (S (S n)) x) as [x'|e]; destruct Hw' as [-> Hw']; [|by split; [eexists|]].
    apply wp_bind. replace (Z.of_nat (S n) + 1 - 1) with (Z.of_nat (S n)) by lia.
    eapply wp_mono; [apply (IH x'); [lia|done]|]. intros ? w'' [[e ->] Hw'']. cbn [Nat.pred]. eauto.
Qed.

Context `{BL : BackendLaws b} (Hplain : checksums_plain ups) (files : list (string * string)).
Context `{U : UnicodeTables} (Hup : Load files (b_name b) DirectionUp = Ok ups)
        (Hdown : Load files (b_name b) DirectionDown = Ok (reverse downs)).

(** Up to the [switch] the schema is left as it is: seen from this schema
    alone, every version has it. *)
Lemma rollback_run k x w requested Q :
  (k <= length ups)%nat -> at_version k x (w_db w) -> 0 <= requested <= Z.of_nat k ->
  (forall w1, at_version k x (w_db w1) ->
    wp (rollback_loop b (by_version (reverse downs)) (Z.to_nat (Z.of_nat k - requested)) (Z.of_nat k)) (fun r w2 => match r with
      | Ok steps => exists j, (j <= length ups)%nat /\ recorded j (w_db w2)
          /\ forall w3, w_db w3 = w_db w2 -> Q (Ok (MkResult (b_name b) schemaActionRollback requested (Z.of_nat k) (Z.of_nat j)
                SchemaTargetVersion SchemaMinCompatVersion (SchemaMinCompatVersion, SchemaTargetVersion)
                (compatible (Z.of_nat j)) [] steps)) w3
      | Err e => Q (Err e) w2
      end) w1) ->
  wp (runSchemaAction b files "rollback" requested) Q w.
Proof.
  intros Hk (Hx & rows & Ht & Hr & He) Hreq Hloop.
  assert (action_of "rollback" = schemaActionRollback) as Hn by reflexivity.
  apply (run_rule b ups (fun _ y => y = x) (fun _ _ => False) Hnum Hplain files (reverse downs) Hup Hdown k).
  { split_and!; [done|by left|]. by rewrite Ht. }
  { rewrite Hn. auto. }
  { by intros. }
  rewrite Hn. intros w1 (_ & Hs1 & rows1 & Ht1 & Hr1 & He1).
  assert (at_version k x (w_db w1)) as Hat.
  { split; [by destruct Hs1 as [->|(_ & _ & _ & [])]|by exists rows1]. }
  unfold perform. rewrite decide_False by done. rewrite decide_True by done. rewrite !decide_False by lia.
  apply wp_bind. eapply wp_mono; [by apply Hloop|]. intros [steps|e] w2 H2; [|done]. apply wp_ret.
  destruct H2 as (j & Hj & (rows2 & Ed2 & Hr2 & He2) & HQ). exists j. split_and!; [|by intros|].
  - split; [done|]. by exists rows2.
  - intros w3 E3. rewrite decide_False by (by intros [? _]). by apply HQ.
Qed.

Lemma rollback_reaches k j x w :
  length downs = length ups -> (S j <= k <= length ups)%nat -> at_version k x (w_db w) ->
  wp (runSchemaAction b files "rollback" (Z.of_nat (S j))) (fun r w' =>
    match unwind undo (k - S j) k x with
    | (v, x', None) => exists res, r = Ok res /\ r_PreviousVersion res = Z.of_nat k /\ r_CurrentVersion res = Z.of_nat (S j)
        /\ r_RolledBack res = step_of DirectionDown <$> reverse (take (k - S j) (drop (S j) downs))
        /\ at_version (S j) x' (w_db w')
    | (v, x', Some e) => (exists context, r = Err (EWrap context e)) /\ stopped v x' (w_db w')
    end) w.
Proof.
  intros Hlen Hj Hw. eapply rollback_run; [apply Hj|exact Hw|lia|]. intros w' Hw'.
  remember (k - S j)%nat as m eqn:Em. assert (k = (S j + m)%nat) as -> by lia.
  replace (Z.to_nat (Z.of_nat (S j + m) - Z.of_nat (S j))) with m by lia.
  eapply wp_mono; [apply (rollback_steps m j x); [lia|done]|]. unfold unwound. intros r w2 H2.
  destruct (unwind undo m (S j + m) x) as [[v x'] [e|]].
  - destruct H2 as [[c ->] Hst]. eauto.
  - destruct H2 as [-> Hat]. exists (S j). split_and!; [lia|apply Hat|].
    intros w3 E3. eexists. split_and!; [done|done|done|done|by rewrite E3].
Qed.

Lemma rollback_fails k x w :
  length downs = length ups -> (1 <= k <= length ups)%nat -> at_version k x (w_db w) ->
  wp (runSchemaAction b files "rollback" 0) (fun r w' =>
    (exists e, r = Err e) /\ match unwind undo (k - 1) k x with
      | (v, x', None) => at_version 1 x' (w_db w')
      | (v, x', Some _) => stopped v x' (w_db w')
      end) w.
Proof.
  intros Hlen H1 Hw. eapply rollback_run; [apply H1|exact Hw|lia|]. intros w' Hw'. rewrite Z.sub_0_r, Nat2Z.id.
  destruct k as [|n]; [lia|]. replace (S n - 1)%nat with n by lia.
  eapply wp_mono; [apply (rollback_to_zero n x); [lia|done]|]. intros ? w2 [[e ->] H2]. eauto.
Qed.
End Down.

(** C29: When no call fails, and whatever the down migrations make of the
    schema (they need not undo the up migrations; from version 2 on they leave
    the record to the code): rolling a database at version [k] back to a
    version [j] of at least 1 runs the down migrations of versions [k] to
    [j + 1] in this order, each once.  If all of them run, the action succeeds
    and names them, the database is at version [j] with exactly the first [j]
    migrations recorded, and its schema is what the texts made of it.  If one
    fails, the action returns its error, and the record ends with the version
    whose down migration failed; in a transaction that one left the schema as
    it was.  A rollback to version 0 always returns an error, since the
    baseline's down migration drops the record's table: it ends at version 1,
    if the migrations above it could be rolled back. *)
Theorem rollback_runs_downs `{U : UnicodeTables} {X : Type} `{Eng : SqlEngine X} (b : Backend) `{BL : BackendLaws b}
    (files : list (string * string)) (ups downs : list Spec) (undo : nat -> X -> result gerror X)
    (E : Env) (w : World (MigDB X)) (k j : nat) (x : X) :
  loaded b files ups (reverse downs) -> numbered downs -> length downs = length ups -> downs_act b downs undo ->
  (1 <= j <= k)%nat -> (k <= length ups)%nat -> at_version ups k x (w_db w) -> fault_free E ->
  (exists r w', runSchemaAction b files "rollback" (Z.of_nat j) w = (r, w')
     /\ match unwind undo (k - j) k x with
        | (v, x', None) => exists res, r = Ok res /\ r_PreviousVersion res = Z.of_nat k /\ r_CurrentVersion res = Z.of_nat j
            /\ r_RolledBack res = step_of DirectionDown <$> reverse (take (k - j) (drop j downs))
            /\ at_version ups j x' (w_db w')
        | (v, x', Some e) => (exists context, r = Err (EWrap context e)) /\ stopped b ups downs v x' (w_db w')
        end)
  /\ exists e w', runSchemaAction b files "rollback" 0 w = (Err e, w')
     /\ match unwind undo (k - 1) k x with
        | (v, x', None) => at_version ups 1 x' (w_db w')
        | (v, x', Some _) => stopped b ups downs v x' (w_db w')
        end.
Proof.
  intros Hl Hdn Hlen Hact Hj Hk Hw HF. pose proof (loaded_plain _ _ _ _ Hl) as Hp. destruct Hl as (Hup & Hdown & Hn). split.
  - destruct j as [|j]; [lia|]. destruct (runSchemaAction b files "rollback" (Z.of_nat (S j)) w) as [r w'] eqn:Hrun.
    exists r, w'. split; [done|].
    exact (wp_run _ _ _ _ _ (rollback_reaches b ups downs undo Hn Hdn Hact HF Hp files Hup Hdown k j x w Hlen ltac:(lia) Hw) Hrun).
  - destruct (runSchemaAction b files "rollback" 0 w) as [r w'] eqn:Hrun.
    destruct (wp_run _ _ _ _ _ (rollback_fails b ups downs undo Hn Hdn Hact HF Hp files Hup Hdown k x w Hlen ltac:(lia) Hw) Hrun)
      as [[e ->] Hat]. by exists e, w'.
Qed.

(** The demonstration's index is dropped, valid or not. *)
Definition demo_undo (v : nat) (x : list string) : result gerror (list string) :=
  Ok (filter (fun y => y <> "i"%string) x).

Lemma demo_downs_act : downs_act postgres demo_downs demo_undo.
Proof.
  split.
  - intros [|k] spec t x H; vm_compute in H; [injection H as <-|discriminate H]. split; [reflexivity|intros n; reflexivity].
  - intros spec H. vm_compute in H. injection H as <-. split; [reflexivity|]. intros d. by eexists.
Qed.

Lemma numbered_rows ups k :
  numbered ups -> (k <= length ups)%nat -> known ups k (demo_rows (take k ups)) /\ exact ups (demo_rows (take k ups)).
Proof.
  intros Hn. induction k as [|k IH]; intros Hk.
  - split; [apply known_0|]. intros v n c Hv. cbn in Hv. discriminate Hv.
  - destruct IH as [IHk IHe]; [lia|]. destruct (lookup_lt_is_Some_2 ups k) as [spec Hs]; [lia|].
    rewrite (take_S_r _ _ _ Hs). unfold demo_rows. rewrite foldl_app. cbn [foldl].
    destruct (ready_next postgres ups (fun _ _ => True) (fun _ _ => True) Hn k _ spec (s_Name spec) tt Hs IHk IHe I)
      as (_ & _ & rows & [= <-] & ? & ?). done.
Qed.

Lemma demo_full_at : at_version (demo_specs DirectionUp) 2 ["a"; "i"]%string (w_db demo_full).
Proof.
  destruct (numbered_rows (demo_specs DirectionUp) (length (demo_specs DirectionUp)) demo_up_numbered) as [Hk He]; [done|].
  rewrite take_ge in Hk, He by done. split; [reflexivity|]. exists (demo_rows (demo_specs DirectionUp)). done.
Qed.

Lemma rollback_runs_downs_witness :
  (exists res w', runSchemaAction (E := quiet) postgres demo_files "rollback" 1 demo_full = (Ok res, w')
     /\ r_CurrentVersion res = 1 /\ r_RolledBack res = step_of DirectionDown <$> reverse (drop 1 demo_downs)
     /\ at_version (demo_specs DirectionUp) 1 ["a"]%string (w_db w'))
  /\ exists e w', runSchemaAction (E := quiet) postgres demo_files "rollback" 0 demo_full = (Err e, w')
       /\ at_version (demo_specs DirectionUp) 1 ["a"]%string (w_db w').
Proof.
  destruct (rollback_runs_downs postgres demo_files (demo_specs DirectionUp) demo_downs demo_undo quiet demo_full 2 1 ["a"; "i"]%string
    demo_loaded demo_downs_numbered ltac:(vm_compute; reflexivity) demo_downs_act ltac:(lia) ltac:(vm_compute; lia) demo_full_at
    quiet_fault_free) as [(r & w' & Hrun & H) (e & w'' & Hrun' & H')].
  change (unwind demo_undo (2 - 1) 2 ["a"; "i"]%string) with (1%nat, ["a"]%string, @None gerror) in H, H'. cbn iota in H, H'.
  destruct H as (res & -> & _ & H1 & H2 & H3). split; [exists res, w'|exists e, w'']; split_and!; assumption.
Defined.

(** ** Schema actions of the sharded store

    [src/pkg/store/postgressharded/schema.go]: the action of the Postgres
    store on one shard after the other, stopping at the first error.  The
    databases are kept by their DSN (shards may share one); a DSN that cannot
    be parsed or reached has none.*)


Record SchemaActionResult : Type := MkSchemaActionResult {
  sr_Backend : string;
  sr_Version : Z;
  sr_Epoch : Z;
  sr_Compatible : bool;
  sr_ShardResults : gmap string Result;
}.

Section Sharded.
Context (envs : string -> Env) `{U : UnicodeTables} {X : Type} `{Eng : SqlEngine X} (files : list (string * string)).
Local Notation Worlds := (gmap string (World (MigDB X))).

(** [postgresbackend.ExecuteSchemaAction] at the DSN of a shard. *)
Definition execute_at (dsn action : string) (requestedVersion : Z) (ws : Worlds) : result gerror Result * Worlds :=
  match ws !! dsn with
  | None => (Err (EMessage "failed to create postgres pool"), ws)
  | Some w => let '(r, w) := runSchemaActionWithPool (E := envs dsn) files action requestedVersion w in (r, <[dsn := w]> ws)
  end.

Fixpoint execute_shards (action : string) (requestedVersion : Z) (shards : list ShardSpec)
    (acc : SchemaActionResult) (ws : Worlds) : result gerror SchemaActionResult * Worlds :=
  match shards with
  | [] => (Ok acc, ws)
  | shard :: shards =>
      match execute_at (sp_WriterDSN shard) action requestedVersion ws with
      | (Err e, ws) => (Err (EWrap ("shard " +:+ sp_ShardID shard +:+ " " +:+ action +:+ " failed") e), ws)
      | (Ok shardResult, ws) =>
          execute_shards action requestedVersion shards
            (MkSchemaActionResult (sr_Backend acc) (sr_Version acc) (sr_Epoch acc)
               (if r_Compatible shardResult then sr_Compatible acc else false)
               (<[sp_ShardID shard := shardResult]> (sr_ShardResults acc))) ws
      end
  end.

Definition sharded_ExecuteSchemaAction (shardMap : ShardMap) (action : string) (requestedVersion : Z) (ws : Worlds)
  : result gerror SchemaActionResult * Worlds :=
  match normalize shardMap with
  | Err _ => (Err (EMessage "invalid shard map"), ws)
  | Ok m => execute_shards action requestedVersion (sm_Shards m)
              (MkSchemaActionResult "postgres-sharded" (sm_Version m) (sm_Epoch m) true ∅) ws
  end.

(** ** Every database stays on its way *)

Context (ups downs : list Spec) (stage begun : string -> nat -> X -> Prop).
Context (Hl : loaded postgres files ups downs) (Ht : forall dsn, texts_run postgres ups (stage dsn) (begun dsn)).

Definition all_on_way (ws : Worlds) : Prop :=
  forall dsn w, ws !! dsn = Some w -> exists k, on_way postgres ups (stage dsn) (begun dsn) k (w_db w).

Definition migrated (dsn : string) (ws : Worlds) : Prop :=
  exists w rows x, ws !! dsn = Some w
    /\ w_db w = MkMigDB (Some (MkMigTable true rows)) x /\ stage dsn (length ups) x /\ snd <$> rows = checksums ups.

Lemma execute_at_way dsn action requested ws r ws' :
  all_on_way ws -> action_of action <> schemaActionRollback ->
  execute_at dsn action requested ws = (r, ws') ->
  all_on_way ws' /\ dom ws' = dom ws /\ (forall d, d <> dsn -> ws' !! d = ws !! d)
  /\ (to_the_end ups (action_of action) requested -> fault_free (envs dsn) -> dsn ∈ dom ws ->
      migrated dsn ws' /\ exists res, r = Ok res /\ r_CurrentVersion res = Z.of_nat (length ups)
                                     /\ r_Compatible res = compatible (Z.of_nat (length ups))).
Proof.
  intros Hw Hact. unfold execute_at. destruct (ws !! dsn) as [w|] eqn:Hd.
  2:{ intros [= <- <-]. split_and!; [done..|]. intros _ _ Hin. by apply elem_of_dom in Hin as [? ?]; congruence. }
  pose proof (loaded_plain _ _ _ _ Hl) as Hp. destruct Hl as (Hup & Hdown & Hn). destruct (Hw _ _ Hd) as [k Hk].
  unfold runSchemaActionWithPool. destruct (runSchemaAction postgres files action requested w) as [r' w'] eqn:Hrun.
  intros [= <- <-].
  destruct (wp_run _ _ _ _ _ (run_way postgres ups (stage dsn) (begun dsn) Hn Hp (Ht dsn) files downs Hup Hdown k w action requested Hk Hact) Hrun)
    as [Hway Hfin].
  split_and!.
  - intros d w2 [[<- <-]|[Hne H2]]%lookup_insert_Some; [done|by apply (Hw d)].
  - rewrite dom_insert_L. apply elem_of_dom_2 in Hd. set_solver.
  - intros d Hne. by rewrite lookup_insert_ne.
  - intros Hend HF _. destruct (Hfin Hend HF) as (res & rows & x & -> & _ & Hc & Hcomp & _ & Hdb & Hx & Hrows). split.
    + exists w', rows, x. by rewrite lookup_insert_eq.
    + exists res. done.
Qed.

Lemma execute_shards_way action requested shards acc ws r ws' :
  all_on_way ws -> action_of action <> schemaActionRollback ->
  execute_shards action requested shards acc ws = (r, ws') ->
  all_on_way ws' /\ dom ws' = dom ws
  /\ (to_the_end ups (action_of action) requested ->
      (forall sp, sp ∈ shards -> fault_free (envs (sp_WriterDSN sp)) /\ sp_WriterDSN sp ∈ dom ws) ->
      (forall dsn, migrated dsn ws -> migrated dsn ws')
      /\ (forall sp, sp ∈ shards -> migrated (sp_WriterDSN sp) ws')
      /\ exists res, r = Ok res
          /\ dom (sr_ShardResults res) = list_to_set (sp_ShardID <$> shards) ∪ dom (sr_ShardResults acc)
          /\ (compatible (Z.of_nat (length ups)) = true -> sr_Compatible res = sr_Compatible acc)).
Proof.
  revert acc ws. induction shards as [|sp shards IH]; intros acc ws Hw Hact Hrun; cbn [execute_shards] in Hrun.
  { injection Hrun as <- <-. split_and!; [done..|]. intros _ _. split_and!; [done|set_solver|]. exists acc. set_solver. }
  destruct (execute_at _ action requested ws) as [r1 ws1] eqn:Hat.
  destruct (execute_at_way _ _ _ _ _ _ Hw Hact Hat) as (Hw1 & Hdom & Hother & Hend).
  destruct r1 as [shardResult|e].
  2:{ injection Hrun as <- <-. split_and!; [done..|]. intros Hto Hall.
      destruct (Hall sp) as [HF Hin]; [left|]. destruct (Hend Hto HF Hin) as (_ & res & [=] & _). }
  destruct (IH _ _ Hw1 Hact Hrun) as (Hw2 & Hdom2 & Hend2). split_and!; [done|congruence|]. intros Hto Hall.
  destruct (Hall sp) as [HF Hin]; [left|]. destruct (Hend Hto HF Hin) as (Hmig & res1 & [= <-] & _ & Hcomp).
  destruct (Hend2 Hto) as (Hkeep & Hrest & res & -> & Hd & Hc).
  { rewrite Hdom. intros sp' Hsp'. apply Hall. by right. }
  split_and!.
  - intros dsn Hm. apply Hkeep. destruct (decide (dsn = sp_WriterDSN sp)) as [->|Hne]; [done|].
    destruct Hm as (w & rows & x & Hl' & Hm). exists w, rows, x. by rewrite (Hother _ Hne).
  - intros sp' [->|Hsp']%elem_of_cons; [by apply Hkeep|by apply Hrest].
  - exists res. split_and!; [done| |].
    + rewrite Hd. cbn [sr_ShardResults]. rewrite dom_insert_L. cbn. set_solver.
    + intros Hcc. rewrite (Hc Hcc). cbn. by rewrite Hcomp, Hcc.
Qed.
End Sharded.

(** The schema action of the sharded store, for shards whose databases
    are each on their way through the migrations (several shards may share a
    database): whatever fails, every database stays on its way, and none is
    added or lost; when nothing fails and every database can be reached,
    migrate brings all of them to the newest version, reports on every shard,
    and reports them compatible when that version is. *)
Theorem sharded_migration `{U : UnicodeTables} {X : Type} `{Eng : SqlEngine X} (envs : string -> Env)
    (files : list (string * string)) (ups downs : list Spec) (stage begun : string -> nat -> X -> Prop)
    (shardMap m : ShardMap) (action : string) (requested : Z) (ws ws' : gmap string (World (MigDB X)))
    (r : result gerror SchemaActionResult) :
  loaded postgres files ups downs -> (forall dsn, texts_run postgres ups (stage dsn) (begun dsn)) ->
  all_on_way ups stage begun ws -> normalize shardMap = Ok m -> action_of action <> schemaActionRollback ->
  sharded_ExecuteSchemaAction envs files shardMap action requested ws = (r, ws') ->
  all_on_way ups stage begun ws' /\ dom ws' = dom ws
  /\ (to_the_end ups (action_of action) requested ->
      (forall sp, sp ∈ sm_Shards m -> fault_free (envs (sp_WriterDSN sp)) /\ sp_WriterDSN sp ∈ dom ws) ->
      (forall sp, sp ∈ sm_Shards m -> migrated ups stage (sp_WriterDSN sp) ws')
      /\ exists res, r = Ok res /\ dom (sr_ShardResults res) = list_to_set (sp_ShardID <$> sm_Shards m)
          /\ (compatible (Z.of_nat (length ups)) = true -> sr_Compatible res = true)).
Proof.
  intros Hl Ht Hw Hm Hact. unfold sharded_ExecuteSchemaAction. rewrite Hm. intros Hrun.
  destruct (execute_shards_way envs files ups downs stage begun Hl Ht _ _ _ _ _ _ _ Hw Hact Hrun) as (Hw' & Hd & Hend).
  split_and!; [done..|]. intros Hto Hall. destruct (Hend Hto Hall) as (_ & Hmig & res & -> & Hdom & Hc).
  split; [done|]. exists res. split_and!; [done| |done]. rewrite Hdom. cbn. set_solver.
Qed.

(** Two shards, one of them cut short before. *)
Definition demo_map : ShardMap :=
  MkShardMap 1 0 [MkShardSpec "west" "pg://west" [] "" ""; MkShardSpec "east" "pg://east" [] "" ""]%string.
Definition demo_worlds : gmap string (World (MigDB (list string))) :=
  {["pg://east" := demo_start; "pg://west" := demo_cut]}%string.

Lemma demo_cut_on_way : exists k, on_way postgres (demo_specs DirectionUp) demo_stage demo_begun k (w_db demo_cut).
Proof.
  apply (attempts_on_way postgres demo_files _ _ demo_stage demo_begun 0 demo_start _ demo_loaded demo_texts_run demo_on_way).
  by apply rtc_once, demo_attempt.
Qed.

Definition demo_migrated (dsn : string) : Prop :=
  migrated (demo_specs DirectionUp) (fun _ => demo_stage) dsn
    (sharded_ExecuteSchemaAction (fun _ => quiet) demo_files demo_map "migrate" 0 demo_worlds).2.

Lemma demo_worlds_on_way : all_on_way (demo_specs DirectionUp) (fun _ => demo_stage) (fun _ => demo_begun) demo_worlds.
Proof.
  intros dsn w Hw. unfold demo_worlds in Hw.
  apply lookup_insert_Some in Hw as [[_ <-]|[_ [_ <-]%lookup_singleton_Some]].
  - exists 0%nat. apply demo_on_way.
  - apply demo_cut_on_way.
Qed.

Lemma sharded_migration_witness : demo_migrated "pg://west" /\ demo_migrated "pg://east".
Proof.
  assert (exists m, normalize demo_map = Ok m /\ sm_Shards m = reverse (sm_Shards demo_map)) as (m & Hm & Hs).
  { eexists. split; [vm_compute; reflexivity|reflexivity]. }
  assert (forall sp, sp ∈ sm_Shards m -> demo_migrated (sp_WriterDSN sp)) as H.
  { refine (proj1 (proj2 (proj2 (sharded_migration (fun _ => quiet) demo_files (demo_specs DirectionUp) (reverse demo_downs)
      (fun _ => demo_stage) (fun _ => demo_begun) demo_map m "migrate" 0 demo_worlds _ _ demo_loaded (fun _ => demo_texts_run) demo_worlds_on_way Hm _
      (surjective_pairing _))) _ _)).
    - discriminate.
    - split_and!; [reflexivity|lia|vm_compute; discriminate].
    - rewrite Hs. intros sp Hsp. split; [apply quiet_fault_free|]. cbn in Hsp. rewrite !elem_of_cons in Hsp.
      destruct Hsp as [->|[->|[]%elem_of_nil]]; unfold demo_worlds; set_solver. }
  rewrite Hs in H. split; [apply (H (MkShardSpec "west" "pg://west" [] "" ""))|apply (H (MkShardSpec "east" "pg://east" [] "" ""))];
    set_solver.
Defined.
