(* ===== verification/GoNet.v ===== *)
(** * Go's package net

    The parts of the standard library's packages [net] and [net/netip] the
    server reads client addresses with: [SplitHostPort], [ParseIP],
    [ParseCIDR] and [IPNet.Contains].  An address is its sixteen bytes. *)

From S2P Require Import Prelude GoLib.
From stdpp Require Import list strings.
From Stdlib Require Import ZArith Lia Ascii.

Open Scope Z_scope.

Module Net.

Notation colon := ":"%char.
Notation dot := "."%char.

(** ** Addresses *)

(** [parseIPv4Fields]: the octets read so far, and the octet being read with
    its number of digits. *)
Fixpoint ipv4_fields (l : list ascii) (fields : list Z) (val digits : Z) : option (list Z) :=
  match l with
  | [] => if decide (digits = 0 \/ length fields <> 3%nat) then None else Some (fields ++ [val])
  | c :: l =>
      match Strconv.digit_val c with
      | Some d =>
          if decide ((digits = 1 /\ val = 0) \/ 255 < val * 10 + d) then None
          else ipv4_fields l fields (val * 10 + d) (digits + 1)
      | None =>
          if decide (c = dot) then
            if decide (digits = 0 \/ length fields = 3%nat) then None
            else ipv4_fields l (fields ++ [val]) 0 0
          else None
      end
  end.

Definition parse_ipv4 (l : list ascii) : option (list Z) := ipv4_fields l [] 0 0.

Definition hex_val (c : ascii) : option Z :=
  let v := byte_val c in
  if decide (48 <= v <= 57) then Some (v - 48)
  else if decide (97 <= v <= 102) then Some (v - 87)
  else if decide (65 <= v <= 70) then Some (v - 55)
  else None.

(** The leading hexadecimal digits: their value, their number, the rest. *)
Fixpoint span_hex (l : list ascii) (acc count : Z) : Z * Z * list ascii :=
  match l with
  | c :: rest => match hex_val c with
                 | Some d => span_hex rest (acc * 16 + d) (count + 1)
                 | None => (acc, count, l)
                 end
  | [] => (acc, count, [])
  end.

(** The loop of [parseIPv6]: the bytes read so far, where the [::] stands,
    what is left.  Eight groups are enough. *)
Fixpoint ipv6_groups (fuel : nat) (l : list ascii) (ip : list Z) (ellipsis : option nat)
    : option (list Z * option nat * list ascii) :=
  match fuel with
  | O => Some (ip, ellipsis, l)
  | S fuel =>
      let '(acc, count, rest) := span_hex l 0 0 in
      if decide (count = 0 \/ 4 < count) then None
      else match rest with
      | "."%char :: _ =>
          if decide ((ellipsis = None /\ length ip <> 12%nat) \/ (12 < length ip)%nat) then None
          else match parse_ipv4 l with Some v4 => Some (ip ++ v4, ellipsis, []) | None => None end
      | _ =>
          let ip := ip ++ [acc / 256; acc mod 256] in
          match rest with
          | [] => Some (ip, ellipsis, [])
          | ":"%char :: [] => None
          | ":"%char :: ":"%char :: l =>
              match ellipsis, l with
              | Some _, _ => None
              | None, [] => Some (ip, Some (length ip), [])
              | None, _ => ipv6_groups fuel l ip (Some (length ip))
              end
          | ":"%char :: l => ipv6_groups fuel l ip ellipsis
          | _ => None
          end
      end
  end.

Definition parse_ipv6 (l : list ascii) : option (list Z) :=
  let '(l, ellipsis) := match l with ":"%char :: ":"%char :: l => (l, Some 0%nat) | _ => (l, None) end in
  let parsed := match ellipsis, l with
                | Some _, [] => Some ([], ellipsis, [])
                | _, _ => ipv6_groups 8 l [] ellipsis
                end in
  match parsed with
  | Some (ip, ellipsis, []) =>
      if decide (length ip < 16)%nat then
        match ellipsis with
        | Some n => Some (take n ip ++ replicate (16 - length ip) 0 ++ drop n ip)
        | None => None
        end
      else match ellipsis with Some _ => None | None => Some ip end
  | _ => None
  end.

Definition v4_prefix : list Z := replicate 10 0 ++ [255; 255].

(** [netip.ParseAddr] without a zone: the address and the bits of its
    family. *)
Fixpoint first_mark (l : list ascii) : option ascii :=
  match l with
  | [] => None
  | c :: l => if decide (c = dot \/ c = colon \/ c = "%"%char) then Some c else first_mark l
  end.

Definition ParseAddr (s : string) : option (list Z * Z) :=
  let l := bytes s in
  match first_mark l with
  | Some "."%char => match parse_ipv4 l with Some v4 => Some (v4_prefix ++ v4, 32) | None => None end
  | Some ":"%char =>
      if decide ("%"%char ∈ l) then None
      else match parse_ipv6 l with Some ip => Some (ip, 128) | None => None end
  | _ => None
  end.

Definition ParseIP (s : string) : option (list Z) := fst <$> ParseAddr s.

(** [IP.To4]: the last four bytes of an address of the version 4 range. *)
Definition To4 (ip : list Z) : option (list Z) :=
  if decide (take 12 ip = v4_prefix) then Some (drop 12 ip) else None.

(** ** Networks *)

(** [CIDRMask]. *)
Definition mask_byte (n : Z) : Z := if decide (n <= 0) then 0 else if decide (8 <= n) then 255 else 256 - 2 ^ (8 - n).
Definition CIDRMask (ones bits : Z) : list Z :=
  (fun i => mask_byte (ones - 8 * Z.of_nat i)) <$> seq 0 (Z.to_nat (bits / 8)).

Definition and_bytes (a m : list Z) : list Z := zip_with Z.land a m.

(** [ParseCIDR]: the network's number (four or sixteen bytes) and mask. *)
Definition ParseCIDR (s : string) : option (list Z * list Z) :=
  let '(addr, mask) := Strings.cut_bytes "/"%char (bytes s) in
  match mask, ParseAddr (of_bytes addr) with
  | Some mask, Some (ip, bits) =>
      match Strconv.digits mask with
      | Some n =>
          if decide (n <= bits) then
            let m := CIDRMask n bits in
            Some (and_bytes (if decide (bits = 32) then drop 12 ip else ip) m, m)
          else None
      | None => None
      end
  | _, _ => None
  end.

(** [IPNet.Contains], with [networkNumberAndMask]. *)
Definition contains (n : list Z * list Z) (ip : list Z) : bool :=
  let '(nn, m) := n in
  let '(nn, m) := if decide (length nn = 4%nat) then (nn, m)
                  else match To4 nn with Some v4 => (v4, drop 12 m) | None => (nn, m) end in
  let ip := default ip (To4 ip) in
  bool_decide (length ip = length nn) && bool_decide (and_bytes nn m = and_bytes ip m).

(** ** Hosts and ports *)

(** The bytes before and after the last colon. *)
Definition last_colon (l : list ascii) : option (list ascii * list ascii) :=
  match Strings.cut_bytes colon (rev l) with
  | (after, Some before) => Some (rev before, rev after)
  | (_, None) => None
  end.

(** [SplitHostPort]'s host, nothing on an error. *)
Definition SplitHost (s : string) : option string :=
  match last_colon (bytes s) with
  | None => None
  | Some (before, port) =>
      match before with
      | "["%char :: inner =>
          match rev inner with
          | "]"%char :: host =>
              if decide ("]"%char ∈ host \/ "["%char ∈ host \/ "["%char ∈ port \/ "]"%char ∈ port) then None
              else Some (of_bytes (rev host))
          | _ => None
          end
      | _ =>
          if decide (colon ∈ before \/ "["%char ∈ before \/ "["%char ∈ port \/ "]"%char ∈ before \/ "]"%char ∈ port)
          then None else Some (of_bytes before)
      end
  end.

End Net.

Example parse_v4 : Net.ParseIP "10.0.0.7" = Some (Net.v4_prefix ++ [10; 0; 0; 7]).
Proof. vm_compute. reflexivity. Qed.
Example parse_v4_zero : Net.ParseIP "10.0.0.07" = None.
Proof. vm_compute. reflexivity. Qed.
Example parse_v6 : Net.ParseIP "fe80::1:0" = Some ([254; 128] ++ replicate 10 0 ++ [0; 1; 0; 0]).
Proof. vm_compute. reflexivity. Qed.
Example parse_v6_mapped : Net.ParseIP "::ffff:10.0.0.7" = Net.ParseIP "10.0.0.7".
Proof. vm_compute. reflexivity. Qed.
Example parse_v6_full : Net.ParseIP "1:2:3:4:5:6:7:8:9" = None.
Proof. vm_compute. reflexivity. Qed.
Example cidr_contains :
  (fun n => (Net.contains n <$> Net.ParseIP "10.1.255.3", Net.contains n <$> Net.ParseIP "10.2.0.0")) <$> Net.ParseCIDR "10.0.0.0/15"
  = Some (Some true, Some false).
Proof. vm_compute. reflexivity. Qed.
Example split_host : Net.SplitHost "10.0.0.1:80" = Some "10.0.0.1"%string /\ Net.SplitHost "[::1]:80" = Some "::1"%string
  /\ Net.SplitHost "::1:80" = None.
Proof. vm_compute. done. Qed.
