(* ===== verification/Wakeups.v ===== *)
(** * Waiting for an agent

    The blocking calls of the Postgres store
    ([src/pkg/store/postgres/postgres_query.go], [postgres_notify.go]) and of
    the Valkey store ([src/pkg/store/valkey/store.go]) as waiters beside the
    operations that offer agents and signal them.  The wake-up channel is
    closed and replaced by every signal, so a channel is known by its number
    and is closed once the store has a later one.  A waiter fetches the
    channel when it goes to sleep, that is after its take: what is signalled
    in between it does not hear.

    Time passes only while no waiter has anything to do; a take itself takes
    no time, and finds an agent if one is there. *)

From S2P Require Import Prelude GoLib.
From stdpp Require Import list relations.
From Stdlib Require Import ZArith Lia.

Open Scope Z_scope.

(** ** Waiters *)

Inductive phase : Type :=
| Looping                         (* at the top of the loop *)
| Missed                          (* the take found nothing *)
| Asleep (ch : nat) (timer : Z)   (* in the select *)
| Got                             (* returned an agent *)
| TimedOut                        (* returned without one *)
| Failed.                         (* returned an error of the take or the context *)

Record waiter : Type := MkWaiter { wt_timeout : Z; wt_deadline : Z; wt_phase : phase }.

Definition set_phase (p : phase) (x : waiter) : waiter := MkWaiter (wt_timeout x) (wt_deadline x) p.

Definition finished (x : waiter) : Prop :=
  match wt_phase x with Got | TimedOut | Failed => True | _ => False end.

(** How a store waits.  [move now gen avail x x' avail']: with the store's
    channel [gen] and [avail] agents to take, the waiter goes from [x] to
    [x'].  [sleeps_until x]: when its select ends by itself. *)
Class Blocking : Type := {
  move : Z -> nat -> nat -> waiter -> waiter -> nat -> Prop;
  sleeps_until : waiter -> Z -> Z;
}.

(** ** The Postgres store *)

Definition defaultPostgresPollInterval : Z := 100 * Time.Millisecond.

(** [in]: the context of the call ends at the deadline, or earlier with that
    of the caller. *)
Inductive pg_move (pollInterval now : Z) (gen avail : nat) (x : waiter) : waiter -> nat -> Prop :=
| pg_late : wt_phase x = Looping -> ~ now < wt_deadline x ->
    pg_move pollInterval now gen avail x (set_phase TimedOut x) avail
| pg_error : wt_phase x = Looping -> now < wt_deadline x ->
    pg_move pollInterval now gen avail x (set_phase Failed x) avail
| pg_got n : wt_phase x = Looping -> now < wt_deadline x -> avail = S n ->
    pg_move pollInterval now gen avail x (set_phase Got x) n
| pg_missed : wt_phase x = Looping -> now < wt_deadline x -> avail = 0%nat ->
    pg_move pollInterval now gen avail x (set_phase Missed x) avail
| pg_select : wt_phase x = Missed ->
    pg_move pollInterval now gen avail x (set_phase (Asleep gen (now + pollInterval)) x) avail
| pg_ctx_done ch timer : wt_phase x = Asleep ch timer ->
    pg_move pollInterval now gen avail x (set_phase Failed x) avail
| pg_signal ch timer : wt_phase x = Asleep ch timer -> (ch < gen)%nat ->
    pg_move pollInterval now gen avail x (set_phase Looping x) avail
| pg_timer ch timer : wt_phase x = Asleep ch timer -> timer <= now ->
    pg_move pollInterval now gen avail x (set_phase Looping x) avail.

Definition postgres_waits (pollInterval : Z) : Blocking :=
  {| move := pg_move pollInterval; sleeps_until x timer := Z.min timer (wt_deadline x) |}.

(** ** The Valkey store *)

(** [in] and [waitForWakeup]; the context ends when the caller's does. *)
Inductive vk_move (now : Z) (gen avail : nat) (x : waiter) : waiter -> nat -> Prop :=
| vk_error : wt_phase x = Looping -> vk_move now gen avail x (set_phase Failed x) avail
| vk_got n : wt_phase x = Looping -> avail = S n -> vk_move now gen avail x (set_phase Got x) n
| vk_late : wt_phase x = Looping -> avail = 0%nat -> wt_timeout x <= 0 \/ now > wt_deadline x ->
    vk_move now gen avail x (set_phase TimedOut x) avail
| vk_missed : wt_phase x = Looping -> avail = 0%nat -> ~ (wt_timeout x <= 0 \/ now > wt_deadline x) ->
    vk_move now gen avail x (set_phase Missed x) avail
| vk_select : wt_phase x = Missed ->
    vk_move now gen avail x (set_phase (Asleep gen (wt_deadline x)) x) avail
| vk_ctx_done ch timer : wt_phase x = Asleep ch timer ->
    vk_move now gen avail x (set_phase Failed x) avail
| vk_timer ch timer : wt_phase x = Asleep ch timer -> timer <= now ->
    vk_move now gen avail x (set_phase Looping x) avail
| vk_signal ch timer : wt_phase x = Asleep ch timer -> (ch < gen)%nat ->
    vk_move now gen avail x (set_phase Looping x) avail.

Definition valkey_waits : Blocking := {| move := vk_move; sleeps_until _ timer := timer |}.

(** ** A store and its waiters *)

(** [wd_unsignalled]: operations of this process that have stored an agent
    and not yet signalled it. *)
Record world : Type := MkWorld {
  wd_now : Z; wd_gen : nat; wd_avail : nat; wd_unsignalled : nat; wd_waiters : list waiter }.

(** [signalWakeups]: the channel is closed and a new one made. *)
Definition signal (w : world) : world :=
  MkWorld (wd_now w) (S (wd_gen w)) (wd_avail w) (wd_unsignalled w) (wd_waiters w).

(** No waiter but sleeping ones that nothing has woken by [t]. *)
Definition at_rest {B : Blocking} (gen : nat) (t : Z) (x : waiter) : Prop :=
  match wt_phase x with
  | Asleep ch timer => ch = gen /\ t <= sleeps_until x timer
  | Looping | Missed => False
  | _ => True
  end.

Inductive wstep {B : Blocking} (w : world) : world -> Prop :=
| step_waiter i x x' avail' : wd_waiters w !! i = Some x ->
    move (wd_now w) (wd_gen w) (wd_avail w) x x' avail' ->
    wstep w (MkWorld (wd_now w) (wd_gen w) avail' (wd_unsignalled w) (<[i := x']> (wd_waiters w)))
| step_arrives timeout :
    wstep w (MkWorld (wd_now w) (wd_gen w) (wd_avail w) (wd_unsignalled w)
               (wd_waiters w ++ [MkWaiter timeout (wd_now w + timeout) Looping]))
| step_offers :
    wstep w (MkWorld (wd_now w) (wd_gen w) (S (wd_avail w)) (S (wd_unsignalled w)) (wd_waiters w))
| step_signals n : wd_unsignalled w = S n ->
    wstep w (signal (MkWorld (wd_now w) (wd_gen w) (wd_avail w) n (wd_waiters w)))
| step_elsewhere_offers :
    wstep w (MkWorld (wd_now w) (wd_gen w) (S (wd_avail w)) (wd_unsignalled w) (wd_waiters w))
| step_elsewhere_takes n : wd_avail w = S n ->
    wstep w (MkWorld (wd_now w) (wd_gen w) n (wd_unsignalled w) (wd_waiters w))
| step_notified : wstep w (signal w)
| step_time d : 0 < d -> Forall (at_rest (wd_gen w) (wd_now w + d)) (wd_waiters w) ->
    wstep w (MkWorld (wd_now w + d) (wd_gen w) (wd_avail w) (wd_unsignalled w) (wd_waiters w)).

Definition quiet_world (now : Z) : world := MkWorld now 0 0 0 [].

(** A run during which there is always an agent to take. *)
Definition stocked {B : Blocking} : world -> world -> Prop :=
  rtc (fun w w' => wstep w w' /\ (0 < wd_avail w')%nat).

(** ** The listeners *)

(** What [WaitForNotification] gives, or the end of the store's context. *)
Inductive heard : Type := Notified | ConnError | CtxEnded.

(** [listenForWakeups]: the signals it sends, and whether it has ended. *)
Fixpoint listenForWakeups (inputs : list heard) : nat * bool :=
  match inputs with
  | [] => (0%nat, false)
  | CtxEnded :: _ => (0%nat, true)
  | (Notified | ConnError) :: inputs => let '(n, ended) := listenForWakeups inputs in (S n, ended)
  end.

(** A connection that is lost fails every wait from then on: the loop does
    not end, does not connect again, and signals at every turn. *)
Lemma dead_listener_spins n : listenForWakeups (replicate n ConnError) = (n, false).
Proof. induction n as [|n IH]; [done|]. simpl. by rewrite IH. Qed.

(** ** What the stores have in common *)

(** What every store's moves have in common: a waiter keeps its deadline,
    sleeps on the current channel, and with an agent there does not miss one.
    A sleep begun at [now] ends by itself at [nap x now] at the latest. *)
Class BlockingLaws (B : Blocking) : Type := {
  nap : waiter -> Z -> Z;
  nap_mono x now now' : now <= now' -> nap x now <= nap x now';
  nap_deadline x x' now : wt_deadline x' = wt_deadline x -> nap x' now = nap x now;
  move_keeps now gen avail x x' avail' :
    move now gen avail x x' avail' -> wt_deadline x' = wt_deadline x;
  move_to now gen avail x x' avail' :
    move now gen avail x x' avail' ->
    match wt_phase x' with
    | Asleep ch timer => wt_phase x = Missed /\ ch = gen /\ sleeps_until x' timer <= nap x' now
    | Missed => wt_phase x = Looping /\ avail = 0%nat
    | Looping => exists ch timer, wt_phase x = Asleep ch timer
    | _ => ~ finished x
    end;
}.

Ltac phases := repeat match goal with H : wt_phase ?x = _ |- _ => rewrite ?H in *; revert H end; intros.

#[export] Instance postgres_laws pollInterval : BlockingLaws (postgres_waits pollInterval).
Proof.
  refine {| nap := fun _ now => now + pollInterval |}; simpl.
  - lia.
  - done.
  - by inversion 1.
  - intros now gen avail x x' avail' H. unfold finished. inversion H; subst; simpl; phases; eauto; try done.
    split_and!; [done..|lia].
Defined.

#[export] Instance valkey_laws : BlockingLaws valkey_waits.
Proof.
  refine {| nap := fun x _ => wt_deadline x |}; simpl.
  - lia.
  - done.
  - by inversion 1.
  - intros now gen avail x x' avail' H. unfold finished. inversion H; subst; simpl; phases; eauto; done.
Defined.

Section Channels.
Context {B : Blocking} {L : BlockingLaws B}.

(** A sleeping waiter sleeps on a channel the store has made, and not for too
    long. *)
Definition sleeps_well (now : Z) (gen : nat) (x : waiter) : Prop :=
  match wt_phase x with Asleep ch timer => (ch <= gen)%nat /\ sleeps_until x timer <= nap x now | _ => True end.

Lemma sleeps_well_later now now' gen gen' x :
  now <= now' -> (gen <= gen')%nat -> sleeps_well now gen x -> sleeps_well now' gen' x.
Proof.
  unfold sleeps_well. intros Hn Hg H. destruct (wt_phase x); try done. destruct H as [H1 H2].
  split; [lia|]. etrans; [exact H2|]. by apply nap_mono.
Qed.

Lemma reachable_sleeps_well now w : rtc wstep (quiet_world now) w -> Forall (sleeps_well (wd_now w) (wd_gen w)) (wd_waiters w).
Proof.
  intros Hr. apply (rtc_ind_r (R := wstep) (fun w => Forall (sleeps_well (wd_now w) (wd_gen w)) (wd_waiters w)) (quiet_world now));
    [constructor| |exact Hr].
  clear. intros w w' _ Hs H.
  assert (Hm : forall now' gen', wd_now w <= now' -> (wd_gen w <= gen')%nat -> Forall (sleeps_well now' gen') (wd_waiters w)).
  { intros now' gen' Hn Hg. eapply Forall_impl; [exact H|]. intros x. by apply sleeps_well_later. }
  inversion Hs as [i x x' avail' Hi Hmv| | | | | | |]; subst; simpl; try by (apply Hm; simpl; lia).
  - apply Forall_insert; [done|]. apply move_to in Hmv. unfold sleeps_well. destruct (wt_phase x'); try done.
    destruct Hmv as (_ & -> & ?). by split.
  - apply Forall_app. split; [done|]. by constructor.
Qed.

(** A waiter stays where it is in the list, and moves by its own steps only. *)
Lemma step_waiter_stays w w' i x :
  wstep w w' -> wd_waiters w !! i = Some x ->
  exists x', wd_waiters w' !! i = Some x'
    /\ (x' = x \/ wd_now w' = wd_now w /\ wd_gen w' = wd_gen w
                  /\ exists avail', move (wd_now w) (wd_gen w) (wd_avail w) x x' avail').
Proof.
  intros Hs Hx. inversion Hs as [j y y' avail' Hj Hmv| | |n Hn| | | |d Hd Hr]; subst; simpl; try by exists x; auto.
  - destruct (decide (j = i)) as [->|Hne].
    + simplify_eq. exists y'. rewrite list_lookup_insert_eq by by eapply lookup_lt_Some. eauto 6.
    + exists x. rewrite list_lookup_insert_ne by done. auto.
  - exists x. rewrite lookup_app_l by by eapply lookup_lt_Some. auto.
Qed.

(** Time and channels only go forward, and time only over waiters at rest. *)
Lemma step_forward w w' :
  wstep w w' -> (wd_gen w <= wd_gen w')%nat
  /\ (wd_now w' = wd_now w
      \/ wd_now w < wd_now w' /\ wd_gen w' = wd_gen w /\ wd_waiters w' = wd_waiters w
         /\ Forall (at_rest (wd_gen w) (wd_now w')) (wd_waiters w)).
Proof. inversion 1; subst; simpl; (split; [lia|]); auto. right. split_and!; [lia|done..]. Qed.

(** ** A waiter while there are agents *)

(** Where a waiter can be at time [now]: finished; at the top of its loop or
    asleep, no later than [bound]; or, before it slept, at the time [start]. *)
Definition on_time (bound start now : Z) (gen : nat) (x : waiter) : Prop :=
  match wt_phase x with
  | Looping => now <= bound
  | Missed => now = start /\ nap x start <= bound
  | Asleep ch timer => now <= bound /\ (sleeps_until x timer <= bound \/ (ch < gen)%nat)
  | _ => True
  end.

Lemma step_on_time bound start w w' i x :
  start <= bound -> wstep w w' -> (0 < wd_avail w)%nat -> wd_waiters w !! i = Some x ->
  on_time bound start (wd_now w) (wd_gen w) x ->
  exists x', wd_waiters w' !! i = Some x' /\ on_time bound start (wd_now w') (wd_gen w') x'.
Proof.
  intros Hb Hs Ha Hx Ht. destruct (step_waiter_stays _ _ _ _ Hs Hx) as (x' & Hx' & Hmv). exists x'. split; [done|].
  destruct (step_forward _ _ Hs) as [Hg Hn]. destruct Hmv as [->|(Hn' & Hg' & avail' & Hmv)].
  - unfold on_time in *. destruct Hn as [->|(Hlt & Hg' & Hw & Hr)].
    { destruct (wt_phase x); try done. destruct Ht as [? [?|?]]; split; auto. right. lia. }
    rewrite Forall_lookup in Hr. specialize (Hr _ _ Hx). unfold at_rest in Hr.
    destruct (wt_phase x); try done. destruct Hr as [-> Hr]. destruct Ht as [? [?|?]]; [|lia]. split; [lia|auto].
  - rewrite Hn', Hg'. pose proof (move_to _ _ _ _ _ _ Hmv) as Hto. pose proof (move_keeps _ _ _ _ _ _ Hmv) as Hk.
    unfold on_time in *. destruct (wt_phase x'); try done.
    + destruct Hto as (ch & timer & Hp). rewrite Hp in Ht. tauto.
    + destruct Hto as [_ ?]. lia.
    + destruct Hto as (Hp & -> & Hs'). rewrite Hp in Ht. destruct Ht as [Hst Ht]. split; [lia|]. left.
      rewrite (nap_deadline _ _ _ Hk), Hst in Hs'. lia.
Qed.

Lemma stocked_on_time bound start w w' i x :
  start <= bound -> stocked w w' -> (0 < wd_avail w)%nat -> wd_waiters w !! i = Some x ->
  on_time bound start (wd_now w) (wd_gen w) x ->
  exists x', wd_waiters w' !! i = Some x' /\ on_time bound start (wd_now w') (wd_gen w') x'.
Proof.
  intros Hb Hr. revert x. induction Hr as [w|w w1 w' [Hs Ha] _ IH]; intros x Ha' Hx Ht; [by exists x|].
  destruct (step_on_time _ _ _ _ _ _ Hb Hs Ha' Hx Ht) as (x1 & Hx1 & Ht1). by apply (IH x1).
Qed.

(** After its bound a waiter has finished. *)
Lemma overdue bound start w w' i x x' :
  start <= bound -> stocked w w' -> (0 < wd_avail w)%nat ->
  wd_waiters w !! i = Some x -> wd_waiters w' !! i = Some x' ->
  on_time bound start (wd_now w) (wd_gen w) x -> bound < wd_now w' -> finished x'.
Proof.
  intros Hb Hr Ha Hx Hx' Ht Hlt. destruct (stocked_on_time _ _ _ _ _ _ Hb Hr Ha Hx Ht) as (y & Hy & Hyt). rewrite Hx' in Hy. injection Hy as <-.
  unfold on_time in Hyt. unfold finished. destruct (wt_phase x'); try done; lia.
Qed.

(** Every waiter of a stocked store finishes when its sleep would end by
    itself, at the latest. *)
Lemma waiter_finishes now w w' i x x' :
  rtc wstep (quiet_world now) w -> (0 < wd_avail w)%nat -> stocked w w' ->
  wd_waiters w !! i = Some x -> wd_waiters w' !! i = Some x' ->
  Z.max (wd_now w) (nap x (wd_now w)) < wd_now w' -> finished x'.
Proof.
  intros Hr Ha Hst Hx Hx'. apply (overdue _ (wd_now w) w w' i x x'); [lia|done..|].
  pose proof (reachable_sleeps_well _ _ Hr) as Hsw. rewrite Forall_lookup in Hsw. specialize (Hsw _ _ Hx).
  unfold on_time, sleeps_well in *. destruct (wt_phase x); try done; lia.
Qed.

(** A waiter that sleeps when a signal comes finishes before any time has
    passed. *)
Lemma signalled_waiter_finishes now w w' i x x' ch timer :
  rtc wstep (quiet_world now) w -> (0 < wd_avail w)%nat -> stocked (signal w) w' ->
  wd_waiters w !! i = Some x -> wd_waiters w' !! i = Some x' ->
  wt_phase x = Asleep ch timer -> wd_now w < wd_now w' -> finished x'.
Proof.
  intros Hr Ha Hst Hx Hx' Hp. apply (overdue _ (wd_now w) (signal w) w' i x x'); [lia|done..|].
  pose proof (reachable_sleeps_well _ _ Hr) as Hsw. rewrite Forall_lookup in Hsw. specialize (Hsw _ _ Hx).
  unfold on_time, sleeps_well in *. rewrite Hp in *. simpl. split; [lia|right; lia].
Qed.
End Channels.


(** ** Runs *)

Definition poll : Z := defaultPostgresPollInterval.
Definition caller (p : phase) : waiter := MkWaiter Time.Second Time.Second p.

(** One caller misses, an agent is stored and signalled, the caller goes to
    sleep: the same in both stores up to the timer. *)
Definition unheard (timer : Z) : world := MkWorld 0 1 1 0 [caller (Asleep 1 timer)].

Lemma unheard_reachable {B : Blocking} timer :
  move 0 0 0 (caller Looping) (caller Missed) 0 ->
  move 0 1 1 (caller Missed) (caller (Asleep 1 timer)) 1 ->
  rtc wstep (quiet_world 0) (unheard timer).
Proof.
  intros H1 H2.
  eapply rtc_l; [apply (step_arrives _ Time.Second)|].
  eapply rtc_l; [apply (step_waiter _ 0 (caller Looping) (caller Missed) 0); [reflexivity|exact H1]|].
  eapply rtc_l; [apply step_offers|].
  eapply rtc_l; [by apply (step_signals _ 0)|].
  eapply rtc_l; [apply (step_waiter _ 0 (caller Missed) (caller (Asleep 1 timer)) 1); [reflexivity|exact H2]|].
  apply rtc_refl.
Qed.

Lemma postgres_unheard : rtc (@wstep (postgres_waits poll)) (quiet_world 0) (unheard poll).
Proof. apply (@unheard_reachable (postgres_waits poll)); [by apply pg_missed|by apply (pg_select poll 0 1 1 (caller Missed))]. Qed.

(** The caller of the Postgres store sleeps for one interval, takes the agent
    and time goes on; a second agent stays. *)
Definition served : world := MkWorld (poll + 1) 1 1 0 [caller Got].

Lemma postgres_served : @stocked (postgres_waits poll) (unheard poll) served.
Proof.
  eapply rtc_l; [split; [apply (@step_elsewhere_offers (postgres_waits poll))|simpl; lia]|].
  eapply rtc_l; [split; [apply (@step_time (postgres_waits poll) _ poll); [done|]|simpl; lia]|].
  { constructor; [|constructor]. split; [done|]. by vm_compute. }
  eapply rtc_l; [split; [eapply (@step_waiter (postgres_waits poll) _ 0 _ (caller Looping) 2); [reflexivity|]|simpl; lia]|].
  { by apply (pg_timer poll poll 1 2 (caller (Asleep 1 poll)) 1 poll). }
  eapply rtc_l; [split; [eapply (@step_waiter (postgres_waits poll) _ 0 _ (caller Got) 1); [reflexivity|]|simpl; lia]|].
  { by apply (pg_got poll poll 1 2 (caller Looping) 1). }
  eapply rtc_l; [split; [apply (@step_time (postgres_waits poll) _ 1); [done|]|simpl; lia]|].
  { by repeat constructor. }
  apply rtc_refl.
Qed.


(** In the Valkey store the caller that did not hear the signal sleeps on with
    the agent there, until its deadline. *)
Lemma valkey_sleeps_on :
  rtc (@wstep valkey_waits) (quiet_world 0) (unheard Time.Second)
  /\ @stocked valkey_waits (unheard Time.Second) (MkWorld Time.Second 1 1 0 [caller (Asleep 1 Time.Second)]).
Proof.
  split; [apply (@unheard_reachable valkey_waits); [apply (vk_missed 0 0 0 (caller Looping)); [done..|by vm_compute; intuition]|by apply (vk_select 0 1 1 (caller Missed))]|].
  eapply rtc_l; [split; [apply (@step_time valkey_waits _ Time.Second); [done|]|simpl; lia]|apply rtc_refl].
  by repeat constructor.
Qed.
