(* ===== verification/ApiTypes.v ===== *)
(** * HTTP API: requests, responses and programs over a space

    [src/internal/api/types.go], [auth_principal.go], [request_space.go] and
    the interfaces of [src/pkg/agent/types.go] a handler calls.  A handler is
    a program: a tree of calls of the agent space ending in a response.  The
    requests of concurrent clients interleave at these calls. *)

From S2P Require Import Prelude GoLib Agent.
From stdpp Require Import gmap strings list fin_maps.
From Stdlib Require Import ZArith Lia.

Open Scope Z_scope.

(** ** Principals *)

Record NamespaceLimits : Type := MkNamespaceLimits {
  RateLimitRequests : Z;
  RateLimitWindow : Z;
  MaxBodyBytes : Z;
  MaxActiveAgents : Z;
  MaxQueueDepth : Z;
}.

Record AuthPrincipal : Type := MkAuthPrincipal {
  ap_NamespaceID : string;
  ap_Admin : bool;
  ap_Limits : NamespaceLimits;
}.

Definition no_limits : NamespaceLimits := MkNamespaceLimits 0 0 0 0 0.

(** ** Requests *)

(** What reading [r.Body] gives: the bytes, and whether an error (rather than
    the end) comes after them. *)
Record Body : Type := MkBody { bd_bytes : string; bd_failed : bool }.

(** The parts of an [*http.Request] the server reads: [rq_header] lists the
    values of a header, [rq_query] the first value of a URL parameter,
    [rq_principal] what the context carries after authentication. *)
Record Request : Type := MkRequest {
  rq_method : string;
  rq_path : string;
  rq_header : gmap string (list string);
  rq_query : gmap string string;
  rq_remote : string;
  rq_length : Z;
  rq_body : Body;
  rq_principal : option AuthPrincipal;
}.

(** [r.Header.Get]. *)
Definition header (r : Request) (key : string) : string :=
  default ""%string (head (default [] (rq_header r !! key))).

(** [r.URL.Query().Get]. *)
Definition url_param (r : Request) (key : string) : string := mget (rq_query r) key.

(** [AuthPrincipalFromContext]; [withAuthPrincipal]. *)
Definition AuthPrincipalFromContext (r : Request) : option AuthPrincipal := rq_principal r.

Definition withAuthPrincipal (r : Request) (principal : AuthPrincipal) : Request :=
  MkRequest (rq_method r) (rq_path r) (rq_header r) (rq_query r) (rq_remote r) (rq_length r)
    (rq_body r) (Some principal).

Record CreateAgentRequest : Type := MkCreateAgentRequest {
  cr_Kind : string;
  cr_Payload : option (gmap string any);
  cr_Tags : list string;
  cr_ParentID : string;
  cr_TraceID : string;
  cr_NamespaceID : string;
  cr_TTL : Z;
  cr_Metadata : option (gmap string string);
}.

(** A nil slice of tags is told from an empty one by [ur_Tags]. *)
Record UpdateAgentRequest : Type := MkUpdateAgentRequest {
  ur_Payload : option (gmap string any);
  ur_Status : option string;
  ur_Tags : option (list string);
  ur_Owner : option string;
  ur_Metadata : option (gmap string string);
}.

Record BatchTakeRequest : Type := MkBatchTakeRequest { bt_Query : Query; bt_Limit : Z }.
Record InRequest : Type := MkInRequest { in_Query : Query; in_Timeout : Z }.
Record ReadRequest : Type := MkReadRequest { rd_Query : Query; rd_Timeout : Z; rd_Blocking : bool }.

Record CompleteAgentRequest : Type := MkCompleteAgentRequest {
  co_Result : option (gmap string any);
  co_ShardID : string;
}.

Record CompleteAndOutRequest : Type := MkCompleteAndOutRequest {
  cao_Result : option (gmap string any);
  cao_ShardID : string;
  cao_Outputs : list CreateAgentRequest;
}.

Record ReleaseRequest : Type := MkReleaseRequest { re_Reason : string; re_ShardID : string }.
Record RenewLeaseRequest : Type := MkRenewLeaseRequest { rn_LeaseSec : Z; rn_ShardID : string }.

(** How decoding a body fails: at its very end, or otherwise. *)
Inductive jerror : Type := JEOF | JInvalid.

(** The JSON decoder of the third-party package [goccy/go-json], one function
    per request type. *)
Class Decoder : Type := {
  decode_CreateAgent : Body -> result jerror CreateAgentRequest;
  decode_UpdateAgent : Body -> result jerror UpdateAgentRequest;
  decode_Query : Body -> result jerror Query;
  decode_Take : Body -> result jerror Query;
  decode_BatchTake : Body -> result jerror BatchTakeRequest;
  decode_In : Body -> result jerror InRequest;
  decode_Read : Body -> result jerror ReadRequest;
  decode_Complete : Body -> result jerror CompleteAgentRequest;
  decode_CompleteAndOut : Body -> result jerror CompleteAndOutRequest;
  decode_Release : Body -> result jerror ReleaseRequest;
  decode_RenewLease : Body -> result jerror RenewLeaseRequest;
}.

(** ** Responses *)

(** What a response's body holds.  [BError] is an [ErrorResponse] with its
    request id, [BText] the plain text of [http.Error], [BTaken] the minimal
    answer of a take. *)
Inductive body : Type :=
| BEmpty
| BText (text : string)
| BError (message requestID : string)
| BAgent (t : Agent)
| BAgents (agents : list Agent)
| BTaken (id leaseToken shardID : string)
| BQuery (agents : list Agent) (total : Z)
| BStats (counts : gmap string Z) (total : Z)
| BEvents (events : list Event) (total : Z) (nextCursor : string)
| BDag (dag : DAG)
| BServer (agents events activeAgents : Z) (backend : string)
| BCompleted (completed : Agent) (created : list Agent).

Record Response : Type := MkResponse {
  rs_status : Z;
  rs_headers : list (string * string);
  rs_body : body;
}.

(** How a handler ends: with a response, with a panic ([net/http] drops the
    connection), or not within the steps given to it. *)
Inductive outcome : Type :=
| Responded (r : Response)
| Panicked
| Pending.

(** ** Errors as a handler sees them *)

(** [err.Error()], and whether [errors.Is] finds one of the two errors of
    package context. *)
Record goerror : Type := MkGoError {
  err_Error : string;
  err_DeadlineExceeded : bool;
  err_Canceled : bool;
}.

(** ** Calls of the space *)

(** The methods of [agent.AgentSpace] and of its optional interfaces, and the
    two readings a handler makes of its surroundings. *)
Inductive call : Type :=
| CNow
| CUuid
| CGet (id : string)
| COut (t : Agent)
| CTake (query : Query)
| CBatchTake (query : Query) (limit : Z)
| CIn (query : Query) (timeout : Z)
| CRead (query : Query) (timeout : Z)
| CQuery (query : Query)
| CCount (query : Query)
| CCountByStatus (query : Query)
| CUpdate (id : string) (updates : gmap string any)
| CUpdateAndGet (id : string) (updates : gmap string any)
| CComplete (id agentID leaseToken : string) (result : option (gmap string any))
| CCompleteAndGet (id agentID leaseToken : string) (result : option (gmap string any))
| CCompleteAndOut (id agentID leaseToken : string) (result : option (gmap string any)) (outputs : list Agent)
| CRelease (id agentID leaseToken reason : string)
| CReleaseAndGet (id agentID leaseToken reason : string)
| CRenewLease (id agentID leaseToken : string) (leaseDuration : Z)
| CGetEvents (tupleID : string)
| CGetGlobalEvents (limit offset : Z)
| CQueryEvents (query : EventQuery)
| CGetDAG (rootID : string).

(** What a call answers.  A nil pointer is [None]; [Out] answers the agent
    its argument points to afterwards; a blocking call may not have
    returned. *)
Definition answer (c : call) : Type :=
  match c with
  | CNow => Z
  | CUuid => string
  | CGet _ | COut _ | CRenewLease _ _ _ _ => result goerror Agent
  | CTake _ | CUpdateAndGet _ _ | CCompleteAndGet _ _ _ _ | CReleaseAndGet _ _ _ _ => result goerror (option Agent)
  | CIn _ _ | CRead _ _ => option (result goerror (option Agent))
  | CBatchTake _ _ | CQuery _ => result goerror (list Agent)
  | CCount _ => result goerror Z
  | CCountByStatus _ => result goerror (gmap string Z)
  | CUpdate _ _ | CComplete _ _ _ _ | CRelease _ _ _ _ => result goerror unit
  | CCompleteAndOut _ _ _ _ _ => result goerror (Agent * list Agent)
  | CGetEvents _ | CGetGlobalEvents _ _ => result goerror (list Event)
  | CQueryEvents _ => result goerror (option EventPage)
  | CGetDAG _ => result goerror DAG
  end.

(** The optional interfaces a space implements. *)
Record Capabilities : Type := MkCapabilities {
  UpdateAndGetProvider : bool;
  CompleteAndGetProvider : bool;
  ReleaseAndGetProvider : bool;
  BatchTakeProvider : bool;
  Counter : bool;
  StatusCounter : bool;
  EventQuerier : bool;
}.

(** [Handlers]: what [h.space] implements, what the space does that
    [requestSpace] answers (a different one when the store binds the request's
    context), and the name of the backend. *)
Record Handlers : Type := MkHandlers {
  h_space : Capabilities;
  h_bound : Capabilities;
  getBackendType : string;
}.

(** ** Programs *)

(** A program's call names the shard its context carries. *)
Inductive prog (A : Type) : Type :=
| Ret (a : A)
| Act (shardID : string) (c : call) (k : answer c -> prog A).
Arguments Ret {A} a.
Arguments Act {A} shardID c k.

Fixpoint prog_bind {A B} (p : prog A) (f : A -> prog B) : prog B :=
  match p with
  | Ret a => f a
  | Act h c k => Act h c (fun x => prog_bind (k x) f)
  end.

#[export] Instance prog_mret : MRet prog := @Ret.
#[export] Instance prog_mbind : MBind prog := fun A B f p => prog_bind p f.

(** A call through the bound space, and one through [h.space] itself. *)
Definition on_space (shardID : string) (c : call) : prog (answer c) := Act shardID c Ret.
Definition direct (c : call) : prog (answer c) := on_space "" c.

(** A space: what each call does to its state. *)
Class Space (W : Type) : Type := perform : forall (shardID : string) (c : call), W -> answer c * W.

Fixpoint run_prog {W} `{Space W} {A} (p : prog A) (w : W) : A * W :=
  match p with
  | Ret a => (a, w)
  | Act h c k => let '(x, w') := perform h c w in run_prog (k x) w'
  end.

Lemma run_prog_bind {W} `{Space W} {A B} (p : prog A) (f : A -> prog B) (w : W) :
  run_prog (p ≫= f) w = let '(a, w') := run_prog p w in run_prog (f a) w'.
Proof.
  unfold mbind, prog_mbind. revert w. induction p as [a|h c k IH]; intros w; simpl; [done|].
  destruct (perform h c w) as [x w']. apply IH.
Qed.
