(* ===== verification/ApiHandlers.v ===== *)
(** * HTTP API: the handlers

    [src/internal/api/handlers.go]: every handler of the agent, event and
    graph endpoints as a program over the space, the quota and visibility
    checks it makes, and the routing of [src/cmd/server/main.go].  Metrics,
    logging and telemetry observations are left out; JSON encoding of a
    response is assumed to succeed. *)

From S2P Require Import Prelude GoLib Agent ApiTypes.
From stdpp Require Import gmap strings list fin_maps.
From Stdlib Require Import ZArith Lia Ascii.

Open Scope Z_scope.
Open Scope string_scope.

Definition namespaceMetadataKey : string := "namespace_id".
Definition queueMetadataKey : string := "queue".

Definition StatusOK : Z := 200.
Definition StatusCreated : Z := 201.
Definition StatusNoContent : Z := 204.
Definition StatusBadRequest : Z := 400.
Definition StatusUnauthorized : Z := 401.
Definition StatusForbidden : Z := 403.
Definition StatusNotFound : Z := 404.
Definition StatusMethodNotAllowed : Z := 405.
Definition StatusRequestTimeout : Z := 408.
Definition StatusConflict : Z := 409.
Definition StatusTooManyRequests : Z := 429.
Definition StatusInternalServerError : Z := 500.
Definition StatusNotImplemented : Z := 501.
Definition StatusServiceUnavailable : Z := 503.
Definition StatusGatewayTimeout : Z := 504.

(** ** Reading a request, writing a response *)

Definition contains_any (s : string) (subs : list string) : bool := existsb (Strings.Contains s) subs.

Definition isTransientError (err : goerror) : bool :=
  contains_any (Strings.ToLower (err_Error err))
    ["connection refused"; "connection reset"; "connection closed"; "too many open files";
     "resource temporarily unavailable"; "broken pipe"; "no such host"; "no hosts available";
     "no connections"; "dial tcp"; "i/o timeout"; "operation timed out"; "unavailable";
     "too many requests"; "overloaded"; "bootstrapping"].

Definition extractIDFromPath (path prefix : string) : string :=
  default "" (head (Strings.Split (Strings.TrimPrefix path prefix) "/"%char)).

(** One directive of a [Prefer] header. *)
Definition prefers_minimal (rawToken : string) : bool :=
  let token := Strings.TrimSpace rawToken in
  if decide (token = "") then false
  else
    let directive := Strings.ToLower (Strings.TrimSpace
                       (of_bytes (Strings.cut_bytes ";"%char (bytes token)).1)) in
    if negb (Strings.HasPrefix directive "return=") then false
    else
      let value := Strings.TrimByte (Strings.TrimSpace (Strings.TrimPrefix directive "return="))
                     (Ascii.ascii_of_nat 34) in
      bool_decide (value = "minimal").

Definition requestPrefersReturnMinimal (r : Request) : bool :=
  existsb (fun preferHeader => existsb prefers_minimal (Strings.Split preferHeader ","%char))
    (default [] (rq_header r !! "Prefer")).

Definition writeJSON (status : Z) (data : body) : outcome :=
  Responded (MkResponse status [("Content-Type", "application/json")] data).

Definition writeHeader (status : Z) : outcome := Responded (MkResponse status [] BEmpty).

Definition http_Error (message : string) (status : Z) : outcome := Responded (MkResponse status [] (BText message)).

Definition writeError (status : Z) (message : string) : prog outcome :=
  uuid ← direct CUuid;
  mret (writeJSON status (BError message (of_bytes (take 8 (bytes uuid))))).

(** ** Namespaces *)

Definition effectiveAgentNamespace (t : Agent) : string :=
  let ns := Strings.TrimSpace (a_NamespaceID t) in
  if decide (ns = "") then Strings.TrimSpace (omget (a_Metadata t) namespaceMetadataKey) else ns.

(** [requestPrincipalNamespace]. *)
Definition requestPrincipalNamespace (r : Request) : string :=
  match AuthPrincipalFromContext r with
  | Some principal => Strings.TrimSpace (ap_NamespaceID principal)
  | None => ""
  end.

Definition agentVisibleToPrincipal (r : Request) (t : Agent) : bool :=
  bool_decide (requestPrincipalNamespace r = "")
  || bool_decide (effectiveAgentNamespace t = requestPrincipalNamespace r).

Definition set_query_namespace (q : Query) (ns : string) : Query :=
  MkQuery (q_Kind q) (q_Status q) (q_Tags q) (q_Owner q) (q_ParentID q) (q_TraceID q) ns (q_AgentID q)
    (Some (<[namespaceMetadataKey := ns]> (default ∅ (q_Metadata q)))) (q_Limit q) (q_Offset q).

Definition applyPrincipalNamespaceToQuery (r : Request) (query : Query) : Query :=
  if decide (requestPrincipalNamespace r = "") then query
  else set_query_namespace query (requestPrincipalNamespace r).

Definition set_AgentID (q : Query) (agentID : string) : Query :=
  MkQuery (q_Kind q) (q_Status q) (q_Tags q) (q_Owner q) (q_ParentID q) (q_TraceID q) (q_NamespaceID q)
    agentID (q_Metadata q) (q_Limit q) (q_Offset q).

Definition set_window (q : Query) (limit offset : Z) : Query :=
  MkQuery (q_Kind q) (q_Status q) (q_Tags q) (q_Owner q) (q_ParentID q) (q_TraceID q) (q_NamespaceID q)
    (q_AgentID q) (q_Metadata q) limit offset.

Definition set_QStatus (q : Query) (status : string) : Query :=
  MkQuery (q_Kind q) status (q_Tags q) (q_Owner q) (q_ParentID q) (q_TraceID q) (q_NamespaceID q)
    (q_AgentID q) (q_Metadata q) (q_Limit q) (q_Offset q).

Definition status_query (status : string) (metadata : gmap string string) : Query :=
  MkQuery "" status [] "" "" "" "" "" (Some metadata) 0 0.

(** The header [X-Agent-ID] names the taker. *)
Definition taken_for (r : Request) (q : Query) : Query :=
  let agentID := header r "X-Agent-ID" in
  if decide (agentID = "") then q else set_AgentID q agentID.

(** ** Counting *)

Section Handlers.
Context {Dec : Decoder} (h : Handlers) (fuel : nat).

(** The loop over the pages; [None] when the fuel runs out. *)
Fixpoint count_loop (n : nat) (shardID : string) (query : Query) (pageSize total offset : Z)
    : prog (option (result goerror Z)) :=
  match n with
  | O => mret None
  | S n =>
      page ← on_space shardID (CQuery (set_window query pageSize offset));
      match page with
      | Err e => mret (Some (Err e))
      | Ok agents =>
          let got := Z.of_nat (length agents) in
          if decide (got < pageSize) then mret (Some (Ok (total + got)))
          else count_loop n shardID query pageSize (total + got) (offset + pageSize)
      end
  end.

Definition countAllWithSpace (shardID : string) (query : Query) (pageSize : Z) : prog (option (result goerror Z)) :=
  count_loop fuel shardID query (if decide (pageSize <= 0) then 1000 else pageSize) 0 0.

Definition countByQuery (query : Query) : prog (option (result goerror Z)) :=
  if Counter (h_space h) then
    count ← direct (CCount query); mret (Some count)
  else countAllWithSpace "" query 1000.

(** ** Quotas *)

(** Whether [additional] agents may be created: [Err None] when a count did
    not return, [Err (Some e)] when it failed. *)
Definition quota : Type := result (option goerror) bool.

Definition counted (query : Query) (k : Z -> prog quota) : prog quota :=
  count ← countByQuery query;
  match count with
  | None => mret (Err None)
  | Some (Err e) => mret (Err (Some e))
  | Some (Ok n) => k n
  end.

Definition queue_quota (queueCap : Z) (namespaceID : string) (metadata : option (gmap string string))
    (additional : Z) : prog quota :=
  let queueName := Strings.TrimSpace (omget metadata queueMetadataKey) in
  if decide (0 < queueCap /\ queueName <> "") then
    counted (status_query StatusNew {[namespaceMetadataKey := namespaceID; queueMetadataKey := queueName]})
      (fun queueCount => mret (Ok (bool_decide (queueCount + additional <= queueCap))))
  else mret (Ok true).

Definition allowNamespaceAgentCreation (principal : AuthPrincipal) (namespaceID : string)
    (metadata : option (gmap string string)) (additional : Z) : prog quota :=
  let principalNamespace := Strings.TrimSpace (ap_NamespaceID principal) in
  let namespaceID := Strings.TrimSpace (if decide (principalNamespace = "") then namespaceID
                                        else principalNamespace) in
  if decide (additional <= 0) then mret (Ok true)
  else if decide (principalNamespace <> "" /\ namespaceID <> principalNamespace) then mret (Ok false)
  else if decide (namespaceID = "") then mret (Ok true)
  else
    let activeCap := MaxActiveAgents (ap_Limits principal) in
    let queueCap := MaxQueueDepth (ap_Limits principal) in
    if decide (0 < activeCap) then
      counted (status_query StatusNew {[namespaceMetadataKey := namespaceID]}) (fun newCount =>
      counted (status_query StatusInProgress {[namespaceMetadataKey := namespaceID]}) (fun inProgressCount =>
        if decide (activeCap < newCount + inProgressCount + additional) then mret (Ok false)
        else queue_quota queueCap namespaceID metadata additional))
    else queue_quota queueCap namespaceID metadata additional.

(** Go on when the quota allows it. *)
Definition within_quota (allowed : quota) (k : prog outcome) : prog outcome :=
  match allowed with
  | Err None => mret Pending
  | Err (Some _) => writeError StatusInternalServerError "failed to evaluate namespace quotas"
  | Ok false => writeError StatusTooManyRequests "namespace quota exceeded"
  | Ok true => k
  end.

(** ** Creating and reading agents *)

(** The agent of a create request, before the metadata is completed. *)
Definition new_agent (id : string) (req : CreateAgentRequest) (traceID namespaceID : string) (created updated : Z) : Agent :=
  {| a_ID := id; a_Kind := cr_Kind req; a_Status := StatusNew; a_ShardID := "";
     a_Payload := cr_Payload req; a_Tags := cr_Tags req; a_Owner := ""; a_ParentID := cr_ParentID req;
     a_TraceID := traceID; a_NamespaceID := namespaceID; a_TTL := int64 (cr_TTL req * Time.Second);
     a_CreatedAt := created; a_UpdatedAt := updated; a_OwnerTime := Time.zero_time; a_LeaseToken := "";
     a_LeaseUntil := Time.zero_time; a_Version := 0; a_Metadata := cr_Metadata req |}.

(** [t.Metadata["id"] = t.ID], and the namespace when there is one. *)
Definition created_metadata (t : Agent) : Agent :=
  let m := <["id" := a_ID t]> (default ∅ (a_Metadata t)) in
  set_Metadata (Some (if decide (a_NamespaceID t = "") then m
                      else <[namespaceMetadataKey := a_NamespaceID t]> m)) t.

Definition CreateAgent (r : Request) : prog outcome :=
  match decode_CreateAgent (rq_body r) with
  | Err _ => writeError StatusBadRequest "invalid request body"
  | Ok req =>
      let asked := Strings.TrimSpace (cr_NamespaceID req) in
      let bound := match AuthPrincipalFromContext r with Some p => ap_NamespaceID p | None => "" end in
      if decide (bound <> "" /\ asked <> "" /\ asked <> bound)
      then writeError StatusForbidden "namespace mismatch for authenticated principal"
      else
        let namespaceID := if decide (bound = "") then asked else bound in
        allowed ← (match AuthPrincipalFromContext r with
                   | Some p => allowNamespaceAgentCreation p namespaceID (cr_Metadata req) 1
                   | None => mret (Ok true)
                   end);
        within_quota allowed (
          id ← direct CUuid;
          created ← direct CNow;
          updated ← direct CNow;
          traceID ← (if decide (cr_TraceID req = "") then direct CUuid else mret (cr_TraceID req));
          let t := created_metadata (new_agent id req traceID namespaceID created updated) in
          stored ← on_space "" (COut t);
          match stored with
          | Err e => if isTransientError e
                     then writeError StatusServiceUnavailable "service temporarily unavailable"
                     else writeError StatusInternalServerError "failed to create agent"
          | Ok t => mret (writeJSON StatusCreated (BAgent t))
          end)
  end.

(** The lookup every handler of one agent starts with: the agent, when it
    exists and its namespace is the caller's. *)
Definition visible_agent (shardID : string) (r : Request) (id : string) (k : Agent -> prog outcome) : prog outcome :=
  current ← on_space shardID (CGet id);
  match current with
  | Err _ => writeError StatusNotFound "agent not found"
  | Ok t => if agentVisibleToPrincipal r t then k t else writeError StatusNotFound "agent not found"
  end.

Definition GetAgent (r : Request) : prog outcome :=
  let id := extractIDFromPath (rq_path r) "/api/v1/agents/" in
  if decide (id = "") then writeError StatusBadRequest "missing agent ID"
  else visible_agent "" r id (fun t => mret (writeJSON StatusOK (BAgent t))).

(** The agent again after an operation that did not answer it. *)
Definition fetch_agent (shardID id : string) : prog outcome :=
  got ← on_space shardID (CGet id);
  match got with
  | Err _ => writeError StatusNotFound "agent not found"
  | Ok t => mret (writeJSON StatusOK (BAgent t))
  end.

Definition answer_agent (shardID id : string) (answered : option Agent) : prog outcome :=
  match answered with
  | Some t => mret (writeJSON StatusOK (BAgent t))
  | None => fetch_agent shardID id
  end.

(** The updates of an update request, the namespace kept. *)
Definition build_updates (req : UpdateAgentRequest) (ns : string) : gmap string any :=
  let updates := match ur_Payload req with Some p => <["payload" := VMap p]> ∅ | None => ∅ end in
  let updates := match ur_Tags req with Some tags => <["tags" := VStrs tags]> updates | None => updates end in
  match ur_Metadata req with
  | Some m => <["metadata" := VStrMap (if decide (ns = "") then m else <[namespaceMetadataKey := ns]> m)]> updates
  | None => updates
  end.

Definition UpdateAgent (r : Request) : prog outcome :=
  let id := extractIDFromPath (rq_path r) "/api/v1/agents/" in
  if decide (id = "") then writeError StatusBadRequest "missing agent ID"
  else visible_agent "" r id (fun current =>
    match decode_UpdateAgent (rq_body r) with
    | Err _ => writeError StatusBadRequest "invalid request body"
    | Ok req =>
        if decide (is_Some (ur_Status req) \/ is_Some (ur_Owner req))
        then writeError StatusBadRequest "status and owner updates must use lease-aware endpoints"
        else
          let ns := effectiveAgentNamespace current in
          let wanted := omget (ur_Metadata req) namespaceMetadataKey in
          if decide (wanted <> "" /\ wanted <> ns)
          then writeError StatusForbidden "namespace_id metadata is immutable"
          else
            let updates := build_updates req ns in
            if UpdateAndGetProvider (h_bound h) then
              updated ← on_space "" (CUpdateAndGet id updates);
              match updated with
              | Err _ => writeError StatusInternalServerError "failed to update agent"
              | Ok t => answer_agent "" id t
              end
            else
              updated ← on_space "" (CUpdate id updates);
              match updated with
              | Err _ => writeError StatusInternalServerError "failed to update agent"
              | Ok _ => fetch_agent "" id
              end
    end).

(** ** Queries *)

Definition QueryAgents (r : Request) : prog outcome :=
  match decode_Query (rq_body r) with
  | Err _ => writeError StatusBadRequest "invalid query"
  | Ok query =>
      let query := applyPrincipalNamespaceToQuery r query in
      let query := if decide (q_Limit query = 0) then set_window query 100 (q_Offset query) else query in
      found ← on_space "" (CQuery query);
      match found with
      | Err _ => writeError StatusInternalServerError "failed to query agents"
      | Ok agents =>
          total ← countByQuery (set_window query 0 0);
          match total with
          | None => mret Pending
          | Some (Err _) => writeError StatusInternalServerError "failed to count agents"
          | Some (Ok total) => mret (writeJSON StatusOK (BQuery agents total))
          end
      end
  end.

(** The loop over the statuses: the counts of each and their sum. *)
Fixpoint stats_loop (query : Query) (statuses : list string) (counts : gmap string Z) (total : Z) : prog outcome :=
  match statuses with
  | [] => mret (writeJSON StatusOK (BStats counts total))
  | status :: statuses =>
      let q := set_QStatus query status in
      count ← (if Counter (h_bound h) then count ← on_space "" (CCount q); mret (Some count)
               else countAllWithSpace "" q 1000);
      match count with
      | None => mret Pending
      | Some (Err _) => writeError StatusInternalServerError "failed to compute stats"
      | Some (Ok n) => stats_loop query statuses (<[status := n]> counts) (total + n)
      end
  end.

Definition AgentStats (r : Request) : prog outcome :=
  match decode_Query (rq_body r) with
  | Err JInvalid => writeError StatusBadRequest "invalid query"
  | decoded =>
      let query := match decoded with Ok q => q | Err _ => empty_query end in
      let query := applyPrincipalNamespaceToQuery r query in
      let statuses := if decide (q_Status query = "")
                      then [StatusNew; StatusInProgress; StatusCompleted; StatusFailed]
                      else [q_Status query] in
      if StatusCounter (h_bound h) then
        grouped ← on_space "" (CCountByStatus (set_window (set_QStatus query "") 0 0));
        match grouped with
        | Err _ => writeError StatusInternalServerError "failed to compute stats"
        | Ok grouped =>
            let n status := default 0 (grouped !! status) in
            mret (writeJSON StatusOK (BStats (list_to_map ((fun s => (s, n s)) <$> statuses))
                                        (foldl Z.add 0 (n <$> statuses))))
        end
      else stats_loop query statuses ∅ 0
  end.

Definition timeout_text : string := "timeout waiting for agent".

Definition ReadAgent (r : Request) : prog outcome :=
  match decode_Read (rq_body r) with
  | Err _ => writeError StatusBadRequest "invalid request"
  | Ok req =>
      let query := applyPrincipalNamespaceToQuery r (rd_Query req) in
      if rd_Blocking req then
        let timeout := if decide (rd_Timeout req = 0) then 30 else rd_Timeout req in
        got ← on_space "" (CRead query (int64 (timeout * Time.Second)));
        match got with
        | None => mret Pending
        | Some (Err e) =>
            if decide (err_Error e = timeout_text) then writeError StatusRequestTimeout "request timeout"
            else writeError StatusInternalServerError "failed to read agent"
        | Some (Ok None) => mret (writeHeader StatusNoContent)
        | Some (Ok (Some t)) => mret (writeJSON StatusOK (BAgent t))
        end
      else
        let query := if decide (q_Limit query <= 0 \/ 1 < q_Limit query)
                     then set_window query 1 (q_Offset query) else query in
        found ← on_space "" (CQuery query);
        match found with
        | Err _ => writeError StatusInternalServerError "failed to read agent"
        | Ok [] => mret (writeHeader StatusNoContent)
        | Ok (t :: _) => mret (writeJSON StatusOK (BAgent t))
        end
  end.

(** ** Taking *)

Definition TakeAgent (r : Request) : prog outcome :=
  match decode_Take (rq_body r) with
  | Err _ => writeError StatusBadRequest "invalid request"
  | Ok query =>
      let query := taken_for r (applyPrincipalNamespaceToQuery r query) in
      taken ← on_space "" (CTake query);
      match taken with
      | Err e =>
          if err_DeadlineExceeded e then writeError StatusGatewayTimeout "operation timeout"
          else if err_Canceled e then writeError StatusGatewayTimeout "request canceled"
          else if isTransientError e then writeError StatusServiceUnavailable "service temporarily unavailable"
          else writeError StatusInternalServerError "failed to take agent"
      | Ok None => mret (writeHeader StatusNoContent)
      | Ok (Some t) =>
          mret (writeJSON StatusOK (if requestPrefersReturnMinimal r
                                    then BTaken (a_ID t) (a_LeaseToken t) (a_ShardID t) else BAgent t))
      end
  end.

Definition BatchTakeAgent (r : Request) : prog outcome :=
  match decode_BatchTake (rq_body r) with
  | Err _ => writeError StatusBadRequest "invalid request"
  | Ok req =>
      let query := taken_for r (applyPrincipalNamespaceToQuery r (bt_Query req)) in
      let limit := if decide (bt_Limit req <= 0) then 1 else bt_Limit req in
      let limit := if decide (100 < limit) then 100 else limit in
      if negb (BatchTakeProvider (h_bound h))
      then writeError StatusNotImplemented "batch take not supported by this backend"
      else
        taken ← on_space "" (CBatchTake query limit);
        match taken with
        | Err _ => writeError StatusInternalServerError "failed to batch take agents"
        | Ok [] => mret (writeHeader StatusNoContent)
        | Ok agents => mret (writeJSON StatusOK (BAgents agents))
        end
  end.

(** A nil agent without an error is dereferenced. *)
Definition InAgent (r : Request) : prog outcome :=
  match decode_In (rq_body r) with
  | Err _ => writeError StatusBadRequest "invalid request"
  | Ok req =>
      let timeout := if decide (in_Timeout req = 0) then 30 else in_Timeout req in
      let query := taken_for r (applyPrincipalNamespaceToQuery r (in_Query req)) in
      taken ← on_space "" (CIn query (int64 (timeout * Time.Second)));
      match taken with
      | None => mret Pending
      | Some (Err e) =>
          if decide (err_Error e = timeout_text) then writeError StatusRequestTimeout "request timeout"
          else if err_DeadlineExceeded e then writeError StatusRequestTimeout "request timeout"
          else if err_Canceled e then writeError StatusRequestTimeout "request canceled"
          else if isTransientError e then writeError StatusServiceUnavailable "service temporarily unavailable"
          else writeError StatusInternalServerError "failed to take agent"
      | Some (Ok None) => mret Panicked
      | Some (Ok (Some t)) => mret (writeJSON StatusOK (BAgent t))
      end
  end.

(** ** Operations under a lease *)

(** The identity headers, both required. *)
Definition with_lease_headers (r : Request) (k : string -> string -> prog outcome) : prog outcome :=
  let agentID := header r "X-Agent-ID" in
  if decide (agentID = "") then writeError StatusBadRequest "X-Agent-ID header required"
  else
    let leaseToken := header r "X-Lease-Token" in
    if decide (leaseToken = "") then writeError StatusBadRequest "X-Lease-Token header required"
    else k agentID leaseToken.

Definition complete_error (err : goerror) : prog outcome :=
  let errMsg := err_Error err in
  if contains_any errMsg ["TOKEN_MISMATCH"; "NOT_OWNER"; "lease token mismatch"; "cannot complete";
                          "complete rejected"; "owned by"]
  then writeError StatusForbidden "stale or invalid lease token"
  else if contains_any errMsg ["INVALID_STATUS"; "invalid status"]
  then writeError StatusConflict "agent not in correct state"
  else if contains_any errMsg ["AGENT_NOT_FOUND"; "agent not found"]
  then writeError StatusNotFound "agent not found"
  else writeError StatusInternalServerError "failed to complete agent".

(** [Complete] or [CompleteAndGet], whichever the handler uses: no agent from
    the former. *)
Definition complete_call (preferMinimal : bool) (shardID id agentID leaseToken : string)
    (result : option (gmap string any)) : prog (Prelude.result goerror (option Agent)) :=
  if negb preferMinimal && CompleteAndGetProvider (h_bound h)
  then on_space shardID (CCompleteAndGet id agentID leaseToken result)
  else
    completed ← on_space shardID (CComplete id agentID leaseToken result);
    mret (result_map (fun _ => None) completed).

Definition CompleteAgent (r : Request) : prog outcome :=
  let id := Strings.TrimSuffix (extractIDFromPath (rq_path r) "/api/v1/agents/") "/complete" in
  if decide (id = "") then writeError StatusBadRequest "missing agent ID"
  else
    let preferMinimal := requestPrefersReturnMinimal r in
    match decode_Complete (rq_body r) with
    | Err _ => writeError StatusBadRequest "invalid request body"
    | Ok req =>
        let shardID := co_ShardID req in
        let proceed := with_lease_headers r (fun agentID leaseToken =>
          completed ← complete_call preferMinimal shardID id agentID leaseToken (co_Result req);
          match completed with
          | Err e => complete_error e
          | Ok t => if preferMinimal then mret (writeHeader StatusNoContent) else answer_agent shardID id t
          end) in
        if decide (requestPrincipalNamespace r = "") then proceed
        else visible_agent shardID r id (fun _ => proceed)
    end.

(** How many outputs go to each queue. *)
Definition queue_additions (outputs : list CreateAgentRequest) : gmap string Z :=
  foldl (fun m out =>
    let queueName := Strings.TrimSpace (omget (cr_Metadata out) queueMetadataKey) in
    if decide (queueName = "") then m else <[queueName := default 0 (m !! queueName) + 1]> m) ∅ outputs.

Fixpoint queue_quotas (principal : AuthPrincipal) (namespaceID : string) (additions : list (string * Z))
    (k : prog outcome) : prog outcome :=
  match additions with
  | [] => k
  | (queueName, additional) :: additions =>
      allowed ← allowNamespaceAgentCreation principal namespaceID (Some {[queueMetadataKey := queueName]}) additional;
      within_quota allowed (queue_quotas principal namespaceID additions k)
  end.

(** The output agents, unless one asks for another namespace. *)
Definition output_agent (namespaceID : string) (out : CreateAgentRequest) : Agent :=
  {| a_ID := ""; a_Kind := cr_Kind out; a_Status := StatusNew; a_ShardID := "";
     a_Payload := cr_Payload out; a_Tags := cr_Tags out; a_Owner := ""; a_ParentID := cr_ParentID out;
     a_TraceID := cr_TraceID out; a_NamespaceID := namespaceID;
     a_TTL := if decide (0 < cr_TTL out) then int64 (cr_TTL out * Time.Second) else 0;
     a_CreatedAt := Time.zero_time; a_UpdatedAt := Time.zero_time; a_OwnerTime := Time.zero_time;
     a_LeaseToken := ""; a_LeaseUntil := Time.zero_time; a_Version := 0;
     a_Metadata := Some (let m := default ∅ (cr_Metadata out) in
                         if decide (namespaceID = "") then m else <[namespaceMetadataKey := namespaceID]> m) |}.

Definition convert_outputs (namespaceID : string) (outs : list CreateAgentRequest) : option (list Agent) :=
  if forallb (fun out => bool_decide (cr_NamespaceID out = "") || bool_decide (cr_NamespaceID out = namespaceID)) outs
  then Some (output_agent namespaceID <$> outs) else None.

Definition complete_and_out_error (err : goerror) : prog outcome :=
  let errMsg := err_Error err in
  if Strings.Contains errMsg "not found" then writeError StatusNotFound "agent not found"
  else if Strings.Contains errMsg "cross_shard_atomic_unsupported"
  then writeError StatusConflict "cross-shard CompleteAndOut is not supported"
  else if contains_any errMsg ["TOKEN_MISMATCH"; "NOT_OWNER"; "owned by"; "lease token mismatch"]
  then writeError StatusForbidden "not authorized to complete agent"
  else if Strings.Contains errMsg "invalid status" then writeError StatusConflict "agent in invalid state"
  else writeError StatusInternalServerError "failed to complete agent".

Definition CompleteAndOutAgent (r : Request) : prog outcome :=
  let id := Strings.TrimSuffix (extractIDFromPath (rq_path r) "/api/v1/agents/") "/complete-and-out" in
  if decide (id = "") then writeError StatusBadRequest "missing agent ID"
  else match decode_CompleteAndOut (rq_body r) with
  | Err _ => writeError StatusBadRequest "invalid request body"
  | Ok req =>
      let shardID := cao_ShardID req in
      visible_agent shardID r id (fun current =>
        let namespaceID := effectiveAgentNamespace current in
        let proceed := with_lease_headers r (fun agentID leaseToken =>
          match convert_outputs namespaceID (cao_Outputs req) with
          | None => writeError StatusForbidden "output namespace_id must inherit parent namespace"
          | Some outputs =>
              done ← on_space shardID (CCompleteAndOut id agentID leaseToken (cao_Result req) outputs);
              match done with
              | Err e => complete_and_out_error e
              | Ok (completed, created) => mret (writeJSON StatusOK (BCompleted completed created))
              end
          end) in
        match AuthPrincipalFromContext r with
        | None => proceed
        | Some principal =>
            allowed ← allowNamespaceAgentCreation principal namespaceID None (Z.of_nat (length (cao_Outputs req)));
            within_quota allowed
              (queue_quotas principal namespaceID (map_to_list (queue_additions (cao_Outputs req))) proceed)
        end)
  end.

Definition release_error (err : goerror) : prog outcome :=
  if Strings.Contains (err_Error err) "cannot release" then writeError StatusForbidden (err_Error err)
  else writeError StatusInternalServerError "failed to release agent".

Definition ReleaseAgent (r : Request) : prog outcome :=
  let id := Strings.TrimSuffix (extractIDFromPath (rq_path r) "/api/v1/agents/") "/release" in
  if decide (id = "") then writeError StatusBadRequest "missing agent ID"
  else with_lease_headers r (fun agentID leaseToken =>
    let req := if decide (0 < rq_length r)
               then match decode_Release (rq_body r) with Ok req => req | Err _ => MkReleaseRequest "" "" end
               else MkReleaseRequest "" "" in
    let shardID := re_ShardID req in
    visible_agent shardID r id (fun _ =>
      if ReleaseAndGetProvider (h_bound h) then
        released ← on_space shardID (CReleaseAndGet id agentID leaseToken (re_Reason req));
        match released with
        | Err e => release_error e
        | Ok t => answer_agent shardID id t
        end
      else
        released ← on_space shardID (CRelease id agentID leaseToken (re_Reason req));
        match released with
        | Err e => release_error e
        | Ok _ => fetch_agent shardID id
        end)).

Definition renew_error (err : goerror) : prog outcome :=
  let errMsg := err_Error err in
  if contains_any errMsg ["TOKEN_MISMATCH"; "lease token mismatch"; "NOT_OWNER"; "owned by"; "cannot renew";
                          "renew rejected"]
  then writeError StatusForbidden "stale or invalid lease token"
  else if contains_any errMsg ["INVALID_STATUS"; "invalid status"]
  then writeError StatusConflict "agent not in correct state"
  else if contains_any errMsg ["agent not found"; "AGENT_NOT_FOUND"]
  then writeError StatusNotFound "agent not found"
  else writeError StatusInternalServerError "failed to renew lease".

Definition RenewLeaseAgent (r : Request) : prog outcome :=
  let id := Strings.TrimSuffix (extractIDFromPath (rq_path r) "/api/v1/agents/") "/renew" in
  if decide (id = "") then writeError StatusBadRequest "missing agent ID"
  else with_lease_headers r (fun agentID leaseToken =>
    let decoded := if decide (0 < rq_length r \/ rq_length r = -1)
                   then decode_RenewLease (rq_body r) else Err JEOF in
    match decoded with
    | Err JInvalid => writeError StatusBadRequest "invalid request body"
    | _ =>
        let req := match decoded with Ok req => req | Err _ => MkRenewLeaseRequest 0 "" end in
        visible_agent (rn_ShardID req) r id (fun _ =>
          renewed ← on_space (rn_ShardID req)
                      (CRenewLease id agentID leaseToken (int64 (rn_LeaseSec req * Time.Second)));
          match renewed with
          | Err e => renew_error e
          | Ok t => mret (writeJSON StatusOK (BAgent t))
          end)
    end).

(** ** Events *)

(** [v, _ := strconv.Atoi(s)]: zero when the text is no number, the nearest
    bound when it does not fit. *)
Definition atoi_ignoring_error (s : string) : Z :=
  let '(neg, l) :=
    match bytes s with
    | c :: l => if decide (c = "-"%char) then (true, l)
                else if decide (c = "+"%char) then (false, l)
                else (false, c :: l)
    | [] => (false, [])
    end in
  match Strconv.digits l with
  | Some n => Z.max min_int64 (Z.min max_int64 (if (neg : bool) then - n else n))
  | None => 0
  end.

(** The criteria of the URL an event is filtered by. *)
Definition event_wanted (agentID eventType traceID : string) (e : Event) : bool :=
  (bool_decide (agentID = "") || bool_decide (e_AgentID e = agentID))
  && (bool_decide (eventType = "") || bool_decide (e_Type e = eventType))
  && (bool_decide (traceID = "") || bool_decide (e_TraceID e = traceID)).

(** Whether the agent of an event is in the namespace, looked up once per
    agent. *)
Fixpoint visible_events (namespaceID : string) (visibleByTupleID : gmap string bool) (events : list Event)
    : prog (list Event) :=
  match events with
  | [] => mret []
  | event :: events =>
      let tupleID := Strings.TrimSpace (e_TupleID event) in
      if decide (tupleID = "") then visible_events namespaceID visibleByTupleID events
      else
        visible ← (match visibleByTupleID !! tupleID with
                   | Some visible => mret visible
                   | None =>
                       got ← on_space "" (CGet tupleID);
                       mret match got with
                            | Ok t => bool_decide (effectiveAgentNamespace t = namespaceID)
                            | Err _ => false
                            end
                   end);
        rest ← visible_events namespaceID (<[tupleID := visible]> visibleByTupleID) events;
        mret (if (visible : bool) then event :: rest else rest)
  end.

Definition filterEventsForPrincipalWithSpace (r : Request) (events : list Event) : prog (list Event) :=
  if decide (requestPrincipalNamespace r = "") then mret events
  else visible_events (requestPrincipalNamespace r) ∅ events.

(** The loop over the global log: the window of the wanted events so far and
    their number. *)
Fixpoint global_loop (n : nat) (batchSize limit offset : Z) (wanted : Event -> bool)
    (filtered : list Event) (totalFiltered globalOffset : Z) : prog (option (result goerror (list Event * Z))) :=
  match n with
  | O => mret None
  | S n =>
      batch ← on_space "" (CGetGlobalEvents batchSize globalOffset);
      match batch with
      | Err e => mret (Some (Err e))
      | Ok [] => mret (Some (Ok (filtered, totalFiltered)))
      | Ok events =>
          let '(filtered, totalFiltered) :=
            foldl (fun '(filtered, total) e =>
              if wanted e then
                (if decide (offset <= total /\ Z.of_nat (length filtered) < limit) then (filtered ++ [e])%list else filtered,
                 total + 1)
              else (filtered, total)) (filtered, totalFiltered) events in
          let got := Z.of_nat (length events) in
          if decide (got < batchSize) then mret (Some (Ok (filtered, totalFiltered)))
          else global_loop n batchSize limit offset wanted filtered totalFiltered (globalOffset + got)
      end
  end.

Definition filterGlobalEvents (limit offset : Z) (agentID eventType traceID : string)
    : prog (option (result goerror (list Event * Z))) :=
  let limit := if decide (limit <= 0) then 100 else limit in
  let offset := if decide (offset < 0) then 0 else offset in
  let batchSize := if decide (limit < 500) then 500 else limit in
  global_loop fuel batchSize limit offset (event_wanted agentID eventType traceID) [] 0 0.

Definition answer_events (r : Request) (events : list Event) (nextCursor : string) : prog outcome :=
  filtered ← filterEventsForPrincipalWithSpace r events;
  mret (writeJSON StatusOK (BEvents filtered (Z.of_nat (length filtered)) nextCursor)).

(** [filtered[start:end]] with both ends cut to the length. *)
Definition events_slice (limit offset : Z) (filtered : list Event) : outcome :=
  let len := Z.of_nat (length filtered) in
  let start := if decide (len < offset) then len else offset in
  let end_ := int64 (offset + limit) in
  let end_ := if decide (len < end_) then len else end_ in
  if decide (0 <= start <= end_) then
    writeJSON StatusOK (BEvents (take (Z.to_nat (end_ - start)) (drop (Z.to_nat start) filtered)) len "")
  else Panicked.

Definition GetEvents (r : Request) : prog outcome :=
  let tupleID := url_param r "tuple_id" in
  let agentID := url_param r "agent_id" in
  let eventType := url_param r "type" in
  let traceID := url_param r "trace_id" in
  let limit := atoi_ignoring_error (url_param r "limit") in
  let offset := atoi_ignoring_error (url_param r "offset") in
  let cursor := url_param r "cursor" in
  let limit := if decide (limit = 0) then 100 else limit in
  let proceed :=
    if EventQuerier (h_bound h) then
      page ← on_space "" (CQueryEvents (MkEventQuery tupleID agentID eventType traceID limit offset cursor));
      match page with
      | Err _ => writeError StatusInternalServerError "failed to get events"
      | Ok page =>
          let page := default (MkEventPage [] 0 "") page in
          answer_events r (ep_Events page) (ep_NextCursor page)
      end
    else if decide (cursor <> "")
    then writeError StatusBadRequest "cursor pagination is not supported by this backend"
    else if decide (tupleID <> "") then
      events ← on_space "" (CGetEvents tupleID);
      match events with
      | Err _ => writeError StatusInternalServerError "failed to get events"
      | Ok events =>
          events ← filterEventsForPrincipalWithSpace r events;
          mret (events_slice limit offset (List.filter (event_wanted agentID eventType traceID) events))
      end
    else if decide (agentID <> "" \/ eventType <> "" \/ traceID <> "") then
      found ← filterGlobalEvents limit offset agentID eventType traceID;
      match found with
      | None => mret Pending
      | Some (Err _) => writeError StatusInternalServerError "failed to get global events"
      | Some (Ok (filtered, _)) => answer_events r filtered ""
      end
    else
      events ← on_space "" (CGetGlobalEvents limit offset);
      match events with
      | Err _ => writeError StatusInternalServerError "failed to get global events"
      | Ok events => answer_events r events ""
      end in
  if decide (tupleID = "") then proceed
  else visible_agent "" r tupleID (fun _ => proceed).

(** ** The graph, and statistics for administrators *)

Definition GetDAG (r : Request) : prog outcome :=
  let id := extractIDFromPath (rq_path r) "/api/v1/dag/" in
  if decide (id = "") then writeError StatusBadRequest "missing root agent ID"
  else visible_agent "" r id (fun _ =>
    dag ← on_space "" (CGetDAG id);
    match dag with
    | Err _ => writeError StatusInternalServerError "failed to get DAG"
    | Ok dag => mret (writeJSON StatusOK (BDag dag))
    end).

Definition requireAdmin (r : Request) (k : prog outcome) : prog outcome :=
  match AuthPrincipalFromContext r with
  | None => writeError StatusUnauthorized "admin authentication required"
  | Some principal => if ap_Admin principal then k else writeError StatusForbidden "admin access required"
  end.

Definition countAgentsFast : prog (option (result goerror Z)) := countByQuery empty_query.

Fixpoint event_count_loop (n : nat) (total offset : Z) : prog (option (result goerror Z)) :=
  match n with
  | O => mret None
  | S n =>
      page ← direct (CGetGlobalEvents 1000 offset);
      match page with
      | Err e => mret (Some (Err e))
      | Ok events =>
          let got := Z.of_nat (length events) in
          if decide (got < 1000) then mret (Some (Ok (total + got)))
          else event_count_loop n (total + got) (offset + 1000)
      end
  end.

Definition countEventsFast : prog (option (result goerror Z)) :=
  if EventQuerier (h_space h) then
    page ← direct (CQueryEvents (MkEventQuery "" "" "" "" 1 0 ""));
    mret (Some (result_map (fun page => match page with Some page => ep_Total page | None => 0 end) page))
  else event_count_loop fuel 0 0.

(** Whom an agent in progress counts for: its owner, or the [agent_id] of its
    metadata. *)
Definition active_owner (t : Agent) : string :=
  if decide (a_Owner t = "") then omget (a_Metadata t) "agent_id" else a_Owner t.

Fixpoint owners_loop (n : nat) (uniqueOwners : gset string) (offset : Z) : prog (option (result goerror Z)) :=
  match n with
  | O => mret None
  | S n =>
      page ← direct (CQuery (set_window (set_QStatus empty_query StatusInProgress) 500 offset));
      match page with
      | Err e => mret (Some (Err e))
      | Ok results =>
          let owners := uniqueOwners ∪ list_to_set (List.filter (fun o => negb (bool_decide (o = ""))) (active_owner <$> results)) in
          if decide (Z.of_nat (length results) < 500) then mret (Some (Ok (Z.of_nat (size owners))))
          else owners_loop n owners (offset + 500)
      end
  end.

Definition countActiveAgentsFast : prog (option (result goerror Z)) :=
  if StatusCounter (h_space h) then
    counts ← direct (CCountByStatus empty_query);
    match counts with
    | Err e => mret (Some (Err e))
    | Ok counts => if decide (default 0 (counts !! StatusInProgress) = 0) then mret (Some (Ok 0))
                   else owners_loop fuel ∅ 0
    end
  else owners_loop fuel ∅ 0.

(** The next figure, or the error of its count. *)
Definition or_fail (count : option (result goerror Z)) (message : string) (k : Z -> prog outcome) : prog outcome :=
  match count with
  | None => mret Pending
  | Some (Err _) => writeError StatusInternalServerError message
  | Some (Ok n) => k n
  end.

Definition GetStats (r : Request) : prog outcome :=
  requireAdmin r (
    total ← countAgentsFast;
    or_fail total "failed to count agents" (fun total =>
    events ← countEventsFast;
    or_fail events "failed to count events" (fun events =>
    active ← countActiveAgentsFast;
    or_fail active "failed to count active agents" (fun active =>
    mret (writeJSON StatusOK (BServer total events active (getBackendType h))))))).

(** ** Routing *)

(** The handler registered for [/api/v1/agents/]. *)
Definition agents_route (r : Request) : prog outcome :=
  let path := rq_path r in
  let post := bool_decide (rq_method r = "POST") in
  if bool_decide (path = "/api/v1/agents/query") && post then QueryAgents r
  else if bool_decide (path = "/api/v1/agents/stats") && post then AgentStats r
  else if bool_decide (path = "/api/v1/agents/read") && post then ReadAgent r
  else if bool_decide (path = "/api/v1/agents/take") && post then TakeAgent r
  else if bool_decide (path = "/api/v1/agents/batch-take") && post then BatchTakeAgent r
  else if bool_decide (path = "/api/v1/agents/in") && post then InAgent r
  else if Strings.HasSuffix path "/complete-and-out" && post then CompleteAndOutAgent r
  else if Strings.HasSuffix path "/complete" && post then CompleteAgent r
  else if Strings.HasSuffix path "/release" && post then ReleaseAgent r
  else if Strings.HasSuffix path "/renew" && post then RenewLeaseAgent r
  else if bool_decide (rq_method r = "GET") then GetAgent r
  else if bool_decide (rq_method r = "PUT") then UpdateAgent r
  else mret (http_Error "Method not allowed" StatusMethodNotAllowed).

(** The routes of the server whose handlers are modelled. *)
Definition route (r : Request) : option (prog outcome) :=
  let path := rq_path r in
  if decide (path = "/api/v1/agents") then
    Some (if decide (rq_method r = "POST") then CreateAgent r
          else mret (http_Error "Method not allowed" StatusMethodNotAllowed))
  else if Strings.HasPrefix path "/api/v1/agents/" then Some (agents_route r)
  else if decide (path = "/api/v1/events") then Some (GetEvents r)
  else if Strings.HasPrefix path "/api/v1/dag/" then Some (GetDAG r)
  else if decide (path = "/api/v1/stats" \/ path = "/stats") then Some (GetStats r)
  else None.

End Handlers.
