(* ===== verification/ApiIsolation.v ===== *)
(** * HTTP API: namespaces, with requests running concurrently

    What a space promises about the namespaces of its agents
    ([NamespacedSpace]), a rely/guarantee logic for handler programs over such
    a space ([safe]), and the proof that every handler is safe: whatever other
    requests do between its calls, it writes only agents of its principal's
    namespace and answers only those. *)

From S2P Require Import Prelude GoLib Agent ApiTypes ApiHandlers.
From stdpp Require Import gmap strings list fin_maps sets.
From Stdlib Require Import ZArith Lia.

Open Scope Z_scope.
Open Scope string_scope.

(** ** What a space promises *)

(** [stored]: what is kept under an identifier; [row_ns]: its namespace;
    [drawn]: the identifiers generated so far; [background]: what happens
    beside the requests (lease reaping). *)
Class SpaceState (W : Type) : Type := {
  row : Type;
  stored : W -> string -> option row;
  row_ns : row -> string;
  drawn : W -> string -> Prop;
  space_inv : W -> Prop;
  background : W -> W -> Prop;
}.

Section Promises.
Context {W : Type} `{St : SpaceState W}.
Implicit Types w : W.

Definition ns_of w (id : string) : option string := row_ns <$> stored w id.

Definition unchanged w w' : Prop := forall id, stored w' id = stored w id.

(** Only the agent [id] may differ, and it keeps its namespace. *)
Definition touches w (id : string) w' : Prop :=
  forall i, stored w' i = stored w i \/ i = id /\ ns_of w' i = ns_of w i /\ stored w i <> None.

(** Only agents a query with namespace [q] selects may differ, each keeping
    its namespace. *)
Definition claims w (q : Query) w' : Prop :=
  forall i, stored w' i = stored w i
            \/ ns_of w' i = ns_of w i /\ stored w i <> None
               /\ (q_NamespaceID q <> "" -> ns_of w i = Some (Strings.TrimSpace (q_NamespaceID q))).

(** An agent answered to such a query. *)
Definition selected w (q : Query) (t : Agent) : Prop :=
  ns_of w (a_ID t) = Some (effectiveAgentNamespace t)
  /\ (q_NamespaceID q <> "" -> effectiveAgentNamespace t = Strings.TrimSpace (q_NamespaceID q)).

(** The namespace an update asks for, if any, is the agent's. *)
Definition keeps_namespace w (id : string) (updates : gmap string any) : Prop :=
  updates !! "metadata" = None
  \/ exists m, updates !! "metadata" = Some (VStrMap m)
     /\ let ns := Strings.TrimSpace (mget m namespaceMetadataKey) in
        ns = "" \/ ns_of w id = None \/ ns_of w id = Some ns.

Definition answered {A} (P : A -> Prop) (x : result goerror A) : Prop :=
  match x with Ok a => P a | Err _ => True end.

Definition is_stored w (id : string) (t : Agent) : Prop := ns_of w id = Some (effectiveAgentNamespace t).

(** What a call may do to the stored agents, and what its answer says about
    them. *)
Definition promise (c : call) w : answer c -> W -> Prop :=
  match c with
  | CNow => fun _ w' => unchanged w w'
  | CUuid => fun id w' => unchanged w w' /\ id <> "" /\ ~ drawn w id /\ drawn w' id
  | CGet id => fun x w' => unchanged w w' /\ answered (is_stored w id) x
  | COut t => fun x w' =>
      (forall i, stored w' i = stored w i \/ i = a_ID t /\ ns_of w' i = Some (effectiveAgentNamespace t))
      /\ answered (fun t' => effectiveAgentNamespace t' = effectiveAgentNamespace t) x
  | CTake q => fun x w' => claims w q w' /\ answered (fun o => forall t, o = Some t -> selected w' q t) x
  | CBatchTake q _ => fun x w' => claims w q w' /\ answered (Forall (selected w' q)) x
  | CIn q _ => fun x w' =>
      claims w q w' /\ forall x', x = Some x' -> answered (fun o => forall t, o = Some t -> selected w' q t) x'
  | CRead q _ => fun x w' =>
      unchanged w w' /\ forall x', x = Some x' -> answered (fun o => forall t, o = Some t -> selected w q t) x'
  | CQuery q => fun x w' => unchanged w w' /\ answered (Forall (selected w q)) x
  | CCount _ | CCountByStatus _ | CGetEvents _ | CGetGlobalEvents _ _ | CQueryEvents _ | CGetDAG _ =>
      fun _ w' => unchanged w w'
  | CUpdate id u => fun _ w' => keeps_namespace w id u -> touches w id w'
  | CUpdateAndGet id u => fun x w' =>
      keeps_namespace w id u -> touches w id w' /\ answered (fun o => forall t, o = Some t -> is_stored w id t) x
  | CComplete id _ _ _ | CRelease id _ _ _ => fun _ w' => touches w id w'
  | CCompleteAndGet id _ _ _ | CReleaseAndGet id _ _ _ => fun x w' =>
      touches w id w' /\ answered (fun o => forall t, o = Some t -> is_stored w id t) x
  | CRenewLease id _ _ _ => fun x w' => touches w id w' /\ answered (is_stored w id) x
  | CCompleteAndOut id _ _ _ outs => fun x w' =>
      (forall i, stored w' i = stored w i \/ i = id /\ ns_of w' i = ns_of w i /\ stored w i <> None
                 \/ stored w i = None /\ ~ drawn w i
                    /\ exists out, out ∈ outs /\ ns_of w' i = Some (effectiveAgentNamespace out))
      /\ answered (fun '(t, created) => is_stored w id t
           /\ Forall (fun t' => exists out, out ∈ outs /\ effectiveAgentNamespace t' = effectiveAgentNamespace out) created) x
  end.

(** An agent whose namespace is blank has no other one in its metadata. *)
Definition coherent (t : Agent) : Prop :=
  a_NamespaceID t = "" \/ Strings.TrimSpace (a_NamespaceID t) <> ""
  \/ omget (a_Metadata t) namespaceMetadataKey = a_NamespaceID t.

(** How the space may be called: an agent is written under an identifier that
    was drawn, and outputs leave theirs to the store. *)
Definition admissible (c : call) w : Prop :=
  match c with
  | COut t => a_ID t <> "" /\ drawn w (a_ID t) /\ coherent t
  | CCompleteAndOut _ _ _ _ outs => Forall (fun out => a_ID out = "" /\ coherent out) outs
  | _ => True
  end.

End Promises.

(** The interface a store discharges: its operations keep the invariant and
    the promise; identifiers are drawn once; background work keeps every
    namespace and creates nothing. *)
Class NamespacedSpace (W : Type) `{Sp : Space W} `{St : SpaceState W} : Prop := {
  perform_promise : forall h c (w : W), space_inv w -> admissible c w ->
    let '(x, w') := perform h c w in
    space_inv w' /\ (forall id, drawn w id -> drawn w' id) /\ promise c w x w';
  stored_drawn : forall (w : W) id, space_inv w -> stored w id <> None -> drawn w id;
  background_promise : forall (w w' : W), space_inv w -> background w w' ->
    space_inv w' /\ (forall id, drawn w id -> drawn w' id)
    /\ (forall i, stored w' i = stored w i \/ ns_of w' i = ns_of w i /\ stored w i <> None);
}.

(** ** Scopes *)

(** The namespace a request is confined to, if any. *)
Definition scope (r : Request) : option string :=
  let ns := requestPrincipalNamespace r in if decide (ns = "") then None else Some ns.

Section Logic.
Context {W : Type} `{NS : NamespacedSpace W}.
Implicit Types w : W.

Definition extends w w' : Prop := forall id n, ns_of w id = Some n -> ns_of w' id = Some n.

#[global] Instance extends_preorder : PreOrder extends.
Proof. split; [by intros w id n|]. intros w1 w2 w3 H1 H2 id n H. by apply H2, H1. Qed.

(** Writes stay in the scope: an agent that differs afterwards is, and was if
    it existed, in the namespace; without a scope an existing agent keeps its
    namespace. *)
Definition confined (sc : option string) w w' : Prop :=
  forall id, stored w' id = stored w id
             \/ match sc with
                | Some ns => ns_of w' id = Some ns /\ (stored w id = None \/ ns_of w id = Some ns)
                | None => stored w id = None \/ ns_of w' id = ns_of w id
                end.

(** New agents appear under identifiers the program owned and gives up, or
    that were not drawn before. *)
Definition creates_own (own own' : gset string) w w' : Prop :=
  forall id, stored w id = None -> stored w' id <> None -> id ∈ own /\ id ∉ own' \/ ~ drawn w id.

Definition owned (own : gset string) w : Prop := forall id, id ∈ own -> drawn w id /\ stored w id = None.

(** The identifiers owned after a call: a drawn one is, until an agent is
    stored under it. *)
Definition own_after (own : gset string) (c : call) : answer c -> gset string :=
  match c with
  | CUuid => fun id => {[id]} ∪ own
  | COut t => fun _ => own ∖ {[a_ID t]}
  | _ => fun _ => own
  end.

(** What a response may show to a request of the scope. *)
Definition shows (sc : option string) w (b : body) : Prop :=
  match sc with
  | None => True
  | Some ns =>
      match b with
      | BAgent t => effectiveAgentNamespace t = ns
      | BAgents ts | BQuery ts _ => Forall (fun t => effectiveAgentNamespace t = ns) ts
      | BTaken id _ _ => ns_of w id = Some ns
      | BCompleted t created => Forall (fun t => effectiveAgentNamespace t = ns) (t :: created)
      | BEvents events _ _ => Forall (fun e => ns_of w (Strings.TrimSpace (e_TupleID e)) = Some ns) events
      | _ => True
      end
  end.

Definition discreet (sc : option string) w (o : outcome) : Prop :=
  match o with Responded r => shows sc w (rs_body r) | _ => True end.

(** A program is safe from [w] on: whatever state its next call meets, as
    long as namespaces are kept and its own identifiers unused, the call stays
    in scope and the rest is safe. *)
Fixpoint safe {A} (sc : option string) (Q : W -> A -> Prop) (own : gset string) w (p : prog A) : Prop :=
  match p with
  | Ret a => Q w a
  | Act h c k => forall w1, extends w w1 -> space_inv w1 -> owned own w1 ->
      admissible c w1 /\
      let '(x, w2) := perform h c w1 in
      confined sc w1 w2 /\ creates_own own (own_after own c x) w1 w2 /\ safe sc Q (own_after own c x) w2 (k x)
  end.

Lemma safe_extends {A} sc (Q : W -> A -> Prop) own w w' p :
  (forall w w' a, extends w w' -> Q w a -> Q w' a) ->
  extends w w' -> safe sc Q own w p -> safe sc Q own w' p.
Proof.
  intros HQ Hw. destruct p as [a|h c k]; simpl; [by apply HQ|].
  intros H w1 H1. apply H. by etrans.
Qed.

Lemma shows_extends sc w w' b : extends w w' -> shows sc w b -> shows sc w' b.
Proof.
  intros Hw. destruct sc as [ns|]; [|done]. destruct b; simpl; try done.
  - apply Hw.
  - intros H. eapply Forall_impl; [exact H|]. intros e He. by apply Hw.
Qed.

Lemma discreet_extends sc w w' o : extends w w' -> discreet sc w o -> discreet sc w' o.
Proof. destruct o; simpl; [apply shows_extends|done..]. Qed.

Lemma confined_extends sc w w' : confined sc w w' -> extends w w'.
Proof.
  intros H id n Hn. unfold ns_of in *. destruct (H id) as [->|H']; [done|].
  unfold ns_of in H'. destruct (stored w id) as [x|] eqn:Hx; [|done].
  destruct sc as [ns|].
  - destruct H' as (-> & [?|H']); [done|]. congruence.
  - destruct H' as [?| ->]; done.
Qed.

(** ** Rules *)

Lemma safe_bind {A B} sc (P : W -> A -> Prop) (Q : W -> B -> Prop) (p : prog A) (f : A -> prog B) own w :
  safe sc P own w p ->
  (forall own' w' a, extends w w' -> P w' a -> safe sc Q own' w' (f a)) ->
  safe sc Q own w (p ≫= f).
Proof.
  unfold mbind, prog_mbind. intros H Hf.
  assert (Hw : extends w w) by done. revert H Hw. generalize w at 1 3 4 as w0. revert own.
  induction p as [a|h c k IH]; intros own w0; simpl; [intros H Hw; by apply Hf|].
  intros H Hw w1 H1 H2 H3. destruct (H w1 H1 H2 H3) as [Ha H']. split; [done|].
  destruct (perform h c w1) as [x w2]. destruct H' as (Hc & ? & ?). split_and!; [done|done|]. apply IH; [done|].
  etrans; [exact Hw|]. etrans; [exact H1|]. by eapply confined_extends.
Qed.

Lemma safe_mono {A} sc (P Q : W -> A -> Prop) own w p :
  safe sc P own w p -> (forall w a, P w a -> Q w a) -> safe sc Q own w p.
Proof.
  intros H HPQ. revert own w H. induction p as [a|h c k IH]; intros own w; simpl; [by apply HPQ|].
  intros H w1 H1 H2 H3. destruct (H w1 H1 H2 H3) as [Ha H']. split; [done|].
  destruct (perform h c w1). destruct_and!. split_and!; auto.
Qed.

(** A call followed by its continuation. *)
Lemma safe_act {A} sc (Q : W -> A -> Prop) own w h c (k : answer c -> prog A) :
  (forall w1 x w2, extends w w1 -> owned own w1 -> promise c w1 x w2 -> extends w1 w2 ->
     safe sc Q (own_after own c x) w2 (k x)) ->
  (forall w1 x w2, extends w w1 -> owned own w1 -> promise c w1 x w2 ->
     confined sc w1 w2 /\ creates_own own (own_after own c x) w1 w2) ->
  (forall w1, extends w w1 -> owned own w1 -> admissible c w1) ->
  safe sc Q own w (Act h c k).
Proof.
  intros Hk Hc Ha w1 H1 H2 H3. split; [by apply Ha|].
  pose proof (perform_promise h c w1 H2 (Ha w1 H1 H3)) as Hp.
  destruct (perform h c w1) as [x w2]. destruct Hp as (Hi & Hd & Hp).
  destruct (Hc w1 x w2 H1 H3 Hp) as [Hc1 Hc2]. split_and!; [done|done|].
  eapply Hk; [done..|]. by eapply confined_extends.
Qed.

Lemma unchanged_confined sc own own' w w' : unchanged w w' -> confined sc w w' /\ creates_own own own' w w'.
Proof. intros H. split; [by intros id; left|]. intros id Hn Hs. by rewrite H, Hn in Hs. Qed.

Lemma touches_confined sc own own' w id w' :
  touches w id w' -> (forall ns, sc = Some ns -> ns_of w id = None \/ ns_of w id = Some ns) ->
  confined sc w w' /\ creates_own own own' w w'.
Proof.
  intros H Hns. split.
  - intros i. destruct (H i) as [?|(-> & Hi & Hs)]; [by left|right].
    destruct sc as [ns|]; [|by right].
    destruct (Hns ns eq_refl) as [Hn|Hn].
    + exfalso. unfold ns_of in Hn. by destruct (stored w id).
    + rewrite Hi. split; [done|by right].
  - intros i Hn Hs. destruct (H i) as [Hi|(_ & _ & ?)]; [by rewrite Hi, Hn in Hs|done].
Qed.

Lemma claims_confined sc own own' w q w' :
  claims w q w' -> (forall ns, sc = Some ns -> q_NamespaceID q <> "" /\ Strings.TrimSpace (q_NamespaceID q) = ns) ->
  confined sc w w' /\ creates_own own own' w w'.
Proof.
  intros H Hns. split.
  - intros i. destruct (H i) as [?|(Hi & Hs & Hq)]; [by left|right].
    destruct sc as [ns|]; [|by right].
    destruct (Hns ns eq_refl) as [Hne <-]. rewrite Hi, Hq by done. split; [done|by right].
  - intros i Hn Hs. destruct (H i) as [Hi|(_ & ? & _)]; [by rewrite Hi, Hn in Hs|done].
Qed.

End Logic.
