(* ===== verification/ApiSafety.v ===== *)
(** * HTTP API: every handler keeps to its principal's namespace

    The programs of [ApiHandlers] are [safe] in the sense of [ApiIsolation]
    over any [NamespacedSpace]. *)

From S2P Require Import Prelude GoLib Agent ApiTypes ApiHandlers ApiIsolation.
From stdpp Require Import gmap strings list fin_maps sets.
From Stdlib Require Import ZArith Lia.

Open Scope Z_scope.
Open Scope string_scope.

(** ** Scopes and queries *)

Lemma scope_Some r ns : scope r = Some ns -> ns = requestPrincipalNamespace r /\ ns <> "".
Proof. unfold scope. case_decide; [done|]. intros [= <-]. done. Qed.

Lemma scope_trimmed r ns : scope r = Some ns -> Strings.TrimSpace ns = ns.
Proof.
  intros [-> _]%scope_Some. unfold requestPrincipalNamespace.
  destruct (AuthPrincipalFromContext r); [apply Strings.TrimSpace_idemp|done].
Qed.

Lemma visible_scope r t ns :
  agentVisibleToPrincipal r t = true -> scope r = Some ns -> effectiveAgentNamespace t = ns.
Proof.
  unfold agentVisibleToPrincipal. rewrite orb_true_iff, !bool_decide_eq_true.
  intros Hv [-> ?]%scope_Some. naive_solver.
Qed.

(** A query restricted to the caller's namespace. *)
Definition scoped (r : Request) (q : Query) : Prop :=
  forall ns, scope r = Some ns -> q_NamespaceID q <> "" /\ Strings.TrimSpace (q_NamespaceID q) = ns.

Lemma apply_scoped r q : scoped r (applyPrincipalNamespaceToQuery r q).
Proof.
  intros ns Hs. pose proof (scope_trimmed r ns Hs) as Ht.
  apply scope_Some in Hs as [-> Hne]. unfold applyPrincipalNamespaceToQuery.
  rewrite decide_False by done. done.
Qed.

Lemma scoped_eq r q q' : q_NamespaceID q' = q_NamespaceID q -> scoped r q -> scoped r q'.
Proof. unfold scoped. by intros ->. Qed.

Lemma taken_for_namespace r q : q_NamespaceID (taken_for r q) = q_NamespaceID q.
Proof. unfold taken_for. by case_decide. Qed.

Section Safety.
Context {W : Type} `{NS : NamespacedSpace W} {Dec : Decoder} (h : Handlers) (fuel : nat).
Implicit Types w : W.

(** The agent [id] exists, in the caller's namespace. *)
Definition mine (r : Request) w (id : string) : Prop :=
  forall ns, scope r = Some ns -> ns_of w id = Some ns.

Lemma mine_extends r w w' id : extends w w' -> mine r w id -> mine r w' id.
Proof. intros Hw H ns Hs. by apply Hw, H. Qed.

Lemma selected_scope r w q t ns :
  scoped r q -> selected w q t -> scope r = Some ns -> effectiveAgentNamespace t = ns.
Proof. intros Hq [_ Ht] Hs. destruct (Hq ns Hs) as [Hne <-]. by apply Ht. Qed.

(** ** Tactics *)

(** Expose the next call. *)
Ltac expose := cbn [mbind prog_mbind prog_bind on_space direct mret prog_mret].

(** One call: its continuation first, then that the call stays in scope.
    The call meets a state that extends the last one known ([He]) and keeps
    its promise ([Hp]). *)
Ltac act :=
  expose;
  let x := fresh "x" in let He := fresh "He" in let Ho := fresh "Ho" in let Hp := fresh "Hp" in
  let Hs := fresh "He" in
  apply safe_act; [intros ? x ? He Ho Hp Hs; cbn [own_after promise] in *|intros ? x ? He Ho Hp; cbn [promise] in Hp
    |intros ? He Ho; cbn [admissible]; try exact I].

Ltac reads := apply unchanged_confined; by destruct_and?.

Lemma safe_writeError sc own w status message : safe sc (discreet sc) own w (writeError status message).
Proof. unfold writeError. act; [|reads]. simpl. unfold shows. by destruct sc. Qed.

Hint Resolve safe_writeError : core.

(** ** Counting and quotas change nothing *)

Lemma safe_count_loop sc own w n sid q page total offset :
  safe sc (fun _ _ => True) own w (count_loop n sid q page total offset).
Proof.
  revert own w total offset. induction n as [|n IH]; intros own w total offset; cbn [count_loop]; [done|].
  act; [|reads]. destruct x; [|done]. case_decide; [done|apply IH].
Qed.

Lemma safe_countByQuery sc own w q : safe sc (fun _ _ => True) own w (countByQuery h fuel q).
Proof.
  unfold countByQuery. destruct (Counter (h_space h)); [|apply safe_count_loop].
  act; [done|reads].
Qed.

Lemma safe_counted sc own w q k :
  (forall own w n, safe sc (fun _ _ => True) own w (k n)) ->
  safe sc (fun _ _ => True) own w (counted h fuel q k).
Proof.
  intros Hk. unfold counted. eapply safe_bind; [apply safe_countByQuery|].
  intros own' w' [[n|e]|] _ _; [apply Hk|done..].
Qed.

Lemma safe_quota sc own w p ns m n :
  safe sc (fun _ _ => True) own w (allowNamespaceAgentCreation h fuel p ns m n).
Proof.
  assert (Hq : forall cap ns' own w, safe sc (fun _ _ => True) own w (queue_quota h fuel cap ns' m n)).
  { intros cap ns' own' w'. unfold queue_quota. case_decide; [|done]. by apply safe_counted. }
  unfold allowNamespaceAgentCreation. repeat case_decide; try done; try apply Hq;
    (apply safe_counted; intros own1 w1 c1; apply safe_counted; intros own2 w2 c2; case_decide; [done|apply Hq]).
Qed.

Lemma safe_within_quota sc own w allowed k :
  safe sc (discreet sc) own w k -> safe sc (discreet sc) own w (within_quota allowed k).
Proof. destruct allowed as [[]|[]]; cbn [within_quota]; auto. done. Qed.

(** ** Reading one agent *)

Lemma safe_visible_agent r sid id k own w :
  (forall own' w' t, extends w w' -> mine r w' id ->
     (forall ns, scope r = Some ns -> effectiveAgentNamespace t = ns) ->
     ns_of w' id = Some (effectiveAgentNamespace t) ->
     safe (scope r) (discreet (scope r)) own' w' (k t)) ->
  safe (scope r) (discreet (scope r)) own w (visible_agent sid r id k).
Proof.
  intros Hk. unfold visible_agent. act; [|reads].
  destruct x as [t|e]; [|auto]. destruct (agentVisibleToPrincipal r t) eqn:Hv; [|auto].
  cbn [promise] in *. destruct_and!. simpl in *. unfold is_stored in *.
  apply Hk; [by etrans| | |].
  - intros ns Hs. rewrite <- (visible_scope r t ns Hv Hs). eauto.
  - intros ns. by apply visible_scope.
  - eauto.
Qed.

Lemma safe_GetAgent r own w : safe (scope r) (discreet (scope r)) own w (GetAgent r).
Proof.
  unfold GetAgent. case_decide; [auto|]. apply safe_visible_agent. intros own' w' t _ _ Ht _.
  simpl. unfold shows. destruct (scope r); auto.
Qed.

(** The agent answered last is the one asked for. *)
Lemma safe_fetch r own w sid id :
  mine r w id -> safe (scope r) (discreet (scope r)) own w (fetch_agent sid id).
Proof.
  intros Hm. unfold fetch_agent. act; [|reads]. destruct x as [t|e]; [|auto].
  cbn [promise] in *. destruct_and!. simpl in *. unfold is_stored, shows in *.
  destruct (scope r) as [ns|] eqn:Hs; [|done].
  match goal with H : extends w ?w1 |- _ => pose proof (H _ _ (Hm ns Hs)) end. congruence.
Qed.

Lemma safe_answer r own w sid id o :
  mine r w id -> (forall t, o = Some t -> forall ns, scope r = Some ns -> effectiveAgentNamespace t = ns) ->
  safe (scope r) (discreet (scope r)) own w (answer_agent sid id o).
Proof.
  intros Hm Ho. destruct o as [t|]; [|by apply safe_fetch]. simpl. unfold shows.
  destruct (scope r); [|done]. by apply (Ho t).
Qed.

(** ** Creating and updating *)

Lemma effective_set_Metadata t m :
  effectiveAgentNamespace (set_Metadata m t) =
  (if decide (Strings.TrimSpace (a_NamespaceID t) = "") then Strings.TrimSpace (omget m namespaceMetadataKey)
   else Strings.TrimSpace (a_NamespaceID t)).
Proof. by destruct t. Qed.

(** Storing an agent of the scope under an identifier of the program's own. *)
Lemma safe_store r own w t k :
  a_ID t ∈ own -> a_ID t <> "" -> coherent t ->
  (forall ns, scope r = Some ns -> effectiveAgentNamespace t = ns) ->
  (forall own' w' x, answered (fun t' => effectiveAgentNamespace t' = effectiveAgentNamespace t) x ->
     safe (scope r) (discreet (scope r)) own' w' (k x)) ->
  safe (scope r) (discreet (scope r)) own w (on_space "" (COut t) ≫= k).
Proof.
  intros Hx Hne Hco Ht Hk. act.
  - apply Hk. by destruct Hp as [_ Ha].
  - destruct Hp as [Hw _]. split.
    + intros i. destruct (Hw i) as [?|[-> Hi]]; [by left|right].
      destruct (Ho _ Hx) as [_ Hnone].
      destruct (scope r); [rewrite Hi, (Ht _ eq_refl); split; [done|by left]|by left].
    + intros i Hn Hs. destruct (Hw i) as [Hi|[-> _]]; [by rewrite Hi, Hn in Hs|left]. set_solver.
  - split_and!; [done| |done]. by apply Ho.
Qed.

Lemma created_coherent t : coherent (created_metadata t).
Proof.
  unfold coherent, created_metadata. destruct t as [? ? ? ? ? ? ? ? ? ns ? ? ? ? ? ? ? m]. simpl.
  destruct (decide (ns = "")); [by left|]. right; right. apply mget_insert_eq.
Qed.

Lemma create_namespace r req nsid :
  (let bound := match AuthPrincipalFromContext r with Some p => ap_NamespaceID p | None => "" end in
   nsid = if decide (bound = "") then Strings.TrimSpace (cr_NamespaceID req) else bound) ->
  forall ns, scope r = Some ns -> Strings.TrimSpace nsid = ns /\ ns <> "".
Proof.
  intros Hn ns [-> Hne]%scope_Some. split; [|done]. unfold requestPrincipalNamespace in *.
  destruct (AuthPrincipalFromContext r) as [p|]; [|done]. cbn in Hn. subst nsid.
  case_decide as Hb; [|done]. by rewrite Hb in Hne.
Qed.

Lemma safe_CreateAgent r own w : safe (scope r) (discreet (scope r)) own w (CreateAgent h fuel r).
Proof.
  unfold CreateAgent. destruct (decode_CreateAgent (rq_body r)) as [req|]; [|auto].
  case_decide; [auto|].
  match goal with |- context [new_agent _ _ _ ?n] => remember n as nsid eqn:Hn end.
  pose proof (create_namespace r req nsid Hn) as Hns. clear Hn.
  eapply safe_bind with (P := fun _ _ => True).
  { destruct (AuthPrincipalFromContext r); [apply safe_quota|done]. }
  intros own' w' allowed _ _. apply safe_within_quota.
  act; [|reads]. act; [|reads]. act; [|reads].
  destruct Hp as (_ & Hne & _).
  assert (Hout : forall own w trace, x ∈ own ->
    safe (scope r) (discreet (scope r)) own w
      (let t := created_metadata (new_agent x req trace nsid x0 x1) in
       stored ← on_space "" (COut t);
       match stored with
       | Err e => if isTransientError e
                  then writeError StatusServiceUnavailable "service temporarily unavailable"
                  else writeError StatusInternalServerError "failed to create agent"
       | Ok t => mret (writeJSON StatusCreated (BAgent t))
       end)).
  { clear -Hns Hne NS. intros own w trace Hx. cbn zeta.
    assert (Ht : forall ns, scope r = Some ns ->
              effectiveAgentNamespace (created_metadata (new_agent x req trace nsid x0 x1)) = ns).
    { intros ns Hs. destruct (Hns ns Hs) as [Hn Hn0]. unfold created_metadata.
      rewrite effective_set_Metadata. simpl. rewrite Hn. by rewrite decide_False by done. }
    apply safe_store; [done|done|apply created_coherent|done|]. intros own' w' [t'|e] Ha; [|destruct (isTransientError e); auto].
    simpl in *. unfold shows. destruct (scope r); [|done]. rewrite Ha. auto. }
  case_decide; [act; [|reads]|]; apply Hout; set_solver.
Qed.

Lemma build_updates_keeps w id req ns :
  ns_of w id = Some ns ->
  ~ (omget (ur_Metadata req) namespaceMetadataKey <> "" /\ omget (ur_Metadata req) namespaceMetadataKey <> ns) ->
  Strings.TrimSpace ns = ns ->
  keeps_namespace w id (build_updates req ns).
Proof.
  intros Hns Hw Htrim. unfold keeps_namespace, build_updates.
  destruct (ur_Metadata req) as [m|].
  - right. eexists. rewrite lookup_insert_eq. split; [done|]. cbn in Hw. case_decide as Hd.
    + left. destruct (decide (mget m namespaceMetadataKey = "")) as [->|]; [done|].
      exfalso. apply Hw. split; [done|]. congruence.
    + right; right. by rewrite mget_insert_eq, Htrim.
  - left. destruct (ur_Tags req), (ur_Payload req); rewrite ?lookup_insert_ne by done; apply lookup_empty.
Qed.

Lemma effective_trimmed t : Strings.TrimSpace (effectiveAgentNamespace t) = effectiveAgentNamespace t.
Proof. unfold effectiveAgentNamespace. case_decide; apply Strings.TrimSpace_idemp. Qed.

Lemma keeps_namespace_extends w w' id u : extends w w' -> ns_of w id <> None -> keeps_namespace w id u -> keeps_namespace w' id u.
Proof.
  intros Hw Hid [H|(m & Hm & H)]; [by left|right]. exists m. split; [done|]. cbn in *.
  destruct H as [H|[H|H]]; [by left|done|]. right; right. by apply Hw.
Qed.

(** A call that only touches an agent of the scope stays in scope. *)
Lemma mine_touches r own own' w w1 w2 id :
  mine r w id -> extends w w1 -> touches w1 id w2 -> confined (scope r) w1 w2 /\ creates_own own own' w1 w2.
Proof. intros Hm Hw Ht. eapply touches_confined; [done|]. intros ns Hs. right. by apply Hw, Hm. Qed.

(** The same for the agent it answers. *)
Lemma mine_stored r w w1 id t ns :
  mine r w id -> extends w w1 -> is_stored w1 id t -> scope r = Some ns -> effectiveAgentNamespace t = ns.
Proof. intros Hm Hw Ht Hs. pose proof (Hw _ _ (Hm ns Hs)). unfold is_stored in Ht. congruence. Qed.

Lemma safe_UpdateAgent r own w : safe (scope r) (discreet (scope r)) own w (UpdateAgent h r).
Proof.
  unfold UpdateAgent. case_decide; [auto|]. apply safe_visible_agent. intros own' w' t Hw Hm Ht Hst.
  destruct (decode_UpdateAgent _) as [req|]; [|auto]. case_decide; [auto|]. case_decide as Hn; [auto|].
  pose proof (build_updates_keeps w' _ req _ Hst Hn (effective_trimmed t)) as Hk.
  assert (Hk' : forall w1, extends w' w1 -> keeps_namespace w1
            (extractIDFromPath (rq_path r) "/api/v1/agents/") (build_updates req (effectiveAgentNamespace t))).
  { intros w1 Hw1. eapply keeps_namespace_extends; [done| |done]. congruence. }
  destruct (UpdateAndGetProvider _); act.
  - destruct x as [o|]; [|auto]. destruct Hp as [_ Ha]; [auto|].
    apply safe_answer; [eauto using mine_extends|]. intros t' -> ns Hs.
    eapply mine_stored; [exact Hm|exact He| |exact Hs]. by apply Ha.
  - destruct Hp; [auto|]. by eapply mine_touches.
  - destruct x as [o|]; [|auto]. apply safe_fetch. eauto using mine_extends.
  - eapply mine_touches; eauto.
Qed.

(** ** Queries and takes *)

Lemma selected_all r w q ts ns :
  scoped r q -> Forall (selected w q) ts -> scope r = Some ns -> Forall (fun t => effectiveAgentNamespace t = ns) ts.
Proof. intros Hq HF Hs. eapply Forall_impl; [exact HF|]. intros t Ht. by eapply selected_scope. Qed.

Lemma safe_QueryAgents r own w : safe (scope r) (discreet (scope r)) own w (QueryAgents h fuel r).
Proof.
  unfold QueryAgents. destruct (decode_Query _) as [q|]; [|auto]. cbn zeta.
  match goal with |- context [CQuery ?q] => assert (Hq : scoped r q); [|generalize dependent q; intros q' Hq] end.
  { case_decide; [|apply apply_scoped]. eapply scoped_eq; [|apply apply_scoped]. done. }
  act; [|reads]. destruct x as [ts|]; [|auto]. destruct Hp as [_ Hts]. simpl in Hts.
  eapply safe_bind; [apply safe_countByQuery|]. intros own' w' [[n|e]|] _ _; [|auto|done].
  cbn. unfold shows. destruct (scope r) as [ns|] eqn:Hs; [|done]. by eapply selected_all.
Qed.

Lemma safe_stats_loop r own w q l counts total :
  safe (scope r) (discreet (scope r)) own w (stats_loop h fuel q l counts total).
Proof.
  revert own w counts total. induction l as [|s l IH]; intros own w counts total; cbn [stats_loop].
  { cbn. unfold shows. by destruct (scope r). }
  eapply safe_bind with (P := fun _ _ => True).
  { destruct (Counter _); [act; [done|reads]|apply safe_count_loop]. }
  intros own' w' [[n|e]|] _ _; [apply IH|auto|done].
Qed.

Lemma safe_AgentStats r own w : safe (scope r) (discreet (scope r)) own w (AgentStats h fuel r).
Proof.
  assert (Hk : forall q own w, safe (scope r) (discreet (scope r)) own w
    (let query := applyPrincipalNamespaceToQuery r q in
     let statuses := if decide (q_Status query = "")
                     then [StatusNew; StatusInProgress; StatusCompleted; StatusFailed] else [q_Status query] in
      if StatusCounter (h_bound h) then
        grouped ← on_space "" (CCountByStatus (set_window (set_QStatus query "") 0 0));
        match grouped with
        | Err _ => writeError StatusInternalServerError "failed to compute stats"
        | Ok grouped =>
            let n status := default 0 (grouped !! status) in
            mret (writeJSON StatusOK (BStats (list_to_map ((fun s => (s, n s)) <$> statuses))
                                        (foldl Z.add 0 (n <$> statuses))))
        end
      else stats_loop h fuel query statuses ∅ 0)).
  { intros q own' w'. cbn zeta. destruct (StatusCounter _); [|apply safe_stats_loop].
    act; [|reads]. destruct x; [|auto]. cbn. unfold shows. by destruct (scope r). }
  unfold AgentStats. destruct (decode_Query _) as [q|[]]; [apply Hk|apply Hk|auto].
Qed.

Lemma safe_ReadAgent r own w : safe (scope r) (discreet (scope r)) own w (ReadAgent r).
Proof.
  unfold ReadAgent. destruct (decode_Read _) as [req|]; [|auto]. cbn zeta.
  pose proof (apply_scoped r (rd_Query req)) as Hq.
  destruct (rd_Blocking req).
  - act; [|reads]. destruct Hp as [_ Hp]. destruct x as [x|]; [|done]. specialize (Hp x eq_refl).
    destruct x as [[t|]|e]; [| |case_decide; auto]; cbn; unfold shows; destruct (scope r) as [ns|] eqn:Hs; try done.
    eapply selected_scope; [exact Hq|by apply Hp|done].
  - match goal with |- context [CQuery ?q] => assert (Hq' : scoped r q); [|generalize dependent q; intros q' Hq'] end.
    { case_decide; [|done]. by eapply scoped_eq. }
    act; [|reads]. destruct Hp as [_ Hts]. destruct x as [[|t ts]|]; [| |auto]; cbn; unfold shows;
      destruct (scope r) as [ns|] eqn:Hs; try done.
    eapply selected_scope; [exact Hq'| |done]. simpl in Hts. by apply Forall_cons in Hts as [? _].
Qed.

Lemma scoped_take r q : scoped r (taken_for r (applyPrincipalNamespaceToQuery r q)).
Proof. eapply scoped_eq; [apply taken_for_namespace|apply apply_scoped]. Qed.

Lemma selected_minimal r w q t ns :
  scoped r q -> selected w q t -> scope r = Some ns -> ns_of w (a_ID t) = Some ns.
Proof. intros Hq Ht Hs. rewrite <- (selected_scope r w q t ns Hq Ht Hs). by destruct Ht. Qed.

Lemma safe_TakeAgent r own w : safe (scope r) (discreet (scope r)) own w (TakeAgent r).
Proof.
  unfold TakeAgent. destruct (decode_Take _) as [q|]; [|auto]. cbn zeta.
  pose proof (scoped_take r q) as Hq. generalize dependent (taken_for r (applyPrincipalNamespaceToQuery r q)).
  intros q' Hq. act; [|by eapply claims_confined; [apply Hp|apply Hq]].
  destruct Hp as [_ Hp]. destruct x as [[t|]|e]; simpl in Hp.
  - specialize (Hp t eq_refl). cbn. unfold shows. destruct (scope r) as [ns|] eqn:Hs; [|done].
    destruct (requestPrefersReturnMinimal r); [by eapply selected_minimal|by eapply selected_scope].
  - cbn. unfold shows. by destruct (scope r).
  - repeat match goal with |- context [if ?b then _ else _] => destruct b; [auto|] end. auto.
Qed.

Lemma safe_BatchTakeAgent r own w : safe (scope r) (discreet (scope r)) own w (BatchTakeAgent h r).
Proof.
  unfold BatchTakeAgent. destruct (decode_BatchTake _) as [req|]; [|auto]. cbn zeta.
  destruct (BatchTakeProvider _); simpl negb; cbv iota; [|auto].
  pose proof (scoped_take r (bt_Query req)) as Hq.
  act; [|by eapply claims_confined; [apply Hp|apply Hq]].
  destruct Hp as [_ Hp]. destruct x as [[|t ts]|]; [| |auto]; simpl in Hp; cbn; unfold shows;
    destruct (scope r) as [ns|] eqn:Hs; try done.
  by eapply (selected_all r _ _ (t :: ts)).
Qed.

Lemma safe_InAgent r own w : safe (scope r) (discreet (scope r)) own w (InAgent r).
Proof.
  unfold InAgent. destruct (decode_In _) as [req|]; [|auto]. cbn zeta.
  pose proof (scoped_take r (in_Query req)) as Hq.
  act; [|by eapply claims_confined; [apply Hp|apply Hq]].
  destruct Hp as [_ Hp]. destruct x as [x|]; [|done]. specialize (Hp x eq_refl).
  destruct x as [[t|]|e]; simpl in Hp; [|done|].
  - specialize (Hp t eq_refl). cbn. unfold shows. destruct (scope r) as [ns|] eqn:Hs; [|done].
    by eapply selected_scope.
  - repeat (case_match; auto).
Qed.

(** ** Operations under a lease *)

Lemma safe_lease_headers sc own w r k :
  (forall who tok, safe sc (discreet sc) own w (k who tok)) ->
  safe sc (discreet sc) own w (with_lease_headers r k).
Proof. intros Hk. unfold with_lease_headers. by repeat (case_decide; [auto|]). Qed.

Lemma safe_complete_error sc own w e : safe sc (discreet sc) own w (complete_error e).
Proof. unfold complete_error. repeat (case_match; auto). Qed.
Lemma safe_complete_and_out_error sc own w e : safe sc (discreet sc) own w (complete_and_out_error e).
Proof. unfold complete_and_out_error. repeat (case_match; auto). Qed.
Lemma safe_release_error sc own w e : safe sc (discreet sc) own w (release_error e).
Proof. unfold release_error. repeat (case_match; auto). Qed.
Lemma safe_renew_error sc own w e : safe sc (discreet sc) own w (renew_error e).
Proof. unfold renew_error. repeat (case_match; auto). Qed.
Hint Resolve safe_complete_error safe_complete_and_out_error safe_release_error safe_renew_error : core.

Lemma safe_CompleteAgent r own w : safe (scope r) (discreet (scope r)) own w (CompleteAgent h r).
Proof.
  unfold CompleteAgent. case_decide; [auto|]. destruct (decode_Complete _) as [req|]; [|auto]. cbn zeta.
  set (id := Strings.TrimSuffix _ _) in *.
  assert (Hgo : forall own w, mine r w id -> safe (scope r) (discreet (scope r)) own w
    (with_lease_headers r (fun agentID leaseToken =>
      completed ← complete_call h (requestPrefersReturnMinimal r) (co_ShardID req) id agentID leaseToken (co_Result req);
      match completed with
      | Err e => complete_error e
      | Ok t => if requestPrefersReturnMinimal r then mret (writeHeader StatusNoContent)
                else answer_agent (co_ShardID req) id t
      end))).
  { clear own w. intros own w Hm. apply safe_lease_headers. intros who tok.
    eapply safe_bind with (P := fun w' x => mine r w' id
      /\ answered (fun o => forall t, o = Some t -> forall ns, scope r = Some ns -> effectiveAgentNamespace t = ns) x).
    - unfold complete_call. destruct (negb _ && _); act.
      + destruct Hp as [_ Hp]. split; [by eauto using mine_extends|]. destruct x as [o|]; [|done].
        intros t -> ns Hs. eapply mine_stored; [exact Hm|exact He|by apply Hp|done].
      + by eapply mine_touches; [| |apply Hp].
      + split; [by eauto using mine_extends|]. by destruct x.
      + by eapply mine_touches; [| |apply Hp].
    - intros own' w' x He [Hm' Hx]. destruct x as [o|e]; [|auto].
      destruct (requestPrefersReturnMinimal r); [|by apply safe_answer].
      cbn. unfold shows. by destruct (scope r). }
  case_decide as Hns.
  - apply Hgo. intros ns [-> ?]%scope_Some. done.
  - apply safe_visible_agent. auto.
Qed.

Lemma output_namespace ns out :
  Strings.TrimSpace ns = ns -> ns <> "" -> effectiveAgentNamespace (output_agent ns out) = ns.
Proof. intros Ht Hne. unfold effectiveAgentNamespace. simpl. rewrite Ht. by rewrite decide_False by done. Qed.

Lemma output_coherent ns out : Strings.TrimSpace ns = ns -> coherent (output_agent ns out).
Proof. intros Ht. unfold coherent. simpl. destruct (decide (ns = "")); [by left|right; left; congruence]. Qed.

Lemma convert_outputs_Some ns outs ts :
  convert_outputs ns outs = Some ts -> Forall (fun t => exists out, t = output_agent ns out) ts.
Proof.
  unfold convert_outputs. destruct (forallb _ _); [|done]. intros [= <-].
  apply Forall_fmap, Forall_forall. intros out _. by exists out.
Qed.

Lemma safe_queue_quotas sc own w p ns l k :
  (forall own w', extends w w' -> safe sc (discreet sc) own w' k) ->
  safe sc (discreet sc) own w (queue_quotas h fuel p ns l k).
Proof.
  revert own w. induction l as [|[q n] l IH]; intros own w Hk; cbn [queue_quotas]; [by apply Hk|].
  eapply safe_bind; [apply safe_quota|]. intros own' w' x He _. apply safe_within_quota, IH.
  intros own1 w1 He1. apply Hk. by etrans.
Qed.

(** Completing an agent of the scope with outputs of its namespace. *)
Lemma safe_complete_and_out_call r own w sid id who tok result ns outs :
  mine r w id -> (forall n, scope r = Some n -> ns = n) -> Strings.TrimSpace ns = ns ->
  Forall (fun t => exists out, t = output_agent ns out) outs ->
  safe (scope r) (discreet (scope r)) own w
    (done ← on_space sid (CCompleteAndOut id who tok result outs);
     match done with
     | Err e => complete_and_out_error e
     | Ok (completed, created) => mret (writeJSON StatusOK (BCompleted completed created))
     end).
Proof.
  intros Hm Hns Htrim Houts.
  assert (Hids : Forall (fun out => a_ID out = "" /\ coherent out) outs).
  { eapply Forall_impl; [exact Houts|]. intros t [out ->]. split; [done|by apply output_coherent]. }
  assert (Heff : forall t n, t ∈ outs -> scope r = Some n -> effectiveAgentNamespace t = n).
  { intros t n Ht Hs. rewrite Forall_forall in Houts. destruct (Houts t Ht) as [out ->].
    rewrite (Hns n Hs). apply output_namespace; [by eapply scope_trimmed|by apply scope_Some in Hs as [_ ?]]. }
  act.
  - destruct Hp as [_ Hp]. destruct x as [[t created]|e]; [|auto]. simpl in Hp.
    destruct Hp as [Ht Hc]. cbn. unfold shows. destruct (scope r) as [n|] eqn:Hs; [|done].
    constructor; [by eapply mine_stored|]. eapply Forall_impl; [exact Hc|].
    intros t' (out & Hin & ->). by apply Heff.
  - destruct Hp as [Hp _]. split.
    + intros i. destruct (Hp i) as [?|[(-> & Hi & Hsome)|(Hn & _ & out & Hin & Hi)]]; [by left|right..].
      * destruct (scope r) as [n|] eqn:Hs; [|by right]. rewrite Hi. split; [|right]; by apply He, Hm.
      * destruct (scope r) as [n|] eqn:Hs; [|by left]. rewrite Hi, (Heff out n Hin eq_refl). split; [done|by left].
    + intros i Hn Hsome. destruct (Hp i) as [Hi|[(_ & _ & ?)|(_ & Hd & _)]]; [by rewrite Hi, Hn in Hsome|done|by right].
  - done.
Qed.

Lemma safe_CompleteAndOutAgent r own w : safe (scope r) (discreet (scope r)) own w (CompleteAndOutAgent h fuel r).
Proof.
  unfold CompleteAndOutAgent. case_decide; [auto|]. destruct (decode_CompleteAndOut _) as [req|]; [|auto].
  cbn zeta. set (id := Strings.TrimSuffix _ _) in *. apply safe_visible_agent.
  intros own1 w1 t _ Hm Ht _. match goal with |- context [queue_quotas _ _ _ _ _ ?p] => set (proceed := p) end.
  assert (Hgo : forall own w, extends w1 w -> safe (scope r) (discreet (scope r)) own w proceed).
  { intros own2 w2 He. apply safe_lease_headers. intros who tok.
    destruct (convert_outputs _ _) as [outs|] eqn:Ho; [|auto].
    eapply safe_complete_and_out_call; [by eapply mine_extends|exact Ht|apply effective_trimmed|by eapply convert_outputs_Some]. }
  destruct (AuthPrincipalFromContext r) as [p|]; [|by apply Hgo].
  eapply safe_bind; [apply safe_quota|]. intros own2 w2 x He _.
  apply safe_within_quota, safe_queue_quotas. intros own3 w3 He3. apply Hgo. by etrans.
Qed.

Lemma safe_ReleaseAgent r own w : safe (scope r) (discreet (scope r)) own w (ReleaseAgent h r).
Proof.
  unfold ReleaseAgent. case_decide; [auto|]. set (id := Strings.TrimSuffix _ _) in *.
  apply safe_lease_headers. intros who tok. cbn zeta. apply safe_visible_agent.
  intros own1 w1 t _ Hm _ _. destruct (ReleaseAndGetProvider _); act.
  - destruct Hp as [_ Hp]. destruct x as [o|e]; [|auto]. apply safe_answer; [by eauto using mine_extends|].
    intros t' -> ns Hs. eapply mine_stored; [exact Hm|exact He|by apply Hp|done].
  - by eapply mine_touches; [| |apply Hp].
  - destruct x as [o|e]; [|auto]. apply safe_fetch. by eauto using mine_extends.
  - by eapply mine_touches; [| |apply Hp].
Qed.

Lemma safe_RenewLeaseAgent r own w : safe (scope r) (discreet (scope r)) own w (RenewLeaseAgent r).
Proof.
  unfold RenewLeaseAgent. case_decide; [auto|]. set (id := Strings.TrimSuffix _ _) in *.
  apply safe_lease_headers. intros who tok. cbn zeta.
  assert (Hgo : forall sid dur, safe (scope r) (discreet (scope r)) own w
    (visible_agent sid r id (fun _ =>
       renewed ← on_space sid (CRenewLease id who tok dur);
       match renewed with
       | Err e => renew_error e
       | Ok t => mret (writeJSON StatusOK (BAgent t))
       end))).
  { intros sid dur. apply safe_visible_agent. intros own1 w1 t _ Hm _ _. act.
    - destruct x as [t'|e]; [|auto]. destruct Hp as [_ Hp]. simpl in Hp. cbn. unfold shows.
      destruct (scope r) as [ns|] eqn:Hs; [|done]. by eapply mine_stored.
    - by eapply mine_touches; [| |apply Hp]. }
  destruct (if decide (0 < rq_length r \/ rq_length r = -1) then _ else _) as [req|[]]; [apply Hgo|apply Hgo|auto].
Qed.

(** ** Events and the graph *)

Definition events_mine (ns : string) w (events : list Event) : Prop :=
  Forall (fun e => ns_of w (Strings.TrimSpace (e_TupleID e)) = Some ns) events.

Lemma events_mine_extends ns w w' l : extends w w' -> events_mine ns w l -> events_mine ns w' l.
Proof. intros He H. eapply Forall_impl; [exact H|]. intros e Hx. by apply He. Qed.

Lemma safe_visible_events sc own w ns cache events :
  (forall id, cache !! id = Some true -> ns_of w id = Some ns) ->
  safe sc (fun w' l => events_mine ns w' l) own w (visible_events ns cache events).
Proof.
  revert own w cache. induction events as [|e events IH]; intros own w cache Hc; cbn [visible_events].
  { by constructor. }
  cbn zeta. case_decide; [by apply IH|]. set (id := Strings.TrimSpace _) in *.
  assert (Hgo : forall own w (visible : bool), (forall id, cache !! id = Some true -> ns_of w id = Some ns) ->
    (visible = true -> ns_of w id = Some ns) ->
    safe sc (fun w' l => events_mine ns w' l) own w
      (rest ← visible_events ns (<[id := visible]> cache) events;
       mret (if visible then e :: rest else rest))).
  { clear -IH NS. intros own w visible Hc Hv. eapply safe_bind; [apply IH|].
    - intros i. destruct (decide (i = id)) as [->|Hne].
      + rewrite lookup_insert_eq. intros [= ->]. auto.
      + rewrite lookup_insert_ne by done. auto.
    - intros own' w' rest He Hr. destruct visible; [|done]. constructor; [|done]. by apply He, Hv. }
  destruct (cache !! id) as [v|] eqn:Hid.
  - apply (Hgo own w v Hc). intros ->. auto.
  - act; [|reads]. destruct Hp as [_ Hp]. apply Hgo.
    + intros i Hi. apply He0, He. auto.
    + destruct x as [t|]; [|done]. intros <-%bool_decide_eq_true. by apply He0.
Qed.

Lemma safe_filter_events r own w events :
  safe (scope r) (fun w' l => forall ns, scope r = Some ns -> events_mine ns w' l) own w
    (filterEventsForPrincipalWithSpace r events).
Proof.
  unfold filterEventsForPrincipalWithSpace. case_decide as Hn.
  - intros ns [-> ?]%scope_Some. done.
  - assert (scope r = Some (requestPrincipalNamespace r)) as Hs by (unfold scope; by rewrite decide_False).
    eapply safe_mono; [apply safe_visible_events; intros id; by rewrite lookup_empty|].
    intros w' l Hl ns. rewrite Hs. by intros [= <-].
Qed.

Lemma safe_answer_events r own w events cursor :
  safe (scope r) (discreet (scope r)) own w (answer_events r events cursor).
Proof.
  unfold answer_events. eapply safe_bind; [apply safe_filter_events|].
  intros own' w' l _ Hl. cbn. unfold shows. destruct (scope r); auto. by apply Hl.
Qed.

Lemma discreet_slice sc w limit offset l :
  (forall ns, sc = Some ns -> events_mine ns w l) -> discreet sc w (events_slice limit offset l).
Proof.
  intros Hl. unfold events_slice. repeat case_decide; try done; simpl; unfold shows; destruct sc as [ns|]; try done;
    apply Forall_take, Forall_drop; by apply Hl.
Qed.

Lemma safe_global_loop sc own w n batch limit offset wanted fl total goff :
  safe sc (fun _ _ => True) own w (global_loop n batch limit offset wanted fl total goff).
Proof.
  revert own w fl total goff. induction n as [|n IH]; intros own w fl total goff; cbn [global_loop]; [done|].
  act; [|reads]. destruct x as [[|e l]|]; [done| |done]. cbn zeta. destruct (foldl _ _ _).
  case_decide; [done|apply IH].
Qed.

Lemma safe_GetEvents r own w : safe (scope r) (discreet (scope r)) own w (GetEvents h fuel r).
Proof.
  unfold GetEvents. cbn zeta. match goal with |- context [visible_agent _ _ _ (fun _ => ?p)] => set (proceed := p) end.
  assert (Hgo : forall own w, safe (scope r) (discreet (scope r)) own w proceed).
  { clear own w. intros own w. unfold proceed. destruct (EventQuerier _).
    { act; [|reads]. destruct x as [page|]; [|auto]. apply safe_answer_events. }
    case_decide; [auto|]. case_decide.
    { act; [|reads]. destruct x as [l|]; [|auto]. eapply safe_bind; [apply safe_filter_events|].
      intros own' w' l' _ Hl. apply discreet_slice. intros ns Hs.
      apply Forall_forall. intros e Hin. apply list_elem_of_In, filter_In in Hin as [Hin _].
      specialize (Hl ns Hs). unfold events_mine in Hl. rewrite Forall_forall in Hl. by apply Hl, list_elem_of_In. }
    case_decide.
    { eapply safe_bind; [apply safe_global_loop|]. intros own' w' [[[l n]|e]|] _ _; [apply safe_answer_events|auto|done]. }
    act; [|reads]. destruct x as [l|]; [|auto]. apply safe_answer_events. }
  case_decide; [apply Hgo|]. apply safe_visible_agent. auto.
Qed.

Lemma safe_GetDAG r own w : safe (scope r) (discreet (scope r)) own w (GetDAG r).
Proof.
  unfold GetDAG. case_decide; [auto|]. apply safe_visible_agent. intros own' w' t _ _ _ _.
  act; [|reads]. destruct x; [|auto]. cbn. unfold shows. by destruct (scope r).
Qed.

(** ** Statistics *)

Lemma safe_or_fail sc own w count message k :
  (forall n, safe sc (discreet sc) own w (k n)) -> safe sc (discreet sc) own w (or_fail count message k).
Proof. intros Hk. destruct count as [[n|e]|]; cbn [or_fail]; auto. done. Qed.

Lemma safe_event_count_loop sc own w n total offset :
  safe sc (fun _ _ => True) own w (event_count_loop n total offset).
Proof.
  revert own w total offset. induction n as [|n IH]; intros own w total offset; cbn [event_count_loop]; [done|].
  act; [|reads]. destruct x; [|done]. case_decide; [done|apply IH].
Qed.

Lemma safe_owners_loop sc own w n owners offset :
  safe sc (fun _ _ => True) own w (owners_loop n owners offset).
Proof.
  revert own w owners offset. induction n as [|n IH]; intros own w owners offset; cbn [owners_loop]; [done|].
  act; [|reads]. destruct x; [|done]. cbn zeta. case_decide; [done|apply IH].
Qed.

Lemma safe_GetStats r own w : safe (scope r) (discreet (scope r)) own w (GetStats h fuel r).
Proof.
  unfold GetStats, requireAdmin. destruct (AuthPrincipalFromContext r) as [p|]; [|auto].
  destruct (ap_Admin p); [|auto]. eapply safe_bind; [apply safe_countByQuery|]. intros own1 w1 n1 _ _.
  apply safe_or_fail. intros n. eapply safe_bind with (P := fun _ _ => True).
  { unfold countEventsFast. destruct (EventQuerier _); [act; [done|reads]|apply safe_event_count_loop]. }
  intros own2 w2 n2 _ _. apply safe_or_fail. intros n'. eapply safe_bind with (P := fun _ _ => True).
  { unfold countActiveAgentsFast. destruct (StatusCounter _); [|apply safe_owners_loop].
    act; [|reads]. destruct x; [|done]. case_decide; [done|apply safe_owners_loop]. }
  intros own3 w3 n3 _ _. apply safe_or_fail. intros n''. cbn. unfold shows. by destruct (scope r).
Qed.

(** ** Every route *)

Lemma safe_agents_route r own w : safe (scope r) (discreet (scope r)) own w (agents_route h fuel r).
Proof.
  unfold agents_route. cbn zeta. repeat case_match.
  all: first [apply safe_QueryAgents|apply safe_AgentStats|apply safe_ReadAgent|apply safe_TakeAgent
    |apply safe_BatchTakeAgent|apply safe_InAgent|apply safe_CompleteAndOutAgent|apply safe_CompleteAgent
    |apply safe_ReleaseAgent|apply safe_RenewLeaseAgent|apply safe_GetAgent|apply safe_UpdateAgent
    |by cbn; unfold shows; destruct (scope r)].
Qed.

Lemma safe_route r p own w :
  route h fuel r = Some p -> safe (scope r) (discreet (scope r)) own w p.
Proof.
  unfold route. cbn zeta. repeat case_match; intros [= <-].
  all: first [apply safe_CreateAgent|apply safe_agents_route|apply safe_GetEvents|apply safe_GetDAG|apply safe_GetStats
    |by cbn; unfold shows; destruct (scope r)].
Qed.

End Safety.
