(* ===== verification/ApiServer.v ===== *)
(** * HTTP API: the server under concurrent requests

    Requests arrive at any time, their programs advance one call at a time in
    any order, and background work happens in between.  Every reachable state
    keeps each request to its principal's namespace. *)

From S2P Require Import Prelude GoLib Agent ApiTypes ApiHandlers ApiIsolation ApiSafety.
From stdpp Require Import gmap strings list fin_maps sets relations.
From Stdlib Require Import ZArith Lia.

Open Scope Z_scope.

(** A request being served, and the state of the server. *)
Record thread : Type := MkThread { th_request : Request; th_prog : prog outcome }.
Record server (W : Type) : Type := MkServer { sv_threads : list thread; sv_world : W }.
Arguments MkServer {W}.
Arguments sv_threads {W}.
Arguments sv_world {W}.

Section Server.
Context {W : Type} `{NS : NamespacedSpace W} {Dec : Decoder} (h : Handlers).

Inductive server_step : server W -> server W -> Prop :=
| step_arrive ts w n r p :
    route h n r = Some p -> server_step (MkServer ts w) (MkServer (ts ++ [MkThread r p]) w)
| step_call ts w i r sid c k :
    ts !! i = Some (MkThread r (Act sid c k)) ->
    server_step (MkServer ts w)
      (MkServer (<[i := MkThread r (k (perform sid c w).1)]> ts) (perform sid c w).2)
| step_background ts w w' :
    background w w' -> server_step (MkServer ts w) (MkServer ts w').

(** A thread that is safe from the present state on, with the identifiers it
    has drawn and not used. *)
Definition thread_ok (w : W) (t : thread) (own : gset string) : Prop :=
  owned own w /\ safe (scope (th_request t)) (discreet (scope (th_request t))) own w (th_prog t).

(** Every thread is, and no identifier has two owners. *)
Definition server_inv (s : server W) : Prop :=
  space_inv (sv_world s)
  /\ exists owns : list (gset string),
       Forall2 (thread_ok (sv_world s)) (sv_threads s) owns
       /\ forall i j own own', i <> j -> owns !! i = Some own -> owns !! j = Some own' -> own ## own'.

(** A thread is not disturbed by a step that keeps namespaces and creates
    agents only under identifiers of its own or new ones. *)
Lemma undisturbed w w' t (own mine_ mine_' : gset string) :
  extends w w' -> (forall id, drawn w id -> drawn w' id) -> creates_own mine_ mine_' w w' -> own ## mine_ ->
  thread_ok w t own -> thread_ok w' t own.
Proof.
  intros He Hd Hc Hdis [Ho Hs]. split; [|by eapply safe_extends; [apply discreet_extends|..]].
  intros id Hid. destruct (Ho id Hid) as [Hdr Hn]. split; [auto|].
  destruct (stored w' id) eqn:Hst; [|done]. exfalso.
  destruct (Hc id Hn) as [[? _]|?]; [congruence|set_solver|done].
Qed.

(** The identifiers of a thread after its call: those it had, and a new
    one. *)
Lemma own_after_new own c w x w' id :
  promise c w x w' -> id ∈ own_after own c x ->
  id ∈ own \/ ~ drawn w id /\ drawn w' id /\ stored w' id = stored w id.
Proof.
  destruct c; cbn [own_after promise]; intros Hp Hid; try (by left); [|set_solver].
  apply elem_of_union in Hid as [->%elem_of_singleton|?]; [right|by left].
  destruct Hp as (Hu & _ & ? & ?). split_and!; [done|done|apply Hu].
Qed.

Lemma own_after_owned own c w x w' :
  space_inv w -> owned own w -> (forall id, drawn w id -> drawn w' id) -> promise c w x w' ->
  creates_own own (own_after own c x) w w' -> owned (own_after own c x) w'.
Proof.
  intros Hi Ho Hd Hp Hc id Hid. destruct (own_after_new own c w x w' id Hp Hid) as [Hin|(Hnd & Hd' & Hs)].
  - destruct (Ho id Hin) as [? Hn]. split; [auto|].
    destruct (stored w' id) eqn:Hst; [|done]. exfalso.
    destruct (Hc id Hn) as [[_ ?]|?]; [congruence|done..].
  - split; [done|]. rewrite Hs. destruct (stored w id) eqn:Hst; [|done].
    exfalso. apply Hnd, stored_drawn; [done|congruence].
Qed.

Lemma Forall2_insert_other {A B} (P Q : A -> B -> Prop) l k i a b a' b' :
  Forall2 P l k -> l !! i = Some a -> k !! i = Some b -> Q a' b' ->
  (forall j x y, j <> i -> l !! j = Some x -> k !! j = Some y -> P x y -> Q x y) ->
  Forall2 Q (<[i := a']> l) (<[i := b']> k).
Proof.
  intros HF Hl Hk Hq Hother. apply Forall2_same_length_lookup_2.
  - rewrite !length_insert. by eapply Forall2_length.
  - intros j x y Hx Hy. destruct (decide (j = i)) as [->|Hne].
    + rewrite list_lookup_insert_eq in Hx by (by eapply lookup_lt_Some).
      rewrite list_lookup_insert_eq in Hy by (by eapply lookup_lt_Some). naive_solver.
    + rewrite list_lookup_insert_ne in Hx by done. rewrite list_lookup_insert_ne in Hy by done.
      eapply Hother; [done..|]. by eapply Forall2_lookup_lr.
Qed.

Lemma step_keeps_inv s s' : server_step s s' -> server_inv s -> server_inv s'.
Proof.
  intros Hstep (Hi & owns & HF & Hdis). destruct Hstep as [ts w n r p Hr|ts w i r sid c k Hk|ts w w' Hb]; simpl in *.
  - split; [done|]. exists (owns ++ [∅]). split.
    + apply Forall2_app; [done|]. constructor; [|constructor].
      split; [intros id; set_solver|by eapply safe_route].
    + intros i j own own' Hne Hown Hown'. rewrite lookup_snoc_Some in Hown. rewrite lookup_snoc_Some in Hown'.
      destruct Hown as [[_ H1]|[_ <-]], Hown' as [[_ H2]|[_ <-]]; [by eapply (Hdis i j)|set_solver..].
  - destruct (Forall2_lookup_l _ _ _ _ _ HF Hk) as (own & Hown & Ho & Hs). simpl in Hs.
    destruct (Hs w (reflexivity w) Hi Ho) as [Had Hs']. pose proof (perform_promise sid c w Hi Had) as Hp.
    destruct (perform sid c w) as [x w'] eqn:Hperf. simpl.
    destruct Hp as (Hi' & Hd & Hp), Hs' as (Hc & Hcr & Hs'). split; [done|].
    exists (<[i := own_after own c x]> owns). split.
    + eapply Forall2_insert_other; [done|done|done|split; [by apply (own_after_owned own c w)|done]|].
      intros j t own' Hne Ht Hown' Hok. eapply undisturbed; [by eapply confined_extends|done|exact Hcr| |done].
      by eapply Hdis.
    + assert (Hnew : forall j own', j <> i -> owns !! j = Some own' -> own' ## own_after own c x).
      { intros j own' Hne Hj id Hid Hid'. destruct (own_after_new own c w x w' id Hp Hid') as [Hin|(Hnd & _)].
        - by eapply (Hdis j i).
        - destruct (Forall2_lookup_r _ _ _ _ _ HF Hj) as (t & _ & Ho' & _). by apply Hnd, Ho'. }
      intros a b o1 o2 Hab H1 H2.
      destruct (decide (a = i)) as [->|Ha], (decide (b = i)) as [->|Hb]; [done|..].
      * rewrite list_lookup_insert_eq in H1 by (by eapply lookup_lt_Some).
        rewrite list_lookup_insert_ne in H2 by done. injection H1 as <-. symmetry. by eapply Hnew.
      * rewrite list_lookup_insert_ne in H1 by done.
        rewrite list_lookup_insert_eq in H2 by (by eapply lookup_lt_Some). injection H2 as <-. by eapply Hnew.
      * rewrite list_lookup_insert_ne in H1 by done. rewrite list_lookup_insert_ne in H2 by done. by eapply (Hdis a b).
  - destruct (background_promise w w' Hi Hb) as (Hi' & Hd & Hsame). split; [done|]. exists owns. simpl. split; [|done].
    eapply Forall2_impl; [exact HF|]. intros t own. eapply (undisturbed _ _ _ _ ∅ ∅); [|done| |set_solver].
    + intros id n Hn. destruct (Hsame id) as [E|[E _]]; [|by rewrite E]. unfold ns_of in *. by rewrite E.
    + intros id Hn Hs. destruct (Hsame id) as [E|[_ E]]; [by rewrite E in Hs|done].
Qed.

Lemma reachable_inv w s : space_inv w -> rtc server_step (MkServer [] w) s -> server_inv s.
Proof.
  intros Hi Hr. assert (server_inv (MkServer [] w)) as H0.
  { split; [done|]. exists []. split; [constructor|]. intros i j own own' _ H. by rewrite lookup_nil in H. }
  induction Hr as [|s1 s2 s3 Hs _ IH]; [done|]. apply IH. by eapply step_keeps_inv.
Qed.

(** What a reachable state says of its threads: a response shows only what
    its request may see, and the next call of a request writes only what it
    may write. *)
Definition isolates (s : server W) : Prop :=
  Forall (fun t => match th_prog t with
                   | Ret o => discreet (scope (th_request t)) (sv_world s) o
                   | Act sid c _ => confined (scope (th_request t)) (sv_world s) (perform sid c (sv_world s)).2
                   end) (sv_threads s).

Lemma inv_isolates s : server_inv s -> isolates s.
Proof.
  intros (Hi & owns & HF & _). apply Forall_forall. intros t Ht.
  apply list_elem_of_lookup in Ht as [i Ht]. destruct (Forall2_lookup_l _ _ _ _ _ HF Ht) as (own & _ & Ho & Hs).
  destruct (th_prog t) as [o|sid c k]; [done|]. destruct (Hs _ (reflexivity _) Hi Ho) as [_ Hs'].
  destruct (perform sid c (sv_world s)). by destruct Hs'.
Qed.

End Server.
