(* ===== verification/ApiSqlite.v ===== *)
(** * HTTP API over the SQLite store

    The SQLite store as a space of the handlers: each call runs the operation
    of [Sqlite*.v], errors become Go errors with their texts.  The store keeps
    the promises of [NamespacedSpace]. *)

From S2P Require Import Prelude GoLib Agent Common Effects Sql SqliteRows SqliteQuery SqliteLifecycle SqliteCore SqliteEvents SqliteReaper SqliteRefine SqliteDag SqliteReads ApiTypes ApiHandlers ApiIsolation ApiSafety ApiServer.
From stdpp Require Import gmap strings list fin_maps sets.
From Stdlib Require Import ZArith Lia.

Open Scope Z_scope.

(** ** Error texts *)

(** [strconv.Quote] ([%q]), the text of a JSON error, and which texts of the
    database driver wrap an error of package context. *)
Class GoText : Type := {
  quote : string -> string;
  json_error : string;
  text_deadline : string -> bool;
  text_canceled : string -> bool;
}.

Section ErrorText.
Context `{G : GoText}.
Open Scope string_scope.

Fixpoint error_text (e : gerror) : string :=
  match e with
  | EAgentIDRequired => "agent ID is required"
  | ELeaseTokenRequired => "lease token is required"
  | ENotFound id => "agent not found: " +:+ id
  | EStaleToken => "TOKEN_MISMATCH_STALE"
  | EInvalidStatus s => "invalid status: " +:+ s
  | EOwnedBy verb owner agentID =>
      "cannot " +:+ verb +:+ ": agent owned by " +:+ quote owner +:+ ", not " +:+ quote agentID
  | ETokenMismatch => "lease token mismatch"
  | ERejected verb => verb +:+ " rejected"
  | ETimeout => "timeout waiting for agent"
  | ECtxDone => "context canceled"
  | ETxDone => "sql: transaction has already been committed or rolled back"
  | ENoRows => "sql: no rows in result set"
  | EBadJSON => json_error
  | EInvalidMode raw => "invalid postgres queue claim mode " +:+ quote raw
  | ESQL msg => msg
  | EDB msg => msg
  | EMessage msg => msg
  | EWrap context e => context +:+ ": " +:+ error_text e
  end.

Definition to_goerror (e : gerror) : goerror :=
  match root_cause e with
  | EDB msg => MkGoError (error_text e) (text_deadline msg) (text_canceled msg)
  | ECtxDone => MkGoError (error_text e) false true
  | _ => MkGoError (error_text e) false false
  end.

End ErrorText.

Create HintDb reading.

(** ** The store as a space *)

(** How many polls a blocking call is watched for. *)
Class PollFuel : Type := poll_fuel : nat.

Section SqliteSpace.
Context `{E : Env} `{Srt : SqlOrder} `{G : GoText} `{F : PollFuel}.

(** The value or error of an operation, as a handler gets it. *)
Definition op {A B} (f : A -> B) (m : M DB A) (w : World DB) : result goerror B * World DB :=
  let '(r, w') := m w in
  (match r with Ok a => Ok (f a) | Err e => Err (to_goerror e) end, w').

(** A blocking operation that has not returned within [poll_fuel] polls is
    still waiting. *)
Definition blocking (m : M DB (option Agent)) (w : World DB)
    : option (result goerror (option Agent)) * World DB :=
  let '(r, w') := m w in
  (match r with
   | Ok None => None
   | Ok (Some t) => Some (Ok (Some t))
   | Err e => Some (Err (to_goerror e))
   end, w').

(** A method the store does not have; handlers ask before they call one. *)
Definition no_method {A} (w : World DB) : result goerror A * World DB :=
  (Err (MkGoError "method not implemented" false false), w).

Definition dag_or_empty (o : option DAG) : DAG := default (MkDAG ∅ []) o.

#[export] Instance sqlite_space : Space (World DB) := fun _ c =>
  match c return World DB -> answer c * World DB with
  | CNow => fun w => (clock_at (w_clock w), (now w).2)
  | CUuid => fun w => (uuid_at (w_uuid w), (new_uuid w).2)
  | CGet id => op (fun x => x) (Get id)
  | COut t => op (fun x => x) (Out t)
  | CTake q => op (fun x => x) (Take (Some q))
  | CBatchTake _ _ => no_method
  | CIn q timeout => blocking (In_ poll_fuel (Some q) timeout)
  | CRead q timeout => blocking (Read poll_fuel (Some q) timeout)
  | CQuery q => op (fun x => x) (Query_ (Some q))
  | CCount q => op (fun x => x) (Count (Some q))
  | CCountByStatus _ => no_method
  | CUpdate id u => op (fun x => x) (Update id (Some u))
  | CUpdateAndGet id u => op Some (UpdateAndGet id (Some u))
  | CComplete id who tok res => op (fun x => x) (Complete id who tok res)
  | CCompleteAndGet id who tok res => op Some (CompleteAndGet id who tok res)
  | CCompleteAndOut id who tok res outs => op (fun x => x) (CompleteAndOut id who tok res outs)
  | CRelease id who tok reason => op (fun x => x) (Release id who tok reason)
  | CReleaseAndGet id who tok reason => op Some (ReleaseAndGet id who tok reason)
  | CRenewLease id who tok dur => op (fun x => x) (RenewLease id who tok dur)
  | CGetEvents id => op (fun x => x) (SqliteEvents.GetEvents id)
  | CGetGlobalEvents limit offset => op (fun x => x) (GetGlobalEvents limit offset)
  | CQueryEvents q => op Some (QueryEvents (Some q))
  | CGetDAG id => fun w => op dag_or_empty (SqliteLifecycle.GetDAG (dag_fuel (w_db w)) id) w
  end.

(** What the store implements of the optional interfaces. *)
Definition sqlite_capabilities : Capabilities := MkCapabilities true true true false true false true.
Definition sqlite_handlers : Handlers := MkHandlers sqlite_capabilities sqlite_capabilities "sqlite".

Definition row_namespace (r : Row) : string :=
  Strings.TrimSpace (omget (unmarshal_metadata (r_metadata r)) NamespaceMetadataKey).

Definition uuid_drawn (w : World DB) (id : string) : Prop := exists n, (n < w_uuid w)%nat /\ uuid_at n = id.

#[export] Instance sqlite_state : SpaceState (World DB) := {
  row := Row;
  stored w id := agents (w_db w) !! id;
  row_ns := row_namespace;
  drawn := uuid_drawn;
  space_inv w := keyed (w_db w) /\ forall id, agents (w_db w) !! id <> None -> uuid_drawn w id;
  background w w' := w' = (reapExpiredLeases w).2;
}.

(** ** Namespaces of rows and agents *)

Lemma scan_row_namespace r t : scanSQLiteAgent r = Ok t -> effectiveAgentNamespace t = row_namespace r.
Proof.
  unfold scanSQLiteAgent, effectiveAgentNamespace, row_namespace.
  destruct (unmarshal_map _); [|done]. intros [= <-]. simpl. by case_decide.
Qed.

(** The namespace an agent is stored under. *)
Definition stored_namespace (t : Agent) : string :=
  Strings.TrimSpace (if decide (a_NamespaceID t = "")%string then omget (a_Metadata t) NamespaceMetadataKey
                     else a_NamespaceID t).

Lemma written_namespace t : row_namespace (row_of_agent (sync_namespace t)) = stored_namespace t.
Proof.
  unfold row_namespace, stored_namespace. cbn [row_of_agent r_metadata]. rewrite unmarshal_marshal_metadata.
  destruct t as [? ? ? ? ? ? ? ? ? ns ? ? ? ? ? ? ? m]. unfold sync_namespace. simpl.
  destruct (decide (ns <> ""%string)) as [Hne|Hne]; simpl.
  - rewrite mget_insert_eq. by rewrite decide_False.
  - apply dec_stable in Hne as ->. rewrite (decide_True (P := ""%string = ""%string)) by done. destruct m as [m|]; simpl; [|done].
    by destruct (decide (mget m NamespaceMetadataKey <> ""%string)).
Qed.

Lemma sync_effective t : effectiveAgentNamespace (sync_namespace t) = stored_namespace t.
Proof.
  destruct t as [? ? ? ? ? ? ? ? ? ns ? ? ? ? ? ? ? m]. unfold stored_namespace, sync_namespace, effectiveAgentNamespace. simpl.
  destruct (decide (ns <> ""%string)) as [Hne|Hne]; simpl.
  - rewrite mget_insert_eq, (decide_False (P := ns = ""%string)) by done. by case_decide.
  - apply dec_stable in Hne as ->. rewrite (decide_True (P := ""%string = ""%string)) by done.
    destruct m as [m|]; simpl; [|done].
    destruct (decide (mget m NamespaceMetadataKey <> ""%string)); cbn [a_NamespaceID a_Metadata omget]; [by case_decide|done].
Qed.

Lemma coherent_stored t : coherent t -> stored_namespace t = effectiveAgentNamespace t.
Proof.
  unfold coherent, stored_namespace, effectiveAgentNamespace. intros Hc.
  destruct (decide (a_NamespaceID t = ""%string)) as [->|Hne]; [done|].
  case_decide as Hb; [|done]. destruct Hc as [?|[?|Hm]]; [done|done|]. by rewrite Hm.
Qed.

Lemma scan_coherent r t : scanSQLiteAgent r = Ok t -> coherent t.
Proof. intros Hs. right; right. exact (scan_namespace r t Hs). Qed.

Lemma scan_stored r t : scanSQLiteAgent r = Ok t -> stored_namespace t = row_namespace r.
Proof. intros Hs. rewrite coherent_stored by by eapply scan_coherent. by apply scan_row_namespace. Qed.

(** What the operations change of an agent leaves its namespace. *)
Definition same_namespace (t t' : Agent) : Prop :=
  a_NamespaceID t' = a_NamespaceID t
  /\ omget (a_Metadata t') NamespaceMetadataKey = omget (a_Metadata t) NamespaceMetadataKey.

Lemma same_stored t t' : same_namespace t t' -> stored_namespace t' = stored_namespace t.
Proof. unfold stored_namespace. by intros [-> ->]. Qed.

Lemma same_effective t t' : same_namespace t t' -> effectiveAgentNamespace t' = effectiveAgentNamespace t.
Proof. unfold effectiveAgentNamespace. intros [-> H]. unfold namespaceMetadataKey, NamespaceMetadataKey in *. by rewrite H. Qed.

Lemma same_claimed t who tok now_ : same_namespace t (claimed_agent t who tok now_).
Proof. by destruct t. Qed.
Lemma same_released t now_ : same_namespace t (released_agent t now_).
Proof. by destruct t. Qed.
Lemma same_renewed t dur now_ : same_namespace t (renewed_agent t dur now_).
Proof. by destruct t. Qed.

Lemma same_completed t who tok res now_ : same_namespace t (completed_agent t who tok res now_).
Proof.
  destruct t as [? ? ? ? ? ? ? ? ? ns ? ? ? ? ? ? ? m]. split; [done|]. simpl. unfold insert_unless_empty.
  repeat case_decide; destruct (Time.IsZero now_); rewrite ?mget_insert_ne by done; by destruct m.
Qed.

Lemma same_filled u c t : same_namespace t (filled u c t).
Proof.
  destruct t as [? ? ? ? ? ? ? ? ? ns ? ? ? ? ? ? v m]. unfold filled, out_defaults. simpl.
  case_decide; destruct m; by split.
Qed.

Lemma same_inherit p t : same_namespace t (inherit p t).
Proof. unfold inherit. destruct t. repeat (case_decide; simpl in * ); by split. Qed.

Lemma same_trans t1 t2 t3 : same_namespace t1 t2 -> same_namespace t2 t3 -> same_namespace t1 t3.
Proof. intros [A1 A2] [B1 B2]. split; congruence. Qed.

(** Updates leave the namespace and merge the metadata. *)
Lemma updates_fields t u :
  a_NamespaceID (ApplyUpdates t u) = a_NamespaceID t
  /\ a_Metadata (ApplyUpdates t u) = a_Metadata (update_metadata (u !! "metadata"%string) t).
Proof.
  set (obs := fun t => (a_NamespaceID t, a_Metadata t)).
  assert (HS : forall set v t, (forall s t, obs (set s t) = obs t) -> obs (update_string set v t) = obs t)
    by (intros set [[]|] ? H; simpl; auto).
  assert (HP : forall v t, obs (update_payload v t) = obs t) by (by intros [[]|] []).
  assert (HT : forall v t, obs (update_tags v t) = obs t) by (by intros [[]|] []).
  assert (HM : forall v t t', obs t' = obs t -> obs (update_metadata v t') = obs (update_metadata v t)).
  { intros v [] [] H. unfold obs in *. simpl in H. injection H as -> ->. by destruct v as [[]|]. }
  assert (Ho : obs (ApplyUpdates t u) = obs (update_metadata (u !! "metadata"%string) t)).
  { unfold ApplyUpdates. cbn zeta beta. rewrite HS by (by intros ? []).
    trans (obs (update_metadata (u !! "metadata"%string)
      (update_tags (u !! "tags"%string) (update_string set_Owner (u !! "owner"%string)
         (update_string set_Status (u !! "status"%string) (update_payload (u !! "payload"%string) t)))))).
    { by destruct (update_metadata _ _). }
    apply HM. rewrite HT, HS, HS by (by intros ? []). apply HP. }
  unfold obs in Ho. injection Ho as -> ->. split; [|done]. destruct t. by destruct (u !! "metadata"%string) as [[]|].
Qed.

(** An update that asks for no other namespace keeps the stored one. *)
Lemma updates_keep r t u :
  scanSQLiteAgent r = Ok t ->
  (u !! "metadata"%string = None
   \/ exists m, u !! "metadata"%string = Some (VStrMap m)
      /\ let ns := Strings.TrimSpace (mget m namespaceMetadataKey) in ns = ""%string \/ row_namespace r = ns) ->
  stored_namespace (ApplyUpdates t u) = row_namespace r.
Proof.
  intros Hs Hu. pose proof (scan_stored r t Hs) as Hst. pose proof (scan_namespace r t Hs) as Hn.
  unfold stored_namespace in *. destruct (updates_fields t u) as [-> ->].
  destruct Hu as [->|(m & -> & Hm)]; [by destruct t|].
  case_decide as He; [|done]. rewrite He in Hn. rewrite Hn in Hst. cbn in Hst.
  destruct t; simpl in *. unfold mget. rewrite lookup_union. unfold mget in Hm. cbn in Hm.
  change NamespaceMetadataKey with namespaceMetadataKey in *.
  destruct (m !! namespaceMetadataKey) as [v|]; simpl in *.
  - rewrite union_Some_l. simpl. destruct Hm as [Hm|Hm]; congruence.
  - trans (Strings.TrimSpace (omget a_Metadata namespaceMetadataKey)); [|by rewrite Hn].
    destruct a_Metadata as [m'|]; simpl; [unfold mget; by destruct (m' !! _)|by rewrite lookup_empty].
Qed.

(** ** Operations that only read *)

Definition reading {A} (m : M DB A) : Prop :=
  forall w, wp m (fun _ w' => w_db w' = w_db w /\ w_uuid w' = w_uuid w) w.

Lemma reading_ret {A} (a : A) : reading (mret a).
Proof. by intros w. Qed.
Lemma reading_fail {A} e : reading (A := A) (fail e).
Proof. by intros w. Qed.
Lemma reading_now : reading now.
Proof. by intros w. Qed.
Lemma reading_done : reading select_done.
Proof. by intros w. Qed.
Lemma reading_db {A} (f : DB -> result gerror A) : reading (db_read f).
Proof. intros w. unfold db_read. apply wp_call; intros; by unfold wp. Qed.
Lemma reading_rows_Err : reading rows_Err.
Proof. intros w. unfold rows_Err. apply wp_call; intros; by unfold wp. Qed.

Lemma reading_bind {A B} (m : M DB A) (f : A -> M DB B) : reading m -> (forall a, reading (f a)) -> reading (m ≫= f).
Proof.
  intros Hm Hf w. apply wp_bind. eapply wp_mono; [apply Hm|]. intros [a|e] w' [H1 H2]; [|done].
  eapply wp_mono; [apply Hf|]. cbn. intros _ w'' [-> ->]. done.
Qed.

Lemma reading_try {A} (m : M DB A) : reading m -> reading (try_ m).
Proof. intros Hm w. apply wp_try. by eapply wp_mono; [apply Hm|]. Qed.

Hint Resolve reading_ret reading_fail reading_now reading_done reading_db reading_rows_Err reading_try : reading.

Ltac solve_reading := repeat first [apply reading_bind; [|intros ?] | by auto with reading | case_match].

Lemma reading_Get id : reading (Get id).
Proof. unfold Get, not_found. solve_reading. Qed.
Lemma reading_Query q : reading (Query_ q).
Proof. unfold Query_. solve_reading. Qed.
Lemma reading_Count q : reading (Count q).
Proof. unfold Count. solve_reading. Qed.
Lemma reading_GetEvents id : reading (SqliteEvents.GetEvents id).
Proof. unfold SqliteEvents.GetEvents. solve_reading. Qed.
Lemma reading_GetGlobalEvents limit offset : reading (GetGlobalEvents limit offset).
Proof. unfold GetGlobalEvents. solve_reading. Qed.
Lemma reading_QueryEvents q : reading (QueryEvents q).
Proof. unfold QueryEvents. solve_reading. Qed.

Lemma reading_poll poll deadline n : reading poll -> reading (poll_loop poll deadline n).
Proof.
  intros Hp. induction n as [|n IH]; cbn [poll_loop]; [by auto with reading|].
  apply reading_bind; [by auto with reading|intros t]. case_match; [|by auto with reading].
  apply reading_bind; [done|intros [a|]]; [by auto with reading|].
  apply reading_bind; [by auto with reading|intros []]; [by auto with reading|done].
Qed.

Lemma reading_read_poll q : reading (read_poll q).
Proof. unfold read_poll. apply reading_bind; [apply reading_Query|intros l; by auto with reading]. Qed.

Lemma reading_GetDAG n id : reading (SqliteLifecycle.GetDAG n id).
Proof.
  unfold SqliteLifecycle.GetDAG. generalize (∅ : gset string) [id] (MkDAG ∅ []).
  induction n as [|n IH]; intros visited [|i queue] dag; cbn [dag_loop]; try by auto with reading.
  case_match; [apply IH|]. cbn zeta. apply reading_bind; [apply reading_try, reading_Get|intros [t|e]]; [|apply IH].
  apply reading_bind; [apply reading_try, reading_Query|intros [l|e]]; apply IH.
Qed.

(** ** The invariant *)

(** What an operation must do to keep it. *)
Lemma inv_kept (w w' : World DB) :
  space_inv w -> (w_uuid w <= w_uuid w')%nat -> keyed (w_db w') ->
  (forall i, agents (w_db w') !! i <> None -> agents (w_db w) !! i <> None \/ uuid_drawn w' i) ->
  space_inv w' /\ (forall id, drawn w id -> drawn w' id).
Proof.
  intros [Hk Hd] Hu Hk' Hnew. assert (Hm : forall id, uuid_drawn w id -> uuid_drawn w' id).
  { intros id (n & Hn & Hid). exists n. split; [lia|done]. }
  split; [split; [done|]|done]. intros i Hi. destruct (Hnew i Hi) as [?|?]; auto.
Qed.

Lemma reading_kept {A} (m : M DB A) (w : World DB) :
  reading m -> space_inv w ->
  let w' := (m w).2 in space_inv w' /\ (forall id, drawn w id -> drawn w' id) /\ unchanged w w'.
Proof.
  intros Hm Hi w'. specialize (Hm w). unfold wp in Hm. unfold w'. destruct (m w) as [r w1]. cbn in *.
  destruct Hm as [Hd Hu]. destruct (inv_kept w w1) as [Hi' Hm]; [done|lia|rewrite Hd; apply Hi|rewrite Hd; by left|].
  split; [done|split; [done|]]. intros id. cbn. by rewrite Hd.
Qed.

(** A run of a mutating operation: refused, or its effect. *)
Lemma runs_inv {A} (m : M DB A) w p :
  runs m w p ->
  (w_uuid w <= w_uuid (m w).2)%nat
  /\ (w_db (m w).2 = w_db w /\ (exists e, (m w).1 = Err e)
      \/ exists a d evs, p = Ok (a, d, evs) /\ (m w).1 = Ok a /\ w_db (m w).2 = d
           /\ Forall (fun e => exists j, (w_uuid w <= j < w_uuid (m w).2)%nat /\ e_ID e = uuid_at j) evs).
Proof.
  unfold runs, wp. destruct (m w) as [r w']. intros (Hu & _ & [((e & msg & n & -> & _) & Hd & _)|Hp]); cbn.
  - split; [done|]. left. eauto.
  - split; [done|]. destruct p as [[[a d] evs]|e].
    + right. destruct Hp as (-> & <- & _ & Hev). eauto 8.
    + left. destruct Hp as (-> & Hd & _). eauto.
Qed.

End SqliteSpace.
