(* ===== verification/ApiSqliteLaws.v ===== *)
(** * HTTP API over the SQLite store: its promises

    Each operation of the SQLite store keeps what [NamespacedSpace] asks of a
    space; hence the server over it keeps every request to its namespace. *)

From S2P Require Import Prelude GoLib Agent Common Effects Sql SqliteRows SqliteQuery SqliteLifecycle SqliteCore SqliteEvents SqliteReaper SqliteRefine SqliteDag SqliteReads ApiTypes ApiHandlers ApiIsolation ApiSafety ApiServer ApiSqlite.
From stdpp Require Import gmap strings list fin_maps sets.
From Stdlib Require Import ZArith Lia.

Open Scope Z_scope.

Section Laws.
Context `{E : Env} `{Srt : SqlOrder} `{G : GoText} `{F : PollFuel}.
Implicit Types w : World DB.

(** ** Selecting *)

Lemma elem_of_window {A} limit offset (l : list A) x : x ∈ sql_window limit offset l -> x ∈ l.
Proof.
  unfold sql_window. intros H.
  assert (x ∈ match offset with Some o => drop (Z.to_nat o) l | None => l end) as H'.
  { destruct limit; [|done]. by apply elem_of_take in H as (i & H & _); eapply list_elem_of_lookup_2. }
  destruct offset; [|done]. apply list_elem_of_lookup in H' as [i H']. rewrite lookup_drop in H'.
  by eapply list_elem_of_lookup_2.
Qed.

(** A row that passed the filters of a query decodes to an agent of the
    query's namespace. *)
Lemma keep_selected q force nowMs d r t :
  keyed d -> r ∈ (map_to_list (agents d)).*2 ->
  keep (buildSQLiteWhereClauses (Some q) force nowMs).2 (Some q) r = Some t ->
  agents d !! a_ID t = Some r /\ scanSQLiteAgent r = Ok t
  /\ (q_NamespaceID q <> ""%string -> row_namespace r = Strings.TrimSpace (q_NamespaceID q)).
Proof.
  intros Hk Hr. destruct (buildSQLiteWhereClauses (Some q) force nowMs) as [cs nf] eqn:Hb. cbn [snd].
  unfold keep. destruct (scanSQLiteAgent r) as [t'|] eqn:Hs; [|done].
  destruct (_ && _) eqn:Hf; [done|]. intros [= ->].
  apply list_elem_of_fmap in Hr as ([id r'] & -> & Hr%elem_of_map_to_list). cbn [snd fst] in *.
  destruct (scan_columns r' t Hs) as [Hid _]. rewrite Hid, (Hk _ _ Hr). split_and!; [done|done|].
  intros Hne. rewrite <- (scan_row_namespace r' t Hs).
  assert (Hq : q_NamespaceID q = ""%string \/ a_NamespaceID t = q_NamespaceID q).
  { destruct nf; cbn [andb] in Hf.
    - apply negb_false_iff in Hf. by apply (filters_spec r' t q Hs) in Hf as [? _].
    - by destruct (no_filter_vacuous q t nowMs force cs Hb) as [? _]. }
  destruct Hq as [?|Hq]; [done|]. unfold effectiveAgentNamespace. rewrite <- Hq.
  case_decide as He; [|done]. pose proof (scan_namespace r' t Hs) as Hm. unfold namespaceMetadataKey, NamespaceMetadataKey in *.
  by rewrite Hm.
Qed.

Lemma query_selected q nowMs d l :
  keyed d -> query_result nowMs (Some q) d = Ok l ->
  Forall (fun t => exists r, agents d !! a_ID t = Some r /\ scanSQLiteAgent r = Ok t
                   /\ (q_NamespaceID q <> ""%string -> row_namespace r = Strings.TrimSpace (q_NamespaceID q))) l.
Proof.
  intros Hk. unfold query_result. destruct (buildSQLiteWhereClauses (Some q) false nowMs) as [cs nf] eqn:Hb.
  assert (Hrows : forall lim off rows t, select_agents cs lim off d = Ok rows -> t ∈ scan_rows nf (Some q) rows ->
    exists r, agents d !! a_ID t = Some r /\ scanSQLiteAgent r = Ok t
              /\ (q_NamespaceID q <> ""%string -> row_namespace r = Strings.TrimSpace (q_NamespaceID q))).
  { intros lim off rows t Hsel (r & Hr & Ht)%list_elem_of_omap. exists r.
    apply (keep_selected q false nowMs); [done| |by rewrite Hb].
    assert (Hs : rows = sql_window lim off (order_asc r_created_at_ms
               (filter (fun r => forallb (sat r) cs) (map_to_list (agents d)).*2))).
    { unfold select_agents in Hsel. destruct lim, off; by simplify_eq. }
    subst rows. apply elem_of_window in Hr. unfold order_asc in Hr.
    rewrite elem_of_sql_sort, list_elem_of_filter in Hr. by destruct Hr. }
  intros Hres. apply Forall_forall. intros t Ht. destruct nf.
  - destruct (select_agents cs None None d) as [rows|] eqn:Hsel; [|done]. injection Hres as <-.
    rewrite paginate_window in Ht. apply elem_of_window in Ht. by eapply Hrows.
  - destruct (select_agents cs _ _ d) as [rows|] eqn:Hsel; [|done]. injection Hres as <-. by eapply Hrows.
Qed.

(** Such an agent, as the interface says it. *)
Lemma row_selected w q r t :
  agents (w_db w) !! a_ID t = Some r -> scanSQLiteAgent r = Ok t ->
  (q_NamespaceID q <> ""%string -> row_namespace r = Strings.TrimSpace (q_NamespaceID q)) ->
  selected w q t.
Proof.
  intros Hr Hs Hq. split.
  - unfold ns_of. cbn. rewrite Hr. simpl. by rewrite (scan_row_namespace r t Hs).
  - rewrite (scan_row_namespace r t Hs). exact Hq.
Qed.

Lemma Query_selected q w l w' :
  keyed (w_db w) -> Query_ (Some q) w = (Ok l, w') -> Forall (selected w q) l.
Proof.
  intros Hk Hrun. pose proof (wp_run _ _ _ _ _ (Query_run (Some q) w) Hrun) as (_ & _ & _ & [((e & ? & ? & ? & _) & _)|Hr]); [done|].
  symmetry in Hr. eapply Forall_impl; [by eapply query_selected|]. intros t (r & H1 & H2 & H3). by eapply row_selected.
Qed.

(** ** Taking *)

Lemma chosen_selected q nowMs d t :
  keyed d -> chosen (Some q) nowMs d = Some t ->
  exists r, agents d !! a_ID t = Some r /\ scanSQLiteAgent r = Ok t
            /\ (q_NamespaceID q <> ""%string -> row_namespace r = Strings.TrimSpace (q_NamespaceID q)).
Proof.
  intros Hk. unfold chosen. intros (l1 & r & l2 & Hl & Hkeep & _)%find_map_Some. exists r.
  apply (keep_selected q true nowMs); [done| |done].
  assert (Hr : r ∈ candidates (Some q) nowMs d) by (rewrite Hl; set_solver).
  unfold candidates in Hr. destruct (buildSQLiteWhereClauses (Some q) true nowMs) as [cs nf].
  apply elem_of_window in Hr. unfold order_asc in Hr. rewrite elem_of_sql_sort, list_elem_of_filter in Hr. by destruct Hr.
Qed.

(** What a take does to the table: nothing, or it claims an agent of the
    query's namespace. *)
Lemma take_effect_rows q nowMs now1 now2 tok eid d a d' evs :
  keyed d -> take_effect (Some q) nowMs now1 now2 tok eid d = Ok (a, d', evs) ->
  a = None /\ d' = d
  \/ exists t r, a = Some (claimed_agent t (query_agent_id (Some q)) tok now1)
     /\ agents d !! a_ID t = Some r /\ scanSQLiteAgent r = Ok t
     /\ agents d' = <[a_ID t := claim_row (claimed_agent t (query_agent_id (Some q)) tok now1) r]> (agents d)
     /\ (q_NamespaceID q <> ""%string -> row_namespace r = Strings.TrimSpace (q_NamespaceID q)).
Proof.
  intros Hk. unfold take_effect. destruct (take_refused _); [intros [= <- <- <-]; by left|].
  destruct (chosen (Some q) nowMs d) as [t|] eqn:Hc; [|intros [= <- <- <-]; by left].
  destruct (chosen_selected q nowMs d t Hk Hc) as (r & Hr & Hs & Hq).
  unfold claim_stmt. rewrite claimed_agent_ID, Hr.
  destruct (_ && _); [|intros [= <- <- <-]; by left]. rewrite decide_True by lia.
  cbn [mbind result_bind mret result_ret].
  match goal with |- context [insert_event_stmt ?e ?d] => destruct (insert_event_stmt e d) as [d1|] eqn:Hi; [|done] end.
  intros [= <- <- <-]. apply insert_event_abs in Hi as [Ha _]. right. exists t, r. by split_and!.
Qed.

(** The row under an identifier, and its namespace, after one write. *)
Lemma insert_ns (m : gmap string Row) id r i :
  <[id := r]> m !! i = m !! i \/ i = id /\ (<[id := r]> m) !! i = Some r.
Proof. destruct (decide (i = id)) as [->|]; [right; by rewrite lookup_insert_eq|left; by rewrite lookup_insert_ne]. Qed.

Lemma keyed_insert_row d d' id r r0 :
  keyed d -> agents d !! id = Some r0 -> r_id r = r_id r0 -> agents d' = <[id := r]> (agents d) -> keyed d'.
Proof.
  intros Hk Hr Hid Hd i x. rewrite Hd. destruct (insert_ns (agents d) id r i) as [->|[-> ->]]; [apply Hk|].
  intros [= <-]. rewrite Hid. by apply Hk.
Qed.

(** An operation that rewrites one existing row with the same namespace. *)
Lemma rewrite_promise w w' id r0 r :
  space_inv w -> (w_uuid w <= w_uuid w')%nat -> agents (w_db w) !! id = Some r0 -> r_id r = r_id r0 ->
  row_namespace r = row_namespace r0 -> agents (w_db w') = <[id := r]> (agents (w_db w)) ->
  (space_inv w' /\ (forall id, drawn w id -> drawn w' id)) /\ touches w id w'.
Proof.
  intros Hi Hu Hr Hid Hns Hd. split.
  - apply inv_kept; [done|done|by eapply keyed_insert_row; [apply Hi|..]|].
    intros i. rewrite Hd. destruct (insert_ns (agents (w_db w)) id r i) as [->|[-> _]]; [by left|].
    left. by rewrite Hr.
  - intros i. unfold ns_of. cbn. rewrite Hd. destruct (insert_ns (agents (w_db w)) id r i) as [?|[-> ->]]; [by left|].
    right. rewrite Hr. simpl. by rewrite Hns.
Qed.

Lemma same_db_promise w w' :
  space_inv w -> (w_uuid w <= w_uuid w')%nat -> w_db w' = w_db w ->
  (space_inv w' /\ (forall id, drawn w id -> drawn w' id)) /\ unchanged w w'.
Proof.
  intros Hi Hu Hd. split; [|intros i; cbn; by rewrite Hd].
  apply inv_kept; [done|done|rewrite Hd; apply Hi|rewrite Hd; by left].
Qed.

Lemma take_promise q w :
  space_inv w ->
  let '(r, w') := Take (Some q) w in
  (space_inv w' /\ (forall id, drawn w id -> drawn w' id)) /\ claims w q w'
  /\ (forall t, r = Ok (Some t) -> selected w' q t).
Proof.
  intros Hi. pose proof (runs_inv _ _ _ (Take_runs (Some q) w (proj1 Hi))) as Hr.
  destruct (Take (Some q) w) as [r w']. cbn [fst snd] in Hr. destruct Hr as [Hu Hr].
  assert (Hsame : w_db w' = w_db w -> (forall t, r <> Ok (Some t)) ->
    (space_inv w' /\ (forall id, drawn w id -> drawn w' id)) /\ claims w q w'
    /\ (forall t, r = Ok (Some t) -> selected w' q t)).
  { intros Hd Hno. destruct (same_db_promise w w' Hi Hu Hd) as [H1 H2].
    split_and!; [apply H1|apply H1|by intros i; left|]. intros t Ht. by destruct (Hno t). }
  destruct Hr as [[Hd [e ->]]|(a & d & evs & He & -> & Hd & Hev)]; [by apply Hsame|].
  apply take_effect_rows in He as [[-> ->]|(t & r & -> & Hr & Hs & Hrow & Hq)]; [by apply Hsame|..|apply Hi].
  subst d. set (t' := claimed_agent _ _ _ _) in *.
  destruct (rewrite_promise w w' (a_ID t) r (claim_row t' r)) as [H1 H2]; [done..|].
  assert (Hid : a_ID t' = a_ID t) by apply claimed_agent_ID.
  assert (Heff : effectiveAgentNamespace t' = row_namespace r).
  { unfold t'. rewrite (same_effective t) by apply same_claimed. by apply scan_row_namespace. }
  split_and!; [apply H1|apply H1| |].
  - intros i. destruct (H2 i) as [?|(-> & ? & ?)]; [by left|right]. split_and!; [done|done|].
    intros Hne. unfold ns_of. cbn. rewrite Hr. simpl. by rewrite Hq.
  - intros t0 [= <-]. split.
    + unfold ns_of. cbn. rewrite Hid, Hrow, lookup_insert_eq, Heff. done.
    + rewrite Heff. exact Hq.
Qed.

(** ** Polling *)

Lemma claims_refl w q : claims w q w.
Proof. intros i. by left. Qed.

Lemma claims_trans w1 w2 w3 q : claims w1 q w2 -> claims w2 q w3 -> claims w1 q w3.
Proof.
  intros H1 H2 i. unfold ns_of in *. destruct (H2 i) as [E2|(E2 & N2 & Q2)], (H1 i) as [E1|(E1 & N1 & Q1)]; unfold ns_of in *.
  - left. congruence.
  - right. rewrite E2. by split_and!.
  - right. rewrite E2, E1 in *. by split_and!.
  - right. split_and!; [congruence|done|done].
Qed.

(** What every poll keeps, the loop keeps. *)
Lemma poll_loop_keeps (I : World DB -> World DB -> Prop) (Q : World DB -> Agent -> Prop) poll deadline n w :
  (forall w, I w w) -> (forall w1 w2 w3, I w1 w2 -> I w2 w3 -> I w1 w3) ->
  (forall w w', w_db w' = w_db w -> w_uuid w' = w_uuid w -> I w w') ->
  (forall w1, I w w1 -> wp poll (fun r w' => I w1 w' /\ forall t, r = Ok (Some t) -> Q w' t) w1) ->
  wp (poll_loop poll deadline n) (fun r w' => I w w' /\ forall t, r = Ok (Some t) -> Q w' t) w.
Proof.
  intros Hrefl Htrans Hsame Hpoll.
  assert (Hgo : forall w1, I w w1 ->
    wp (poll_loop poll deadline n) (fun r w' => I w w' /\ forall t, r = Ok (Some t) -> Q w' t) w1).
  { induction n as [|n IH]; intros w1 H1; cbn [poll_loop]; [by apply wp_ret|].
    do 2 wp_step. match goal with |- wp _ _ ?w2 => assert (H2 : I w w2) by (eapply Htrans; [exact H1|by apply Hsame]) end.
    case_decide; [|by apply wp_fail]. wp_step. eapply wp_mono; [by apply Hpoll|]. cbn.
    intros [[t|]|e] w3 [H3 Ht].
    - apply wp_ret. split; [by eapply Htrans|exact Ht].
    - apply wp_bind. unfold wp at 1. cbn.
      assert (H4 : I w (tick w3)) by (eapply Htrans; [by eapply Htrans|by apply Hsame]).
      destruct (ctx_done_at _); [by apply wp_fail|]. by apply IH.
    - split; [by eapply Htrans|done]. }
  apply Hgo, Hrefl.
Qed.

Definition kept w w' : Prop :=
  space_inv w -> space_inv w' /\ (forall id, drawn w id -> drawn w' id).

Lemma kept_same w w' : w_db w' = w_db w -> w_uuid w' = w_uuid w -> kept w w'.
Proof. intros Hd Hu Hi. apply same_db_promise; [done|lia|done]. Qed.

Lemma kept_trans w1 w2 w3 : kept w1 w2 -> kept w2 w3 -> kept w1 w3.
Proof. intros H1 H2 Hi. destruct (H1 Hi) as [Hi2 D1], (H2 Hi2) as [Hi3 D2]. split; [apply Hi3|auto]. Qed.

Lemma in_promise q timeout n w :
  space_inv w ->
  let '(r, w') := In_ n (Some q) timeout w in
  (space_inv w' /\ (forall id, drawn w id -> drawn w' id)) /\ claims w q w'
  /\ (forall t, r = Ok (Some t) -> selected w' q t).
Proof.
  intros Hi.
  change (wp (In_ n (Some q) timeout) (fun r w' => (space_inv w' /\ (forall id, drawn w id -> drawn w' id))
    /\ claims w q w' /\ (forall t, r = Ok (Some t) -> selected w' q t)) w).
  unfold In_. do 2 wp_step.
  match goal with |- wp _ _ ?w1 => set (w1' := w1) end.
  eapply wp_mono.
  - apply (poll_loop_keeps (fun w1 w2 => kept w1 w2 /\ claims w1 q w2 /\ (space_inv w1 -> space_inv w2)) (fun w' t => selected w' q t)).
    + intros w0. split_and!; [by intros|apply claims_refl|done].
    + intros a b c (K1 & C1 & I1) (K2 & C2 & I2). split_and!; [by eapply kept_trans|by eapply claims_trans|auto].
    + intros a b Hd Hu. split_and!; [by apply kept_same| |].
      * intros i. left. cbn. by rewrite Hd.
      * intros Ha. by apply (kept_same a b Hd Hu).
    + intros w2 (_ & _ & Hw2). assert (Hi2 : space_inv w2) by (apply Hw2, Hi).
      pose proof (take_promise q w2 Hi2) as Ht. unfold wp. destruct (Take (Some q) w2) as [r w3].
      destruct Ht as (H1 & H2 & H3). split; [|exact H3]. split_and!; [by intros _|done|]. intros _. apply H1.
  - cbn beta. intros r w' ((Hk & Hc & _) & Ht). split; [apply Hk, Hi|]. split; [exact Hc|exact Ht].
Qed.

Lemma read_promise q timeout n w r w' :
  space_inv w -> Read n (Some q) timeout w = (r, w') -> forall t, r = Ok (Some t) -> selected w q t.
Proof.
  intros Hi Hrun.
  assert (Hwp : wp (Read n (Some q) timeout) (fun r _ => forall t, r = Ok (Some t) -> selected w q t) w).
  { unfold Read. do 2 wp_step.
    eapply wp_mono; [apply (poll_loop_keeps (fun w1 w2 => w_db w2 = w_db w1) (fun _ t => selected w q t))|].
    - done.
    - congruence.
    - done.
    - intros w2 Hd. cbn in Hd. unfold read_poll.
      match goal with |- context [Query_ (Some ?q0)] => set (q' := q0) end.
      apply wp_bind. pose proof (reading_Query (Some q') w2) as Hread. unfold wp in *.
      destruct (Query_ (Some q') w2) as [r2 w3] eqn:Hq. destruct Hread as [Hd3 _].
      destruct r2 as [l|e]; cbn; (split; [congruence|]); [|done].
      apply Query_selected in Hq; [|rewrite Hd; apply Hi]. destruct l as [|t0 l]; [done|].
      intros t [= <-]. apply Forall_cons in Hq as [[Hn Hq] _]. split; [|exact Hq].
      revert Hn. unfold ns_of. cbn. by rewrite Hd.
    - cbn beta. intros r0 w0 [_ H0]. exact H0. }
  unfold wp in Hwp. by rewrite Hrun in Hwp.
Qed.

(** ** Writing one agent *)

Lemma uuid_drawn_mono w w' id : (w_uuid w <= w_uuid w')%nat -> uuid_drawn w id -> uuid_drawn w' id.
Proof. intros Hu (n & Hn & Hid). exists n. split; [lia|done]. Qed.

Lemma out_promise t w :
  space_inv w -> admissible (COut t) w ->
  let '(r, w') := Out t w in
  (space_inv w' /\ (forall id, drawn w id -> drawn w' id))
  /\ (forall i, stored w' i = stored w i \/ i = a_ID t /\ ns_of w' i = Some (effectiveAgentNamespace t))
  /\ (forall t', r = Ok t' -> effectiveAgentNamespace t' = effectiveAgentNamespace t).
Proof.
  intros Hi (Hne & Hdr & Hco). pose proof (runs_inv _ _ _ (Out_runs t w)) as Hr.
  destruct (Out t w) as [r w']. cbn [fst snd] in Hr. destruct Hr as [Hu Hr].
  destruct Hr as [[Hd [e ->]]|(a & d & evs & He & -> & Hd & Hev)].
  { destruct (same_db_promise w w' Hi Hu Hd) as [H1 H2]. split; [done|]. split; [|done]. intros i. left. apply H2. }
  unfold out_effect in He. cbn [mbind result_bind mret result_ret] in He.
  match type of He with context [insert_event_stmt ?e ?d] => destruct (insert_event_stmt e d) as [d1|] eqn:Hins; [|done] end.
  injection He as <- <- <-. apply insert_event_abs in Hins as [Ha _]. subst d1.
  set (t1 := filled (w_uuid w) (w_clock w) t) in *.
  assert (Hid : a_ID t1 = a_ID t) by (destruct (filled_fields (w_uuid w) (w_clock w) t) as [H _]; by rewrite decide_False in H).
  assert (Hns : stored_namespace t1 = effectiveAgentNamespace t).
  { rewrite (same_stored t t1) by apply same_filled. by apply coherent_stored. }
  cbn in Ha. rewrite sync_namespace_id, Hid in Ha.
  split; [|split].
  - apply inv_kept; [done|done| |].
    + intros i x. rewrite Ha. destruct (insert_ns (agents (w_db w)) (a_ID t) (row_of_agent (sync_namespace t1)) i)
        as [->|[-> ->]]; [apply Hi|]. intros [= <-]. simpl. by rewrite sync_namespace_id.
    + intros i. rewrite Ha. destruct (insert_ns (agents (w_db w)) (a_ID t) (row_of_agent (sync_namespace t1)) i)
        as [->|[-> _]]; [by left|]. right. by eapply uuid_drawn_mono.
  - intros i. unfold ns_of. cbn. rewrite Ha.
    destruct (insert_ns (agents (w_db w)) (a_ID t) (row_of_agent (sync_namespace t1)) i) as [?|[-> ->]]; [by left|right].
    split; [done|]. simpl. by rewrite written_namespace, Hns.
  - intros t' [= <-]. by rewrite sync_effective.
Qed.

(** An operation on an agent it finds: it writes it back with its namespace,
    or nothing. *)
Definition rewrites (id : string) (d : DB) (p : result gerror (Agent * DB * list Event)) : Prop :=
  forall a d' evs, p = Ok (a, d', evs) ->
  exists r, agents d !! id = Some r /\ effectiveAgentNamespace a = row_namespace r
    /\ (agents d' = agents d
        \/ exists r', agents d' = <[id := r']> (agents d) /\ r_id r' = id /\ row_namespace r' = row_namespace r).

Lemma rewrites_promise (m : M DB Agent) id w p :
  space_inv w -> runs m w p -> rewrites id (w_db w) p ->
  let '(r, w') := m w in
  (space_inv w' /\ (forall id, drawn w id -> drawn w' id)) /\ touches w id w'
  /\ (forall t, r = Ok t -> is_stored w id t).
Proof.
  intros Hi Hr Hp. apply runs_inv in Hr. destruct (m w) as [r w']. cbn [fst snd] in Hr. destruct Hr as [Hu Hr].
  destruct Hr as [[Hd [e ->]]|(a & d & evs & He & -> & Hd & Hev)].
  { destruct (same_db_promise w w' Hi Hu Hd) as [H1 H2]. split; [done|]. split; [|done]. intros i. left. apply H2. }
  destruct (Hp _ _ _ He) as (r0 & Hr0 & Heff & Hrows).
  assert (Hst : is_stored w id a) by (unfold is_stored, ns_of; cbn; rewrite Hr0; simpl; by rewrite Heff).
  assert (Hans : forall t, @Ok gerror _ a = Ok t -> is_stored w id t) by (by intros t [= <-]).
  destruct Hrows as [Hsame|(r' & Hd' & Hid & Hns)].
  - split; [apply inv_kept; [done|done| |]|split; [|done]].
    + intros i x. rewrite Hd, Hsame. apply Hi.
    + intros i. rewrite Hd, Hsame. by left.
    + intros i. left. cbn. by rewrite Hd, Hsame.
  - assert (Hid0 : r_id r' = r_id r0) by (rewrite Hid; symmetry; by apply Hi).
    rewrite <- Hd in Hd'. destruct (rewrite_promise w w' id r0 r' Hi Hu Hr0 Hid0 Hns Hd') as [H1 H2].
    split; [exact H1|split; [exact H2|exact Hans]].
Qed.

Lemma found_row id nowMs d t :
  keyed d -> found id nowMs d = Ok t -> exists r, agents d !! id = Some r /\ scanSQLiteAgent r = Ok t /\ a_ID t = id.
Proof. intros Hk Hf. destruct (found_spec id nowMs d t Hk Hf) as (r & ? & _ & ? & ? & _). eauto. Qed.

(** Writing back a changed agent and logging it. *)
Lemma store_and_log_rewrites id d r t' (e : Event) :
  agents d !! id = Some r -> a_ID t' = id -> stored_namespace t' = row_namespace r ->
  rewrites id d (store_and_log (sync_namespace t') (sync_namespace t') e d).
Proof.
  intros Hr Hid Hns a d' evs H. exists r.
  destruct (store_and_log_spec _ _ _ _ _ _ _ r H) as (-> & _ & _ & _ & Hd); [by rewrite sync_namespace_id, Hid|].
  split_and!; [done|by rewrite sync_effective|]. right. eexists. rewrite sync_namespace_id, Hid in Hd.
  split_and!; [exact Hd|simpl; by rewrite sync_namespace_id|by rewrite written_namespace].
Qed.

Lemma update_rewrites nowMs now1 now2 eid id u w :
  space_inv w -> keeps_namespace w id u ->
  rewrites id (w_db w) (update_effect nowMs now1 now2 eid id u (w_db w)).
Proof.
  intros Hi Hkeep. unfold update_effect. destruct (found id nowMs (w_db w)) as [t|e] eqn:Hf; [|done].
  destruct (found_row _ _ _ _ (proj1 Hi) Hf) as (r & Hr & Hs & Hid). cbn [mbind result_bind].
  set (t1 := set_Version _ _).
  assert (Hst : stored_namespace t1 = row_namespace r).
  { trans (stored_namespace (ApplyUpdates t u)); [unfold t1; by destruct (ApplyUpdates t u)|].
    apply updates_keep; [done|]. destruct Hkeep as [?|(m & ? & H)]; [by left|right]. exists m. split; [done|].
    unfold ns_of in H. cbn in H. rewrite Hr in H. simpl in H. cbn. destruct H as [?|[?|?]]; [by left|done|right; congruence]. }
  assert (Hid1 : a_ID t1 = id).
  { trans (a_ID (ApplyUpdates t u)); [unfold t1; by destruct (ApplyUpdates t u)|]. by rewrite ApplyUpdates_ID. }
  by apply (store_and_log_rewrites id (w_db w) r t1).
Qed.

Lemma complete_rewrites nowMs now_ eid id who tok res w :
  space_inv w -> rewrites id (w_db w) (complete_effect nowMs now_ eid id who tok res (w_db w)).
Proof.
  intros Hi. unfold complete_effect. destruct (identity_error who tok); [done|].
  destruct (found id nowMs (w_db w)) as [t|e] eqn:Hf; [|done].
  destruct (found_row _ _ _ _ (proj1 Hi) Hf) as (r & Hr & Hs & Hid). cbn [mbind result_bind].
  case_decide.
  { destruct (CompletionTokenMatches t tok); [|done]. intros a d' evs [= <- <- <-]. exists r.
    split_and!; [done|by apply scan_row_namespace|by left]. }
  destruct (lease_error _ _ _ _); [done|].
  apply (store_and_log_rewrites id (w_db w) r (completed_agent t who tok res now_)); [done| |].
  - pose proof (ID_completed t who tok res now_) as H'. rewrite sync_namespace_id in H'. congruence.
  - rewrite (same_stored t) by apply same_completed. by apply scan_stored.
Qed.

Lemma release_rewrites nowMs now1 now2 eid id who tok reason w :
  space_inv w -> rewrites id (w_db w) (release_effect nowMs now1 now2 eid id who tok reason (w_db w)).
Proof.
  intros Hi. unfold release_effect. destruct (identity_error who tok); [done|].
  destruct (found id nowMs (w_db w)) as [t|e] eqn:Hf; [|done].
  destruct (found_row _ _ _ _ (proj1 Hi) Hf) as (r & Hr & Hs & Hid). cbn [mbind result_bind].
  destruct (lease_error _ _ _ _); [done|].
  apply (store_and_log_rewrites id (w_db w) r (released_agent t now1)); [done| |].
  - pose proof (ID_released t now1) as H'. rewrite sync_namespace_id in H'. congruence.
  - rewrite (same_stored t) by apply same_released. by apply scan_stored.
Qed.

Lemma renew_rewrites nowMs now_ id who tok dur w :
  space_inv w -> rewrites id (w_db w) (renew_effect nowMs now_ id who tok dur (w_db w)).
Proof.
  intros Hi. unfold renew_effect. destruct (identity_error who tok); [done|].
  destruct (found id nowMs (w_db w)) as [t|e] eqn:Hf; [|done].
  destruct (found_row _ _ _ _ (proj1 Hi) Hf) as (r & Hr & Hs & Hid). cbn [mbind result_bind].
  destruct (lease_error _ _ _ _); [done|]. intros a d' evs [= <- <- <-].
  match goal with |- context [renewed_agent t ?d now_] => set (t1 := renewed_agent t d now_) end.
  assert (Hid1 : a_ID t1 = id) by (unfold t1; by destruct t). exists r. split_and!; [done| |right].
  - rewrite sync_effective, (same_stored t) by apply same_renewed. by apply scan_stored.
  - exists (row_of_agent (sync_namespace t1)). unfold update_stmt. simpl. rewrite sync_namespace_id, Hid1, Hr.
    split_and!; [done|done|]. rewrite written_namespace, (same_stored t) by apply same_renewed. by apply scan_stored.
Qed.

(** ** Completing with outputs *)

Lemma outputs_of_elem p who u c outs o e :
  Forall (fun out => a_ID out = ""%string /\ coherent out) outs -> (o, e) ∈ outputs_of p who u c outs ->
  exists out k, out ∈ outs /\ (u <= k)%nat /\ a_ID o = uuid_at k /\ e_ID e = uuid_at (S k)
    /\ effectiveAgentNamespace o = effectiveAgentNamespace out
    /\ row_namespace (row_of_agent o) = effectiveAgentNamespace out.
Proof.
  intros HF. revert u c. induction HF as [|out outs [Hid Hco] HF IH]; intros u c Hin; cbn [outputs_of] in Hin; [by apply elem_of_nil in Hin|].
  apply elem_of_cons in Hin as [Heq|Hin].
  - unfold output_of in Heq. injection Heq as -> ->. exists out, u.
    assert (Hids : ids_drawn out = 1%nat) by (unfold ids_drawn; by rewrite decide_True).
    assert (Hns : stored_namespace (inherit p (filled u c out)) = effectiveAgentNamespace out).
    { rewrite (same_stored (filled u c out)) by apply same_inherit. rewrite (same_stored out) by apply same_filled.
      by apply coherent_stored. }
    split_and!; [set_solver|lia| |by rewrite Hids| |].
    + rewrite sync_namespace_id. destruct (inherit_fields p (filled u c out)) as [-> _].
      destruct (filled_fields u c out) as [-> _]. by rewrite decide_True.
    + by rewrite sync_effective.
    + by rewrite written_namespace.
  - destruct (IH _ _ Hin) as (out' & k & H1 & H2 & H3). exists out', k. split_and!; [set_solver|lia|apply H3..].
Qed.

Lemma write_outputs_rows os d d' :
  write_outputs os d = Ok d' ->
  forall i, agents d' !! i = agents d !! i
            \/ exists o e, (o, e) ∈ os /\ i = a_ID o /\ agents d' !! i = Some (row_of_agent o).
Proof.
  revert d. induction os as [|[o e] os IH]; intros d H i; cbn [write_outputs] in H; [injection H as <-; by left|].
  destruct (insert_event_stmt _ _) as [d1|] eqn:Hi; [|done]. apply insert_event_abs in Hi as [Ha _].
  destruct (IH d1 H i) as [->|(o' & e' & Hin & -> & ->)]; [|right; exists o', e'; set_solver].
  rewrite Ha. cbn. destruct (insert_ns (agents d) (a_ID o) (row_of_agent o) i) as [?|[-> ?]]; [by left|right].
  exists o, e. set_solver.
Qed.

(** What the operation does to the rows. *)
Lemma complete_and_out_rows nowMs now_ u c id who tok res outs d a d' evs :
  keyed d -> Forall (fun out => a_ID out = ""%string /\ coherent out) outs ->
  complete_and_out_effect nowMs now_ u c id who tok res outs d = Ok (a, d', evs) ->
  exists r, agents d !! id = Some r /\ effectiveAgentNamespace a.1 = row_namespace r
    /\ Forall (fun t => exists out, out ∈ outs /\ effectiveAgentNamespace t = effectiveAgentNamespace out) a.2
    /\ forall i, agents d' !! i = agents d !! i
         \/ (i = id /\ exists r', agents d' !! i = Some r' /\ r_id r' = id /\ row_namespace r' = row_namespace r)
         \/ exists out o e k, out ∈ outs /\ e ∈ evs /\ (u < k)%nat /\ i = uuid_at k /\ a_ID o = i
              /\ e_ID e = uuid_at (S k) /\ agents d' !! i = Some (row_of_agent o)
              /\ row_namespace (row_of_agent o) = effectiveAgentNamespace out.
Proof.
  intros Hk Houts. unfold complete_and_out_effect. destruct (identity_error who tok); [done|].
  destruct (found id nowMs d) as [t|e] eqn:Hf; [|done].
  destruct (found_row _ _ _ _ Hk Hf) as (r & Hr & Hs & Hid). cbn [mbind result_bind].
  case_decide.
  { destruct (CompletionTokenMatches t tok); [|done]. intros [= <- <- <-]. exists r.
    split_and!; [done|by apply scan_row_namespace|done|by left]. }
  destruct (lease_error _ _ _ _); [done|]. set (t1 := completed_agent t who tok res now_).
  assert (Hid1 : a_ID t1 = id).
  { pose proof (ID_completed t who tok res now_) as H'. rewrite sync_namespace_id in H'. unfold t1. congruence. }
  assert (Hns : stored_namespace t1 = row_namespace r).
  { rewrite (same_stored t) by apply same_completed. by apply scan_stored. }
  match goal with |- context [insert_event_stmt ?e ?d] => destruct (insert_event_stmt e d) as [d1|] eqn:Hi; [|done] end.
  apply insert_event_abs in Hi as [Ha _]. unfold update_stmt in Ha. cbn [row_of_agent r_id] in Ha.
  rewrite sync_namespace_id, Hid1, Hr in Ha. cbn in Ha.
  cbn [mbind result_bind].
  match goal with |- context [write_outputs ?os d1] => destruct (write_outputs os d1) as [d2|] eqn:Hw; [|done] end. intros [= <- <- <-]. exists r.
  split_and!; [done|by cbn; rewrite sync_effective| |].
  - cbn. apply Forall_fmap, Forall_forall. intros [o e] Hin.
    destruct (outputs_of_elem _ _ _ _ _ _ _ Houts Hin) as (out & k & H1 & _ & _ & _ & H2 & _). cbn. eauto.
  - intros i. destruct (write_outputs_rows _ _ _ Hw i) as [->|(o & e & Hin & -> & ->)].
    + rewrite Ha. destruct (insert_ns (agents d) id (row_of_agent (sync_namespace t1)) i) as [?|[-> ->]]; [by left|right; left].
      split; [done|]. eexists. split_and!; [done|cbn; by rewrite sync_namespace_id|by rewrite written_namespace].
    + right; right. destruct (outputs_of_elem _ _ _ _ _ _ _ Houts Hin) as (out & k & H1 & H2 & H3 & H4 & _ & H5).
      exists out, o, e, k. split_and!; try done.
      apply elem_of_cons. right. apply (list_elem_of_fmap_2 snd) in Hin. exact Hin.
Qed.

Context `{Fresh : !FreshIds E}.

Lemma not_drawn_later w k : (w_uuid w <= k)%nat -> ~ uuid_drawn w (uuid_at k).
Proof. intros Hk (n & Hn & Hid). apply uuid_inj in Hid. lia. Qed.

Lemma complete_and_out_promise id who tok res outs w :
  space_inv w -> Forall (fun out => a_ID out = ""%string /\ coherent out) outs ->
  let '(r, w') := CompleteAndOut id who tok res outs w in
  (space_inv w' /\ (forall id, drawn w id -> drawn w' id))
  /\ (forall i, stored w' i = stored w i \/ i = id /\ ns_of w' i = ns_of w i /\ stored w i <> None
        \/ stored w i = None /\ ~ drawn w i
           /\ exists out, out ∈ outs /\ ns_of w' i = Some (effectiveAgentNamespace out))
  /\ (forall t created, r = Ok (t, created) -> is_stored w id t
        /\ Forall (fun t' => exists out, out ∈ outs /\ effectiveAgentNamespace t' = effectiveAgentNamespace out) created).
Proof.
  intros Hi Houts. pose proof (runs_inv _ _ _ (CompleteAndOut_runs id who tok res outs w)) as Hr.
  destruct (CompleteAndOut id who tok res outs w) as [r w']. cbn [fst snd] in Hr. destruct Hr as [Hu Hr].
  destruct Hr as [[Hd [e ->]]|(a & d & evs & He & -> & Hd & Hev)].
  { destruct (same_db_promise w w' Hi Hu Hd) as [H1 H2]. split; [done|]. split; [|done]. intros i. left. apply H2. }
  destruct (complete_and_out_rows _ _ _ _ _ _ _ _ _ _ _ _ _ (proj1 Hi) Houts He) as (r0 & Hr0 & Heff & Hcr & Hrows).
  subst d. rewrite Forall_forall in Hev.
  split; [apply inv_kept; [done|done| |]|split].
  - intros i x Hx. destruct (Hrows i) as [E'|[(-> & r' & E' & Hid & _)|(out & o & e & k & _ & _ & _ & _ & Hid & _ & E' & _)]];
      rewrite E' in Hx; [by apply Hi|by injection Hx as <-|by injection Hx as <-].
  - intros i Hx. destruct (Hrows i) as [E'|[(-> & _)|(out & o & e & k & _ & Hin & Hk & -> & _ & Heid & _)]].
    + left. by rewrite <- E'.
    + left. by rewrite Hr0.
    + right. destruct (Hev e Hin) as (j & Hj & Hej). rewrite Heid in Hej. apply uuid_inj in Hej. exists k. split; [lia|done].
  - intros i. destruct (Hrows i) as [E'|[(-> & r' & E' & Hid & Hns)|(out & o & e & k & Hout & _ & Hk & -> & _ & _ & E' & Hns)]].
    + by left.
    + right; left. unfold ns_of. cbn. rewrite E', Hr0. cbn. by rewrite Hns.
    + right; right. assert (Hnd : ~ uuid_drawn w (uuid_at k)) by (apply not_drawn_later; lia).
      split_and!; [|done|exists out; split; [done|]; unfold ns_of; cbn; rewrite E'; cbn; by rewrite Hns].
      cbn. destruct (agents (w_db w) !! uuid_at k) eqn:Hs; [|done]. destruct Hnd. apply Hi. congruence.
  - intros t created [= ->]. split; [|done]. unfold is_stored, ns_of. cbn. rewrite Hr0. cbn. by rewrite <- Heff.
Qed.

(** ** The reaper *)

Lemma reap_promise w :
  space_inv w ->
  let w' := (reapExpiredLeases w).2 in
  (space_inv w' /\ (forall id, drawn w id -> drawn w' id))
  /\ (forall i, stored w' i = stored w i \/ ns_of w' i = ns_of w i /\ stored w i <> None).
Proof.
  intros Hi w'. pose proof (reap_run w) as Hr. unfold wp in Hr. unfold w'. destruct (reapExpiredLeases w) as [r w1].
  cbn [snd]. pose proof (reap_outcome_rows _ _ _ _ (proj1 Hi) Hr) as Hrows. destruct Hr as (_ & Hu & _).
  split; [apply inv_kept; [done|done| |]|].
  - intros i x Hx. destruct (Hrows i) as [E'|(row & Hrow & _ & E')]; rewrite E' in Hx; [by apply Hi|].
    injection Hx as <-. cbn. by apply Hi.
  - intros i Hx. left. destruct (Hrows i) as [E'|(row & Hrow & _ & _)]; [by rewrite <- E'|by rewrite Hrow].
  - intros i. unfold ns_of. cbn. destruct (Hrows i) as [E'|(row & Hrow & _ & E')]; [by left|right].
    by rewrite E', Hrow.
Qed.

(** ** The interface *)

(** The store's state after an operation keeps the invariant, and the
    operation the promise [P]. *)
Definition delivers {A} w (P : A -> World DB -> Prop) (run : A * World DB) : Prop :=
  let '(x, w') := run in space_inv w' /\ (forall id, drawn w id -> drawn w' id) /\ P x w'.

Lemma op_delivers {A B} (f : A -> B) (m : M DB A) w (P : result goerror B -> World DB -> Prop) :
  (let '(r, w') := m w in (space_inv w' /\ (forall id, drawn w id -> drawn w' id))
     /\ P (match r with Ok a => Ok (f a) | Err e => Err (to_goerror e) end) w') ->
  delivers w P (op f m w).
Proof. unfold delivers, op. destruct (m w) as [r w']. intros [[? ?] ?]. done. Qed.

Lemma blocking_delivers (m : M DB (option Agent)) w (P : option (result goerror (option Agent)) -> World DB -> Prop) :
  (let '(r, w') := m w in (space_inv w' /\ (forall id, drawn w id -> drawn w' id))
     /\ P (match r with Ok None => None | Ok (Some t) => Some (Ok (Some t)) | Err e => Some (Err (to_goerror e)) end) w') ->
  delivers w P (blocking m w).
Proof. unfold delivers, blocking. destruct (m w) as [r w']. intros [[? ?] ?]. done. Qed.

Lemma read_delivers {A B} (f : A -> B) (m : M DB A) w :
  reading m -> space_inv w -> delivers w (fun _ w' => unchanged w w') (op f m w).
Proof.
  intros Hm Hi. apply op_delivers. pose proof (reading_kept m w Hm Hi) as H. destruct (m w).
  destruct H as (H1 & H2 & H3). done.
Qed.

Lemma get_delivers id w :
  space_inv w -> delivers w (promise (CGet id) w) (op (fun x => x) (Get id) w).
Proof.
  intros Hi. apply op_delivers. pose proof (reading_kept _ w (reading_Get id) Hi) as Hr.
  pose proof (runs_inv _ _ _ (Get_runs id w)) as [_ Hg]. destruct (Get id w) as [r w']. cbn [fst snd] in *.
  destruct Hr as (H1 & H2 & H3). split; [done|]. cbn [promise]. split; [done|].
  destruct Hg as [[_ [e ->]]|(a & d & evs & He & -> & _)]; [done|].
  destruct (found _ _ _) as [t|] eqn:Hf; [|done]. injection He as <- _ _.
  destruct (found_row _ _ _ _ (proj1 Hi) Hf) as (row & Hrow & Hs & _).
  cbn. unfold is_stored, ns_of. cbn. rewrite Hrow. cbn. by rewrite (scan_row_namespace row).
Qed.

Lemma query_delivers q w : space_inv w -> delivers w (promise (CQuery q) w) (op (fun x => x) (Query_ (Some q)) w).
Proof.
  intros Hi. apply op_delivers. pose proof (reading_kept _ w (reading_Query (Some q)) Hi) as Hr.
  destruct (Query_ (Some q) w) as [r w'] eqn:Hq. destruct Hr as (H1 & H2 & H3). split; [done|].
  cbn [promise]. split; [done|]. destruct r as [l|e]; [|done]. eapply Query_selected; [apply Hi|exact Hq].
Qed.

Lemma read_op_delivers q timeout w :
  space_inv w -> delivers w (promise (CRead q timeout) w) (blocking (Read poll_fuel (Some q) timeout) w).
Proof.
  intros Hi. apply blocking_delivers.
  assert (Hrd : reading (Read poll_fuel (Some q) timeout)).
  { unfold Read. apply reading_bind; [apply reading_now|intros t]. apply reading_poll, reading_read_poll. }
  pose proof (reading_kept _ w Hrd Hi) as Hr. pose proof (read_promise q timeout poll_fuel w) as Ht.
  destruct (Read poll_fuel (Some q) timeout w) as [r w']. destruct Hr as (H1 & H2 & H3). split; [done|].
  cbn [promise]. split; [done|]. intros x' Hx. specialize (Ht r w' Hi eq_refl).
  destruct r as [[t|]|e]; try done; injection Hx as <-; [|done]. intros t' [= <-]. by apply Ht.
Qed.

Lemma in_delivers q timeout w :
  space_inv w -> delivers w (promise (CIn q timeout) w) (blocking (In_ poll_fuel (Some q) timeout) w).
Proof.
  intros Hi. apply blocking_delivers. pose proof (in_promise q timeout poll_fuel w Hi) as H.
  destruct (In_ poll_fuel (Some q) timeout w) as [r w']. destruct H as (H1 & H2 & H3). split; [done|].
  cbn [promise]. split; [done|]. intros x' Hx.
  destruct r as [[t|]|e]; try done; injection Hx as <-; [|done]. intros t' [= <-]. by apply H3.
Qed.

Lemma take_delivers q w : space_inv w -> delivers w (promise (CTake q) w) (op (fun x => x) (Take (Some q)) w).
Proof.
  intros Hi. apply op_delivers. pose proof (take_promise q w Hi) as H. destruct (Take (Some q) w) as [r w'].
  destruct H as (H1 & H2 & H3). split; [done|]. cbn [promise]. split; [done|].
  destruct r as [o|e]; [|done]. intros t ->. by apply H3.
Qed.

Lemma out_delivers t w :
  space_inv w -> admissible (COut t) w -> delivers w (promise (COut t) w) (op (fun x => x) (Out t) w).
Proof.
  intros Hi Ha. apply op_delivers. pose proof (out_promise t w Hi Ha) as H. destruct (Out t w) as [r w'].
  destruct H as (H1 & H2 & H3). split; [done|]. cbn [promise]. split; [done|]. destruct r as [t'|e]; [|done]. by apply H3.
Qed.

Lemma complete_and_out_delivers id who tok res outs w :
  space_inv w -> Forall (fun out => a_ID out = ""%string /\ coherent out) outs ->
  delivers w (promise (CCompleteAndOut id who tok res outs) w) (op (fun x => x) (CompleteAndOut id who tok res outs) w).
Proof.
  intros Hi Ha. apply op_delivers. pose proof (complete_and_out_promise id who tok res outs w Hi Ha) as H.
  destruct (CompleteAndOut id who tok res outs w) as [r w'].
  destruct H as (H1 & H2 & H3). split; [done|]. cbn [promise]. split; [done|].
  destruct r as [[t created]|e]; [|done]. by apply H3.
Qed.

(** The operations on one agent, whatever they answer of it. *)
Lemma rewrites_delivers {B} (f : Agent -> B) (m : M DB Agent) id w p (P : result goerror B -> Prop) :
  space_inv w -> runs m w p -> rewrites id (w_db w) p ->
  (forall t, is_stored w id t -> P (Ok (f t))) -> (forall e, P (Err e)) ->
  delivers w (fun x w' => touches w id w' /\ P x) (op f m w).
Proof.
  intros Hi Hr Hp HP HE. apply op_delivers. pose proof (rewrites_promise m id w p Hi Hr Hp) as H.
  destruct (m w) as [r w']. destruct H as (H1 & H2 & H3). split; [done|]. split; [done|].
  destruct r as [t|e]; [apply HP; by apply H3|apply HE].
Qed.

(** The same for the variants that drop the agent. *)
Lemma dropped_delivers (m : M DB Agent) id w p :
  space_inv w -> runs m w p -> rewrites id (w_db w) p ->
  delivers w (fun _ w' => touches w id w') (op (fun x => x) (_ ← m; mret tt) w).
Proof.
  intros Hi Hr Hp. apply op_delivers. pose proof (rewrites_promise m id w p Hi Hr Hp) as H.
  unfold mbind, M_bind. destruct (m w) as [[t|e] w'];
    destruct H as (H1 & H2 & _); split; [exact H1|exact H2|exact H1|exact H2].
Qed.

Lemma delivers_mono {A} w (P Q : A -> World DB -> Prop) run :
  delivers w P run -> (forall x w', P x w' -> Q x w') -> delivers w Q run.
Proof. unfold delivers. destruct run. naive_solver. Qed.

(** An update keeps the invariant whatever it writes. *)
Lemma update_inv nowMs now1 now2 eid id u (m : M DB Agent) w :
  space_inv w -> runs m w (update_effect nowMs now1 now2 eid id u (w_db w)) ->
  space_inv (m w).2 /\ (forall i, drawn w i -> drawn (m w).2 i).
Proof.
  intros Hi Hr. apply runs_inv in Hr as [Hu Hr].
  destruct Hr as [[Hd _]|(a & d & evs & He & _ & Hd & _)]; [by apply same_db_promise|].
  unfold update_effect in He. destruct (found id nowMs (w_db w)) as [t|e] eqn:Hf; [|done].
  destruct (found_row _ _ _ _ (proj1 Hi) Hf) as (r & Hr & Hs & Hid). cbn [mbind result_bind] in He.
  match type of He with store_and_log _ (sync_namespace ?t) _ _ = _ => set (t1 := t) in * end.
  assert (Hid1 : a_ID t1 = id).
  { trans (a_ID (ApplyUpdates t u)); [unfold t1; by destruct (ApplyUpdates t u)|]. by rewrite ApplyUpdates_ID. }
  destruct (store_and_log_spec _ _ _ _ _ _ _ r He) as (_ & _ & _ & _ & Hrows); [by rewrite sync_namespace_id, Hid1|].
  rewrite sync_namespace_id, Hid1, <- Hd in Hrows. apply inv_kept; [done|done| |].
  - eapply keyed_insert_row; [apply Hi|exact Hr| |exact Hrows]. cbn. rewrite sync_namespace_id, Hid1. symmetry. by apply Hi.
  - intros i. rewrite Hrows. destruct (insert_ns (agents (w_db w)) id (row_of_agent (sync_namespace t1)) i) as [->|[-> _]]; [by left|].
    left. by rewrite Hr.
Qed.

Lemma update_delivers {B} (f : Agent -> B) id u w (P : result goerror B -> Prop) :
  space_inv w -> (forall t, is_stored w id t -> P (Ok (f t))) -> (forall e, P (Err e)) ->
  delivers w (fun x w' => keeps_namespace w id u -> touches w id w' /\ P x) (op f (UpdateAndGet id (Some u)) w).
Proof.
  intros Hi HP HE. pose proof (Update_runs id u w) as Hr. apply op_delivers.
  pose proof (update_inv _ _ _ _ _ _ _ w Hi Hr) as Hinv.
  assert (Hk : keeps_namespace w id u -> delivers w (fun x w' => touches w id w' /\ P x) (op f (UpdateAndGet id (Some u)) w)).
  { intros Hk. eapply rewrites_delivers; [done|exact Hr|by apply update_rewrites|done|done]. }
  unfold delivers, op in Hk. destruct (UpdateAndGet id (Some u) w) as [r w']. split; [exact Hinv|].
  intros Hkeep. by destruct (Hk Hkeep) as (_ & _ & ?).
Qed.

Lemma answered_stored w id t : is_stored w id t -> answered (fun o => forall t', o = Some t' -> is_stored w id t') (Ok (Some t)).
Proof. intros Hs t' [= <-]. exact Hs. Qed.

#[export] Instance sqlite_namespaced : NamespacedSpace (World DB).
Proof.
  split.
  - intros sid c w Hi Ha. change (delivers w (promise c w) (perform sid c w)).
    destruct c; unfold perform, sqlite_space.
    + destruct (same_db_promise w (now w).2 Hi) as [[? ?] ?]; [cbn; lia|done|done].
    + destruct (same_db_promise w (new_uuid w).2 Hi) as [[? ?] ?]; [cbn; lia|done|].
      split; [done|split; [done|]]. cbn [promise]. split_and!; [done|apply uuid_nonempty|apply not_drawn_later; lia|].
      exists (w_uuid w). split; [cbn; lia|done].
    + by apply get_delivers.
    + by apply out_delivers.
    + by apply take_delivers.
    + destruct (same_db_promise w w Hi) as [[? ?] Hu]; [lia|done|]. split; [done|split; [done|]]. cbn.
      split; [|done]. intros i. by left.
    + by apply in_delivers.
    + by apply read_op_delivers.
    + by apply query_delivers.
    + apply read_delivers; [apply reading_Count|done].
    + by destruct (same_db_promise w w Hi) as [[? ?] Hu]; [lia|done|].
    + pose proof (update_delivers (fun _ => tt) id updates w (fun _ => True) Hi) as H.
      unfold delivers, op, Update, mbind, M_bind in *. destruct (UpdateAndGet id (Some updates) w) as [[t|e] w']; cbn;
        destruct H as (? & ? & H); [done|done|split; [done|split; [done|]]; intros Hk; by destruct (H Hk)|done|done|
          split; [done|split; [done|]]; intros Hk; by destruct (H Hk)].
    + cbn [promise]. apply update_delivers; [done|apply answered_stored|done].
    + eapply dropped_delivers; [done|apply Complete_runs|by apply complete_rewrites].
    + cbn [promise]. eapply rewrites_delivers; [done|apply Complete_runs|by apply complete_rewrites|apply answered_stored|done].
    + by apply complete_and_out_delivers.
    + eapply dropped_delivers; [done|apply Release_runs|by apply release_rewrites].
    + cbn [promise]. eapply rewrites_delivers; [done|apply Release_runs|by apply release_rewrites|apply answered_stored|done].
    + cbn [promise]. eapply rewrites_delivers; [done|apply Renew_runs|by apply renew_rewrites|done|done].
    + apply read_delivers; [apply reading_GetEvents|done].
    + apply read_delivers; [apply reading_GetGlobalEvents|done].
    + apply read_delivers; [apply reading_QueryEvents|done].
    + apply read_delivers; [apply reading_GetDAG|done].
  - intros w id [_ Hd] Hs. by apply Hd.
  - intros w w' Hi ->. destruct (reap_promise w Hi) as [[? ?] ?]. done.
Qed.

End Laws.
