(* ===== verification/ApiScenario.v ===== *)
(** * HTTP API: requests for the witnesses

    A decoder, two principals and their requests, and a scheduler that runs
    the threads of a server as the witnesses need them. *)

From S2P Require Import Prelude GoLib Agent Common Effects Sql Scenario SqliteRows SqliteQuery SqliteLifecycle SqliteCore ApiTypes ApiHandlers ApiIsolation ApiSafety ApiServer ApiSqlite ApiSqliteLaws.
From stdpp Require Import gmap strings list fin_maps relations.
From Stdlib Require Import ZArith Lia.

Open Scope Z_scope.

Definition plain_create (kind parentID : string) : CreateAgentRequest :=
  MkCreateAgentRequest kind None [] parentID "trace" "" 0 None.

(** Bodies are read as plain words: the parent of a new job, the result of a
    completion. *)
Definition demo_decoder : Decoder := {|
  decode_CreateAgent b := Ok (plain_create "job" (bd_bytes b));
  decode_UpdateAgent _ := Ok (MkUpdateAgentRequest None None None None (Some {["note" := "x"%string]}));
  decode_Query _ := Ok empty_query;
  decode_Take _ := Ok empty_query;
  decode_BatchTake _ := Ok (MkBatchTakeRequest empty_query 1);
  decode_In _ := Ok (MkInRequest empty_query 1);
  decode_Read _ := Ok (MkReadRequest empty_query 0 false);
  decode_Complete b := Ok (MkCompleteAgentRequest (Some {["out" := VStr (bd_bytes b)]}) "");
  decode_CompleteAndOut _ := Ok (MkCompleteAndOutRequest None "" [plain_create "next" ""]);
  decode_Release _ := Ok (MkReleaseRequest "" "");
  decode_RenewLease _ := Ok (MkRenewLeaseRequest 60 "");
|}.

Definition demo_text : GoText := {|
  quote s := s;
  json_error := "invalid character"%string;
  text_deadline _ := false;
  text_canceled _ := false;
|}.

Definition principal_of (ns : string) : AuthPrincipal := MkAuthPrincipal ns false no_limits.

Definition request (ns method path who token body : string) : Request :=
  MkRequest method path {["X-Agent-ID" := [who]; "X-Lease-Token" := [token]]} ∅ "10.0.0.1:80"
    (Z.of_nat (String.length body)) (MkBody body false) (Some (principal_of ns)).

(** ** Scheduling *)

Section Scheduling.
Context {W : Type} `{NS : NamespacedSpace W} {Dec : Decoder} (h : Handlers).

Inductive turn : Type := Arrive (fuel : nat) (r : Request) | Advance (i : nat).

Definition play (c : turn) (s : server W) : server W :=
  match c with
  | Arrive n r => match route h n r with
                  | Some p => MkServer (sv_threads s ++ [MkThread r p]) (sv_world s)
                  | None => s
                  end
  | Advance i =>
      match sv_threads s !! i with
      | Some (MkThread r (Act sid c k)) =>
          MkServer (<[i := MkThread r (k (perform sid c (sv_world s)).1)]> (sv_threads s))
            (perform sid c (sv_world s)).2
      | _ => s
      end
  end.

Lemma play_reaches s cs : rtc (server_step h) s (foldl (fun s c => play c s) s cs).
Proof.
  revert s. induction cs as [|c cs IH]; intros s; [done|]. cbn [foldl]. etrans; [|apply IH].
  destruct s as [ts w], c as [n r|i]; cbn [play sv_threads sv_world].
  - destruct (route h n r) eqn:Hr; [|done]. apply rtc_once. by eapply step_arrive.
  - destruct (ts !! i) as [[r [o|sid c k]]|] eqn:Hi; [done| |done]. apply rtc_once. by apply step_call.
Qed.

End Scheduling.

(** A request served alone, from arrival to response. *)
Definition serve_alone {W} `{Space W} {Dec : Decoder} (h : Handlers) (fuel : nat) (r : Request) (w : W) : option outcome * W :=
  match route h fuel r with
  | Some p => let '(o, w') := run_prog p w in (Some o, w')
  | None => (None, w)
  end.

(** ** HTTP API: namespace isolation on the SQLite store*)


(** C35: Namespace isolation.  Let any requests arrive at a server over the
    SQLite store, their store calls interleaved in any order with each other
    and with lease reaping, database calls failing at will.  In every state
    reached, every call a request of a principal with a namespace is about to
    make changes only agents of that namespace or creates agents in it, no
    request ever changes the namespace of an agent, and every response such a
    request got shows only agents, lease tokens and events of agents in its
    namespace.  Excepted are the bodies of the graph endpoint, which checks
    its root only (below), and of the two statistics endpoints, which are
    counts. *)
Theorem requests_isolated `{Env} `{!FreshIds H} `{SqlOrder} `{GoText} `{PollFuel} `{Decoder} w s :
  space_inv w -> rtc (server_step sqlite_handlers) (MkServer [] w) s -> isolates s.
Proof. intros Hi Hr. eapply inv_isolates, reachable_inv; [exact Hi|exact Hr]. Qed.

(** Alice creates a job while Bob, of another namespace, takes: he gets
    nothing; Alice's own take gets it. *)
Definition race : list turn :=
  [Arrive 5 (request "red" "POST" "/api/v1/agents" "alice" "" "");
   Advance 0; Advance 0;
   Arrive 5 (request "blue" "POST" "/api/v1/agents/take" "bob" "" "");
   Advance 0; Advance 0; Advance 1;
   Arrive 5 (request "red" "POST" "/api/v1/agents/take" "alice" "" ""); Advance 2].

Definition play_on_sqlite : list turn -> server (World DB) :=
  foldl (fun s c => @play _ (@sqlite_space quiet MergeSqlOrder demo_text 3%nat) demo_decoder sqlite_handlers c s)
    (MkServer [] (start empty_db)).

Definition statuses (s : server (World DB)) : list Z :=
  omap (fun t => match th_prog t with Ret (Responded r) => Some (rs_status r) | _ => None end) (sv_threads s).

Lemma requests_isolated_witness :
  @isolates _ (@sqlite_space quiet MergeSqlOrder demo_text 3%nat) (@sqlite_state quiet MergeSqlOrder) (play_on_sqlite race)
  /\ statuses (play_on_sqlite race) = [201; 204; 200].
Proof.
  split; [|vm_compute; reflexivity].
  apply (@requests_isolated quiet (demo_fresh []) MergeSqlOrder demo_text 3%nat demo_decoder (start empty_db)).
  - split; intros id; cbn; rewrite lookup_empty; done.
  - apply play_reaches.
Defined.

(** The graph endpoint shows agents of other namespaces: Bob creates a job
    whose parent is Alice's and asks for the graph of his own job. *)
Definition spy : list turn :=
  [Arrive 5 (request "red" "POST" "/api/v1/agents" "alice" "" "")] ++ repeat (Advance 0) 6
  ++ [Arrive 5 (request "blue" "POST" "/api/v1/agents" "bob" "" "u0")] ++ repeat (Advance 1) 6
  ++ [Arrive 5 (request "blue" "GET" "/api/v1/dag/u2" "bob" "" "")] ++ repeat (Advance 2) 6.

Definition graph_nodes (s : server (World DB)) (i : nat) : list string :=
  match sv_threads s !! i with
  | Some (MkThread _ (Ret (Responded (MkResponse _ _ (BDag d))))) => elements (dom (dag_Nodes d))
  | _ => []
  end.

Example graph_crosses_namespaces : "u0"%string ∈ graph_nodes (play_on_sqlite spy) 2.
Proof. apply (bool_decide_unpack _). vm_compute. exact I. Qed.
