(* ===== verification/ApiStatus.v ===== *)
(** * HTTP API: the status codes of a completion

    The handler tells the store's errors apart by their texts.  On the SQLite
    store, for identifiers shaped like UUIDs, the code says exactly what
    happened. *)

From S2P Require Import Prelude GoLib SharedLease Agent Common Effects Sql SqliteRows SqliteQuery SqliteLifecycle SqliteCore SqliteReaper SqliteRefine SqliteBehaviour Scenario ApiTypes ApiHandlers ApiSqlite ApiScenario.
From stdpp Require Import gmap strings list fin_maps.
From Stdlib Require Import ZArith Lia Ascii.

Open Scope Z_scope.
Open Scope string_scope.

(** ** Texts *)

Lemma prefix_bytes_elem p l c : Strings.prefix_bytes p l = true -> c ∈ p -> c ∈ l.
Proof.
  revert l. induction p as [|a p IH]; intros [|b l]; simpl; [set_solver..|done|].
  intros [->%bool_decide_eq_true H]%andb_true_iff Hc. apply elem_of_cons in Hc as [->|Hc]; [set_solver|].
  apply elem_of_cons. right. by eapply IH.
Qed.

(** A text has no part with a byte it lacks. *)
Lemma contains_lacks s p c : c ∈ bytes p -> c ∉ bytes s -> Strings.Contains s p = false.
Proof.
  intros Hp Hs. unfold Strings.Contains. induction (bytes s) as [|a l IH]; simpl.
  - rewrite orb_false_r. destruct (bytes p); [by apply elem_of_nil in Hp|done].
  - rewrite IH by set_solver. rewrite orb_false_r. apply not_true_iff_false. intros H.
    apply Hs. by eapply (prefix_bytes_elem (bytes p)).
Qed.

(** The bytes of a UUID's text. *)
Definition uuid_shaped (id : string) : Prop := Forall (fun c => c ∈ bytes "0123456789abcdef-") (bytes id).
#[export] Instance uuid_shaped_dec id : Decision (uuid_shaped id).
Proof. unfold uuid_shaped. apply _. Defined.

Lemma not_found_lacks id c :
  uuid_shaped id -> c ∉ bytes "agent not found: " -> c ∉ bytes "0123456789abcdef-" -> c ∉ bytes ("agent not found: " +:+ id).
Proof.
  intros Hid H1 H2. rewrite bytes_app. apply not_elem_of_app. split; [done|].
  intros Hc. apply H2. unfold uuid_shaped in Hid. rewrite Forall_forall in Hid. by apply Hid.
Qed.

(** ** Codes *)

Section Codes.
Context `{E : Env} `{Srt : SqlOrder} `{G : GoText} `{F : PollFuel} `{Dec : Decoder}.

Definition known_status (s : string) : Prop := s ∈ [StatusNew; StatusInProgress; StatusCompleted; StatusFailed].

(** The code a completion of [id] under [who] and [tok] must get. *)
Definition completion_code (minimal : bool) (id who tok : string) (nowMs : Z) (d : DB) : Z :=
  let ok := if minimal then StatusNoContent else StatusOK in
  match found id nowMs d with
  | Err _ => StatusNotFound
  | Ok t =>
      if decide (a_Status t = StatusCompleted) then
        if CompletionTokenMatches t tok then ok else StatusForbidden
      else match lease_error "complete" t who tok with
           | None => ok
           | Some (EInvalidStatus _) => StatusConflict
           | Some _ => StatusForbidden
           end
  end.

Definition answers (status : Z) (o : outcome) : Prop :=
  exists rs, o = Responded rs /\ rs_status rs = status.

Lemma writeError_answers status message (w : World DB) :
  let '(o, w') := run_prog (writeError status message) w in answers status o /\ w_db w' = w_db w.
Proof. cbn. split; [|done]. by eexists. Qed.

(** How the handler's reading of an error maps its text. *)
Definition error_code (e : gerror) : Z :=
  let errMsg := err_Error (to_goerror e) in
  if contains_any errMsg ["TOKEN_MISMATCH"; "NOT_OWNER"; "lease token mismatch"; "cannot complete";
                          "complete rejected"; "owned by"] then StatusForbidden
  else if contains_any errMsg ["INVALID_STATUS"; "invalid status"] then StatusConflict
  else if contains_any errMsg ["AGENT_NOT_FOUND"; "agent not found"] then StatusNotFound
  else StatusInternalServerError.

Lemma complete_error_answers e (w : World DB) :
  let '(o, w') := run_prog (complete_error (to_goerror e)) w in answers (error_code e) o /\ w_db w' = w_db w.
Proof. unfold complete_error, error_code. cbn zeta. do 3 (destruct (contains_any _ _); [apply writeError_answers|]).
  apply writeError_answers.
Qed.

Lemma error_text_root e : root_cause e = e -> err_Error (to_goerror e) = error_text e.
Proof. unfold to_goerror. intros ->. by destruct e. Qed.

Lemma code_not_found id : uuid_shaped id -> error_code (ENotFound id) = StatusNotFound.
Proof.
  intros Hid. unfold error_code. cbn [to_goerror root_cause err_Error error_text].
  assert (Hlack : forall p c, c ∈ bytes p -> c ∉ bytes "agent not found: " -> c ∉ bytes "0123456789abcdef-" ->
    Strings.Contains ("agent not found: " +:+ id) p = false).
  { intros p c Hp H1 H2. eapply contains_lacks; [exact Hp|by apply not_found_lacks]. }
  unfold contains_any. cbn [existsb].
  rewrite (Hlack "TOKEN_MISMATCH" "T"%char), (Hlack "NOT_OWNER" "N"%char), (Hlack "lease token mismatch" "m"%char),
    (Hlack "cannot complete" "p"%char), (Hlack "complete rejected" "p"%char), (Hlack "owned by" "w"%char),
    (Hlack "INVALID_STATUS" "I"%char), (Hlack "invalid status" "v"%char), (Hlack "AGENT_NOT_FOUND" "A"%char)
    by (apply (bool_decide_unpack _); vm_compute; exact I).
  rewrite (Strings.Contains_app_r "agent not found: " id "agent not found") by done. done.
Qed.

Lemma code_invalid_status s : known_status s -> error_code (EInvalidStatus s) = StatusConflict.
Proof.
  unfold known_status. rewrite !elem_of_cons. intros [->|[->|[->|[->|H]]]]; [vm_compute; reflexivity..|by apply elem_of_nil in H].
Qed.

Lemma code_owned_by owner who : error_code (EOwnedBy "complete" owner who) = StatusForbidden.
Proof.
  unfold error_code, contains_any. cbn [to_goerror root_cause err_Error error_text existsb].
  match goal with |- context [Strings.Contains ?s "cannot complete"] =>
    assert (Strings.Contains s "cannot complete" = true) as -> end.
  { match goal with |- Strings.Contains ?s _ = _ => change s with ("cannot complete" +:+ (": agent owned by " +:+ quote owner +:+ ", not " +:+ quote who)) end.
    by apply Strings.Contains_app_r. }
  by rewrite !orb_true_r.
Qed.

(** ** The handler *)

(** The store's error, read back as a code. *)
Lemma lease_error_code t who tok :
  known_status (a_Status t) ->
  match lease_error "complete" t who tok with
  | None => True
  | Some (EInvalidStatus s) => error_code (EInvalidStatus s) = StatusConflict
  | Some e => error_code e = StatusForbidden
  end.
Proof.
  intros Hk. unfold lease_error. repeat case_decide; [by apply code_invalid_status|apply code_owned_by|vm_compute; reflexivity|done].
Qed.

(** A completion without failing calls, as the store runs it. *)
Lemma complete_run id who tok res w :
  fault_free E -> FreshIds E -> ids_fresh w -> keyed (w_db w) -> decodable (w_db w) ->
  who <> "" -> tok <> "" ->
  let nowMs := Time.UnixMilli (clock_at (w_clock w)) in
  let '(r, w') := CompleteAndGet id who tok res w in
  match found id nowMs (w_db w) with
  | Err _ => r = Err (ENotFound id) /\ w_db w' = w_db w
  | Ok t =>
      if decide (a_Status t = StatusCompleted) then
        r = (if CompletionTokenMatches t tok then Ok t else Err EStaleToken) /\ w_db w' = w_db w
      else match lease_error "complete" t who tok with
           | Some e => r = Err e /\ w_db w' = w_db w
           | None => is_ok r = true /\ status_of id (w_db w') = StatusCompleted
           end
  end.
Proof.
  intros HF HI Hfr Hk Hdec Hwho Htok nowMs. pose proof (Complete_runs id who tok res w) as Hr.
  unfold runs, wp in Hr. destruct (CompleteAndGet id who tok res w) as [r w'].
  destruct Hr as (_ & _ & [Hab|Hr]); [by apply aborted_fault_free in Hab|]. fold nowMs in Hr.
  unfold complete_effect, identity_error in Hr. rewrite !decide_False in Hr by done.
  destruct (found id nowMs (w_db w)) as [t|e] eqn:Hf; cbn [mbind result_bind] in Hr.
  2:{ destruct Hr as (-> & ? & _). split; [|done]. revert Hf. unfold found.
      destruct (agents (w_db w) !! id) as [row|] eqn:Hrow; [|congruence].
      destruct (live nowMs row); [|congruence]. destruct (Hdec _ _ Hrow) as [t ->]. done. }
  case_decide as Hc.
  { destruct (CompletionTokenMatches t tok); cbn in Hr; by destruct Hr as (-> & ? & _). }
  destruct (lease_error "complete" t who tok); [by destruct Hr as (-> & ? & _)|].
  unfold store_and_log, insert_event_stmt in Hr.
  match type of Hr with context [decide (?x ∈ ?l)] => assert (Hn : x ∉ l) end.
  { cbn. unfold update_stmt. destruct (agents (w_db w) !! _); apply Hfr; lia. }
  rewrite decide_False in Hr by exact Hn. cbn [mbind result_bind mret result_ret] in Hr.
  destruct Hr as (-> & Hd & _). split; [done|]. rewrite Hd. unfold status_of. cbn [agents].
  destruct (found_spec id nowMs (w_db w) t Hk Hf) as (row & Hrow & _ & _ & Hid & _).
  unfold update_stmt. cbn [row_of_agent r_id]. rewrite ID_completed, Hid, Hrow.
  cbn [agents]. rewrite lookup_insert_eq. cbn [row_of_agent r_status].
  by destruct (sync_lease (completed_agent t who tok (default ∅ res) (clock_at (S (w_clock w))))) as (_ & -> & _); destruct t.
Qed.

(** What is asked of a request and of the state: no namespace to check, the
    lease headers set, a body that decodes, an identifier shaped like a UUID
    and rows with known statuses, no failing database call. *)
Record plain_completion (r : Request) (req : CompleteAgentRequest) (id : string) (w : World DB) : Prop := {
  pc_principal : requestPrincipalNamespace r = "";
  pc_body : decode_Complete (rq_body r) = Ok req;
  pc_id : Strings.TrimSuffix (extractIDFromPath (rq_path r) "/api/v1/agents/") "/complete" = id;
  pc_uuid : id <> "" /\ uuid_shaped id;
  pc_agent : header r "X-Agent-ID" <> "";
  pc_token : header r "X-Lease-Token" <> "";
  pc_fresh : ids_fresh w;
  pc_keyed : keyed (w_db w);
  pc_decodable : decodable (w_db w);
  pc_status : forall row, agents (w_db w) !! id = Some row -> known_status (r_status row);
}.

(** The rest of the handler, once the store has answered. *)
Definition result_of {A} (r : result gerror A) : result goerror A :=
  match r with Ok a => Ok a | Err e => Err (to_goerror e) end.

Lemma completion_response minimal shardID id (res : result gerror (option Agent)) (w : World DB) :
  (forall t, res = Ok t -> minimal = false -> is_Some t) ->
  let '(o, w') := run_prog (match result_of res with
    | Err e => complete_error e
    | Ok t => if minimal then mret (writeHeader StatusNoContent) else answer_agent shardID id t
    end) w in
  answers (match res with Ok _ => if minimal then StatusNoContent else StatusOK | Err e => error_code e end) o
  /\ w_db w' = w_db w.
Proof.
  intros Ht. destruct res as [t|e]; [|apply complete_error_answers]. cbn [result_of].
  destruct minimal; [cbn; split; [|done]; by eexists|].
  destruct (Ht t eq_refl eq_refl) as [t' ->]. cbn. split; [|done]. by eexists.
Qed.

(** Either way of calling the store runs the same operation. *)
Lemma complete_call_run minimal shardID id who tok res w :
  run_prog (complete_call sqlite_handlers minimal shardID id who tok res) w =
  let '(r, w') := CompleteAndGet id who tok res w in
  (result_of (result_map (fun t => if minimal then None else Some t) r), w').
Proof.
  unfold complete_call. destruct minimal; cbn; unfold op, Complete, mbind, M_bind;
    destruct (CompleteAndGet id who tok res w) as [[t|e] w']; done.
Qed.

(** The store's answer to a completion carries the code the state calls for. *)
Lemma complete_run_code minimal id who tok res w :
  fault_free E -> FreshIds E -> ids_fresh w -> keyed (w_db w) -> decodable (w_db w) ->
  (forall row, agents (w_db w) !! id = Some row -> known_status (r_status row)) ->
  who <> "" -> tok <> "" -> uuid_shaped id ->
  let code := completion_code minimal id who tok (Time.UnixMilli (clock_at (w_clock w))) (w_db w) in
  let '(r, w') := CompleteAndGet id who tok res w in
  match r with Ok _ => if minimal then StatusNoContent else StatusOK | Err e => error_code e end = code
  /\ (if is_ok r then status_of id (w_db w') = StatusCompleted else w_db w' = w_db w).
Proof.
  intros HF HI Hfr Hk Hdec Hst Hwho Htok Hid. pose proof (complete_run id who tok res w HF HI Hfr Hk Hdec Hwho Htok) as Hr.
  destruct (CompleteAndGet id who tok res w) as [r w']. cbv zeta in *. unfold completion_code.
  destruct (found id _ (w_db w)) as [t|e] eqn:Hf.
  2:{ destruct Hr as [-> ?]. split; [by apply code_not_found|done]. }
  destruct (found_spec _ _ _ _ Hk Hf) as (row & Hrow & _ & Hs & _). apply Hst in Hrow as Hkn.
  assert (a_Status t = r_status row) as Hrs by (by destruct (scan_columns row t Hs) as (_ & ? & _)).
  case_decide as Hc.
  - destruct Hr as [-> Hd]. destruct (CompletionTokenMatches t tok); (split; [reflexivity|]); cbn [is_ok].
    + rewrite Hd. unfold status_of. rewrite Hrow. congruence.
    + done.
  - rewrite <-Hrs in Hkn. pose proof (lease_error_code t who tok Hkn) as Hl.
    destruct (lease_error "complete" t who tok) as [e|].
    + destruct Hr as [-> Hd]. split; [|done]. by destruct e.
    + destruct Hr as [Ho ?]. destruct r; [|done]. done.
Qed.

(** C37: The status code of [POST /api/v1/agents/{id}/complete] over the
    SQLite store tells what happened to the agent, although the handler only
    sees the texts of the store's errors: 404 when there is no live agent, 403
    when it is in progress under another worker or token or was completed
    under another token, 409 when it is not in progress, 200 (204 when a
    minimal answer is asked for) when it is completed by this call or was
    completed under the same token before; and then it is stored as
    completed, while a refused call leaves the database as it was. *)
Theorem CompleteAgent_status r req id w :
  fault_free E -> FreshIds E -> plain_completion r req id w ->
  let '(o, w') := run_prog (CompleteAgent sqlite_handlers r) w in
  let code := completion_code (requestPrefersReturnMinimal r) id (header r "X-Agent-ID") (header r "X-Lease-Token")
                (Time.UnixMilli (clock_at (w_clock w))) (w_db w) in
  answers code o
  /\ (if decide (code < 400) then status_of id (w_db w') = StatusCompleted else w_db w' = w_db w).
Proof.
  intros HF HI [Hp Hb Hi [Hne Hu] Ha Ht Hfr Hk Hdec Hst].
  unfold CompleteAgent. rewrite Hi, Hb, decide_False, decide_True by done.
  unfold with_lease_headers. rewrite !decide_False by done.
  rewrite run_prog_bind, complete_call_run.
  set (minimal := requestPrefersReturnMinimal r). set (who := header r "X-Agent-ID") in *. set (tok := header r "X-Lease-Token") in *.
  pose proof (complete_run_code minimal id who tok (co_Result req) w HF HI Hfr Hk Hdec Hst Ha Ht Hu) as Hc.
  destruct (CompleteAndGet id who tok (co_Result req) w) as [res w']. cbv zeta in *. destruct Hc as [Hc Hd].
  pose proof (completion_response minimal (co_ShardID req) id (result_map (fun t => if minimal then None else Some t) res) w') as Hr.
  destruct (run_prog _ w') as [o w'']. destruct Hr as [Hr Hw].
  { intros t'. destruct res; cbn; [|done]. intros [= <-] ->. by eexists. }
  rewrite <-Hc, Hw. destruct res as [t|e]; cbn [result_map is_ok] in *; (split; [exact Hr|]).
  - rewrite decide_True; [done|]. destruct minimal; vm_compute; reflexivity.
  - rewrite decide_False; [done|]. unfold error_code. by repeat destruct (contains_any _ _).
Qed.

End Codes.

(** ** A worker completes, another tries *)

Definition complete_request (who token : string) : Request :=
  MkRequest "POST" "/api/v1/agents/a/complete" {["X-Agent-ID" := [who]; "X-Lease-Token" := [token]]} ∅
    "10.0.0.1:80" 2 (MkBody "{}" false) None.

Definition alone {A} (p : Decoder -> prog A) (w : World DB) : A * World DB :=
  @run_prog _ (@sqlite_space quiet MergeSqlOrder demo_text 3%nat) _ (p demo_decoder) w.

Lemma plain_request who token :
  who <> "" -> token <> "" ->
  @plain_completion quiet demo_decoder (complete_request who token)
    (MkCompleteAgentRequest (Some {["out" := VStr "{}"]}) "") "a" taken.
Proof.
  intros Hw Ht. constructor.
  1,2,3: vm_compute; reflexivity.
  - split; [done|]. apply (bool_decide_unpack _). vm_compute. exact I.
  - exact Hw.
  - exact Ht.
  - exact (proj2 taken_ok).
  - exact (proj1 taken_ok).
  - apply decodable_checked. vm_compute. reflexivity.
  - intros row Hrow. vm_compute in Hrow. injection Hrow as <-. apply (bool_decide_unpack _). vm_compute. exact I.
Qed.

Lemma CompleteAgent_status_witness :
  (exists o w', alone (fun D => CompleteAgent sqlite_handlers (complete_request "alice" "u3")) taken = (o, w')
     /\ answers 200 o /\ status_of "a" (w_db w') = StatusCompleted)
  /\ (exists o w', alone (fun D => CompleteAgent sqlite_handlers (complete_request "mallory" "u3")) taken = (o, w')
     /\ answers 403 o /\ w_db w' = w_db taken).
Proof.
  split.
  - pose proof (@CompleteAgent_status quiet MergeSqlOrder demo_text 3%nat demo_decoder (complete_request "alice" "u3")
      _ "a" taken quiet_fault_free (demo_fresh []) (plain_request "alice" "u3" ltac:(done) ltac:(done))) as H.
    unfold alone. destruct (run_prog _ taken) as [o w']. exists o, w'. split; [done|].
    replace (completion_code _ _ _ _ _ _) with 200 in H by (vm_compute; reflexivity). exact H.
  - pose proof (@CompleteAgent_status quiet MergeSqlOrder demo_text 3%nat demo_decoder (complete_request "mallory" "u3")
      _ "a" taken quiet_fault_free (demo_fresh []) (plain_request "mallory" "u3" ltac:(done) ltac:(done))) as H.
    unfold alone. destruct (run_prog _ taken) as [o w']. exists o, w'. split; [done|].
    replace (completion_code _ _ _ _ _ _) with 403 in H by (vm_compute; reflexivity). exact H.
Defined.

(** A release under a stale token is refused as a failure of the server. *)
Example release_refusal_is_500 :
  exists o w', alone (fun D => ReleaseAgent sqlite_handlers
    (MkRequest "POST" "/api/v1/agents/a/release" {["X-Agent-ID" := ["alice"]; "X-Lease-Token" := ["stale"]]} ∅
       "10.0.0.1:80" 2 (MkBody "{}" false) None)) taken = (o, w') /\ answers 500 o /\ w_db w' = w_db taken.
Proof. do 2 eexists. split; [vm_compute; reflexivity|]. split; [by eexists|vm_compute; reflexivity]. Qed.
