(* ===== verification/ApiFront.v ===== *)
(** * HTTP API: the middleware before the handlers

    [src/internal/api/middleware.go], [security_middleware.go],
    [security_headers.go], [auth_principal.go] and the part of
    [src/cmd/server/main.go] that configures and stacks them.  A handler gets
    the response headers set so far and the request; a middleware answers it
    or passes it on.  Logging, metrics and the request timeout are left out. *)

From S2P Require Import Prelude GoLib GoNet ApiTypes ApiHandlers.
From stdpp Require Import gmap strings list fin_maps.
From Stdlib Require Import ZArith Lia Ascii.

Open Scope Z_scope.
Open Scope string_scope.

(** ** Handlers and middleware *)

Record rateLimitEntry : Type := MkEntry { windowStart : Z; count : Z }.

(** What the middleware share: the clock as the request reads it, and the
    entries of the rate limiter. *)
Record Front : Type := MkFront { fr_now : Z; fr_entries : gmap string rateLimitEntry }.

Definition headers : Type := list (string * string).

(** The request got to the mux with these response headers set, or it was
    answered before. *)
Inductive disposition : Type :=
| Serve (set : headers) (r : Request)
| Refuse (set : headers) (response : outcome).

Definition Handler : Type := headers -> Request -> Front -> disposition * Front.
Definition Middleware : Type := Handler -> Handler.

Definition mux : Handler := fun set r s => (Serve set r, s).

Definition refuse (set : headers) (message : string) (status : Z) (s : Front) : disposition * Front :=
  (Refuse set (http_Error message status), s).

Definition ApplyMiddleware (handler : Handler) (middleware : list Middleware) : Handler :=
  foldr (fun m h => m h) handler middleware.

(** ** Headers *)

Definition SecurityHeadersMiddleware : Middleware := fun next set r =>
  next (set ++ [("X-Content-Type-Options", "nosniff"); ("X-Frame-Options", "DENY");
                ("Content-Security-Policy", "default-src 'none'"); ("X-XSS-Protection", "0");
                ("Referrer-Policy", "no-referrer"); ("Cache-Control", "no-store")])%list r.

Record CORSConfig : Type := MkCORSConfig {
  AllowedOrigins : list string;
  AllowedMethods : list string;
  AllowedHeaders : list string;
  MaxAgeSeconds : Z;
}.

Definition normalize_step (out : list string) (value : string) : list string :=
  let trimmed := Strings.TrimSpace value in
  if decide (trimmed = "") then out else if decide (trimmed ∈ out) then out else (out ++ [trimmed])%list.

Definition normalizeCORSValues (values : list string) : list string := foldl normalize_step [] values.

(** The trimmed origins without the blank ones, and whether one is a star. *)
Definition cors_origins (cfg : CORSConfig) : list string :=
  filter (fun o => o <> "" /\ o <> "*") (Strings.TrimSpace <$> AllowedOrigins cfg).
Definition allow_any_origin (cfg : CORSConfig) : bool :=
  bool_decide ("*" ∈ (Strings.TrimSpace <$> AllowedOrigins cfg)).

Definition or_default {A} (l d : list A) : list A := match l with [] => d | _ => l end.

Definition setCORSHeaders (cfg : CORSConfig) (origin : string) : headers :=
  ((if allow_any_origin cfg then [("Access-Control-Allow-Origin", "*")]
   else [("Access-Control-Allow-Origin", origin); ("Vary", "Origin")])
  ++ [("Access-Control-Allow-Methods",
       Strings.Join (or_default (normalizeCORSValues (AllowedMethods cfg)) ["GET"; "POST"; "PUT"; "DELETE"; "OPTIONS"]) ", ");
      ("Access-Control-Allow-Headers",
       Strings.Join (or_default (normalizeCORSValues (AllowedHeaders cfg)) ["Content-Type"; "Authorization"; "X-API-Key"]) ", ");
      ("Access-Control-Max-Age", Strconv.FormatInt (Z.max 0 (MaxAgeSeconds cfg)))])%list.

Definition CORSMiddlewareWithConfig (cfg : CORSConfig) : Middleware := fun next set r s =>
  let origin := Strings.TrimSpace (header r "Origin") in
  if decide (origin <> "" /\ allow_any_origin cfg = false /\ origin ∉ cors_origins cfg)
  then refuse set "CORS origin not allowed" StatusForbidden s
  else
    let set := if decide (origin = "") then set else (set ++ setCORSHeaders cfg origin)%list in
    if decide (rq_method r = "OPTIONS") then (Refuse set (writeHeader StatusNoContent), s)
    else next set r s.

Definition TelemetryModeMiddleware (mode : string) : Middleware := fun next set r s =>
  if decide (Strings.ToLower (Strings.TrimSpace mode) = "disabled") then
    if Strings.HasPrefix (rq_path r) "/api/v1/telemetry/"
    then refuse set "Telemetry endpoints disabled" StatusNotFound s
    else next set r s
  else next set r s.

(** ** Authentication *)

Definition AuthModeOptional : string := "optional".
Definition AuthModeRequired : string := "required".

Record KeyPrincipalEntry : Type := MkKeyPrincipalEntry { RawKey : string; Principal : AuthPrincipal }.

Record AuthConfig : Type := MkAuthConfig {
  APIKey : string;
  Mode : string;
  ExemptPaths : list string;
  KeyPrincipals : list KeyPrincipalEntry;
  LegacyNamespaceID : string;
}.

Record AdminRouteConfig : Type := MkAdminRouteConfig { ExactPaths : list string; Prefixes : list string }.

Definition DefaultAuthExemptPaths : list string := ["/api/v1/health"; "/health"].

Definition DefaultAdminRouteConfig : AdminRouteConfig :=
  MkAdminRouteConfig ["/api/v1/stats"; "/stats"; "/metrics"] ["/api/v1/admin/"].

(** HMAC-SHA256 under the nonce drawn at startup: the digest of a key. *)
Class KeyHash : Type := { digest : Type; digest_eq : EqDecision digest; hashKeyWithNonce : string -> digest }.
#[export] Existing Instance digest_eq.

Section Auth.
Context `{K : KeyHash}.

(** The loop of [constantTimeLookup]: the last entry that matches. *)
Definition lookup_step (providedHash : digest) (found : option AuthPrincipal) (e : KeyPrincipalEntry)
    : option AuthPrincipal :=
  if decide (providedHash = hashKeyWithNonce (RawKey e)) then Some (Principal e) else found.

Definition constantTimeLookup (entries : list KeyPrincipalEntry) (providedKey : string) : option AuthPrincipal :=
  foldl (lookup_step (hashKeyWithNonce providedKey)) None entries.

Definition AuthMiddleware (cfg : AuthConfig) : Middleware := fun next set r s =>
  let exemptPaths := or_default (ExemptPaths cfg) DefaultAuthExemptPaths in
  let mode := if decide (Mode cfg = "") then AuthModeOptional else Mode cfg in
  if decide (rq_path r ∈ exemptPaths) then next set r s
  else if decide (mode = AuthModeOptional /\ APIKey cfg = "" /\ KeyPrincipals cfg = []) then next set r s
  else if decide (APIKey cfg = "" /\ KeyPrincipals cfg = [])
  then refuse set "Authentication misconfigured" StatusServiceUnavailable s
  else
    let providedKey := Strings.TrimSpace (header r "X-API-Key") in
    if decide (providedKey = "") then refuse set "Unauthorized" StatusUnauthorized s
    else match KeyPrincipals cfg with
    | _ :: _ =>
        match constantTimeLookup (KeyPrincipals cfg) providedKey with
        | None => refuse set "Unauthorized" StatusUnauthorized s
        | Some principal => next set (withAuthPrincipal r principal) s
        end
    | [] =>
        if decide (providedKey <> APIKey cfg) then refuse set "Unauthorized" StatusUnauthorized s
        else
          let legacy := Strings.TrimSpace (LegacyNamespaceID cfg) in
          if decide (legacy = "") then next set r s
          else next set (withAuthPrincipal r (MkAuthPrincipal legacy false no_limits)) s
    end.

Definition protected (cfg : AdminRouteConfig) (path : string) : bool :=
  bool_decide (path ∈ ExactPaths cfg) || existsb (Strings.HasPrefix path) (Prefixes cfg).

Definition AdminOnlyMiddleware (cfg : AdminRouteConfig) : Middleware := fun next set r s =>
  let cfg := match ExactPaths cfg, Prefixes cfg with [], [] => DefaultAdminRouteConfig | _, _ => cfg end in
  if protected cfg (rq_path r) then
    match AuthPrincipalFromContext r with
    | None => refuse set "Unauthorized" StatusUnauthorized s
    | Some principal => if ap_Admin principal then next set r s else refuse set "Forbidden" StatusForbidden s
    end
  else next set r s.

End Auth.

(** ** Limits *)

Definition isMutatingMethod (method : string) : bool :=
  bool_decide (method ∈ ["POST"; "PUT"; "PATCH"; "DELETE"]).

(** What [http.MaxBytesReader] lets through of a body. *)
Definition MaxBytesReader (b : Body) (n : Z) : Body :=
  if decide (Z.of_nat (String.length (bd_bytes b)) <= n) then b
  else MkBody (of_bytes (take (Z.to_nat n) (bytes (bd_bytes b)))) true.

Definition set_Body (b : Body) (r : Request) : Request :=
  MkRequest (rq_method r) (rq_path r) (rq_header r) (rq_query r) (rq_remote r) (rq_length r) b (rq_principal r).

Definition MaxBodyBytesMiddleware (maxBytes : Z) (mutatingOnly : bool) : Middleware := fun next set r s =>
  if decide (maxBytes <= 0) then next set r s
  else if mutatingOnly && negb (isMutatingMethod (rq_method r)) then next set r s
  else
    let effectiveMax := match AuthPrincipalFromContext r with
                        | Some p => if decide (0 < MaxBodyBytes (ap_Limits p)) then MaxBodyBytes (ap_Limits p) else maxBytes
                        | None => maxBytes
                        end in
    next set (set_Body (MaxBytesReader (rq_body r) effectiveMax) r) s.

(** One entry of the trusted proxies against a parsed address. *)
Definition trusts (ip : string) (parsedIP : list Z) (cidr : string) : bool :=
  if Strings.Contains cidr "/" then
    match Net.ParseCIDR cidr with Some network => Net.contains network parsedIP | None => false end
  else match Net.ParseIP cidr with Some _ => bool_decide (cidr = ip) | None => false end.

Definition isTrustedProxy (ip : string) (trusted : list string) : bool :=
  match Net.ParseIP ip with
  | None => false
  | Some parsedIP => existsb (trusts ip parsedIP) trusted
  end.

(** The rightmost part that is not a trusted proxy. *)
Definition untrusted_part (trustedProxies : list string) (forwarded : string) : option string :=
  head (filter (fun candidate => candidate <> "" /\ isTrustedProxy candidate trustedProxies = false)
    (rev (Strings.TrimSpace <$> Strings.Split forwarded ","%char))).

Definition clientIdentifierWithTrust (r : Request) (trustedProxies : list string) : string :=
  let remoteHost := default "" (Net.SplitHost (rq_remote r)) in
  let remoteHost := if decide (remoteHost = "") then rq_remote r else remoteHost in
  let direct := if decide (remoteHost = "") then "unknown" else remoteHost in
  if decide (trustedProxies <> []) then
    if isTrustedProxy remoteHost trustedProxies then
      let forwarded := Strings.TrimSpace (header r "X-Forwarded-For") in
      if decide (forwarded = "") then direct
      else default direct (untrusted_part trustedProxies forwarded)
    else direct
  else direct.

Record RateLimitConfig : Type := MkRateLimitConfig {
  RequestsPerWindow : Z;
  Window : Z;
  MutatingOnly : bool;
  TrustedProxies : list string;
}.

(** The limit, the window and the bucket of a request. *)
Definition effective_limit (cfg : RateLimitConfig) (r : Request) : Z :=
  match AuthPrincipalFromContext r with
  | Some p => if decide (0 < RateLimitRequests (ap_Limits p)) then RateLimitRequests (ap_Limits p) else RequestsPerWindow cfg
  | None => RequestsPerWindow cfg
  end.

Definition effective_window (cfg : RateLimitConfig) (r : Request) : Z :=
  match AuthPrincipalFromContext r with
  | Some p => if decide (0 < RateLimitWindow (ap_Limits p)) then RateLimitWindow (ap_Limits p) else Window cfg
  | None => Window cfg
  end.

Definition client_key (cfg : RateLimitConfig) (r : Request) : string :=
  let namespaceKey := match AuthPrincipalFromContext r with Some p => ap_NamespaceID p | None => "" end in
  if decide (namespaceKey = "") then clientIdentifierWithTrust r (TrustedProxies cfg)
  else "ns:" +:+ namespaceKey.

(** The entry a request finds: a window that is over begins anew. *)
Definition current_entry (window now : Z) (found : option rateLimitEntry) : rateLimitEntry :=
  let entry := default (MkEntry Time.zero_time 0) found in
  if Time.IsZero (windowStart entry) || bool_decide (window <= Time.Sub now (windowStart entry))
  then MkEntry now 0 else entry.

Definition limited (cfg : RateLimitConfig) (r : Request) : bool :=
  bool_decide (0 < RequestsPerWindow cfg) && bool_decide (0 < Window cfg)
  && negb (MutatingOnly cfg && negb (isMutatingMethod (rq_method r))).

(** [int(retryAfter.Seconds())], exact for windows of less than 48 days. *)
Definition retry_seconds (window now : Z) (entry : rateLimitEntry) : Z :=
  let retryAfter := Z.max 0 (window - Time.Sub now (windowStart entry)) in
  Z.max 1 (Z.quot retryAfter Time.Second).

Definition RateLimitMiddleware (cfg : RateLimitConfig) : Middleware := fun next set r s =>
  if negb (limited cfg r) then next set r s
  else
    let limit := effective_limit cfg r in
    let window := effective_window cfg r in
    if decide (limit <= 0 \/ window <= 0) then next set r s
    else
      let now := fr_now s in
      let key := client_key cfg r in
      let entry := current_entry window now (fr_entries s !! key) in
      if decide (limit <= count entry) then
        refuse (set ++ [("Retry-After", Strconv.FormatInt (retry_seconds window now entry))])%list
          "Too Many Requests" StatusTooManyRequests (MkFront now (<[key := entry]> (fr_entries s)))
      else next set r (MkFront now (<[key := MkEntry (windowStart entry) (count entry + 1)]> (fr_entries s))).

(** The goroutine that prunes old entries, at one tick. *)
Definition prune (cfg : RateLimitConfig) (now : Z) (entries : gmap string rateLimitEntry) : gmap string rateLimitEntry :=
  filter (fun kv => Time.Sub now (windowStart kv.2) < int64 (Window cfg * 2)) entries.
