(* ===== verification/ApiBoot.v ===== *)
(** * HTTP API: the server's configuration and its stack of middleware

    [LoadAuthKeyPrincipals] of [src/internal/api/auth_principal.go] and the
    parts of [runServer] in [src/cmd/server/main.go] that check the settings of
    the HTTP server and put its middleware together. *)

From S2P Require Import Prelude GoLib ApiTypes ApiHandlers ApiFront.
From stdpp Require Import gmap strings list fin_maps.
From Stdlib Require Import ZArith Lia Ascii.

Open Scope Z_scope.
Open Scope string_scope.

(** ** The file of API keys *)

Record authKeyLimitsFile : Type := MkAuthKeyLimitsFile {
  kl_RateLimitRequests : Z;
  kl_RateLimitWindow : string;
  kl_MaxBodyBytes : Z;
  kl_MaxActiveAgents : Z;
  kl_MaxQueueDepth : Z;
}.

Record authKeyRecord : Type := MkAuthKeyRecord {
  kr_APIKey : string;
  kr_NamespaceID : string;
  kr_Admin : bool;
  kr_Limits : authKeyLimitsFile;
}.

Inductive key_error : Type :=
| KReadFile
| KParseFile
| KMissingKey (idx : nat)
| KMissingNamespace (idx : nat)
| KDuplicate (idx : nat)
| KInvalidWindow (idx : nat)
| KNegative (idx : nat).

(** [time.ParseDuration] (its error is [None]), and the keys file on disk,
    read and decoded. *)
Class Surroundings : Type := {
  ParseDuration : string -> option Z;
  keys_file : string -> result key_error (list authKeyRecord);
}.

Section Boot.
Context `{S : Surroundings}.

(** The window of an entry's limits, zero when none is given. *)
Definition entry_window (idx : nat) (rec : authKeyRecord) : result key_error Z :=
  let raw := Strings.TrimSpace (kl_RateLimitWindow (kr_Limits rec)) in
  if decide (raw = "") then Ok 0
  else match ParseDuration raw with
       | Some window => if decide (window <= 0) then Err (KInvalidWindow idx) else Ok window
       | None => Err (KInvalidWindow idx)
       end.

(** One record of the file, with the keys seen before it. *)
Definition load_entry (idx : nat) (seen : list string) (rec : authKeyRecord) : result key_error KeyPrincipalEntry :=
  let apiKey := Strings.TrimSpace (kr_APIKey rec) in
  if decide (apiKey = "") then Err (KMissingKey idx)
  else
    let namespaceID := Strings.TrimSpace (kr_NamespaceID rec) in
    if decide (namespaceID = "") then Err (KMissingNamespace idx)
    else if decide (apiKey ∈ seen) then Err (KDuplicate idx)
    else
      window ← entry_window idx rec;
      let l := kr_Limits rec in
      let limits := MkNamespaceLimits (kl_RateLimitRequests l) window (kl_MaxBodyBytes l)
                      (kl_MaxActiveAgents l) (kl_MaxQueueDepth l) in
      if decide (RateLimitRequests limits < 0 \/ MaxBodyBytes limits < 0 \/ MaxActiveAgents limits < 0
                 \/ MaxQueueDepth limits < 0)
      then Err (KNegative idx)
      else Ok (MkKeyPrincipalEntry apiKey (MkAuthPrincipal namespaceID (kr_Admin rec) limits)).

Fixpoint load_entries (idx : nat) (out : list KeyPrincipalEntry) (recs : list authKeyRecord)
    : result key_error (list KeyPrincipalEntry) :=
  match recs with
  | [] => Ok out
  | rec :: recs =>
      entry ← load_entry idx (RawKey <$> out) rec;
      load_entries (Datatypes.S idx) (out ++ [entry])%list recs
  end.

Definition LoadAuthKeyPrincipals (path : string) : result key_error (list KeyPrincipalEntry) :=
  let path := Strings.TrimSpace path in
  if decide (path = "") then Ok []
  else recs ← keys_file path; load_entries 0 [] recs.

(** ** Settings *)

Definition splitCommaList (value : string) : list string :=
  if decide (Strings.TrimSpace value = "") then []
  else filter (fun trimmed => trimmed <> "") (Strings.TrimSpace <$> Strings.Split value ","%char).

Definition defaultLocalCORSOrigins : list string :=
  ["http://127.0.0.1"; "http://127.0.0.1:3000"; "http://127.0.0.1:5173"; "http://127.0.0.1:8080";
   "http://localhost"; "http://localhost:3000"; "http://localhost:5173"; "http://localhost:8080";
   "https://127.0.0.1"; "https://localhost"].

Definition isValidRuntimeProfile (profile : string) : bool :=
  bool_decide (profile ∈ ["dev"; "production"; "benchmark"]).

Record httpRuntimeOptions : Type := MkHttpRuntimeOptions {
  enableSecurityHeaders : bool;
  enableCORS : bool;
  enableRequestTimeout : bool;
  enableMaxBody : bool;
}.

Definition resolveHTTPRuntimeOptions (profile : string) : httpRuntimeOptions :=
  if decide (profile = "benchmark") then MkHttpRuntimeOptions false false false false
  else MkHttpRuntimeOptions true true true true.

Definition parseDurationOrDefault (value : string) (fallback : Z) : Z :=
  if decide (Strings.TrimSpace value = "") then fallback
  else match ParseDuration value with
       | Some parsed => if decide (parsed <= 0) then fallback else parsed
       | None => fallback
       end.

(** The settings of the HTTP server as the configuration gives them. *)
Record Settings : Type := MkSettings {
  v_runtime_profile : string;
  v_telemetry_mode : string;
  v_auth_mode : string;
  v_api_key : string;
  v_auth_keys_file : string;
  v_legacy_namespace_id : string;
  v_cors_allow_origins : string;
  v_cors_allow_methods : string;
  v_cors_allow_headers : string;
  v_cors_max_age_seconds : Z;
  v_rate_limit_window : string;
  v_rate_limit_requests : Z;
  v_http_max_body_bytes : Z;
  v_trusted_proxies : string;
}.

(** What [runServer] makes of them. *)
Record FrontConfig : Type := MkFrontConfig {
  f_profile : string;
  f_telemetryMode : string;
  f_auth : AuthConfig;
  f_cors : CORSConfig;
  f_maxBodyBytes : Z;
  f_rate : RateLimitConfig;
}.

Definition normalized (raw fallback : string) : string :=
  let v := Strings.ToLower (Strings.TrimSpace raw) in if decide (v = "") then fallback else v.

(** [logger.Fatal] ends the program: no configuration. *)
Definition fatal_if (b : bool) : option unit := if b then None else Some tt.

(** The production profile forces authentication on. *)
Definition resolve_auth (profile : string) (v : Settings) : option AuthConfig :=
  let authMode := normalized (v_auth_mode v) "optional" in
  let authMode := if decide (profile = "production" /\ authMode <> AuthModeRequired) then AuthModeRequired else authMode in
  _ ← fatal_if (bool_decide (authMode <> AuthModeOptional /\ authMode <> AuthModeRequired));
  let apiKey := Strings.TrimSpace (v_api_key v) in
  let authKeysFile := Strings.TrimSpace (v_auth_keys_file v) in
  let legacyNamespaceID := Strings.TrimSpace (v_legacy_namespace_id v) in
  match LoadAuthKeyPrincipals authKeysFile with
  | Err _ => None
  | Ok keyPrincipals =>
      _ ← fatal_if (bool_decide (profile = "production" /\ authKeysFile = ""));
      _ ← fatal_if (bool_decide (profile = "production" /\ length keyPrincipals = 0%nat));
      _ ← fatal_if (bool_decide (authMode = AuthModeRequired /\ apiKey = "" /\ length keyPrincipals = 0%nat));
      Some (MkAuthConfig apiKey authMode DefaultAuthExemptPaths keyPrincipals legacyNamespaceID)
  end.

Definition resolve_cors (profile : string) (v : Settings) : option CORSConfig :=
  let corsOrigins := splitCommaList (v_cors_allow_origins v) in
  let corsOrigins := match corsOrigins with
                     | [] => if decide (profile = "production") then [] else defaultLocalCORSOrigins
                     | _ => corsOrigins
                     end in
  _ ← fatal_if (bool_decide (profile = "production" /\ "*" ∈ corsOrigins));
  Some (MkCORSConfig corsOrigins (splitCommaList (v_cors_allow_methods v)) (splitCommaList (v_cors_allow_headers v))
          (v_cors_max_age_seconds v)).

Definition resolve_limits (profile : string) (v : Settings) : RateLimitConfig * Z :=
  let rateLimitWindow := parseDurationOrDefault (v_rate_limit_window v) Time.Second in
  let rateLimitRequests := if decide (profile = "production" /\ v_rate_limit_requests v <= 0) then 200
                           else v_rate_limit_requests v in
  let maxBodyBytes := if decide (profile = "production" /\ v_http_max_body_bytes v <= 0) then 1024 * 1024
                      else v_http_max_body_bytes v in
  (MkRateLimitConfig rateLimitRequests rateLimitWindow true (splitCommaList (v_trusted_proxies v)), maxBodyBytes).

Definition startup (telemetrySupported : bool) (v : Settings) : option FrontConfig :=
  let runtimeProfile := normalized (v_runtime_profile v) "dev" in
  _ ← fatal_if (negb (isValidRuntimeProfile runtimeProfile));
  let telemetryMode := normalized (v_telemetry_mode v) "optional" in
  _ ← fatal_if (bool_decide (telemetryMode ∉ ["disabled"; "optional"; "required"]));
  _ ← fatal_if (bool_decide (telemetryMode = "required") && negb telemetrySupported);
  auth ← resolve_auth runtimeProfile v;
  cors ← resolve_cors runtimeProfile v;
  let '(rate, maxBodyBytes) := resolve_limits runtimeProfile v in
  Some (MkFrontConfig runtimeProfile telemetryMode auth cors maxBodyBytes rate).

End Boot.

(** ** The stack *)

Definition when (b : bool) (m : Middleware) : list Middleware := if b then [m] else [].

Definition stack `{KeyHash} (f : FrontConfig) : list Middleware :=
  let profileOptions := resolveHTTPRuntimeOptions (f_profile f) in
  (when (enableSecurityHeaders profileOptions) SecurityHeadersMiddleware
   ++ when (enableCORS profileOptions) (CORSMiddlewareWithConfig (f_cors f))
   ++ [TelemetryModeMiddleware (f_telemetryMode f); AuthMiddleware (f_auth f);
       AdminOnlyMiddleware DefaultAdminRouteConfig]
   ++ when (enableMaxBody profileOptions) (MaxBodyBytesMiddleware (f_maxBodyBytes f) true)
   ++ [RateLimitMiddleware (f_rate f)])%list.

Definition front `{KeyHash} (f : FrontConfig) : Handler := ApplyMiddleware mux (stack f).
