(* ===== verification/StoreConfig.v ===== *)
(** * Choosing and configuring a store

    [src/pkg/store/store.go] with its wrappers, the SQLite connection of
    [src/pkg/store/sqlite/sqlite_engine.go], and the parts of
    [src/cmd/server/main.go] that read the settings of the stores and run the
    schema commands.  The settings (viper) are an argument; opening a backend
    is told by the backend and the configuration it gets. *)

From S2P Require Import Prelude GoLib ApiTypes ApiHandlers ApiFront ApiBoot.
From stdpp Require Import gmap strings list.
From Stdlib Require Import ZArith Lia Ascii.

Open Scope Z_scope.
Open Scope string_scope.

(** ** Configurations *)

Definition StoreTypePostgres := "postgres".
Definition StoreTypePostgresSharded := "postgres-sharded".
Definition StoreTypeSQLite := "sqlite-file".
Definition StoreTypeSQLiteMem := "sqlite-memory".
Definition StoreTypeValkey := "valkey".

Record PostgresConfig : Type := MkPostgresConfig {
  pc_Host : string; pc_Port : Z; pc_User : string; pc_Password : string; pc_Database : string; pc_SSLMode : string;
  pc_SchemaMode : string; pc_MaxConns : Z; pc_MinConns : Z; pc_MaxConnAge : string; pc_MaxIdleTime : string;
  pc_SlimEvents : bool; pc_QueueClaimMode : string; pc_DeferEvents : bool; pc_EventBatchSize : Z;
  pc_PrefetchEnabled : bool; pc_PrefetchBufferSize : Z; pc_PrefetchBatchSize : Z;
}.

Record PostgresShardedConfig : Type := MkPostgresShardedConfig {
  ps_ShardMapFile : string; ps_NodeID : string; ps_AdvertiseAddr : string; ps_ShardMapRefreshPeriod : string;
  ps_SchemaMode : string; ps_MaxConns : Z; ps_MinConns : Z; ps_MaxConnAge : string; ps_MaxIdleTime : string;
  ps_SlimEvents : bool; ps_QueueClaimMode : string; ps_DeferEvents : bool; ps_EventBatchSize : Z;
  ps_PrefetchEnabled : bool; ps_PrefetchBufferSize : Z; ps_PrefetchBatchSize : Z;
}.

Record SQLiteConfig : Type := MkSQLiteConfig {
  sq_Path : string; sq_InMemory : bool; sq_SchemaMode : string; sq_BusyTimeout : string; sq_JournalMode : string;
  sq_Synchronous : string; sq_CacheSizeKB : Z;
}.

Record StoreValkeyConfig : Type := MkStoreValkeyConfig {
  vk_Addr : string; vk_Shards : list string; vk_PublishPubSub : bool; vk_LeaseReapInterval : string;
  vk_LeaseReapBatch : Z; vk_SlimEvents : bool; vk_DeferEvents : bool; vk_EventBatchSize : Z;
  vk_ShardMapFile : string; vk_NodeID : string; vk_AdvertiseAddr : string;
}.

Record StoreConfig : Type := MkStoreConfig {
  cf_Type : string;
  cf_Postgres : option PostgresConfig;
  cf_PostgresSharded : option PostgresShardedConfig;
  cf_SQLite : option SQLiteConfig;
  cf_Valkey : option StoreValkeyConfig;
}.

Definition DefaultPostgresConfig : PostgresConfig :=
  MkPostgresConfig "localhost" 5432 "postgres" "" "agent_space" "disable" "migrate" 50 15 "30m" "15m" false "strict"
    false 0 false 0 0.
Definition DefaultPostgresShardedConfig : PostgresShardedConfig :=
  MkPostgresShardedConfig "./config/shard_map.json" "" "" "0s" "migrate" 50 15 "30m" "15m" false "strict" false 0 false 0 0.
Definition DefaultSQLiteConfig : SQLiteConfig :=
  MkSQLiteConfig "./data/sqlite/agent_space.db" false "migrate" "5s" "WAL" "NORMAL" 16384.
Definition DefaultStoreValkeyConfig : StoreValkeyConfig :=
  MkStoreValkeyConfig "localhost:6379" [] false "1s" 200 false false 100 "" "" "".
Definition DefaultConfig : StoreConfig :=
  MkStoreConfig StoreTypePostgres (Some DefaultPostgresConfig) (Some DefaultPostgresShardedConfig)
    (Some DefaultSQLiteConfig) (Some DefaultStoreValkeyConfig).

Definition set_InMemory (v : bool) (c : SQLiteConfig) : SQLiteConfig :=
  MkSQLiteConfig (sq_Path c) v (sq_SchemaMode c) (sq_BusyTimeout c) (sq_JournalMode c) (sq_Synchronous c) (sq_CacheSizeKB c).

(** ** Choosing a backend *)

Definition normalizeStoreType (value : string) : string :=
  let v := Strings.TrimSpace (Strings.ToLower value) in
  if decide (v = "" \/ v = StoreTypePostgres) then StoreTypePostgres
  else if decide (v = StoreTypePostgresSharded) then StoreTypePostgresSharded
  else if decide (v = StoreTypeSQLite) then StoreTypeSQLite
  else if decide (v = StoreTypeSQLiteMem) then StoreTypeSQLiteMem
  else if decide (v = StoreTypeValkey) then StoreTypeValkey
  else value.

(** The backend that is opened, with the configuration the wrapper copies. *)
Inductive opened : Type :=
| OpenPostgres (c : PostgresConfig)
| OpenPostgresSharded (c : PostgresShardedConfig)
| OpenSQLite (c : SQLiteConfig)
| OpenValkey (c : StoreValkeyConfig).

Definition NewStore (cfg : option StoreConfig) : result string opened :=
  match cfg with
  | None => Err "store config is nil"
  | Some cfg =>
      let t := normalizeStoreType (cf_Type cfg) in
      if decide (t = StoreTypePostgres) then
        match cf_Postgres cfg with None => Err "postgres config is nil" | Some c => Ok (OpenPostgres c) end
      else if decide (t = StoreTypePostgresSharded) then
        match cf_PostgresSharded cfg with None => Err "postgres sharded config is nil" | Some c => Ok (OpenPostgresSharded c) end
      else if decide (t = StoreTypeSQLite \/ t = StoreTypeSQLiteMem) then
        let sqliteCfg := default DefaultSQLiteConfig (cf_SQLite cfg) in
        Ok (OpenSQLite (if decide (cf_Type cfg = StoreTypeSQLiteMem) then set_InMemory true sqliteCfg else sqliteCfg))
      else if decide (t = StoreTypeValkey) then Ok (OpenValkey (default DefaultStoreValkeyConfig (cf_Valkey cfg)))
      else Err ("unsupported store type: " +:+ cf_Type cfg
                +:+ " (supported: postgres, postgres-sharded, sqlite-file, sqlite-memory, valkey)")
  end.

(** ** The SQLite connection *)

Definition memory_DSN : string := "file:agent_space?mode=memory&cache=shared".

(** [buildSQLiteDSN]: the DSN and the path of the file, if any. *)
Definition buildSQLiteDSN (cfg : SQLiteConfig) : string * string :=
  if sq_InMemory cfg then (memory_DSN, "")
  else let path := if decide (sq_Path cfg = "") then sq_Path DefaultSQLiteConfig else sq_Path cfg in
       if decide (path = ":memory:") then (memory_DSN, "") else (path, path).

Definition sqliteStoreLabel (cfg : option SQLiteConfig) : string :=
  match cfg with
  | Some c => if sq_InMemory c then "sqlite-memory" else "sqlite-file"
  | None => "sqlite-file"
  end.

Definition upper_byte (c : ascii) : ascii :=
  if decide (97 <= byte_val c <= 122) then ascii_of_N (Z.to_N (byte_val c - 32)) else c.

(** [strings.ToUpper], on ASCII text. *)
Definition ToUpper (s : string) : string := of_bytes (upper_byte <$> bytes s).

Definition allowedJournalModes : list string := ["DELETE"; "TRUNCATE"; "PERSIST"; "MEMORY"; "WAL"; "OFF"].
Definition allowedSynchronousModes : list string := ["OFF"; "NORMAL"; "FULL"; "EXTRA"].

(** [applySQLitePragmas] when its statements succeed: those it sends, in
    order, and the error it stops at.  A failing statement ends it there. *)
Definition applySQLitePragmas (ParseDuration : string -> option Z) (cfg : SQLiteConfig) : list string * option string :=
  let journalMode := if decide (sq_InMemory cfg = true /\ (sq_JournalMode cfg = "" \/ ToUpper (sq_JournalMode cfg) = "WAL"))
                     then "MEMORY" else sq_JournalMode cfg in
  let journal := if decide (journalMode = "") then [] else ["PRAGMA journal_mode=" +:+ journalMode] in
  if decide (journalMode <> "" /\ ToUpper journalMode ∉ allowedJournalModes)
  then ([], Some ("invalid sqlite journal_mode " +:+ journalMode)) else
  if decide (sq_Synchronous cfg <> "" /\ ToUpper (sq_Synchronous cfg) ∉ allowedSynchronousModes)
  then (journal, Some ("invalid sqlite synchronous mode " +:+ sq_Synchronous cfg)) else
  let synchronous := if decide (sq_Synchronous cfg = "") then [] else ["PRAGMA synchronous=" +:+ sq_Synchronous cfg] in
  let busy := if decide (sq_BusyTimeout cfg = "") then []
              else match ParseDuration (sq_BusyTimeout cfg) with
                   | Some d => ["PRAGMA busy_timeout=" +:+ Strconv.FormatInt (Z.quot d Time.Millisecond)]
                   | None => []
                   end in
  let cache := if decide (sq_CacheSizeKB cfg > 0) then ["PRAGMA cache_size=" +:+ Strconv.FormatInt (- sq_CacheSizeKB cfg)] else [] in
  ((journal ++ synchronous ++ busy ++ cache ++ ["PRAGMA foreign_keys=ON"])%list, None).

(** ** Settings *)

Record Viper : Type := MkViper { GetString : string -> string; GetInt : string -> Z; GetBool : string -> bool }.

Definition lowered (s : string) : string := Strings.ToLower (Strings.TrimSpace s).

Definition splitCommaListDedup (value : string) : list string :=
  foldl (fun out part => if decide (part ∈ out) then out else (out ++ [part])%list) [] (splitCommaList value).

Section Settings.
Context (v : Viper).

Definition postgresConfigFromViper : PostgresConfig :=
  let sslMode := Strings.TrimSpace (GetString v "postgres.ssl_mode") in
  let sslMode := if decide (sslMode = "") then "disable" else sslMode in
  MkPostgresConfig (GetString v "postgres.host") (GetInt v "postgres.port") (GetString v "postgres.user")
    (GetString v "postgres.password") (GetString v "postgres.database") sslMode (lowered (GetString v "schema.mode"))
    (GetInt v "postgres.max_conns") (GetInt v "postgres.min_conns") "" "" (GetBool v "events.slim")
    (GetString v "postgres.queue_claim_mode") (GetBool v "events.defer") (GetInt v "events.batch_size")
    (GetBool v "prefetch.enabled") (GetInt v "prefetch.buffer_size") (GetInt v "prefetch.batch_size").

Definition postgresShardedConfigFromViper : PostgresShardedConfig :=
  MkPostgresShardedConfig (GetString v "postgres_sharded.shard_map_file") (GetString v "postgres_sharded.node_id")
    (GetString v "postgres_sharded.advertise_addr") (GetString v "postgres_sharded.shard_map_refresh_interval")
    (lowered (GetString v "schema.mode")) (GetInt v "postgres.max_conns") (GetInt v "postgres.min_conns")
    (GetString v "postgres.max_conn_age") (GetString v "postgres.max_idle_time") (GetBool v "events.slim")
    (GetString v "postgres.queue_claim_mode") (GetBool v "events.defer") (GetInt v "events.batch_size") false 0 0.

Definition sqliteConfigFromViper (storeType : string) : SQLiteConfig :=
  MkSQLiteConfig (GetString v "sqlite.path")
    (if decide (storeType = StoreTypeSQLiteMem) then true else GetBool v "sqlite.inmemory")
    (lowered (GetString v "schema.mode")) (GetString v "sqlite.busy_timeout") (GetString v "sqlite.journal_mode")
    (GetString v "sqlite.synchronous") (GetInt v "sqlite.cache_kb").

Definition valkeyConfigFromViper : StoreValkeyConfig :=
  MkStoreValkeyConfig (GetString v "valkey.addr") (splitCommaListDedup (GetString v "valkey.shards"))
    (GetBool v "valkey.publish_pubsub") (GetString v "valkey.lease_reap_interval") (GetInt v "valkey.lease_reap_batch")
    (GetBool v "events.slim") (GetBool v "events.defer") (GetInt v "events.batch_size")
    (GetString v "valkey.shard_map_file") (GetString v "valkey.node_id") (GetString v "valkey.advertise_addr").

(** What a schema command works on. *)
Definition executeSchemaCommand : result string opened :=
  let storeTypeRaw := lowered (GetString v "store.type") in
  let storeTypeRaw := if decide (storeTypeRaw = "") then StoreTypePostgres else storeTypeRaw in
  if decide (storeTypeRaw = StoreTypePostgres) then Ok (OpenPostgres postgresConfigFromViper)
  else if decide (storeTypeRaw = StoreTypePostgresSharded) then Ok (OpenPostgresSharded postgresShardedConfigFromViper)
  else if decide (storeTypeRaw = StoreTypeSQLite \/ storeTypeRaw = StoreTypeSQLiteMem)
       then Ok (OpenSQLite (sqliteConfigFromViper storeTypeRaw))
  else Err ("schema commands are supported only for postgres/postgres-sharded/sqlite backends; got " +:+ storeTypeRaw).

(** The store configuration of [runServer]; [None]: the server refuses to
    start. *)
Definition server_schema_mode (runtimeProfile : string) : option string :=
  let schemaMode := lowered (GetString v "schema.mode") in
  let schemaMode := if decide (schemaMode = "") then if decide (runtimeProfile = "production") then "validate" else "migrate"
                    else schemaMode in
  if decide (schemaMode <> "migrate" /\ schemaMode <> "validate") then None else Some schemaMode.

Definition server_ssl_mode (runtimeProfile : string) : string :=
  let pgSSLMode := Strings.TrimSpace (GetString v "postgres.ssl_mode") in
  let pgSSLMode := if decide (pgSSLMode = "") then "disable" else pgSSLMode in
  if decide (runtimeProfile = "production" /\ pgSSLMode = "disable") then "require" else pgSSLMode.

Definition server_store_config (runtimeProfile schemaMode : string) : StoreConfig :=
  MkStoreConfig (GetString v "store.type")
    (Some (MkPostgresConfig (GetString v "postgres.host") (GetInt v "postgres.port") (GetString v "postgres.user")
       (GetString v "postgres.password") (GetString v "postgres.database") (server_ssl_mode runtimeProfile) schemaMode
       (GetInt v "postgres.max_conns") (GetInt v "postgres.min_conns") "" "" (GetBool v "events.slim")
       (GetString v "postgres.queue_claim_mode") (GetBool v "events.defer") (GetInt v "events.batch_size")
       (GetBool v "prefetch.enabled") (GetInt v "prefetch.buffer_size") (GetInt v "prefetch.batch_size")))
    (Some (MkPostgresShardedConfig (GetString v "postgres_sharded.shard_map_file") (GetString v "postgres_sharded.node_id")
       (GetString v "postgres_sharded.advertise_addr") (GetString v "postgres_sharded.shard_map_refresh_interval") schemaMode
       (GetInt v "postgres.max_conns") (GetInt v "postgres.min_conns") "" "" (GetBool v "events.slim")
       (GetString v "postgres.queue_claim_mode") (GetBool v "events.defer") (GetInt v "events.batch_size")
       (GetBool v "prefetch.enabled") (GetInt v "prefetch.buffer_size") (GetInt v "prefetch.batch_size")))
    (Some (MkSQLiteConfig (GetString v "sqlite.path") (GetBool v "sqlite.inmemory") schemaMode
       (GetString v "sqlite.busy_timeout") (GetString v "sqlite.journal_mode") (GetString v "sqlite.synchronous")
       (GetInt v "sqlite.cache_kb")))
    (Some valkeyConfigFromViper).
End Settings.

(** ** Facts *)

(** The commands and the server work on the same database. *)
Definition same_database (a b : opened) : Prop :=
  match a, b with
  | OpenPostgres c, OpenPostgres d =>
      pc_Host c = pc_Host d /\ pc_Port c = pc_Port d /\ pc_User c = pc_User d /\ pc_Password c = pc_Password d
      /\ pc_Database c = pc_Database d
  | OpenPostgresSharded c, OpenPostgresSharded d => ps_ShardMapFile c = ps_ShardMapFile d
  | OpenSQLite c, OpenSQLite d => buildSQLiteDSN c = buildSQLiteDSN d
  | _, _ => False
  end.

(** With a store type written as documented, a schema command works on the
    database the server uses, whatever the profile. *)
Theorem schema_command_same_database (v : Viper) (profile mode : string) :
  GetString v "store.type" ∈ [""; StoreTypePostgres; StoreTypePostgresSharded; StoreTypeSQLite; StoreTypeSQLiteMem] ->
  exists a b, executeSchemaCommand v = Ok a /\ NewStore (Some (server_store_config v profile mode)) = Ok b
    /\ same_database a b.
Proof.
  intros Hin. unfold executeSchemaCommand, NewStore, server_store_config. cbn [cf_Type cf_Postgres cf_PostgresSharded cf_SQLite].
  rewrite !elem_of_cons in Hin.
  destruct Hin as [->|[->|[->|[->|[->|[]%elem_of_nil]]]]]; (eexists _, _; split; [reflexivity|split; [reflexivity|done]]).
Qed.

(** Written otherwise, the two part: the server recognises the in-memory type
    but opens the file. *)
Definition mixed_case : Viper :=
  MkViper (fun k => if decide (k = "store.type") then "SQLite-Memory" else if decide (k = "sqlite.path") then "data.db" else "")
          (fun _ => 0) (fun _ => false).

Example memory_type_opens_the_file :
  (exists c, executeSchemaCommand mixed_case = Ok (OpenSQLite c) /\ (buildSQLiteDSN c).1 = memory_DSN)
  /\ exists c, NewStore (Some (server_store_config mixed_case "dev" "migrate")) = Ok (OpenSQLite c)
       /\ (buildSQLiteDSN c).1 = "data.db".
Proof. split; eexists; split; reflexivity. Qed.

(** The statements sent to SQLite: the modes are of the allowed ones, so no
    other text reaches the database. *)
Definition allowed_pragma (stmt : string) : Prop :=
  (exists m, ToUpper m ∈ allowedJournalModes /\ stmt = "PRAGMA journal_mode=" +:+ m)
  \/ (exists m, ToUpper m ∈ allowedSynchronousModes /\ stmt = "PRAGMA synchronous=" +:+ m)
  \/ (exists n, stmt = "PRAGMA busy_timeout=" +:+ Strconv.FormatInt n)
  \/ (exists n, stmt = "PRAGMA cache_size=" +:+ Strconv.FormatInt n)
  \/ stmt = "PRAGMA foreign_keys=ON".

Theorem pragmas_allowed ParseDuration cfg : Forall allowed_pragma (applySQLitePragmas ParseDuration cfg).1.
Proof.
  unfold applySQLitePragmas. set (journalMode := if decide (sq_InMemory cfg = true /\ _) then _ else _). clearbody journalMode.
  set (journal := if decide (journalMode = "") then _ else _).
  assert (~ (journalMode <> "" /\ ToUpper journalMode ∉ allowedJournalModes) -> Forall allowed_pragma journal) as Hj.
  { intros Hn. unfold journal. case_decide; [done|]. constructor; [|done]. left. exists journalMode. split; [|done].
    destruct (decide (ToUpper journalMode ∈ allowedJournalModes)); [done|]. by destruct Hn. }
  case_decide as H1; [done|]. specialize (Hj H1). case_decide as H2; [done|]. cbn [fst].
  rewrite !Forall_app. split_and!; [done| | | |].
  - case_decide; [done|]. constructor; [|done]. right; left. exists (sq_Synchronous cfg). split; [|done].
    destruct (decide (ToUpper (sq_Synchronous cfg) ∈ allowedSynchronousModes)); [done|]. by destruct H2.
  - case_decide; [done|]. destruct (ParseDuration _); [|done]. constructor; [|done]. unfold allowed_pragma. eauto 10.
  - case_decide; [|done]. constructor; [|done]. unfold allowed_pragma. eauto 10.
  - constructor; [|done]. unfold allowed_pragma. auto 10.
Qed.

(** The list of addresses without repetitions, in the order of their first
    occurrences. *)
Lemma dedup_step (parts : list string) out :
  NoDup out ->
  NoDup (foldl (fun out part => if decide (part ∈ out) then out else (out ++ [part])%list) out parts)
  /\ (forall x, x ∈ foldl (fun out part => if decide (part ∈ out) then out else (out ++ [part])%list) out parts
       <-> x ∈ out \/ x ∈ parts).
Proof.
  revert out. induction parts as [|p parts IH]; intros out Hn; cbn [foldl]; [set_solver|]. case_decide as Hp.
  - destruct (IH out Hn) as [H1 H2]. split; [done|]. intros x. rewrite H2. set_solver.
  - destruct (IH (out ++ [p])%list) as [H1 H2].
    { apply NoDup_app. split_and!; [done| |apply NoDup_singleton]. set_solver. }
    split; [done|]. intros x. rewrite H2. set_solver.
Qed.

Theorem splitCommaListDedup_spec value :
  NoDup (splitCommaListDedup value)
  /\ forall x, x ∈ splitCommaListDedup value <-> x ∈ splitCommaList value.
Proof.
  destruct (dedup_step (splitCommaList value) []) as [H1 H2]; [constructor|]. split; [done|].
  intros x. unfold splitCommaListDedup. rewrite H2. set_solver.
Qed.

(** ** The settings the command line declares *)

Inductive flag_value : Type := FString (s : string) | FInt (z : Z) | FBool (b : bool).

(** The flags of [init], with their defaults. *)
Definition flags : list (string * flag_value) :=
  [("config", FString ""); ("runtime-profile", FString "dev"); ("store-type", FString "postgres");
   ("postgres-host", FString "localhost"); ("postgres-port", FInt 5432); ("postgres-user", FString "postgres");
   ("postgres-password", FString ""); ("postgres-database", FString "agent_space"); ("postgres-max-conns", FInt 25);
   ("postgres-min-conns", FInt 5); ("postgres-ssl-mode", FString "disable");
   ("shard-map-file", FString "./config/shard_map.json"); ("node-id", FString ""); ("advertise-addr", FString "");
   ("shard-map-refresh-interval", FString "0s"); ("postgres-queue-claim-mode", FString "strict");
   ("slim-events", FBool false); ("sqlite-path", FString "./data/sqlite/agent_space.db");
   ("sqlite-inmemory", FBool false); ("sqlite-busy-timeout", FString "5s"); ("sqlite-journal-mode", FString "WAL");
   ("sqlite-synchronous", FString "NORMAL"); ("sqlite-cache-kb", FInt 16384);
   ("valkey-addr", FString "localhost:6379"); ("valkey-shards", FString ""); ("valkey-shard-map-file", FString "");
   ("valkey-node-id", FString ""); ("valkey-advertise-addr", FString ""); ("valkey-publish-pubsub", FBool false);
   ("valkey-lease-reap-interval", FString "1s"); ("valkey-lease-reap-batch", FInt 200);
   ("http-addr", FString "127.0.0.1:8080"); ("api-key", FString ""); ("auth-keys-file", FString "");
   ("legacy-namespace-id", FString ""); ("auth-mode", FString "optional"); ("schema-mode", FString "");
   ("cors-allow-origins", FString ""); ("cors-allow-methods", FString "GET,POST,PUT,DELETE,OPTIONS");
   ("cors-allow-headers", FString "Content-Type,Authorization,X-API-Key"); ("cors-max-age-seconds", FInt 86400);
   ("rate-limit-requests", FInt 0); ("rate-limit-window", FString "1s"); ("http-max-body-bytes", FInt 1048576);
   ("http-request-timeout", FString "30s"); ("http-read-timeout", FString "30s");
   ("http-read-header-timeout", FString "10s"); ("http-write-timeout", FString "30s");
   ("http-idle-timeout", FString "120s"); ("telemetry-mode", FString "optional");
   ("telemetry-retention", FString "168h"); ("telemetry-cleanup-interval", FString "1h");
   ("metrics-agent-refresh-interval", FString "5s"); ("metrics-agent-kinds", FString "fault_task");
   ("trusted-proxies", FString ""); ("log-level", FString "info"); ("log-events", FBool false);
   ("http-log-requests", FBool true); ("http-metrics", FBool true); ("defer-events", FBool true);
   ("event-batch-size", FInt 100); ("prefetch-enabled", FBool false); ("prefetch-buffer-size", FInt 64);
   ("prefetch-batch-size", FInt 32)].

(** [viper.BindPFlag]: a setting and its flag. *)
Definition flag_bindings : list (string * string) :=
  [("runtime.profile", "runtime-profile"); ("store.type", "store-type"); ("postgres.host", "postgres-host");
   ("postgres.port", "postgres-port"); ("postgres.user", "postgres-user"); ("postgres.password", "postgres-password");
   ("postgres.database", "postgres-database"); ("postgres.max_conns", "postgres-max-conns");
   ("postgres.min_conns", "postgres-min-conns"); ("postgres.ssl_mode", "postgres-ssl-mode");
   ("postgres_sharded.shard_map_file", "shard-map-file"); ("postgres_sharded.node_id", "node-id");
   ("postgres_sharded.advertise_addr", "advertise-addr");
   ("postgres_sharded.shard_map_refresh_interval", "shard-map-refresh-interval");
   ("postgres.queue_claim_mode", "postgres-queue-claim-mode"); ("events.slim", "slim-events");
   ("events.defer", "defer-events"); ("events.batch_size", "event-batch-size");
   ("prefetch.enabled", "prefetch-enabled"); ("prefetch.buffer_size", "prefetch-buffer-size");
   ("prefetch.batch_size", "prefetch-batch-size"); ("sqlite.path", "sqlite-path");
   ("sqlite.inmemory", "sqlite-inmemory"); ("sqlite.busy_timeout", "sqlite-busy-timeout");
   ("sqlite.journal_mode", "sqlite-journal-mode"); ("sqlite.synchronous", "sqlite-synchronous");
   ("sqlite.cache_kb", "sqlite-cache-kb"); ("valkey.addr", "valkey-addr"); ("valkey.shards", "valkey-shards");
   ("valkey.shard_map_file", "valkey-shard-map-file"); ("valkey.node_id", "valkey-node-id");
   ("valkey.advertise_addr", "valkey-advertise-addr"); ("valkey.publish_pubsub", "valkey-publish-pubsub");
   ("valkey.lease_reap_interval", "valkey-lease-reap-interval");
   ("valkey.lease_reap_batch", "valkey-lease-reap-batch"); ("http.addr", "http-addr"); ("api.key", "api-key");
   ("auth.keys_file", "auth-keys-file"); ("auth.legacy_namespace_id", "legacy-namespace-id");
   ("auth.mode", "auth-mode"); ("schema.mode", "schema-mode"); ("cors.allow_origins", "cors-allow-origins");
   ("cors.allow_methods", "cors-allow-methods"); ("cors.allow_headers", "cors-allow-headers");
   ("cors.max_age_seconds", "cors-max-age-seconds"); ("rate_limit.requests", "rate-limit-requests");
   ("rate_limit.window", "rate-limit-window"); ("http.max_body_bytes", "http-max-body-bytes");
   ("http.request_timeout", "http-request-timeout"); ("http.read_timeout", "http-read-timeout");
   ("http.read_header_timeout", "http-read-header-timeout"); ("http.write_timeout", "http-write-timeout");
   ("http.idle_timeout", "http-idle-timeout"); ("telemetry.mode", "telemetry-mode");
   ("telemetry.retention", "telemetry-retention"); ("telemetry.cleanup_interval", "telemetry-cleanup-interval");
   ("metrics.agent_refresh_interval", "metrics-agent-refresh-interval");
   ("metrics.agent_kinds", "metrics-agent-kinds"); ("security.trusted_proxies", "trusted-proxies");
   ("log.level", "log-level"); ("log.events", "log-events"); ("log.http_requests", "http-log-requests");
   ("http.metrics", "http-metrics")].

(** [viper.BindEnv], in [initConfig]. *)
Definition env_bindings : list (string * string) :=
  [("runtime.profile", "RUNTIME_PROFILE"); ("store.type", "STORE_TYPE"); ("postgres.host", "POSTGRES_HOST");
   ("postgres.port", "POSTGRES_PORT"); ("postgres.user", "POSTGRES_USER"); ("postgres.password", "POSTGRES_PASSWORD");
   ("postgres.database", "POSTGRES_DATABASE"); ("postgres.max_conns", "POSTGRES_MAX_CONNS");
   ("postgres.min_conns", "POSTGRES_MIN_CONNS"); ("postgres.ssl_mode", "POSTGRES_SSL_MODE");
   ("postgres.queue_claim_mode", "POSTGRES_QUEUE_CLAIM_MODE"); ("events.slim", "SLIM_EVENTS");
   ("events.defer", "DEFER_EVENTS"); ("events.batch_size", "EVENT_BATCH_SIZE");
   ("prefetch.enabled", "PREFETCH_ENABLED"); ("prefetch.buffer_size", "PREFETCH_BUFFER_SIZE");
   ("prefetch.batch_size", "PREFETCH_BATCH_SIZE"); ("sqlite.path", "SQLITE_PATH");
   ("sqlite.inmemory", "SQLITE_INMEMORY"); ("sqlite.busy_timeout", "SQLITE_BUSY_TIMEOUT");
   ("sqlite.journal_mode", "SQLITE_JOURNAL_MODE"); ("sqlite.synchronous", "SQLITE_SYNCHRONOUS");
   ("sqlite.cache_kb", "SQLITE_CACHE_KB"); ("valkey.addr", "VALKEY_ADDR"); ("valkey.shards", "VALKEY_SHARDS");
   ("valkey.shard_map_file", "VALKEY_SHARD_MAP_FILE"); ("valkey.node_id", "VALKEY_NODE_ID");
   ("valkey.advertise_addr", "VALKEY_ADVERTISE_ADDR"); ("valkey.publish_pubsub", "VALKEY_PUBLISH_PUBSUB");
   ("valkey.lease_reap_interval", "VALKEY_LEASE_REAP_INTERVAL");
   ("valkey.lease_reap_batch", "VALKEY_LEASE_REAP_BATCH"); ("http.addr", "HTTP_ADDR"); ("api.key", "API_KEY");
   ("auth.keys_file", "AUTH_KEYS_FILE"); ("auth.legacy_namespace_id", "AUTH_LEGACY_NAMESPACE_ID");
   ("auth.mode", "AUTH_MODE"); ("schema.mode", "SCHEMA_MODE"); ("cors.allow_origins", "CORS_ALLOW_ORIGINS");
   ("cors.allow_methods", "CORS_ALLOW_METHODS"); ("cors.allow_headers", "CORS_ALLOW_HEADERS");
   ("cors.max_age_seconds", "CORS_MAX_AGE_SECONDS"); ("rate_limit.requests", "RATE_LIMIT_REQUESTS");
   ("rate_limit.window", "RATE_LIMIT_WINDOW"); ("http.max_body_bytes", "HTTP_MAX_BODY_BYTES");
   ("http.request_timeout", "HTTP_REQUEST_TIMEOUT"); ("http.read_timeout", "HTTP_READ_TIMEOUT");
   ("http.read_header_timeout", "HTTP_READ_HEADER_TIMEOUT"); ("http.write_timeout", "HTTP_WRITE_TIMEOUT");
   ("http.idle_timeout", "HTTP_IDLE_TIMEOUT"); ("telemetry.mode", "TELEMETRY_MODE");
   ("telemetry.retention", "TELEMETRY_RETENTION"); ("telemetry.cleanup_interval", "TELEMETRY_CLEANUP_INTERVAL");
   ("metrics.agent_refresh_interval", "METRICS_AGENT_REFRESH_INTERVAL");
   ("metrics.agent_kinds", "METRICS_AGENT_KINDS"); ("security.trusted_proxies", "TRUSTED_PROXIES");
   ("log.level", "LOG_LEVEL"); ("log.events", "LOG_EVENTS"); ("log.http_requests", "HTTP_LOG_REQUESTS");
   ("http.metrics", "HTTP_METRICS")].

(** The flag a setting stands for. *)
Definition declared (key : string) : option flag_value :=
  name ← snd <$> List.find (fun p => bool_decide (p.1 = key)) flag_bindings;
  snd <$> List.find (fun p => bool_decide (p.1 = name)) flags.

Section Reads.
Context `{S : Surroundings}.

Definition parseDurationOrZero (value : string) : Z :=
  if decide (Strings.TrimSpace value = "") then 0
  else match ParseDuration value with
       | Some parsed => if decide (parsed <= 0) then 0 else parsed
       | None => 0
       end.

(** What [runServer] reads for the HTTP front. *)
Definition server_settings (v : Viper) : Settings :=
  MkSettings (GetString v "runtime.profile") (GetString v "telemetry.mode") (GetString v "auth.mode") (GetString v "api.key")
    (GetString v "auth.keys_file") (GetString v "auth.legacy_namespace_id") (GetString v "cors.allow_origins")
    (GetString v "cors.allow_methods") (GetString v "cors.allow_headers") (GetInt v "cors.max_age_seconds")
    (GetString v "rate_limit.window") (GetInt v "rate_limit.requests") (GetInt v "http.max_body_bytes")
    (GetString v "security.trusted_proxies").

(** The rest: the log, the loops and the listener with its timeouts. *)
Record RunConfig : Type := MkRunConfig {
  rc_logLevel : string; rc_logEvents : bool; rc_logRequests : bool; rc_httpMetrics : bool;
  rc_telemetryRetention : Z; rc_telemetryCleanupInterval : Z; rc_metricsInterval : Z; rc_metricsKinds : list string;
  rc_httpAddr : string; rc_requestTimeout : Z; rc_readTimeout : Z; rc_readHeaderTimeout : Z; rc_writeTimeout : Z;
  rc_idleTimeout : Z }.

Definition log_level (raw : string) : string :=
  let logLevel := lowered raw in
  if decide (logLevel = "debug") then "debug"
  else if decide (logLevel = "warn" \/ logLevel = "warning") then "warn"
  else if decide (logLevel = "error") then "error"
  else "info".

Definition run_config (v : Viper) : RunConfig :=
  MkRunConfig (log_level (GetString v "log.level")) (GetBool v "log.events") (GetBool v "log.http_requests")
    (GetBool v "http.metrics") (parseDurationOrZero (GetString v "telemetry.retention"))
    (parseDurationOrZero (GetString v "telemetry.cleanup_interval"))
    (parseDurationOrZero (GetString v "metrics.agent_refresh_interval"))
    (splitCommaListDedup (GetString v "metrics.agent_kinds")) (GetString v "http.addr")
    (parseDurationOrDefault (GetString v "http.request_timeout") (30 * Time.Second))
    (parseDurationOrDefault (GetString v "http.read_timeout") (30 * Time.Second))
    (parseDurationOrDefault (GetString v "http.read_header_timeout") (10 * Time.Second))
    (parseDurationOrDefault (GetString v "http.write_timeout") (30 * Time.Second))
    (parseDurationOrDefault (GetString v "http.idle_timeout") (120 * Time.Second)).

(** Two sources of settings that agree on what is declared, each setting read
    at the type of its flag. *)
Definition agree_on (v1 v2 : Viper) (key : string) : Prop :=
  match declared key with
  | Some (FString _) => GetString v1 key = GetString v2 key
  | Some (FInt _) => GetInt v1 key = GetInt v2 key
  | Some (FBool _) => GetBool v1 key = GetBool v2 key
  | None => True
  end.

Lemma read_string v1 v2 key d : agree_on v1 v2 key -> declared key = Some (FString d) -> GetString v1 key = GetString v2 key.
Proof. unfold agree_on. intros H Hd. by rewrite Hd in H. Qed.
Lemma read_int v1 v2 key d : agree_on v1 v2 key -> declared key = Some (FInt d) -> GetInt v1 key = GetInt v2 key.
Proof. unfold agree_on. intros H Hd. by rewrite Hd in H. Qed.
Lemma read_bool v1 v2 key d : agree_on v1 v2 key -> declared key = Some (FBool d) -> GetBool v1 key = GetBool v2 key.
Proof. unfold agree_on. intros H Hd. by rewrite Hd in H. Qed.

Ltac read_declared v1 v2 Hag :=
  repeat match goal with
         | |- context [GetString v1 ?k] => erewrite (read_string v1 v2 k) by (apply Hag || (vm_compute; reflexivity))
         | |- context [GetInt v1 ?k] => erewrite (read_int v1 v2 k) by (apply Hag || (vm_compute; reflexivity))
         | |- context [GetBool v1 ?k] => erewrite (read_bool v1 v2 k) by (apply Hag || (vm_compute; reflexivity))
         end.

(** C34: every setting is declared.  What the server makes of its settings,
    from the store it opens to its timeouts, depends only on settings bound
    to a flag of the command line, each read at the type of that flag; a
    misspelled or mistyped key would make it depend on something else.  The
    same holds for the schema commands on an unsharded store. *)
Theorem settings_declared (v1 v2 : Viper) profile mode :
  (forall key, agree_on v1 v2 key) ->
  server_store_config v1 profile mode = server_store_config v2 profile mode
  /\ server_schema_mode v1 profile = server_schema_mode v2 profile
  /\ server_settings v1 = server_settings v2
  /\ run_config v1 = run_config v2
  /\ (lowered (GetString v1 "store.type") <> StoreTypePostgresSharded -> executeSchemaCommand v1 = executeSchemaCommand v2).
Proof.
  intros Hag. split_and!.
  - unfold server_store_config, server_ssl_mode, valkeyConfigFromViper. read_declared v1 v2 Hag. reflexivity.
  - unfold server_schema_mode. read_declared v1 v2 Hag. reflexivity.
  - unfold server_settings. read_declared v1 v2 Hag. reflexivity.
  - unfold run_config. read_declared v1 v2 Hag. reflexivity.
  - unfold executeSchemaCommand, postgresConfigFromViper, sqliteConfigFromViper. read_declared v1 v2 Hag. intros Hs.
    destruct (decide (lowered (GetString v2 "store.type") = "")) as [He|He]; [reflexivity|].
    rewrite (decide_False (P := lowered _ = StoreTypePostgresSharded)) by done.
    rewrite (decide_False (P := lowered _ = StoreTypePostgresSharded)) by done. reflexivity.
Qed.
End Reads.

(** The settings of a server started without arguments. *)
Definition flag_defaults : Viper :=
  MkViper (fun key => match declared key with Some (FString s) => s | _ => "" end)
    (fun key => match declared key with Some (FInt z) => z | _ => 0 end)
    (fun key => match declared key with Some (FBool b) => b | _ => false end).

(** By default a single Postgres, its events deferred, on the local address
    only. *)
Example default_server :
  NewStore (Some (server_store_config flag_defaults "dev" "migrate"))
  = Ok (OpenPostgres (MkPostgresConfig "localhost" 5432 "postgres" "" "agent_space" "disable" "migrate" 25 5 "" "" false "strict"
                        true 100 false 64 32))
  /\ GetString flag_defaults "http.addr" = "127.0.0.1:8080".
Proof. by vm_compute. Qed.

(** Every environment variable stands for a declared setting, and no two for
    the same; the settings of the sharded store have none of their own. *)
Lemma environment_declared :
  Forall (fun p => is_Some (declared p.1)) env_bindings /\ NoDup env_bindings.*1 /\ NoDup env_bindings.*2
  /\ filter (fun key => key ∉ env_bindings.*1) flag_bindings.*1
     = ["postgres_sharded.shard_map_file"; "postgres_sharded.node_id"; "postgres_sharded.advertise_addr";
        "postgres_sharded.shard_map_refresh_interval"].
Proof. split_and!; first [apply (bool_decide_unpack _); by vm_compute | by vm_compute]. Qed.

(** An undeclared key makes no difference to the server. *)
Lemma settings_declared_witness :
  let v := MkViper (fun key => if decide (key = "postgres.max_conn_age") then "1h" else GetString flag_defaults key)
             (GetInt flag_defaults) (GetBool flag_defaults) in
  server_store_config v "dev" "migrate" = server_store_config flag_defaults "dev" "migrate"
  /\ executeSchemaCommand v = executeSchemaCommand flag_defaults.
Proof.
  intros v. destruct (settings_declared (S := {| ParseDuration := fun _ => None; keys_file := fun _ => Ok [] |})
    v flag_defaults "dev" "migrate") as (H1 & _ & _ & _ & H5).
  - intros key. unfold agree_on. destruct (decide (key = "postgres.max_conn_age")) as [->|Hne]; [by vm_compute|].
    unfold v. cbn [GetString GetInt GetBool]. rewrite decide_False by done. by destruct (declared key) as [[]|].
  - split; [exact H1|]. apply H5. by vm_compute.
Defined.

(** ** The schema commands *)

(** The action and the version a subcommand of [schema] asks for, given its
    flag [--to]; [None]: no such subcommand.  The flag is required of a
    rollback. *)
Definition addSchemaCommands (name : string) (to : option Z) : option (result string (string * Z)) :=
  if decide (name = "validate") then
    match to with None => Some (Ok ("validate", 0)) | Some _ => Some (Err "unknown flag: --to") end
  else if decide (name = "migrate") then Some (Ok ("migrate", default 0 to))
  else if decide (name = "rollback") then
    match to with
    | None => Some (Err "required flag(s) to not set")
    | Some target => if decide (target < 0) then Some (Err "rollback --to must be >= 0") else Some (Ok ("rollback", target))
    end
  else None.

(** Nothing is rolled back without a version that was asked for. *)
Lemma rollback_is_explicit name to target :
  addSchemaCommands name to = Some (Ok ("rollback", target)) -> name = "rollback" /\ to = Some target /\ 0 <= target.
Proof. unfold addSchemaCommands. intros H. repeat case_match; simplify_eq; split_and!; done || lia. Qed.
