(* ===== verification/StoreLifecycle.v ===== *)
(** * Opening and closing stores, and the end of the server

    The constructors and [Close] methods of the four stores
    ([postgres_engine.go], [postgres_notify.go], [sqlite_engine.go],
    [src/pkg/store/postgressharded/store.go], [src/pkg/store/valkey/store.go])
    as programs over a ledger of what is open and which goroutines run, and
    the end of [runServer] in [src/cmd/server/main.go] beside the writer of
    deferred events.  A goroutine runs under a context and ends when that or
    a context it derives from is cancelled. *)

From S2P Require Import Prelude GoLib GoSort Agent Common Effects Sql PgRows PgEffects PgEngine PgLogic PgAlone PgScenario PgLog ShardMap ValkeyClient StoreConfig Dsn.
From stdpp Require Import gmap gmultiset strings list relations.
From Stdlib Require Import ZArith Lia Ascii.

Open Scope Z_scope.
Open Scope string_scope.

(** ** The ledger *)

(** What is open, by kind and owner; the goroutines, by context and task. *)
Record ledger : Type := MkLedger {
  lg_open : gmultiset (string * string);
  lg_running : list (list string * string) }.

Definition Boot (A : Type) : Type := ledger -> result string A * ledger.

#[export] Instance Boot_ret : MRet Boot := fun A a l => (Ok a, l).
#[export] Instance Boot_bind : MBind Boot := fun A B f m l =>
  match m l with (Ok a, l) => f a l | (Err e, l) => (Err e, l) end.

Definition boot_fail {A} (e : string) : Boot A := fun l => (Err e, l).
Definition boot_result {A} (r : result string A) : Boot A := fun l => (r, l).
(** Run [cleanup] before passing an error of [m] on. *)
Definition on_error {A} (m : Boot A) (cleanup : Boot unit) : Boot A := fun l =>
  match m l with (Ok a, l) => (Ok a, l) | (Err e, l) => (Err e, (cleanup l).2) end.

Definition enter (r : string * string) : Boot unit := fun l => (Ok tt, MkLedger ({[+ r +]} ⊎ lg_open l) (lg_running l)).
Definition close (r : string * string) : Boot unit := fun l => (Ok tt, MkLedger (lg_open l ∖ {[+ r +]}) (lg_running l)).
Definition go (ctx : list string) (task : string) : Boot unit := fun l =>
  (Ok tt, MkLedger (lg_open l) ((ctx, task) :: lg_running l)).
Definition cancel (ctx : list string) : Boot unit := fun l =>
  (Ok tt, MkLedger (lg_open l) (filter (fun r => ~ ctx `prefix_of` r.1) (lg_running l))).

(** The error each step of an owner meets, if any. *)
Class BootEnv : Type := {
  boot_fault : string -> string -> option string;
  ParseDuration : string -> option Z;
}.

Section Stores.
Context `{Env : BootEnv} `{IP : Url.IPLiterals}.

Definition step (owner name : string) : Boot unit := fun l =>
  match boot_fault owner name with Some e => (Err e, l) | None => (Ok tt, l) end.
(** A step that opens something when it succeeds. *)
Definition open (owner name kind : string) : Boot unit := _ ← step owner name; enter (kind, owner).

(** ** Postgres *)

(** A conversion to a 32-bit integer. *)
Definition int32 (z : Z) : Z := (z + 2 ^ 31) `mod` 2 ^ 32 - 2 ^ 31.

(** What is set of the pool's configuration; [None]: the default. *)
Record PoolConfig : Type := MkPoolConfig {
  pl_ConnString : string; pl_MaxConns : option Z; pl_MinConns : option Z; pl_MaxConnLifetime : option Z; pl_MaxConnIdleTime : option Z;
  pl_HealthCheckPeriod : Z; pl_MaxConnLifetimeJitter : Z }.

Definition duration_setting (s : string) : option Z := if decide (s = "") then None else ParseDuration s.

Definition pool_config (connStr : string) (cfg : PostgresConfig) : PoolConfig :=
  MkPoolConfig connStr
    (if decide (0 < pc_MaxConns cfg) then Some (int32 (pc_MaxConns cfg)) else None)
    (if decide (0 < pc_MinConns cfg) then Some (int32 (pc_MinConns cfg)) else None)
    (duration_setting (pc_MaxConnAge cfg)) (duration_setting (pc_MaxIdleTime cfg))
    (30 * Time.Second) (5 * Time.Minute).

Record PgHandle : Type := MkPgHandle {
  ph_shardID : string; ph_pool : PoolConfig; ph_queueClaimMode : QueueClaimMode; ph_deferEvents : bool;
  ph_eventBatchSize : Z; ph_prefetch : bool }.

(** [startWakeupListener]. *)
Definition startWakeupListener (ctx : list string) (shardID : string) : Boot unit :=
  _ ← open shardID "connect listener" "listener";
  _ ← on_error (step shardID "LISTEN") (close ("listener", shardID));
  go ctx "listenForWakeups".

Definition NewPostgresStore (ctx : list string) (cfg : option (PostgresConfig * string)) : Boot PgHandle :=
  match cfg with
  | None => boot_fail "postgres config is nil"
  | Some (cfg, shardID) =>
      mode ← boot_result (match ParseQueueClaimMode (pc_QueueClaimMode cfg) with
                          | Ok mode => Ok mode
                          | Err _ => Err "invalid postgres queue claim mode"
                          end);
      connStr ← boot_result (buildPostgresConnString cfg);
      _ ← step shardID "parse pool config";
      _ ← open shardID "create pool" "pool";
      let eventBatchSize := if decide (pc_EventBatchSize cfg <= 0) then 100 else pc_EventBatchSize cfg in
      let storeCtx := (ctx ++ [shardID])%list in
      _ ← on_error (step shardID "init schema") (close ("pool", shardID));
      _ ← on_error (startWakeupListener storeCtx shardID) (close ("pool", shardID));
      _ ← go storeCtx "leaseReaperLoop";
      _ ← (if pc_DeferEvents cfg then go storeCtx "eventWriterLoop" else mret tt);
      let prefetch := pc_PrefetchEnabled cfg && match mode with QueueClaimModeParallel => true | _ => false end in
      _ ← (if prefetch then go (storeCtx ++ ["prefetch"])%list "reaperLoop" else mret tt);
      mret (MkPgHandle shardID (pool_config connStr cfg) mode (pc_DeferEvents cfg) eventBatchSize prefetch)
  end.

(** [Close]: what it waits for ends with the context. *)
Definition pg_Close (ctx : list string) (h : PgHandle) : Boot unit :=
  _ ← cancel (ctx ++ [ph_shardID h])%list;
  _ ← close ("listener", ph_shardID h);
  close ("pool", ph_shardID h).

(** ** SQLite *)

Definition NewSQLiteStore (ctx : list string) (cfg : option SQLiteConfig) : Boot string :=
  match cfg with
  | None => boot_fail "sqlite config is nil"
  | Some cfg =>
      let '(_, path) := buildSQLiteDSN cfg in
      _ ← (if decide (path = "") then mret tt else step "sqlite" "create directory");
      _ ← open "sqlite" "open" "db";
      _ ← on_error (step "sqlite" "pragmas") (close ("db", "sqlite"));
      _ ← on_error (step "sqlite" "init schema") (close ("db", "sqlite"));
      _ ← go (ctx ++ ["sqlite"])%list "leaseReaperLoop";
      mret (sqliteStoreLabel (Some cfg))
  end.

Definition sqlite_Close (ctx : list string) : Boot unit :=
  _ ← cancel (ctx ++ ["sqlite"])%list; close ("db", "sqlite").

(** ** Sharded Postgres *)

(** The loop of [New] over the shards of the map, with the stores opened. *)
Fixpoint open_shards (ctx : list string) (cfg : PostgresShardedConfig) (specs : list ShardSpec) : Boot (list PgHandle) :=
  match specs with
  | [] => mret []
  | spec :: specs =>
      if ShardMap.ownsShard (ps_NodeID cfg) spec then
        pgCfg ← on_error (boot_result (postgresConfigFromShardSpec cfg spec)) (cancel ctx);
        handle ← on_error (NewPostgresStore ctx (Some pgCfg)) (cancel ctx);
        rest ← open_shards ctx cfg specs;
        mret (handle :: rest)
      else open_shards ctx cfg specs
  end.

Definition sharded_New (ctx : list string) (cfg : option PostgresShardedConfig) (load : string -> result string ShardMap)
    : Boot (list PgHandle) :=
  match cfg with
  | None => boot_fail "postgres sharded config is nil"
  | Some cfg =>
      if decide (Strings.TrimSpace (ps_ShardMapFile cfg) = "") then boot_fail "postgres sharded config missing shard_map_file"
      else
        shardMap ← boot_result (load (ps_ShardMapFile cfg));
        open_shards ctx cfg (sm_Shards shardMap)
  end.

Fixpoint close_shards (ctx : list string) (hs : list PgHandle) : Boot unit :=
  match hs with
  | [] => mret tt
  | h :: hs => _ ← pg_Close ctx h; close_shards ctx hs
  end.

Definition sharded_Close (ctx : list string) (hs : list PgHandle) : Boot unit :=
  _ ← cancel ctx; close_shards ctx hs.

(** ** Valkey *)

Fixpoint closeClients (shards : list shardSpec) : Boot unit :=
  match shards with
  | [] => mret tt
  | shard :: shards => _ ← close ("client", sh_ShardID shard); closeClients shards
  end.

(** The loop over the shards; [opened] have their client. *)
Fixpoint open_clients (ctx : list string) (opened specs : list shardSpec) : Boot unit :=
  match specs with
  | [] => mret tt
  | spec :: specs =>
      _ ← on_error (open (sh_ShardID spec) "create client" "client") (_ ← cancel ctx; closeClients opened);
      open_clients ctx (opened ++ [spec])%list specs
  end.

Fixpoint startWakeupListeners (ctx : list string) (shards : list shardSpec) : Boot unit :=
  match shards with
  | [] => mret tt
  | shard :: shards => _ ← go ctx (sh_ShardID shard +:+ " receive"); startWakeupListeners ctx shards
  end.

(** [NewValkeyStore] for the store its configuration describes. *)
Definition valkey_New (ctx : list string) (decoded : string -> result verror (list shardSpec)) (fresh : string)
    (cfg : option ValkeyConfig) : Boot ValkeyStore :=
  let cfg' := default DefaultValkeyConfig cfg in
  specs ← boot_result (match shard_specs decoded cfg' with Ok specs => Ok specs | Err _ => Err "valkey config" end);
  _ ← open_clients ctx [] specs;
  s ← on_error (boot_result (match NewValkeyStore decoded ParseDuration fresh cfg with
                             | Ok s => Ok s
                             | Err _ => Err "no shards owned by node"
                             end)) (_ ← cancel ctx; closeClients specs);
  _ ← (if vs_deferEvents s then go ctx "eventWriterLoop" else mret tt);
  _ ← go ctx "leaseReaperLoop";
  _ ← (if vs_publishPubSub s then startWakeupListeners ctx (vs_shards s) else mret tt);
  mret s.

Definition valkey_Close (ctx : list string) (s : ValkeyStore) : Boot unit :=
  _ ← cancel ctx; closeClients (vs_shards s).

(** ** The store the server opens *)

Inductive handle : Type :=
| HPostgres (h : PgHandle)
| HSharded (hs : list PgHandle)
| HSQLite (label : string)
| HValkey (s : ValkeyStore).

(** The configuration [valkey_wrapper.go] copies. *)
Definition valkey_backend_config (c : StoreValkeyConfig) : ValkeyConfig :=
  MkVConfig (vk_Addr c) (vk_Shards c) (vk_PublishPubSub c) (vk_LeaseReapInterval c) (vk_LeaseReapBatch c)
    (vk_SlimEvents c) (vk_DeferEvents c) (vk_EventBatchSize c) (vk_ShardMapFile c) (vk_NodeID c) (vk_AdvertiseAddr c).

(** The shard maps' files and the identifier a Valkey store may draw. *)
Record outside : Type := MkOutside {
  os_shardMap : string -> result string ShardMap;
  os_valkeyMap : string -> result verror (list shardSpec);
  os_fresh : string }.

(** The wrappers; a plain Postgres store has no shard. *)
Definition open_store (ctx : list string) (out : outside) (o : opened) : Boot handle :=
  match o with
  | OpenPostgres c => h ← NewPostgresStore ctx (Some (c, "")); mret (HPostgres h)
  | OpenPostgresSharded c => hs ← sharded_New (ctx ++ ["sharded"])%list (Some c) (os_shardMap out); mret (HSharded hs)
  | OpenSQLite c => label ← NewSQLiteStore ctx (Some c); mret (HSQLite label)
  | OpenValkey c =>
      s ← valkey_New (ctx ++ ["valkey"])%list (os_valkeyMap out) (os_fresh out) (Some (valkey_backend_config c));
      mret (HValkey s)
  end.

Definition store_New (ctx : list string) (out : outside) (cfg : option StoreConfig) : Boot handle :=
  o ← boot_result (NewStore cfg); open_store ctx out o.

Definition store_Close (ctx : list string) (h : handle) : Boot unit :=
  match h with
  | HPostgres h => pg_Close ctx h
  | HSharded hs => sharded_Close (ctx ++ ["sharded"])%list hs
  | HSQLite _ => sqlite_Close ctx
  | HValkey s => valkey_Close (ctx ++ ["valkey"])%list s
  end.
End Stores.

(** ** What a program leaves behind *)

Notation resources := (gmultiset (string * string)).

(** Nothing runs under the context. *)
Definition unused (ctx : list string) (l : ledger) : Prop := Forall (fun r => ~ ctx `prefix_of` r.1) (lg_running l).

(** [l'] is [l] with [res] open in addition and goroutines under [ctx]. *)
Definition grown (ctx : list string) (res : resources) (l l' : ledger) : Prop :=
  lg_open l' = res ⊎ lg_open l
  /\ exists rs, lg_running l' = (rs ++ lg_running l)%list /\ Forall (fun r => ctx `prefix_of` r.1) rs.

Lemma grown_refl ctx l : grown ctx ∅ l l.
Proof. split; [multiset_solver|]. by exists []. Qed.

Lemma grown_trans ctx res res' l l1 l' : grown ctx res l l1 -> grown ctx res' l1 l' -> grown ctx (res' ⊎ res) l l'.
Proof.
  intros [Ho (rs & Hr & HF)] [Ho' (rs' & Hr' & HF')]. split; [rewrite Ho', Ho; multiset_solver|].
  exists (rs' ++ rs)%list. split; [by rewrite Hr', Hr, app_assoc|]. by apply Forall_app.
Qed.

Lemma grown_go ctx ctx' task l : ctx `prefix_of` ctx' -> grown ctx ∅ l (go ctx' task l).2.
Proof. intros H. split; [simpl; multiset_solver|]. exists [(ctx', task)]. split; [done|]. by repeat constructor. Qed.

Lemma grown_weaken ctx ctx' res l l' : ctx' `prefix_of` ctx -> grown ctx res l l' -> grown ctx' res l l'.
Proof.
  intros H [Ho (rs & Hr & HF)]. split; [done|]. exists rs. split; [done|]. eapply Forall_impl; [exact HF|].
  intros r Hp. by etrans.
Qed.

(** What is opened and closed again leaves the ledger as it was. *)
Lemma open_close (x y res : resources) : (x ⊎ y ⊎ res) ∖ x ∖ y = res.
Proof. multiset_solver. Qed.

(** Cancelling ends what was started, and nothing else. *)
Lemma cancel_grown ctx res l l' :
  unused ctx l -> grown ctx res l l' -> cancel ctx l' = (Ok tt, MkLedger (res ⊎ lg_open l) (lg_running l)).
Proof.
  intros Hu [Ho (rs & Hr & HF)]. unfold cancel. rewrite Ho, Hr, filter_app.
  rewrite (filter_none rs), (filter_all (lg_running l)); [done|..].
  - unfold unused in Hu. by rewrite Forall_forall in Hu.
  - intros r Hi Hn. rewrite Forall_forall in HF. by apply Hn, HF.
Qed.

Lemma cancel_unused ctx l : unused ctx l -> cancel ctx l = (Ok tt, l).
Proof.
  intros Hu. rewrite (cancel_grown ctx ∅ l l Hu (grown_refl ctx l)). destruct l. f_equal. f_equal. multiset_solver.
Qed.

Lemma unused_deeper ctx x l : unused ctx l -> unused (ctx ++ x)%list l.
Proof.
  intros H. eapply Forall_impl; [exact H|]. intros r Hn Hp. apply Hn. etrans; [|exact Hp]. by apply prefix_app_r.
Qed.

Lemma boot_bind_ok {A B} (m : Boot A) (f : A -> Boot B) l b l' :
  (m ≫= f) l = (Ok b, l') -> exists a l1, m l = (Ok a, l1) /\ f a l1 = (Ok b, l').
Proof. unfold mbind, Boot_bind. destruct (m l) as [[a|e] l1]; [|done]. intros H. by exists a, l1. Qed.

Lemma boot_bind_err {A B} (m : Boot A) (f : A -> Boot B) l e l' :
  (m ≫= f) l = (Err e, l') -> m l = (Err e, l') \/ exists a l1, m l = (Ok a, l1) /\ f a l1 = (Err e, l').
Proof. unfold mbind, Boot_bind. destruct (m l) as [[a|e'] l1]; intros H; [right; by exists a, l1|left]. congruence. Qed.

Section Release.
Context `{Env : BootEnv} `{IP : Url.IPLiterals}.

(** One Postgres store's share. *)
Definition pg_share (shardID : string) : resources := {[+ ("listener", shardID) +]} ⊎ {[+ ("pool", shardID) +]}.

(** Every branch of a program: each step fails or not. *)
Ltac boot_unfold :=
  unfold startWakeupListener, open, on_error, step, enter, close, go, boot_result, boot_fail, mbind, Boot_bind, mret, Boot_ret; simpl.
Ltac boot_cases :=
  boot_unfold;
  repeat (match goal with
          | |- context [boot_fault ?o ?n] => destruct (boot_fault o n)
          | |- context [match ?x with Ok _ => _ | Err _ => _ end] => is_var x; destruct x
          | |- context [match ?x with Ok _ => _ | Err _ => _ end] => destruct x eqn:?
          | |- context [if ?x then _ else _] => destruct x eqn:?
          end; simpl);
  try (intros; simplify_eq).

Ltac same_ledger := try done; match goal with |- _ = ?l => destruct l; simpl; f_equal; multiset_solver end.

Lemma pg_open_err ctx cfg l e l' : NewPostgresStore ctx cfg l = (Err e, l') -> l' = l.
Proof.
  destruct cfg as [[cfg shardID]|]; cbn [NewPostgresStore]; [|by intros [= _ <-]].
  boot_cases; same_ledger.
Qed.

Lemma grown_cons ctx ctx' task res l o rs :
  ctx `prefix_of` ctx' -> grown ctx res l (MkLedger o rs) -> grown ctx res l (MkLedger o ((ctx', task) :: rs)).
Proof. intros Hp [Ho (rs' & Hr & HF)]. split; [done|]. exists ((ctx', task) :: rs'). simpl in *. split; [by rewrite Hr|]. by constructor. Qed.

Lemma grown_base ctx res l o : o = res ⊎ lg_open l -> grown ctx res l (MkLedger o (lg_running l)).
Proof. intros ->. split; [done|]. by exists []. Qed.

Ltac has_grown :=
  repeat (apply grown_cons; [first [done | by apply prefix_app_r | eexists; done]|]);
  apply grown_base; simpl; multiset_solver.

Lemma pg_open_ok ctx cfg l h l' :
  NewPostgresStore ctx cfg l = (Ok h, l') -> grown (ctx ++ [ph_shardID h])%list (pg_share (ph_shardID h)) l l'.
Proof.
  destruct cfg as [[cfg shardID]|]; cbn [NewPostgresStore]; [|done].
  boot_cases; unfold pg_share; has_grown.
Qed.

(** With nothing left running, closing takes away the store's share. *)
Lemma pg_close_share ctx h res l :
  unused (ctx ++ [ph_shardID h])%list l -> lg_open l = pg_share (ph_shardID h) ⊎ res ->
  pg_Close ctx h l = (Ok tt, MkLedger res (lg_running l)).
Proof.
  intros Hu Ho. unfold pg_Close, mbind, Boot_bind. rewrite cancel_unused by done. simpl.
  rewrite Ho. unfold pg_share, close. simpl. by rewrite open_close.
Qed.

Lemma pg_close_ok ctx h l l' :
  unused (ctx ++ [ph_shardID h])%list l -> grown (ctx ++ [ph_shardID h])%list (pg_share (ph_shardID h)) l l' ->
  pg_Close ctx h l' = (Ok tt, l).
Proof.
  intros Hu Hg. unfold pg_Close, mbind, Boot_bind. rewrite (cancel_grown _ _ _ _ Hu Hg). simpl.
  destruct l. unfold pg_share, close. simpl. by rewrite open_close.
Qed.

#[local] Arguments NewPostgresStore : simpl never.

(** *** The shards' stores *)

Fixpoint shares (hs : list PgHandle) : resources :=
  match hs with [] => ∅ | h :: hs => pg_share (ph_shardID h) ⊎ shares hs end.

Lemma open_shards_ok ctx cfg specs l hs l' :
  open_shards ctx cfg specs l = (Ok hs, l') -> grown ctx (shares hs) l l'.
Proof.
  revert l hs l'. induction specs as [|spec specs IH]; intros l hs l'; simpl.
  { intros [= <- <-]. apply grown_refl. }
  destruct (ShardMap.ownsShard _ _); [|apply IH].
  intros (pgCfg & l1 & H1 & (h & l2 & H2 & (rest & l3 & H3 & H4)%boot_bind_ok)%boot_bind_ok)%boot_bind_ok.
  injection H4 as <- <-. apply IH in H3.
  unfold on_error, boot_result in H1. unfold on_error in H2. destruct (postgresConfigFromShardSpec cfg spec); [|done].
  injection H1 as <- <-. destruct (NewPostgresStore ctx _ l) as [[h'|] l2'] eqn:Hn; [|done].
  injection H2 as <- <-. apply pg_open_ok in Hn. simpl.
  eapply grown_weaken in Hn; [|by apply prefix_app_r]. rewrite (comm_L (⊎)). by eapply grown_trans.
Qed.

(** A failing start stops what it started; what the earlier shards opened
    stays open. *)
Lemma open_shards_err ctx cfg specs res l0 l e l' :
  unused ctx l0 -> grown ctx res l0 l -> open_shards ctx cfg specs l = (Err e, l') ->
  exists hs, l' = MkLedger (shares hs ⊎ res ⊎ lg_open l0) (lg_running l0) /\ (length hs < length specs)%nat.
Proof.
  intros Hu. revert res l. induction specs as [|spec specs IH]; intros res l Hg; simpl; [done|].
  assert (Hc : (cancel ctx l).2 = l' -> exists hs : list PgHandle,
    l' = MkLedger (shares hs ⊎ res ⊎ lg_open l0) (lg_running l0) /\ (length hs < S (length specs))%nat).
  { intros <-. exists []. rewrite (cancel_grown ctx res l0 l Hu Hg). simpl. split; [|lia]. f_equal. multiset_solver. }
  destruct (ShardMap.ownsShard _ _).
  2: { intros H. destruct (IH res l Hg H) as (hs & -> & Hl). exists hs. split; [done|lia]. }
  unfold on_error, boot_result, mbind, Boot_bind. destruct (postgresConfigFromShardSpec cfg spec).
  2: { intros [= _ H]. by apply Hc. }
  destruct (NewPostgresStore ctx _ l) as [[h|] l1] eqn:Hn.
  2: { intros [= _ H]. apply Hc. by rewrite <- (pg_open_err _ _ _ _ _ Hn). }
  apply pg_open_ok in Hn. eapply grown_weaken in Hn; [|by apply prefix_app_r].
  destruct (open_shards ctx cfg specs l1) as [[rest|e'] l2] eqn:Ho; [done|]. intros [= -> ->].
  destruct (IH _ _ (grown_trans _ _ _ _ _ _ Hg Hn) Ho) as (hs & -> & Hl). exists (h :: hs). simpl.
  split; [|lia]. f_equal. multiset_solver.
Qed.

Lemma close_shards_ok ctx hs res l :
  unused ctx l -> lg_open l = shares hs ⊎ res -> close_shards ctx hs l = (Ok tt, MkLedger res (lg_running l)).
Proof.
  revert l. induction hs as [|h hs IH]; intros l Hu Ho; simpl in *.
  - destruct l; simpl in *. rewrite Ho, (left_id_L ∅ (⊎)). done.
  - unfold mbind, Boot_bind. rewrite (pg_close_share ctx h (shares hs ⊎ res)).
    + by rewrite IH.
    + by apply unused_deeper.
    + rewrite Ho. multiset_solver.
Qed.

Lemma sharded_ok ctx cfg load l hs l' :
  sharded_New ctx cfg load l = (Ok hs, l') -> grown ctx (shares hs) l l'.
Proof.
  destruct cfg as [cfg|]; [|done]. cbn [sharded_New]. case_decide; [done|].
  unfold boot_result, mbind, Boot_bind. destruct (load _); [|done]. apply open_shards_ok.
Qed.

(** *** SQLite *)

Lemma sqlite_open_err ctx cfg l e l' : NewSQLiteStore ctx cfg l = (Err e, l') -> l' = l.
Proof.
  destruct cfg as [cfg|]; cbn [NewSQLiteStore]; [|by intros [= _ <-]].
  destruct (buildSQLiteDSN cfg) as [dsn path]. boot_cases; same_ledger.
Qed.

Lemma sqlite_open_ok ctx cfg l h l' :
  NewSQLiteStore ctx cfg l = (Ok h, l') -> grown (ctx ++ ["sqlite"])%list {[+ ("db", "sqlite") +]} l l'.
Proof.
  destruct cfg as [cfg|]; cbn [NewSQLiteStore]; [|done].
  destruct (buildSQLiteDSN cfg) as [dsn path]. boot_cases; has_grown.
Qed.

(** *** Valkey *)

Fixpoint clients (shards : list shardSpec) : resources :=
  match shards with [] => ∅ | shard :: shards => {[+ ("client", sh_ShardID shard) +]} ⊎ clients shards end.

Lemma clients_app xs ys : clients (xs ++ ys) = clients xs ⊎ clients ys.
Proof. induction xs as [|x xs IH]; simpl; [|rewrite IH]; multiset_solver. Qed.

Lemma closeClients_ok shards res l :
  lg_open l = clients shards ⊎ res -> closeClients shards l = (Ok tt, MkLedger res (lg_running l)).
Proof.
  revert l. induction shards as [|x shards IH]; intros l Ho; simpl in *.
  - destruct l; simpl in *. rewrite Ho, (left_id_L ∅ (⊎)). done.
  - unfold mbind, Boot_bind. simpl. rewrite IH; [done|]. simpl. rewrite Ho. multiset_solver.
Qed.

(** Cancelling and closing the clients takes the store's share away. *)
Lemma valkey_release ctx shards l l' :
  unused ctx l -> grown ctx (clients shards) l l' -> (_ ← cancel ctx; closeClients shards) l' = (Ok tt, l).
Proof.
  intros Hu Hg. unfold mbind, Boot_bind. rewrite (cancel_grown _ _ _ _ Hu Hg). cbn beta iota.
  rewrite (closeClients_ok shards (lg_open l)); [|done]. by destruct l.
Qed.

Lemma open_clients_spec ctx opened specs l0 l r l' :
  unused ctx l0 -> grown ctx (clients opened) l0 l -> open_clients ctx opened specs l = (r, l') ->
  match r with Ok _ => grown ctx (clients (opened ++ specs)) l0 l' | Err _ => l' = l0 end.
Proof.
  intros Hu. revert opened l. induction specs as [|spec specs IH]; intros opened l Hg; simpl.
  { intros [= <- <-]. by rewrite app_nil_r. }
  unfold on_error, open, step, mbind, Boot_bind. destruct (boot_fault _ _); simpl.
  - intros [= <- <-]. exact (f_equal snd (valkey_release ctx opened l0 l Hu Hg)).
  - intros H. rewrite cons_middle, app_assoc. eapply IH; [|exact H]. rewrite clients_app. simpl.
    destruct Hg as [Ho Hr]. split; [|done]. simpl. rewrite Ho. multiset_solver.
Qed.

Lemma shard_specs_of_store decoded fresh cfg specs s :
  shard_specs decoded (default DefaultValkeyConfig cfg) = Ok specs ->
  NewValkeyStore decoded ParseDuration fresh cfg = Ok s -> vs_shards s = specs.
Proof. unfold NewValkeyStore. intros ->. case_match; [done|]. by intros [= <-]. Qed.

Lemma startWakeupListeners_grown ctx shards res l0 l :
  grown ctx res l0 l -> exists l', startWakeupListeners ctx shards l = (Ok tt, l') /\ grown ctx res l0 l'.
Proof.
  revert l. induction shards as [|x shards IH]; intros l Hg; simpl; [by exists l|].
  unfold mbind, Boot_bind. simpl. apply IH. destruct l. by apply grown_cons.
Qed.

(** *** What a store promises to its owner *)

(** Started where nothing runs under [ctx], [shut] takes back all that [new]
    opened and started; a [new] that fails stops what it started and leaves
    open at most [leftover]. *)
Class Lifecycle {A : Type} (ctx : list string) (leftover : resources -> Prop) (new : Boot A) (shut : A -> Boot unit) : Prop := {
  shut_restores l h l' : unused ctx l -> new l = (Ok h, l') -> shut h l' = (Ok tt, l);
  failed_stops l e l' : unused ctx l -> new l = (Err e, l') ->
    exists res, leftover res /\ l' = MkLedger (res ⊎ lg_open l) (lg_running l);
}.

Lemma nothing_left l : exists res : resources, res = ∅ /\ l = MkLedger (res ⊎ lg_open l) (lg_running l).
Proof. exists ∅. split; [done|]. rewrite (left_id_L ∅ (⊎)). by destruct l. Qed.

#[export] Instance pg_lifecycle ctx cfg : Lifecycle ctx (.= ∅) (NewPostgresStore ctx cfg) (pg_Close ctx).
Proof.
  split; intros l x l' Hu H.
  - apply pg_open_ok in H. eapply pg_close_ok; [|exact H]. by apply unused_deeper.
  - rewrite (pg_open_err _ _ _ _ _ H). apply nothing_left.
Qed.

#[export] Instance sqlite_lifecycle ctx cfg : Lifecycle ctx (.= ∅) (NewSQLiteStore ctx cfg) (fun _ => sqlite_Close ctx).
Proof.
  split; intros l x l' Hu H.
  - apply sqlite_open_ok in H. unfold sqlite_Close, mbind, Boot_bind.
    rewrite (cancel_grown _ _ _ _ (unused_deeper _ _ _ Hu) H). destruct l. unfold close. simpl. f_equal. f_equal.
    multiset_solver.
  - rewrite (sqlite_open_err _ _ _ _ _ H). apply nothing_left.
Qed.

#[export] Instance sharded_lifecycle ctx cfg load :
  Lifecycle ctx (fun res => exists hs, res = shares hs) (sharded_New ctx cfg load) (sharded_Close ctx).
Proof.
  split; intros l x l' Hu H.
  - apply sharded_ok in H. unfold sharded_Close, mbind, Boot_bind. rewrite (cancel_grown _ _ _ _ Hu H). cbn beta iota.
    rewrite (close_shards_ok ctx x (lg_open l)); [by destruct l|done..].
  - assert (Hnone : exists res, (exists hs, res = shares hs) /\ l = MkLedger (res ⊎ lg_open l) (lg_running l)).
    { destruct (nothing_left l) as (res & -> & Hl). exists ∅. split; [by exists []|done]. }
    revert H. destruct cfg as [cfg|]; [|by intros [= _ <-]]. cbn [sharded_New]. destruct (decide _); [by intros [= _ <-]|].
    unfold boot_result, mbind, Boot_bind. destruct (load _) as [m|]; [|by intros [= _ <-]]. intros H.
    destruct (open_shards_err _ _ _ _ _ _ _ _ Hu (grown_refl ctx l) H) as (hs & -> & _).
    exists (shares hs). split; [by exists hs|]. by rewrite (right_id_L ∅ (⊎)).
Qed.

Lemma valkey_goroutines ctx s res l l1 :
  grown ctx res l l1 ->
  exists l2, grown ctx res l l2
    /\ (_ ← (if vs_deferEvents s then go ctx "eventWriterLoop" else mret tt);
        _ ← go ctx "leaseReaperLoop";
        _ ← (if vs_publishPubSub s then startWakeupListeners ctx (vs_shards s) else mret tt);
        mret s) l1 = (Ok s, l2).
Proof.
  intros Hg. unfold mbind, Boot_bind.
  assert (H1 : exists l2, grown ctx res l l2 /\ (if vs_deferEvents s then go ctx "eventWriterLoop" else mret tt) l1 = (Ok tt, l2)).
  { destruct (vs_deferEvents s); eexists; (split; [|done]); [|done]. destruct l1. by apply grown_cons. }
  destruct H1 as ([o rs] & H1 & ->). simpl. apply (grown_cons ctx ctx "leaseReaperLoop") in H1; [|done].
  destruct (vs_publishPubSub s).
  - destruct (startWakeupListeners_grown ctx (vs_shards s) _ _ _ H1) as (l3 & -> & H3). by exists l3.
  - by eexists.
Qed.

#[export] Instance valkey_lifecycle ctx decoded fresh cfg :
  Lifecycle ctx (.= ∅) (valkey_New ctx decoded fresh cfg) (valkey_Close ctx).
Proof.
  assert (HN : forall l r l', unused ctx l -> valkey_New ctx decoded fresh cfg l = (r, l') ->
    match r with Ok s => grown ctx (clients (vs_shards s)) l l' | Err _ => l' = l end).
  { intros l r l' Hu. unfold valkey_New, boot_result, mbind, Boot_bind.
    destruct (shard_specs decoded _) as [specs|] eqn:Hs; [|by intros [= <- <-]].
    destruct (open_clients ctx [] specs l) as [o l1] eqn:Hc.
    apply (open_clients_spec _ _ _ l) in Hc; [|done|apply grown_refl].
    destruct o as [[]|]; [|intros [= <- <-]; by subst].
    unfold on_error. destruct (NewValkeyStore _ _ _ _) as [s|] eqn:Hv.
    2: { intros [= <- <-]. exact (f_equal snd (valkey_release ctx specs l l1 Hu Hc)). }
    pose proof (shard_specs_of_store _ _ _ _ _ Hs Hv) as <-. simpl in Hc.
    destruct (valkey_goroutines ctx s _ _ _ Hc) as (l2 & Hg & Hr). revert Hr. unfold mbind, Boot_bind.
    intros ->. by intros [= <- <-]. }
  split; intros l x l' Hu H; apply HN in H; try done.
  - by apply valkey_release.
  - subst. apply nothing_left.
Qed.

(** What the other side of a wrapper sees of the backend's failure. *)
Lemma wrapped {A} ctx ctx' leftover (new : Boot A) shut (wrap : A -> handle) l r l' :
  Lifecycle ctx' leftover new shut -> ctx `prefix_of` ctx' -> unused ctx l ->
  (x ← new; mret (wrap x)) l = (r, l') ->
  match r with
  | Ok h => exists x, h = wrap x /\ shut x l' = (Ok tt, l)
  | Err _ => exists res, leftover res /\ l' = MkLedger (res ⊎ lg_open l) (lg_running l)
  end.
Proof.
  intros HL [k ->] Hu. apply (unused_deeper _ k) in Hu. unfold mbind, Boot_bind.
  destruct (new l) as [[x|e] l1] eqn:Hn; intros [= <- <-].
  - exists x. split; [done|]. by eapply shut_restores.
  - by eapply failed_stops.
Qed.

(** C31: a store gives back what it takes.  Whichever backend a configuration
    selects, when the store opens, closing it ends every goroutine and closes
    every connection it had opened and nothing else; when it does not open,
    no goroutine it started keeps running and, unless the backend is the
    sharded one, nothing stays open either.  A sharded store that does not
    open leaves the connections of the shards it had opened. *)
Theorem stores_release_resources ctx out cfg l r l' :
  unused ctx l -> store_New ctx out cfg l = (r, l') ->
  match r with
  | Ok h => store_Close ctx h l' = (Ok tt, l)
  | Err _ => exists hs, l' = MkLedger (shares hs ⊎ lg_open l) (lg_running l)
               /\ (hs = [] \/ exists c, NewStore cfg = Ok (OpenPostgresSharded c))
  end.
Proof.
  intros Hu. unfold store_New, boot_result, mbind at 1, Boot_bind at 1.
  assert (Hempty : forall sel : result string opened,
    (exists res : resources, res = ∅ /\ l' = MkLedger (res ⊎ lg_open l) (lg_running l)) ->
    exists hs, l' = MkLedger (shares hs ⊎ lg_open l) (lg_running l) /\ (hs = [] \/ exists c, sel = Ok (OpenPostgresSharded c))).
  { intros sel (res & -> & ->). exists []. by split; [|left]. }
  destruct (NewStore cfg) as [o|]; [|intros [= <- <-]; apply Hempty, nothing_left].
  destruct o; cbn [open_store]; intros H.
  - apply (wrapped ctx ctx (.= ∅) _ (pg_Close ctx)) in H; [|apply _|done..]. destruct r; [|auto]. by destruct H as (x & -> & H).
  - apply (wrapped ctx (ctx ++ ["sharded"]) (fun res => exists hs, res = shares hs) _ (sharded_Close (ctx ++ ["sharded"]))) in H; [|apply _|by eexists|done].
    destruct r; [by destruct H as (x & -> & H)|]. destruct H as (res & (hs & ->) & ->). exists hs. split; [done|]. right. by eexists.
  - apply (wrapped ctx ctx (.= ∅) _ (fun _ => sqlite_Close ctx)) in H; [|apply _|done..]. destruct r; [|auto]. by destruct H as (x & -> & H).
  - apply (wrapped ctx (ctx ++ ["valkey"]) (.= ∅) _ (valkey_Close (ctx ++ ["valkey"]))) in H; [|apply _|by eexists|done].
    destruct r; [|auto]. by destruct H as (x & -> & H).
Qed.
End Release.

(** Two shards, of which the second does not accept the listener. *)
Definition second_down (shardID name : string) : option string :=
  if decide (shardID = "s2" /\ name = "connect listener") then Some "connection refused" else None.

Definition two_shards : outside :=
  MkOutside (fun _ => Ok (MkShardMap 1 1 [MkShardSpec "s1" "postgres://u:p@db1:5432/jobs" [] "" "";
                                          MkShardSpec "s2" "postgres://u:p@db2:5432/jobs" [] "" ""]))
    (fun _ => Err VNamespaceRequired) "reaper".

Definition sharded_config : StoreConfig :=
  MkStoreConfig "postgres-sharded" None (Some DefaultPostgresShardedConfig) None None.

#[local] Instance no_literals : Url.IPLiterals := fun _ => None.
Definition quiet : BootEnv := {| boot_fault _ _ := None; ParseDuration _ := None |}.
Definition refused : BootEnv := {| boot_fault := second_down; ParseDuration _ := None |}.

Definition at_rest : ledger := MkLedger ∅ [].

Lemma stores_release_resources_witness :
  exists hs l1,
    store_New (Env := quiet) ["server"] two_shards (Some sharded_config) at_rest = (Ok (HSharded hs), l1)
    /\ length hs = 2%nat /\ length (lg_running l1) = 4%nat
    /\ store_Close ["server"] (HSharded hs) l1 = (Ok tt, at_rest).
Proof.
  destruct (store_New (Env := quiet) ["server"] two_shards (Some sharded_config) at_rest) as [r l1] eqn:H.
  assert (Hr : match r with Ok (HSharded hs) => length hs = 2%nat /\ length (lg_running l1) = 4%nat | _ => False end).
  { vm_compute in H. by injection H as <- <-. }
  apply stores_release_resources in H; [|constructor].
  destruct r as [[]|]; try done. destruct Hr. by eexists _, _.
Defined.

(** The start that fails leaves the first shard's pool and listener open, and
    no store to close them with. *)
Example failed_start_leaks :
  exists e, store_New (Env := refused) ["server"] two_shards (Some sharded_config) at_rest
            = (Err e, MkLedger (pg_share "s1" ⊎ ∅) []).
Proof. eexists. vm_compute. reflexivity. Qed.

(** ** The end of the server *)

(** [runServer] after the signal: [server.Shutdown] has returned, the context
    is cancelled, the process is gone. *)
Inductive phase : Type := Serving | Drained | Cancelled | Exited.

#[export] Instance phase_eq_dec : EqDecision phase.
Proof. solve_decision. Defined.

(** The process of a server over a Postgres store that defers its events:
    the store's world, the writer's buffer ([None] when it has returned,
    which closes [eventDone]), whether [server.Shutdown] gave up after its ten
    seconds with requests still running, and the events of the requests
    answered. *)
Record proc : Type := MkProc {
  pr_w : PW; pr_writer : option (list pendingEvent); pr_phase : phase; pr_late : bool;
  pr_acked : list pendingEvent }.

Definition unwritten (p : proc) : list pendingEvent := (default [] (pr_writer p) ++ pw_queue (pr_w p))%list.

Section Shutdown.
Context `{E : PgEnv} (s : PgStore).

(** With [closes] the store's [Close] is called before the process ends: it
    waits for the writer and then closes the pool, so that a late request that
    finds the queue full may have nothing to write its event with. *)
Inductive sstep (closes : bool) : proc -> proc -> Prop :=
| sstep_request w writer ph late acked ev ns w' :
    (ph = Serving \/ (late = true /\ ph <> Exited)) -> enqueueEvent s ev ns w = (Ok tt, w') ->
    sstep closes (MkProc w writer ph late acked)
      (MkProc w' writer ph late (acked ++ [MkPendingEvent ev ns (s_shardID s)])%list)
| sstep_closed_pool w acked ev ns :
    closes = true -> (eventQueue_cap <= length (pw_queue w))%nat ->
    sstep closes (MkProc w None Cancelled true acked)
      (MkProc w None Cancelled true (acked ++ [MkPendingEvent ev ns (s_shardID s)])%list)
| sstep_writer w buf ph late acked input o w' :
    ph <> Exited -> (input = PgEngine.WDone -> ph = Cancelled) -> writer_turn s input buf w = (Ok o, w') ->
    sstep closes (MkProc w (Some buf) ph late acked) (MkProc w' o ph late acked)
| sstep_shutdown w writer timeout acked :
    sstep closes (MkProc w writer Serving false acked) (MkProc w writer Drained timeout acked)
| sstep_cancel w writer late acked :
    sstep closes (MkProc w writer Drained late acked) (MkProc w writer Cancelled late acked)
| sstep_exit w writer late acked :
    (closes = true -> writer = None) ->
    sstep closes (MkProc w writer Cancelled late acked) (MkProc w writer Exited late acked).

(** The log takes these rows: each has a partition and a key of its own. *)
Definition row_key (r : PgEventRow) : Z * string := (v_timestamp r, v_id r).
Definition fits (d : PgDB) (rows : list PgEventRow) : Prop :=
  Forall (fun r => day_of (v_timestamp r) ∈ pg_partitions d) (pg_events d ++ rows)%list
  /\ NoDup (row_key <$> pg_events d ++ rows)%list.

Lemma fits_insert d rows : fits d rows -> exists d', insert_batch d rows = Ok d'.
Proof.
  revert d. induction rows as [|r rows IH]; intros d [Hp Hk]; simpl; [by eexists|].
  assert (Hr : day_of (v_timestamp r) ∈ pg_partitions d) by (rewrite Forall_forall in Hp; apply Hp; set_solver).
  unfold insert_event_check. rewrite decide_False by (by intros Hn). rewrite app_nil_r.
  destruct (existsb _ (pg_events d)) eqn:Hex.
  - apply existsb_exists in Hex as (r' & Hin & (H1%bool_decide_eq_true & H2%bool_decide_eq_true)%andb_true_iff).
    apply list_elem_of_In in Hin. rewrite fmap_app in Hk. apply NoDup_app in Hk as (_ & Hk & _).
    destruct (Hk (row_key r')); [by apply list_elem_of_fmap_2|]. simpl.
    assert (row_key r' = row_key r) as -> by (unfold row_key; congruence). set_solver.
  - apply IH. unfold fits. simpl. by rewrite <- app_assoc.
Qed.

Lemma fits_mono d rows extra : fits d (rows ++ extra) -> fits d rows.
Proof.
  intros [Hp Hk]. rewrite app_assoc in Hp, Hk. split; [by apply Forall_app in Hp as [Hp _]|].
  rewrite fmap_app in Hk. by apply NoDup_app in Hk as [Hk _].
Qed.

(** Every answered event is in the log, the writer's buffer or the queue. *)
Record accounted (d0 : PgDB) (p : proc) : Prop := {
  acc_partitions : pg_partitions (pw_db (pr_w p)) = pg_partitions d0;
  acc_rows : (pg_events (pw_db (pr_w p)) ++ (pending_row <$> unwritten p))%list
             ≡ₚ (pg_events d0 ++ (pending_row <$> pr_acked p))%list;
  acc_returned : pr_writer p = None -> pr_phase p <> Serving /\ (pr_late p = false -> pw_queue (pr_w p) = []);
  acc_late : pr_phase p = Serving -> pr_late p = false;
}.

Hypothesis HA : alone E.

Lemma accounted_fits d0 p :
  accounted d0 p -> fits d0 (pending_row <$> pr_acked p) -> fits (pw_db (pr_w p)) (pending_row <$> unwritten p).
Proof. intros [Hp Hr _ _]. unfold fits. by rewrite Hr, Hp. Qed.

(** A request's event goes into the queue or, when it is full, the log. *)
Lemma accounted_request d0 w writer ph late acked ev ns w' :
  let pe := MkPendingEvent ev ns (s_shardID s) in
  accounted d0 (MkProc w writer ph late acked) -> fits d0 (pending_row <$> (acked ++ [pe])%list) ->
  (ph = Serving \/ (late = true /\ ph <> Exited)) ->
  enqueueEvent s ev ns w = (Ok tt, w') -> accounted d0 (MkProc w' writer ph late (acked ++ [pe])%list).
Proof.
  intros pe [Hp Hr Hw Hl] Hf Hph Hrun. simpl in *.
  assert (Hret : forall w1, writer = None -> ph <> Serving /\ (late = false -> pw_queue w1 = []))
    by (intros w1 H; destruct (Hw H); destruct Hph as [|[-> _]]; by split).
  assert (Hnow : (pg_events d0 ++ (pending_row <$> (acked ++ [pe])%list))%list
    ≡ₚ (pg_events (pw_db w) ++ (pending_row pe :: (pending_row <$> (default [] writer ++ pw_queue w)%list)))%list).
  { rewrite fmap_app, app_assoc, <- Hr. unfold unwritten. simpl. solve_Permutation. }
  unfold enqueueEvent in Hrun. fold pe in Hrun. destruct (decide _).
  - injection Hrun as <-. split; [done| |apply Hret|done]. simpl. rewrite Hnow. unfold unwritten. simpl.
    rewrite app_assoc, fmap_app. simpl. solve_Permutation.
  - assert (Hi : exists d, insert_batch (pw_db w) [pending_row pe] = Ok d).
    { apply fits_insert, (fits_mono _ _ (pending_row <$> (default [] writer ++ pw_queue w)%list)).
      unfold fits in Hf |- *. simpl. rewrite <- Hnow, Hp. done. }
    destruct Hi as [d Hd].
    assert (Hw' : pw_db w' = d /\ pw_queue w' = pw_queue w).
    { assert (Hq : pwp (_ ← ptry (SendBatch [pending_row pe]); mret tt)
                     (fun _ w' => pw_db w' = d /\ pw_queue w' = pw_queue w) w).
      { a_run HA. rewrite Hd. a_run HA. done. }
      unfold pwp in Hq. by rewrite Hrun in Hq. }
    destruct Hw' as [Hdb Hq]. apply insert_batch_events in Hd as (He & _ & Hpt).
    split; simpl; [by rewrite Hdb, Hpt| |apply Hret|done]. rewrite Hnow, Hdb, He. unfold unwritten. simpl. rewrite Hq.
    solve_Permutation.
Qed.

(** The writer returns on the end of its context only. *)
Lemma writer_returns input buf w w' : writer_turn s input buf w = (Ok None, w') -> input = PgEngine.WDone.
Proof.
  assert (Hno : forall (m : PM unit) w1, (_ ← m; mret (Some (@nil pendingEvent))) w1 <> (Ok None, w')).
  { intros m w1. unfold mbind, PM_bind. by destruct (m w1) as [[]]. }
  destruct input; unfold writer_turn; [|by intros ?%Hno|done].
  destruct (pw_queue w); [done|]. case_decide; [by intros ?%Hno|done].
Qed.

Lemma accounted_writer d0 w buf ph late acked input o w' :
  accounted d0 (MkProc w (Some buf) ph late acked) -> fits d0 (pending_row <$> acked) ->
  (input = PgEngine.WDone -> ph = Cancelled) -> writer_turn s input buf w = (Ok o, w') ->
  accounted d0 (MkProc w' o ph late acked).
Proof.
  intros Hacc Hf Hin Hrun. pose proof (accounted_fits _ _ Hacc Hf) as Hfit. destruct Hacc as [Hp Hr _ Hl]. simpl in *.
  destruct (fits_insert _ _ Hfit) as [d Hd].
  pose proof (writer_turn_keeps s HA input buf w d Hd) as Hk. unfold pwp in Hk. rewrite Hrun in Hk.
  destruct Hk as (o' & [= <-] & Hw & Hn).
  destruct (insert_batch_events _ _ _ Hd) as (He & _ & Hpt). destruct (insert_batch_events _ _ _ Hw) as (He' & _ & Hpt').
  split; simpl; [congruence| | |done].
  - rewrite <- Hr. unfold unwritten, backlog in *. simpl in *. by rewrite <- He, He'.
  - intros ->. destruct (Hn eq_refl) as [Hq _]. split; [by rewrite (Hin (writer_returns _ _ _ _ Hrun))|done].
Qed.

Lemma sstep_acked closes p p' : sstep closes p p' -> exists extra, pr_acked p' = (pr_acked p ++ extra)%list.
Proof. destruct 1; simpl; first [by eexists | by exists []; rewrite app_nil_r]. Qed.

Lemma sstep_late closes p p' : sstep closes p p' -> pr_late p = true -> pr_late p' = true.
Proof. by destruct 1. Qed.

Lemma accounted_step closes d0 p p' :
  sstep closes p p' -> pr_late p' = false \/ closes = false -> fits d0 (pending_row <$> pr_acked p') ->
  accounted d0 p -> accounted d0 p'.
Proof.
  intros Hs Hk Hf Ha. destruct Hs; simpl in *.
  - by eapply accounted_request.
  - destruct Hk; congruence.
  - by eapply accounted_writer.
  - destruct Ha as [Hp Hr Hw Hl]. split; [done..| |done]. intros H. by destruct (Hw H).
  - destruct Ha as [Hp Hr Hw Hl]. split; [done..| |done]. intros H. by destruct (Hw H).
  - destruct Ha as [Hp Hr Hw Hl]. split; [done..| |done]. intros H1. by destruct (Hw H1).
Qed.

Lemma accounted_run closes w0 p :
  pw_queue w0 = [] -> rtc (sstep closes) (MkProc w0 (Some []) Serving false []) p ->
  pr_late p = false \/ closes = false ->
  fits (pw_db w0) (pending_row <$> pr_acked p) -> accounted (pw_db w0) p.
Proof.
  intros Hq Hrun. revert p Hrun. refine (rtc_ind_r _ _ _ _).
  - intros _ _. split; simpl; [done| |done|done]. unfold unwritten. simpl. by rewrite Hq.
  - intros p p' _ Hs IH Hk Hf. eapply accounted_step; [exact Hs|done|done|]. apply IH.
    + destruct Hk as [Hk|]; [left|by right]. destruct (pr_late p) eqn:Hp; [|done].
      by rewrite (sstep_late _ _ _ Hs Hp) in Hk.
    + destruct (sstep_acked _ _ _ Hs) as [extra Hx]. rewrite Hx, fmap_app in Hf. by eapply fits_mono.
Qed.

(** A process that closes its store has a writer that returned. *)
Lemma closed_returned w0 p :
  rtc (sstep true) (MkProc w0 (Some []) Serving false []) p -> pr_phase p = Exited -> pr_writer p = None.
Proof.
  intros Hrun. revert p Hrun. refine (rtc_ind_r _ _ _ _); [done|].
  intros p p' _ Hs IH. destruct Hs as [? ? ? ? ? ? ? ? [|[_ ]] _| | | | |]; simpl in *; subst; auto; done.
Qed.

(** C17: what becomes of acknowledged events at shutdown, when no database
    call fails and every event has a partition of the log and a key of its
    own.  Whatever the interleaving of requests, the writer's turns and the
    shutdown, requests that outlive the ten seconds of [server.Shutdown]
    included: the rows in the log together with what the writer and the queue
    still hold are those the log started with and one for each event of an
    answered request (for a process that closes its store, if no request
    outlived the shutdown); and when the store was closed before the process
    ended and no request outlived the shutdown, nothing is left unwritten. *)
Theorem shutdown_keeps_events closes w0 p :
  pw_queue w0 = [] -> rtc (sstep closes) (MkProc w0 (Some []) Serving false []) p -> pr_phase p = Exited ->
  fits (pw_db w0) (pending_row <$> pr_acked p) -> pr_late p = false \/ closes = false ->
  (pg_events (pw_db (pr_w p)) ++ (pending_row <$> unwritten p))%list
  ≡ₚ (pg_events (pw_db w0) ++ (pending_row <$> pr_acked p))%list
  /\ (closes = true -> unwritten p = []).
Proof.
  intros Hq Hrun Hex Hf Hk. pose proof (accounted_run _ _ _ Hq Hrun Hk Hf) as [_ Hr Hw _]. split; [done|].
  intros ->. pose proof (closed_returned _ _ Hrun Hex) as Hn. destruct (Hw Hn) as [_ Hq'].
  destruct Hk as [Hk|]; [|done]. unfold unwritten. by rewrite Hn, Hq'.
Qed.
End Shutdown.

(** A store that defers events in batches of two, and three requests. *)
Definition deferring : PgStore := MkPgStore "" false true QueueClaimModeParallel (5 * Time.Minute) false 2 64 32.

Definition answered (n : Z) (p : proc) : proc :=
  MkProc (enqueueEvent (E := pg_alone) deferring (pe_event (queued n)) "" (pr_w p)).2 (pr_writer p) (pr_phase p)
    (pr_late p) (pr_acked p ++ [MkPendingEvent (pe_event (queued n)) "" ""])%list.

Definition turned (input : writer_input) (p : proc) : proc :=
  match pr_writer p with
  | Some buf => let '(r, w) := writer_turn (E := pg_alone) deferring input buf (pr_w p) in
                MkProc w (match r with Ok o => o | Err _ => Some buf end) (pr_phase p) (pr_late p) (pr_acked p)
  | None => p
  end.

Definition moved (ph : phase) (p : proc) : proc := MkProc (pr_w p) (pr_writer p) ph (pr_late p) (pr_acked p).

Definition before : proc := MkProc (pg_start fresh_pg) (Some []) Serving false [].
Definition three_answered : proc := answered 3 (answered 2 (turned WRecv (answered 1 before))).
Definition with_Close : proc := moved Exited (turned PgEngine.WDone (moved Cancelled (moved Drained three_answered))).
Definition without_Close : proc := moved Exited (moved Cancelled (moved Drained three_answered)).

Lemma three_answered_run closes : rtc (sstep (E := pg_alone) deferring closes) before three_answered.
Proof.
  eapply rtc_l; [by apply sstep_request; [left|vm_compute]|]. eapply rtc_l; [eapply (sstep_writer _ _ _ _ _ _ _ WRecv); vm_compute; done|].
  eapply rtc_l; [by apply sstep_request; [left|vm_compute]|]. eapply rtc_l; [by apply sstep_request; [left|vm_compute]|]. apply rtc_refl.
Qed.

Lemma shutdown_keeps_events_witness :
  pg_events (pw_db (pr_w with_Close)) ≡ₚ pending_row <$> pr_acked with_Close
  /\ length (pg_events (pw_db (pr_w with_Close))) = 3%nat.
Proof.
  split; [|vm_compute; reflexivity].
  assert (Hrun : rtc (sstep (E := pg_alone) deferring true) before with_Close).
  { transitivity three_answered; [apply three_answered_run|].
    eapply rtc_l; [apply sstep_shutdown|]. eapply rtc_l; [apply sstep_cancel|].
    eapply rtc_l; [eapply (sstep_writer _ _ _ _ _ _ _ PgEngine.WDone); vm_compute; done|].
    eapply rtc_l; [by apply sstep_exit|]. apply rtc_refl. }
  destruct (shutdown_keeps_events (E := pg_alone) deferring pg_alone_alone true (pg_start fresh_pg) with_Close)
    as [Hp Hn]; [reflexivity|exact Hrun|reflexivity| |left; reflexivity|].
  { split; [by apply (bool_decide_unpack _); vm_compute|by apply (bool_decide_unpack _); vm_compute]. }
  rewrite (Hn eq_refl) in Hp. rewrite fmap_nil, app_nil_r in Hp.
  change (pg_events (pw_db (pg_start fresh_pg))) with (@nil PgEventRow) in Hp. rewrite app_nil_l in Hp. exact Hp.
Defined.

(** [runServer] ends without closing its store: three requests were answered
    and none of their events is in the log. *)
Example server_drops_events :
  rtc (sstep (E := pg_alone) deferring false) before without_Close
  /\ length (pr_acked without_Close) = 3%nat /\ pg_events (pw_db (pr_w without_Close)) = [].
Proof.
  split; [|by vm_compute]. transitivity three_answered; [apply three_answered_run|].
  eapply rtc_l; [apply sstep_shutdown|]. eapply rtc_l; [apply sstep_cancel|].
  eapply rtc_l; [by apply sstep_exit|]. apply rtc_refl.
Qed.

(** A request that outlives the shutdown leaves its event in the queue even of
    a store that is closed: the writer has returned. *)
Definition timed_out (p : proc) : proc := MkProc (pr_w p) (pr_writer p) Drained true (pr_acked p).
Definition with_late_request : proc :=
  moved Exited (answered 4 (turned PgEngine.WDone (moved Cancelled (timed_out three_answered)))).

Example late_request_left :
  rtc (sstep (E := pg_alone) deferring true) before with_late_request
  /\ length (pg_events (pw_db (pr_w with_late_request))) = 3%nat /\ length (unwritten with_late_request) = 1%nat.
Proof.
  split; [|by vm_compute]. transitivity three_answered; [apply three_answered_run|].
  eapply rtc_l; [apply (sstep_shutdown _ _ _ _ true)|]. eapply rtc_l; [apply sstep_cancel|].
  eapply rtc_l; [eapply (sstep_writer _ _ _ _ _ _ _ PgEngine.WDone); vm_compute; done|].
  eapply rtc_l; [apply sstep_request; [by right|by vm_compute]|].
  eapply rtc_l; [by apply sstep_exit|]. apply rtc_refl.
Qed.
