(* ===== verification/ApiAuth.v ===== *)
(** * HTTP API: who gets to the handlers

    In the production profile a request gets past the middleware under the
    principal of the API key it carries, and no other way. *)

From S2P Require Import Prelude GoLib ApiTypes ApiHandlers ApiFront ApiBoot.
From stdpp Require Import gmap strings list fin_maps.
From Stdlib Require Import ZArith Lia Ascii.

Open Scope Z_scope.
Open Scope string_scope.

(** ** The keys file *)

(** What an entry takes from its record. *)
Record entry_of (rec : authKeyRecord) (e : KeyPrincipalEntry) : Prop := {
  eo_key : RawKey e = Strings.TrimSpace (kr_APIKey rec);
  eo_key_set : RawKey e <> "";
  eo_namespace : ap_NamespaceID (Principal e) = Strings.TrimSpace (kr_NamespaceID rec);
  eo_namespace_set : ap_NamespaceID (Principal e) <> "";
  eo_admin : ap_Admin (Principal e) = kr_Admin rec;
}.

Section Keys.
Context `{S : Surroundings}.

Lemma load_entry_spec idx seen rec e :
  load_entry idx seen rec = Ok e -> entry_of rec e /\ RawKey e ∉ seen.
Proof.
  unfold load_entry. do 3 (case_decide; [done|]). destruct (entry_window idx rec); [|done].
  cbn [mbind result_bind]. case_decide; [done|]. intros [= <-]. done.
Qed.

Lemma load_entries_spec recs idx out entries :
  load_entries idx out recs = Ok entries -> NoDup (RawKey <$> out) ->
  NoDup (RawKey <$> entries) /\ exists new, entries = (out ++ new)%list /\ Forall2 entry_of recs new.
Proof.
  revert idx out. induction recs as [|rec recs IH]; intros idx out; cbn [load_entries].
  - intros [= <-] Hnd. split; [done|]. exists []. by rewrite app_nil_r.
  - destruct (load_entry idx (RawKey <$> out) rec) as [e|] eqn:He; [|done]. cbn [mbind result_bind].
    apply load_entry_spec in He as [He Hn]. intros Hl Hnd. apply IH in Hl as (Hnd' & new & -> & Hf).
    + split; [done|]. exists (e :: new). rewrite <-app_assoc. split; [done|]. by constructor.
    + rewrite fmap_app. apply NoDup_app. split; [done|]. split; [|apply NoDup_singleton]. cbn.
      intros k Hk ->%list_elem_of_singleton. done.
Qed.

End Keys.

Lemma Forall2_in_l {A B} (P : A -> B -> Prop) l k x : Forall2 P l k -> x ∈ l -> exists y, y ∈ k /\ P x y.
Proof. intros H [i Hi]%list_elem_of_lookup. destruct (Forall2_lookup_l _ _ _ _ _ H Hi) as (y & Hy & ?). exists y. split; [|done]. by eapply list_elem_of_lookup_2. Qed.

Lemma Forall2_in_r {A B} (P : A -> B -> Prop) l k y : Forall2 P l k -> y ∈ k -> exists x, x ∈ l /\ P x y.
Proof. intros H%Forall2_flip. exact (Forall2_in_l _ _ _ _ H). Qed.

(** ** The table of keys *)

Section Lookup.
Context `{K : KeyHash}.

Lemma lookup_app entries e h :
  foldl (lookup_step h) None (entries ++ [e])%list = lookup_step h (foldl (lookup_step h) None entries) e.
Proof. by rewrite foldl_app. Qed.

Lemma constantTimeLookup_sound entries key p :
  constantTimeLookup entries key = Some p ->
  exists e, e ∈ entries /\ hashKeyWithNonce key = hashKeyWithNonce (RawKey e) /\ p = Principal e.
Proof.
  unfold constantTimeLookup. induction entries as [|e entries IH] using rev_ind; [done|].
  rewrite lookup_app. unfold lookup_step at 1. case_decide as Hh.
  - intros [= <-]. exists e. split; [set_solver|done].
  - intros (e' & Hin & He)%IH. exists e'. split; [set_solver|done].
Qed.

Lemma constantTimeLookup_complete entries e :
  e ∈ entries -> NoDup (RawKey <$> entries) ->
  (forall e', e' ∈ entries -> hashKeyWithNonce (RawKey e) = hashKeyWithNonce (RawKey e') -> RawKey e = RawKey e') ->
  constantTimeLookup entries (RawKey e) = Some (Principal e).
Proof.
  unfold constantTimeLookup. induction entries as [|e' entries IH] using rev_ind; [set_solver|].
  rewrite fmap_app, lookup_app. intros Hin [Hnd [Hdis _]]%NoDup_app Hc.
  unfold lookup_step at 1. case_decide as Hh.
  - apply Hc in Hh; [|set_solver]. apply elem_of_app in Hin as [Hin|Hin]; [|by apply list_elem_of_singleton in Hin as ->].
    exfalso. apply (Hdis (RawKey e)); [by apply list_elem_of_fmap_2|]. rewrite Hh. set_solver.
  - apply elem_of_app in Hin as [Hin|Hin]; [|by apply list_elem_of_singleton in Hin as ->].
    apply IH; [done|done|]. intros e2 He2. apply Hc. set_solver.
Qed.

End Lookup.

(** ** Middleware that passes a request on *)

(** [m] lets a request through to the next handler only changed as [R]
    says. *)
Definition passes (m : Middleware) (R : Request -> Request -> Prop) : Prop :=
  forall next set r s set' r' s', m next set r s = (Serve set' r', s') ->
  exists set1 r1 s1, next set1 r1 s1 = (Serve set' r', s') /\ R r r1.

Definition same_request (r r' : Request) : Prop :=
  rq_path r' = rq_path r /\ rq_method r' = rq_method r /\ rq_header r' = rq_header r /\ rq_principal r' = rq_principal r.

Lemma same_request_refl r : same_request r r.
Proof. done. Qed.

Ltac pass_on := eexists _, _, _; split; [eassumption|].

(** A middleware that refuses or leaves the request as it is. *)
Ltac passing := intros next set r s set' r' s'; unfold refuse; repeat (case_match || case_decide); intros Hrun;
  simplify_eq; pass_on; apply same_request_refl.

Lemma security_passes : passes SecurityHeadersMiddleware same_request.
Proof. unfold passes, SecurityHeadersMiddleware. passing. Qed.

Lemma cors_passes cfg : passes (CORSMiddlewareWithConfig cfg) same_request.
Proof. unfold passes, CORSMiddlewareWithConfig. passing. Qed.

Lemma telemetry_passes mode : passes (TelemetryModeMiddleware mode) same_request.
Proof. unfold passes, TelemetryModeMiddleware. passing. Qed.

Lemma rate_passes cfg : passes (RateLimitMiddleware cfg) same_request.
Proof. unfold passes, RateLimitMiddleware. passing. Qed.

Lemma max_body_passes n mutating : passes (MaxBodyBytesMiddleware n mutating) same_request.
Proof.
  unfold passes, MaxBodyBytesMiddleware. intros next set r s set' r' s'.
  case_decide; [intros H'; pass_on; done|]. destruct (mutating && _); intros H'; pass_on; done.
Qed.

Definition admin_ok (r : Request) : Prop :=
  protected DefaultAdminRouteConfig (rq_path r) = true -> exists p, rq_principal r = Some p /\ ap_Admin p = true.

Lemma admin_passes : passes (AdminOnlyMiddleware DefaultAdminRouteConfig) (fun r r' => same_request r r' /\ admin_ok r).
Proof.
  unfold passes, AdminOnlyMiddleware, refuse, AuthPrincipalFromContext, admin_ok. intros next set r s set' r' s'.
  cbn [ExactPaths Prefixes DefaultAdminRouteConfig]. fold DefaultAdminRouteConfig.
  destruct (protected _ _); [|intros H; pass_on; done].
  destruct (rq_principal r) as [p|]; [|done]. destruct (ap_Admin p) eqn:Ha; [|done].
  intros H. pass_on. split; [done|]. by exists p.
Qed.

Section Authenticated.
Context `{K : KeyHash}.

Definition exempt (cfg : AuthConfig) (r : Request) : Prop := rq_path r ∈ or_default (ExemptPaths cfg) DefaultAuthExemptPaths.

(** With keys configured a request passes unchanged to an exempt path, or
    under the principal of its key. *)
Definition authenticated (cfg : AuthConfig) (r r' : Request) : Prop :=
  (exempt cfg r /\ r' = r)
  \/ exists p, constantTimeLookup (KeyPrincipals cfg) (Strings.TrimSpace (header r "X-API-Key")) = Some p
     /\ r' = withAuthPrincipal r p.

Lemma auth_passes cfg : KeyPrincipals cfg <> [] -> passes (AuthMiddleware cfg) (authenticated cfg).
Proof.
  unfold passes, AuthMiddleware, refuse, authenticated, exempt. intros Hk next set r s set' r' s'. cbn zeta.
  generalize (if decide (Mode cfg = "") then AuthModeOptional else Mode cfg). intros mode.
  case_decide; [intros Hrun; pass_on; by left|]. case_decide as Ho; [by destruct Ho as (_ & _ & ?)|].
  do 2 (case_decide; [done|]). destruct (KeyPrincipals cfg) as [|e es] eqn:He; [done|]. rewrite <-He in *.
  destruct (constantTimeLookup _ _) as [p|]; [|done]. intros Hrun. pass_on. right. by exists p.
Qed.

(** ** The whole stack *)

Definition passes_all (ms : list Middleware) (R : Request -> Request -> Prop) : Prop :=
  forall set r s set' r' s', ApplyMiddleware mux ms set r s = (Serve set' r', s') -> R r r'.

Lemma passes_nil : passes_all [] same_request.
Proof. intros set r s set' r' s' [= -> -> ->]. done. Qed.

Lemma passes_cons m ms (R1 R2 R : Request -> Request -> Prop) :
  passes m R1 -> passes_all ms R2 -> (forall r r1 r2, R1 r r1 -> R2 r1 r2 -> R r r2) -> passes_all (m :: ms) R.
Proof. intros Hm Hms HR set r s set' r' s' (set1 & r1 & s1 & Hrun & H1)%Hm. eapply HR; [exact H1|]. by eapply Hms. Qed.

(** What holds up to the fields a middleware keeps. *)
Definition respects (R : Request -> Request -> Prop) : Prop :=
  (forall r r1 r2, same_request r r1 -> R r1 r2 -> R r r2) .

Lemma passes_when b m ms R :
  passes m same_request -> respects R -> passes_all ms R -> passes_all (when b m ++ ms)%list R.
Proof. intros Hm HR Hms. destruct b; [|done]. by apply (passes_cons m ms same_request R). Qed.

Lemma same_request_trans : respects same_request.
Proof. intros r r1 r2 (? & ? & ? & ?) (? & ? & ? & ?). split_and!; congruence. Qed.

(** A request that gets to the handlers. *)
Definition served (cfg : AuthConfig) (r r' : Request) : Prop :=
  rq_path r' = rq_path r /\ rq_method r' = rq_method r /\ admin_ok r'
  /\ ((exempt cfg r /\ rq_principal r' = rq_principal r)
      \/ exists p, constantTimeLookup (KeyPrincipals cfg) (Strings.TrimSpace (header r "X-API-Key")) = Some p
         /\ rq_principal r' = Some p).

Lemma served_respects cfg : respects (served cfg).
Proof.
  intros r r1 r2 (Hp & Hm & Hh & Hpr) (Hp2 & Hm2 & Ha & Hs). unfold served, exempt, header in *.
  rewrite Hp, Hh, Hpr in *. split_and!; try congruence; done.
Qed.

Lemma front_served f set r s set' r' s' :
  KeyPrincipals (f_auth f) <> [] -> front f set r s = (Serve set' r', s') -> served (f_auth f) r r'.
Proof.
  intros Hk. revert set r s set' r' s'. change (passes_all (stack f) (served (f_auth f))). unfold stack.
  apply passes_when; [apply security_passes|apply served_respects|].
  apply passes_when; [apply cors_passes|apply served_respects|]. cbn [app].
  eapply passes_cons; [apply telemetry_passes| |exact (served_respects _)].
  eapply passes_cons; [by apply auth_passes| |].
  { eapply passes_cons; [apply admin_passes| |].
    - apply passes_when; [apply max_body_passes|apply same_request_trans|].
      eapply passes_cons; [apply rate_passes|apply passes_nil|apply same_request_trans].
    - intros r r1 r2 [H1 Ha] H2. exact (conj (same_request_trans _ _ _ H1 H2) Ha). }
  intros r r1 r2 Hauth [(Hp & Hm & Hh & Hpr) Ha].
  assert (rq_path r1 = rq_path r /\ rq_method r1 = rq_method r) as [Hp1 Hm1] by (by destruct Hauth as [[_ ->]|(p & _ & ->)]).
  unfold served. split_and!; [congruence|congruence| |].
  - unfold admin_ok in *. rewrite Hp, Hpr. exact Ha.
  - rewrite Hpr. destruct Hauth as [[? ->]|(p & Hl & ->)]; [by left|right; by exists p].
Qed.

End Authenticated.

(** ** The production profile *)

Section Production.
Context `{K : KeyHash} `{S : Surroundings}.

(** A server that started in the production profile with the records [recs]
    in its keys file. *)
Record in_production (supported : bool) (v : Settings) (recs : list authKeyRecord) (f : FrontConfig) : Prop := {
  ip_profile : normalized (v_runtime_profile v) "dev" = "production";
  ip_file : keys_file (Strings.TrimSpace (v_auth_keys_file v)) = Ok recs;
  ip_started : startup supported v = Some f;
}.

Lemma fatal_passed {A} b (k : unit -> option A) a : (x ← fatal_if b; k x) = Some a -> b = false /\ k tt = Some a.
Proof. by destruct b. Qed.

Lemma resolve_auth_production v a :
  resolve_auth "production" v = Some a ->
  KeyPrincipals a <> [] /\ ExemptPaths a = DefaultAuthExemptPaths
  /\ forall recs, keys_file (Strings.TrimSpace (v_auth_keys_file v)) = Ok recs ->
     NoDup (RawKey <$> KeyPrincipals a) /\ Forall2 entry_of recs (KeyPrincipals a).
Proof.
  unfold resolve_auth. intros [_ Ha]%fatal_passed.
  destruct (LoadAuthKeyPrincipals _) as [entries|] eqn:Hl; [|done].
  apply fatal_passed in Ha as [Hf Ha]. apply fatal_passed in Ha as [He Ha]. apply fatal_passed in Ha as [_ [= <-]].
  apply bool_decide_eq_false in Hf, He. cbn [KeyPrincipals ExemptPaths].
  split; [intros ->; by apply He|]. split; [done|]. intros recs Hr.
  unfold LoadAuthKeyPrincipals in Hl. rewrite Strings.TrimSpace_idemp in Hl.
  rewrite decide_False in Hl by (intros ?; by apply Hf). rewrite Hr in Hl. cbn [mbind result_bind] in Hl.
  apply load_entries_spec in Hl as (Hnd & new & -> & Hall); [done|constructor].
Qed.

Lemma startup_production supported v recs f :
  in_production supported v recs f ->
  f_profile f = "production" /\ KeyPrincipals (f_auth f) <> [] /\ ExemptPaths (f_auth f) = DefaultAuthExemptPaths
  /\ NoDup (RawKey <$> KeyPrincipals (f_auth f)) /\ Forall2 entry_of recs (KeyPrincipals (f_auth f)).
Proof.
  intros [Hp Hf Hs]. unfold startup in Hs. rewrite Hp in Hs. do 3 (apply fatal_passed in Hs as [_ Hs]).
  destruct (resolve_auth _ v) as [a|] eqn:Ha; [|done]. cbn [mbind option_bind] in Hs.
  destruct (resolve_cors _ v) as [c|]; [|done]. cbn [mbind option_bind] in Hs.
  destruct (resolve_limits _ v) as [rate maxBytes]. injection Hs as <-. cbn [f_profile f_auth].
  apply resolve_auth_production in Ha as (H1 & H2 & H3). by destruct (H3 recs Hf).
Qed.

(** The digest of the presented key is the digest of no other configured
    key. *)
Definition no_collision (recs : list authKeyRecord) (r : Request) : Prop :=
  forall rec, rec ∈ recs ->
  hashKeyWithNonce (Strings.TrimSpace (header r "X-API-Key")) = hashKeyWithNonce (Strings.TrimSpace (kr_APIKey rec)) ->
  Strings.TrimSpace (header r "X-API-Key") = Strings.TrimSpace (kr_APIKey rec).

(** [p] is what the record says of the holder of its key. *)
Definition principal_in (rec : authKeyRecord) (p : AuthPrincipal) : Prop :=
  ap_NamespaceID p = Strings.TrimSpace (kr_NamespaceID rec) /\ ap_Admin p = kr_Admin rec.

(** The request carries the key of [rec]. *)
Definition presents (r : Request) (rec : authKeyRecord) : Prop :=
  Strings.TrimSpace (header r "X-API-Key") = Strings.TrimSpace (kr_APIKey rec).

(** A plain request: not a preflight, not from a browser, no telemetry. *)
Definition plain_request (r : Request) : Prop :=
  Strings.TrimSpace (header r "Origin") = "" /\ rq_method r <> "OPTIONS"
  /\ Strings.HasPrefix (rq_path r) "/api/v1/telemetry/" = false.

Lemma entry_scoped rec e (r : Request) :
  entry_of rec e -> rq_principal r = Some (Principal e) ->
  requestPrincipalNamespace r <> "" /\ principal_in rec (Principal e).
Proof.
  intros [Hk Hks Hn Hns Ha] Hp. unfold requestPrincipalNamespace, AuthPrincipalFromContext. rewrite Hp.
  rewrite Hn, Strings.TrimSpace_idemp, <-Hn. done.
Qed.

Lemma rate_limit_ends cfg set r s :
  (exists set' s', RateLimitMiddleware cfg mux set r s = (Serve set' r, s'))
  \/ exists set' rs s', RateLimitMiddleware cfg mux set r s = (Refuse set' (Responded rs), s')
     /\ rs_status rs = StatusTooManyRequests.
Proof.
  unfold RateLimitMiddleware, mux, refuse. destruct (limited cfg r); cbn [negb]; [|left; by do 2 eexists].
  case_decide; [left; by do 2 eexists|]. case_decide; [right; by do 3 eexists|left; by do 2 eexists].
Qed.

Definition keeps_principal (r r' : Request) : Prop :=
  rq_principal r' = rq_principal r /\ rq_path r' = rq_path r /\ rq_method r' = rq_method r.

Lemma max_body_next n mutating next set r s :
  exists r', MaxBodyBytesMiddleware n mutating next set r s = next set r' s /\ keeps_principal r r'.
Proof.
  unfold MaxBodyBytesMiddleware, keeps_principal. case_decide; [by eexists|].
  destruct (mutating && _); by eexists.
Qed.

Lemma cors_next cfg next set r s :
  Strings.TrimSpace (header r "Origin") = "" -> rq_method r <> "OPTIONS" ->
  CORSMiddlewareWithConfig cfg next set r s = next set r s.
Proof.
  intros Ho Hm. unfold CORSMiddlewareWithConfig. rewrite Ho. rewrite decide_False by naive_solver.
  by rewrite (decide_True (P := "" = "")), decide_False.
Qed.

Lemma telemetry_next mode next set r s :
  Strings.HasPrefix (rq_path r) "/api/v1/telemetry/" = false -> TelemetryModeMiddleware mode next set r s = next set r s.
Proof. intros Ht. unfold TelemetryModeMiddleware. rewrite Ht. by case_decide. Qed.

Lemma auth_next cfg next set r s p :
  KeyPrincipals cfg <> [] -> ~ exempt cfg r -> Strings.TrimSpace (header r "X-API-Key") <> "" ->
  constantTimeLookup (KeyPrincipals cfg) (Strings.TrimSpace (header r "X-API-Key")) = Some p ->
  AuthMiddleware cfg next set r s = next set (withAuthPrincipal r p) s.
Proof.
  unfold exempt. intros Hk Hex Hs Hl. unfold AuthMiddleware. rewrite decide_False by done.
  rewrite decide_False by naive_solver. rewrite decide_False by naive_solver. rewrite decide_False by done.
  rewrite Hl. by destruct (KeyPrincipals cfg).
Qed.

Lemma admin_next next set r s p :
  rq_principal r = Some p -> (protected DefaultAdminRouteConfig (rq_path r) = true -> ap_Admin p = true) ->
  AdminOnlyMiddleware DefaultAdminRouteConfig next set r s = next set r s.
Proof.
  intros Hp Ha. unfold AdminOnlyMiddleware, AuthPrincipalFromContext.
  cbn [ExactPaths Prefixes DefaultAdminRouteConfig]. fold DefaultAdminRouteConfig. rewrite Hp.
  destruct (protected _ _); [|done]. by rewrite Ha.
Qed.

(** A request with a configured key is served under its principal, or told to
    slow down. *)
Lemma front_admits f set r s p :
  f_profile f = "production" -> KeyPrincipals (f_auth f) <> [] -> ~ exempt (f_auth f) r ->
  Strings.TrimSpace (header r "X-API-Key") <> "" ->
  constantTimeLookup (KeyPrincipals (f_auth f)) (Strings.TrimSpace (header r "X-API-Key")) = Some p ->
  plain_request r -> (protected DefaultAdminRouteConfig (rq_path r) = true -> ap_Admin p = true) ->
  (exists set' r' s', front f set r s = (Serve set' r', s') /\ rq_principal r' = Some p)
  \/ exists set' rs s', front f set r s = (Refuse set' (Responded rs), s') /\ rs_status rs = StatusTooManyRequests.
Proof.
  intros Hp Hks Hex Hk Hl (Ho & Hm & Ht) Ha. unfold front, stack. rewrite Hp.
  change (resolveHTTPRuntimeOptions "production") with (MkHttpRuntimeOptions true true true true).
  cbn [when enableSecurityHeaders enableCORS enableMaxBody app ApplyMiddleware foldr].
  unfold SecurityHeadersMiddleware. rewrite cors_next, telemetry_next by done.
  rewrite (auth_next _ _ _ _ _ p) by done. rewrite (admin_next _ _ _ _ p) by done.
  match goal with |- context [MaxBodyBytesMiddleware ?n ?m ?next ?set ?r ?s] =>
    destruct (max_body_next n m next set r s) as (r' & -> & Hr' & _) end.
  match goal with |- context [RateLimitMiddleware ?cfg mux ?set ?r ?s] =>
    destruct (rate_limit_ends cfg set r s) as [(set' & s' & ->)|(set' & rs & s' & -> & Hrs)] end.
  - left. by exists set', r', s'.
  - right. by exists set', rs, s'.
Qed.

(** C38: Authentication in the production profile.  Take any server that
    started in it and any request as it comes from the network.  If the request gets to
    the handlers then it is for a health endpoint, or it carries the API key of a record of the keys file and is
    served as that record's principal: confined to the record's namespace,
    which is not blank, and, on the admin paths, an administrator.
    Conversely a plain request with the key of a record is served as that
    record's principal (an admin path only for an administrator) unless the
    rate limiter answers 429.  Digests of different keys are assumed
    different. *)
Theorem production_authenticates supported v recs f set r s :
  in_production supported v recs f -> rq_principal r = None -> no_collision recs r ->
  (forall set' r' s', front f set r s = (Serve set' r', s') ->
     (rq_path r ∈ DefaultAuthExemptPaths /\ rq_principal r' = None)
     \/ exists rec p, rec ∈ recs /\ presents r rec /\ rq_principal r' = Some p /\ principal_in rec p
        /\ requestPrincipalNamespace r' <> ""
        /\ (protected DefaultAdminRouteConfig (rq_path r) = true -> kr_Admin rec = true))
  /\ (forall rec, rec ∈ recs -> presents r rec -> plain_request r -> rq_path r ∉ DefaultAuthExemptPaths ->
     (protected DefaultAdminRouteConfig (rq_path r) = true -> kr_Admin rec = true) ->
     (exists set' r' s' p, front f set r s = (Serve set' r', s') /\ rq_principal r' = Some p /\ principal_in rec p)
     \/ exists set' rs s', front f set r s = (Refuse set' (Responded rs), s') /\ rs_status rs = StatusTooManyRequests).
Proof.
  intros Hprod Hr Hc. destruct (startup_production _ _ _ _ Hprod) as (Hp & Hks & Hex & Hnd & Hall). split.
  - intros set' r' s' Hs. destruct (front_served _ _ _ _ _ _ _ Hks Hs) as (Hpath & _ & Ha & [[He Hp']|(p & Hl & Hp')]).
    + left. unfold exempt in He. rewrite Hex in He. by rewrite Hp', Hr.
    + right. apply constantTimeLookup_sound in Hl as (e & He & Hh & ->).
      destruct (Forall2_in_r _ _ _ _ Hall He) as (rec & Hrec & Heo). exists rec, (Principal e).
      destruct (entry_scoped rec e r' Heo Hp') as [Hns Hin].
      assert (presents r rec) as Hpr by (apply Hc; [done|]; by rewrite <-(eo_key _ _ Heo)).
      split_and!; try done. unfold admin_ok in Ha. rewrite Hpath, Hp' in Ha.
      intros (p & [= <-] & Hadm)%Ha. by rewrite <-(proj2 Hin).
  - intros rec Hrec Hpr Hplain Hne Ha. destruct (Forall2_in_l _ _ _ _ Hall Hrec) as (e & He & Heo).
    assert (Strings.TrimSpace (header r "X-API-Key") = RawKey e) as Hke by (by rewrite (eo_key _ _ Heo)).
    destruct (front_admits f set r s (Principal e)) as [(set' & r' & s' & Hs & Hp')|H429]; [..|by right]; try done.
    + unfold exempt. by rewrite Hex.
    + rewrite Hke. apply (eo_key_set _ _ Heo).
    + rewrite Hke. apply constantTimeLookup_complete; [done|done|]. intros e' He' Hh.
      destruct (Forall2_in_r _ _ _ _ Hall He') as (rec' & Hrec' & Heo'). rewrite <-Hke, (eo_key _ _ Heo').
      apply Hc; [done|]. by rewrite Hke, Hh, (eo_key _ _ Heo').
    + intros Hpt. rewrite (eo_admin _ _ Heo). by apply Ha.
    + left. exists set', r', s', (Principal e). split; [done|]. split; [done|]. by apply (entry_scoped rec e r').
Qed.

End Production.

(** ** A production server *)

Definition demo_hash : KeyHash := {| digest := string; digest_eq := _; hashKeyWithNonce k := "mac:" +:+ k |}.
Definition demo_limits : authKeyLimitsFile := MkAuthKeyLimitsFile 0 "" 0 0 0.
Definition demo_keys : list authKeyRecord :=
  [MkAuthKeyRecord "red-key" "red" false demo_limits; MkAuthKeyRecord " root-key " "ops" true demo_limits].
Definition demo_surroundings : Surroundings := {|
  ParseDuration s := if decide (s = "1s") then Some Time.Second else None;
  keys_file path := if decide (path = "keys.json") then Ok demo_keys else Err KReadFile;
|}.
Definition demo_settings : Settings :=
  MkSettings "Production" "" "" "" "keys.json" "" "" "" "" 0 "1s" 0 0 "".
Definition demo_front : FrontConfig :=
  match startup (S := demo_surroundings) false demo_settings with Some f => f | None => MkFrontConfig "" "" (MkAuthConfig "" "" [] [] "") (MkCORSConfig [] [] [] 0) 0 (MkRateLimitConfig 0 0 true []) end.
Definition keyed_request (path key : string) : Request :=
  MkRequest "POST" path {["X-API-Key" := [key]]} ∅ "10.0.0.1:80" 0 (MkBody "" false) None.

Lemma demo_in_production : in_production (S := demo_surroundings) false demo_settings demo_keys demo_front.
Proof. constructor; vm_compute; reflexivity. Qed.

Lemma demo_no_collision path key : no_collision (K := demo_hash) demo_keys (keyed_request path key).
Proof. intros rec _ Hh. by apply (inj (String.append "mac:")) in Hh. Qed.

Lemma production_authenticates_witness :
  (exists set' r' s' p, front (H := demo_hash) demo_front [] (keyed_request "/api/v1/agents/take" "red-key") (MkFront 7 ∅) = (Serve set' r', s')
     /\ rq_principal r' = Some p /\ ap_NamespaceID p = "red")
  /\ (forall set' r' s', front (H := demo_hash) demo_front [] (keyed_request "/stats" "red-key") (MkFront 7 ∅) <> (Serve set' r', s')).
Proof.
  split.
  - destruct (@production_authenticates demo_hash demo_surroundings false demo_settings demo_keys demo_front []
      (keyed_request "/api/v1/agents/take" "red-key") (MkFront 7 ∅) demo_in_production eq_refl (demo_no_collision _ _)) as [_ H].
    destruct (H (MkAuthKeyRecord "red-key" "red" false demo_limits)) as [(set' & r' & s' & p & Hs & Hp & [Hn _])|(set' & rs & s' & Hs & _)].
    + left.
    + vm_compute. reflexivity.
    + split; [vm_compute; reflexivity|]. split; [intros Hm; discriminate Hm|vm_compute; reflexivity].
    + apply (bool_decide_unpack _). vm_compute. exact I.
    + vm_compute. intros Hf. discriminate Hf.
    + exists set', r', s', p. split; [exact Hs|]. split; [exact Hp|]. rewrite Hn. vm_compute. reflexivity.
    + vm_compute in Hs. discriminate Hs.
  - intros set' r' s' Hs.
    destruct (@production_authenticates demo_hash demo_surroundings false demo_settings demo_keys demo_front []
      (keyed_request "/stats" "red-key") (MkFront 7 ∅) demo_in_production eq_refl (demo_no_collision _ _)) as [H _].
    destruct (H set' r' s' Hs) as [[He _]|(rec & p & Hrec & Hp & _ & _ & _ & Ha)].
    + apply (bool_decide_pack _) in He. vm_compute in He. exact He.
    + specialize (Ha eq_refl). unfold demo_keys in Hrec. apply elem_of_cons in Hrec as [->|Hrec]; [discriminate Ha|].
      apply list_elem_of_singleton in Hrec as ->. vm_compute in Hp. discriminate Hp.
Defined.
