(* ===== verification/ApiLimiter.v ===== *)
(** * HTTP API: the rate limiter

    [RateLimitMiddleware] and the goroutine that prunes its entries, as the
    server runs them: requests and ticks in the order they take the mutex. *)

From S2P Require Import Prelude GoLib ApiTypes ApiHandlers ApiFront.
From stdpp Require Import gmap strings list fin_maps.
From Stdlib Require Import ZArith Lia.

Open Scope Z_scope.

(** ** Traffic *)

Inductive traffic : Type :=
| Arrive (now : Z) (r : Request)
| Tick (now : Z).

Definition moment (e : traffic) : Z := match e with Arrive t _ => t | Tick t => t end.

Record passage : Type := MkPassage { ps_time : Z; ps_request : Request; ps_admitted : bool }.

Definition limiter : Type := gmap string rateLimitEntry * list passage.

Definition admits (d : disposition) : bool := match d with Serve _ _ => true | Refuse _ _ => false end.

Definition limiter_step (cfg : RateLimitConfig) (s : limiter) (e : traffic) : limiter :=
  match e with
  | Arrive t r =>
      let '(d, s') := RateLimitMiddleware cfg mux [] r (MkFront t s.1) in
      (fr_entries s', s.2 ++ [MkPassage t r (admits d)])
  | Tick t => (prune cfg t s.1, s.2)
  end.

Definition limiter_run (cfg : RateLimitConfig) (es : list traffic) : limiter := foldl (limiter_step cfg) (∅, []) es.

(** The requests the limiter counts in a bucket. *)
Definition counted_in (cfg : RateLimitConfig) (key : string) (r : Request) : Prop :=
  limited cfg r = true /\ client_key cfg r = key.
#[export] Instance counted_in_dec cfg key r : Decision (counted_in cfg key r).
Proof. unfold counted_in. apply _. Defined.

(** How many of them it let through at a time from [a] to before [b]. *)
Definition admitted_between (cfg : RateLimitConfig) (key : string) (a b : Z) (log : list passage) : nat :=
  length (filter (fun p => counted_in cfg key (ps_request p) /\ ps_admitted p = true /\ a <= ps_time p < b) log).

(** Times in the order of the steps, after the zero time. *)
Fixpoint ordered (from : Z) (es : list traffic) : Prop :=
  match es with
  | [] => True
  | e :: es => from <= moment e /\ ordered (moment e) es
  end.

Lemma ordered_app from es e :
  ordered from (es ++ [e]) -> ordered from es /\ foldl (fun _ e => moment e) from es <= moment e.
Proof. revert from. induction es as [|x es IH]; intros from; cbn; [tauto|]. intros [? ?%IH]. tauto. Qed.

Lemma length_filter_impl {A} (P Q : A -> Prop) `{forall a, Decision (P a), forall a, Decision (Q a)} l :
  (forall a, a ∈ l -> P a -> Q a) -> (length (filter P l) <= length (filter Q l))%nat.
Proof.
  induction l as [|a l IH]; intros Himp; [done|]. rewrite !filter_cons.
  assert (length (filter P l) <= length (filter Q l))%nat by (apply IH; intros b Hb; apply Himp; set_solver).
  repeat case_decide; cbn; try lia. exfalso. eapply H3, Himp; [set_solver|done].
Qed.

Lemma length_filter_split {A} (P Q : A -> Prop) `{forall a, Decision (P a), forall a, Decision (Q a)} l :
  length (filter P l) = (length (filter (fun a => P a /\ Q a) l) + length (filter (fun a => P a /\ ~ Q a) l))%nat.
Proof. induction l as [|a l IH]; [done|]. rewrite !filter_cons. repeat case_decide; cbn; try lia; tauto. Qed.

(** ** The windows of a bucket *)

Section Bucket.
Context (cfg : RateLimitConfig) (key : string) (limit window : Z).
Hypothesis limit_pos : 0 < limit.
Hypothesis window_pos : 0 < window.
Hypothesis window_kept : window <= int64 (Window cfg * 2).

(** An admission with the start of the window it was counted in. *)
Notation admission := (Z * Z)%type.

Definition in_window (s : Z) (h : list admission) : nat := length (filter (fun a => a.2 = s) h).

Definition apart (s s' : Z) : Prop := s' = s \/ s' + window <= s \/ s + window <= s'.

(** The windows seen up to the time [now]. *)
Record windows (now : Z) (h : list admission) : Prop := {
  wd_inside : forall t s, (t, s) ∈ h -> s <= t < s + window /\ t <= now;
  wd_apart : forall t s t' s', (t, s) ∈ h -> (t', s') ∈ h -> apart s s';
  wd_full : forall s, (in_window s h <= Z.to_nat limit)%nat;
}.

(** The bucket's entry counts its last window. *)
Definition entry_ok (now : Z) (h : list admission) (e : option rateLimitEntry) : Prop :=
  match e with
  | None => forall t s, (t, s) ∈ h -> s + window <= now
  | Some e => Time.zero_time < windowStart e <= now
      /\ count e = Z.of_nat (in_window (windowStart e) h)
      /\ forall t s, (t, s) ∈ h -> s = windowStart e \/ s + window <= windowStart e
  end.

Lemma sub_window now s : window <= Time.Sub now s <-> window <= now - s.
Proof.
  pose proof (int64_range (Window cfg * 2)) as Hr. unfold in_int64 in Hr. unfold Time.Sub.
  change min_int64 with (-9223372036854775808) in *. change max_int64 with 9223372036854775807 in *. lia.
Qed.

Lemma pruned_window now s : int64 (Window cfg * 2) <= Time.Sub now s -> window <= now - s.
Proof. intros H. apply sub_window. lia. Qed.

Lemma windows_later now now' h : now <= now' -> windows now h -> windows now' h.
Proof. intros Hle [H1 H2 H3]. split; [|done..]. intros t s Hin. destruct (H1 t s Hin). lia. Qed.

Lemma entry_ok_later now now' h e : now <= now' -> entry_ok now h e -> entry_ok now' h e.
Proof.
  intros Hle. destruct e as [e|]; cbn.
  - intros (? & ? & ?). split; [lia|done].
  - intros H t s Hin. specialize (H t s Hin). lia.
Qed.

Lemma in_window_none s h : (forall t, (t, s) ∉ h) -> in_window s h = 0%nat.
Proof.
  unfold in_window. induction h as [|[t s'] h IH]; intros Hn; [done|]. rewrite filter_cons. cbn [snd].
  case_decide as Hd; [subst; exfalso; apply (Hn t); set_solver|]. apply IH. intros t' ?. apply (Hn t'). set_solver.
Qed.

(** The entry a request finds is the old one or a window of its own. *)
Lemma current_entry_ok now h e :
  Time.zero_time < now -> entry_ok now h e -> windows now h ->
  let e' := current_entry window now e in
  entry_ok now h (Some e') /\ now < windowStart e' + window.
Proof.
  intros Hz He Hw. unfold current_entry. destruct e as [[s c]|]; cbn [default windowStart].
  - destruct He as (Hs & Hc & Hh). cbn [windowStart count] in *.
    unfold Time.IsZero. rewrite (bool_decide_eq_false_2 (s = Time.zero_time)) by lia. cbn [orb].
    case_bool_decide as Hsub; rewrite sub_window in Hsub; cbn [id windowStart] in Hsub |- *; [|split; [done|lia]].
    split; [|lia]. split; [cbn; lia|]. cbn [windowStart count]. split.
    + rewrite in_window_none; [done|]. intros t Hin. destruct (Hh t now Hin); lia.
    + intros t s' Hin. right. destruct (Hh t s' Hin); lia.
  - unfold Time.IsZero. rewrite bool_decide_eq_true_2 by done. cbn. split; [|lia]. split; [lia|]. split.
    + rewrite in_window_none; [done|]. intros t Hin. specialize (He t now Hin). lia.
    + intros t s' Hin. right. by apply (He t).
Qed.

(** One more admission in the current window. *)
Lemma windows_admit now h e :
  entry_ok now h (Some e) -> windows now h -> now < windowStart e + window -> count e < limit ->
  windows now (h ++ [(now, windowStart e)])
  /\ entry_ok now (h ++ [(now, windowStart e)]) (Some (MkEntry (windowStart e) (count e + 1))).
Proof.
  intros (Hs & Hc & Hh) [H1 H2 H3] Hin Hlt.
  assert (Hn : forall s, in_window s (h ++ [(now, windowStart e)]) = (in_window s h + if decide (windowStart e = s) then 1 else 0)%nat).
  { intros s. unfold in_window. rewrite filter_app, length_app. f_equal. rewrite filter_cons. cbn [snd]. by case_decide. }
  assert (Hap : forall t s, (t, s) ∈ h -> apart s (windowStart e)) by (intros t s Hin'; unfold apart; destruct (Hh t s Hin'); lia).
  split; [split|].
  - intros t s [Hin'|[= -> ->]%list_elem_of_singleton]%elem_of_app; [by apply H1|lia].
  - intros t s t' s' [Hi|[= -> ->]%list_elem_of_singleton]%elem_of_app [Hi'|[= -> ->]%list_elem_of_singleton]%elem_of_app.
    + by eapply H2.
    + by eapply Hap.
    + specialize (Hap t' s' Hi'). unfold apart in *. lia.
    + by left.
  - intros s. rewrite Hn. case_decide as Hd; [|specialize (H3 s); lia]. subst s. lia.
  - cbn [windowStart count]. split; [done|]. split.
    + cbn. rewrite Hn, decide_True by done. lia.
    + cbn. intros t s [Hi|[= -> ->]%list_elem_of_singleton]%elem_of_app; [by eapply Hh|by left].
Qed.

(** ** Counting admissions *)

Lemma one_window_bound (P : admission -> Prop) `{forall a, Decision (P a)} now h :
  windows now h -> (forall a b, a ∈ h -> b ∈ h -> P a -> P b -> a.2 = b.2) ->
  (length (filter P h) <= Z.to_nat limit)%nat.
Proof.
  intros [_ _ H3] Hsame. destruct (filter P h) as [|a l] eqn:Hf; [cbn; lia|].
  assert (a ∈ filter P h) as [Ha Hin]%list_elem_of_filter by (rewrite Hf; set_solver).
  rewrite <-Hf. etrans; [|apply (H3 a.2)]. apply length_filter_impl. intros b Hb Hpb. by apply Hsame.
Qed.

(** A stretch as long as a window meets two windows at most. *)
Lemma windows_bound now h a :
  windows now h -> (length (filter (fun x : admission => (a <= x.1 < a + window)%Z) h) <= 2 * Z.to_nat limit)%nat.
Proof.
  intros Hw. pose proof Hw as [H1 H2 _].
  rewrite (length_filter_split _ (fun x => x.2 <= a)).
  assert (Hsame : forall x y : admission, x ∈ h -> y ∈ h -> Z.abs (x.2 - y.2) < window -> x.2 = y.2).
  { intros [t s] [t' s'] Hx Hy. cbn [snd]. pose proof (H2 _ _ _ _ Hx Hy) as Hap. unfold apart in Hap. lia. }
  assert (Hin : forall x : admission, x ∈ h -> x.2 <= x.1 < x.2 + window) by (intros [t s] Hx; cbn; by destruct (H1 t s Hx)).
  assert (Hone : forall (P : admission -> Prop) `{forall x, Decision (P x)},
    (forall x y, x ∈ h -> y ∈ h -> P x -> P y -> Z.abs (x.2 - y.2) < window) ->
    (length (filter P h) <= Z.to_nat limit)%nat).
  { intros P ? Hd. apply (one_window_bound P now); [done|]. intros x y Hx Hy ? ?. apply Hsame; [done|done|]. by apply Hd. }
  pose proof (Hone (fun x => a <= x.1 < a + window /\ x.2 <= a) _) as Hlo.
  pose proof (Hone (fun x => a <= x.1 < a + window /\ ~ x.2 <= a) _) as Hhi.
  assert (forall x y : admission, x ∈ h -> y ∈ h -> a <= x.1 < a + window /\ x.2 <= a -> a <= y.1 < a + window /\ y.2 <= a ->
    Z.abs (x.2 - y.2) < window) as Hlo' by (intros x y Hx%Hin Hy%Hin; lia).
  assert (forall x y : admission, x ∈ h -> y ∈ h -> a <= x.1 < a + window /\ ~ x.2 <= a -> a <= y.1 < a + window /\ ~ y.2 <= a ->
    Z.abs (x.2 - y.2) < window) as Hhi' by (intros x y Hx%Hin Hy%Hin; lia).
  specialize (Hlo Hlo'). specialize (Hhi Hhi'). lia.
Qed.

(** ** Steps *)

Definition bucket_request (p : passage) : Prop := counted_in cfg key (ps_request p) /\ ps_admitted p = true.
#[local] Instance bucket_request_dec p : Decision (bucket_request p).
Proof. unfold bucket_request. apply _. Defined.

(** The bucket's admissions are those of [h]. *)
Definition logged (h : list admission) (log : list passage) : Prop := h.*1 = ps_time <$> filter bucket_request log.

Lemma logged_between h log a b :
  logged h log -> admitted_between cfg key a b log = length (filter (fun x => a <= x.1 < b) h).
Proof.
  unfold logged, admitted_between. revert h. induction log as [|p log IH]; intros h; rewrite ?filter_cons.
  - intros Hh%fmap_nil_inv. by subst h.
  - destruct (decide (bucket_request p)) as [Hb|Hb].
    + rewrite fmap_cons. destruct h as [|[t s] h]; [done|]. rewrite fmap_cons. intros [= Ht Hh]. cbn in Ht. subst t.
      rewrite filter_cons. cbn [fst]. destruct Hb as [Hb1 Hb2]. specialize (IH h Hh).
      destruct (decide (a <= ps_time p < b)) as [Hr|Hr].
      * rewrite decide_True by done. cbn. by rewrite IH.
      * rewrite decide_False by tauto. done.
    + intros Hh. rewrite decide_False; [by apply IH|]. unfold bucket_request in Hb. tauto.
Qed.

(** Each refusal so far came after [limit] admissions of less than a window
    before. *)
Definition justified (log : list passage) : Prop :=
  forall l1 p l2, log = l1 ++ p :: l2 -> counted_in cfg key (ps_request p) -> ps_admitted p = false ->
  (Z.to_nat limit <= admitted_between cfg key (ps_time p - window + 1)%Z (ps_time p + 1)%Z l1)%nat.

Record bucket_inv (now : Z) (s : limiter) (h : list admission) : Prop := {
  bi_windows : windows now h;
  bi_entry : entry_ok now h (s.1 !! key);
  bi_logged : logged h s.2;
  bi_justified : justified s.2;
}.

Lemma logged_other h log p : logged h log -> ~ bucket_request p -> logged h (log ++ [p]).
Proof.
  unfold logged. intros Hl Hp. rewrite filter_app, filter_cons, decide_False by done.
  by rewrite filter_nil, app_nil_r.
Qed.

Lemma logged_admitted h log p s : logged h log -> bucket_request p -> logged (h ++ [(ps_time p, s)]) (log ++ [p]).
Proof.
  unfold logged. intros Hl Hp. rewrite filter_app, filter_cons, decide_True by done.
  by rewrite filter_nil, !fmap_app, Hl.
Qed.

Lemma justified_snoc log p :
  justified log ->
  (counted_in cfg key (ps_request p) -> ps_admitted p = false ->
   (Z.to_nat limit <= admitted_between cfg key (ps_time p - window + 1)%Z (ps_time p + 1)%Z log)%nat) ->
  justified (log ++ [p]).
Proof.
  intros Hj Hp l1 q l2 Hl Hc Ha. destruct l2 as [|q2 l2 _] using rev_ind.
  - apply app_inj_tail in Hl as [<- <-]. by apply Hp.
  - rewrite app_comm_cons, app_assoc in Hl. apply app_inj_tail in Hl as [-> _]. by eapply Hj.
Qed.

(** A request of another bucket leaves this one alone. *)
Lemma other_bucket now r entries :
  ~ counted_in cfg key r ->
  fr_entries (RateLimitMiddleware cfg mux [] r (MkFront now entries)).2 !! key = entries !! key.
Proof.
  unfold counted_in, RateLimitMiddleware, mux, refuse. intros Hn.
  destruct (limited cfg r); cbn [negb]; [|done]. case_decide; [done|].
  assert (client_key cfg r <> key) by tauto. case_decide; cbn [fr_entries snd]; by rewrite lookup_insert_ne.
Qed.

(** A request of this bucket is admitted if its window is not full. *)
Lemma this_bucket now r entries :
  counted_in cfg key r -> effective_limit cfg r = limit -> effective_window cfg r = window ->
  let e := current_entry window now (entries !! key) in
  let '(d, s) := RateLimitMiddleware cfg mux [] r (MkFront now entries) in
  if decide (limit <= count e) then admits d = false /\ fr_entries s !! key = Some e
  else admits d = true /\ fr_entries s !! key = Some (MkEntry (windowStart e) (count e + 1)).
Proof.
  intros [Hl Hk] HL HW. unfold RateLimitMiddleware, mux, refuse. rewrite Hl, HL, HW. cbn [negb fr_now fr_entries].
  rewrite decide_False by lia. rewrite Hk. case_decide; cbn; by rewrite lookup_insert_eq.
Qed.

(** Requests of the bucket all have its limit and window. *)
Definition uniform (e : traffic) : Prop :=
  match e with
  | Arrive _ r => counted_in cfg key r -> effective_limit cfg r = limit /\ effective_window cfg r = window
  | Tick _ => True
  end.

Lemma arrive_inv now s h t r :
  Time.zero_time < t -> now <= t -> uniform (Arrive t r) -> bucket_inv now s h ->
  exists h', bucket_inv t (limiter_step cfg s (Arrive t r)) h'.
Proof.
  intros Hz Hle Hu [Hw He Hl Hj]. apply (windows_later _ t) in Hw; [|done]. apply (entry_ok_later _ t) in He; [|done].
  cbn [limiter_step]. destruct (decide (counted_in cfg key r)) as [Hc|Hc].
  2:{ pose proof (other_bucket t r s.1 Hc) as Ho. destruct (RateLimitMiddleware _ _ _ _ _) as [d s']. exists h.
      split; cbn [fst snd] in *; [done|by rewrite Ho| |].
      - apply logged_other; [done|]. unfold bucket_request. cbn. tauto.
      - apply justified_snoc; [done|]. cbn. tauto. }
  destruct (Hu Hc) as [HL HW]. pose proof (this_bucket t r s.1 Hc HL HW) as Hb. cbn zeta in Hb.
  destruct (current_entry_ok t h (s.1 !! key) Hz He Hw) as [Hcur Hin]. cbn zeta in *.
  set (e := current_entry window t (s.1 !! key)) in *. destruct (RateLimitMiddleware _ _ _ _ _) as [d s'].
  destruct (decide (limit <= count e)) as [Hfull|Hroom]; destruct Hb as [-> Hb].
  - exists h. split; cbn [fst snd]; [done|by rewrite Hb| |].
    + apply logged_other; [done|]. unfold bucket_request. cbn. naive_solver.
    + apply justified_snoc; [done|]. intros _ _. cbn [ps_time].
      rewrite (logged_between h s.2) by done. destruct Hcur as (Hs & Hn & _).
      etrans; [|apply (length_filter_impl (fun a => a.2 = windowStart e))]; [unfold in_window in Hn; lia|].
      intros [x y] Hx Hy. cbn in *. subst y. destruct (wd_inside _ _ Hw _ _ Hx). lia.
  - destruct (windows_admit t h e Hcur Hw Hin) as [Hw' He']; [lia|].
    exists (h ++ [(t, windowStart e)]). split; cbn [fst snd]; [done|by rewrite Hb| |].
    + by apply (logged_admitted h s.2 (MkPassage t r true)).
    + apply justified_snoc; [done|]. done.
Qed.

Lemma tick_inv now s h t : now <= t -> bucket_inv now s h -> bucket_inv t (limiter_step cfg s (Tick t)) h.
Proof.
  intros Hle [Hw He Hl Hj]. apply (windows_later _ t) in Hw; [|done]. apply (entry_ok_later _ t) in He; [|done].
  split; [done| |done|done]. cbn [limiter_step fst]. unfold prune.
  destruct (s.1 !! key) as [e|] eqn:Hk.
  - destruct (decide (Time.Sub t (windowStart e) < int64 (Window cfg * 2))) as [Hkeep|Hdrop].
    + by rewrite (map_lookup_filter_Some_2 _ _ _ e).
    + assert (Hnone : filter (fun kv : string * rateLimitEntry => Time.Sub t (windowStart kv.2) < int64 (Window cfg * 2)) s.1 !! key = None).
      { apply map_lookup_filter_None_2. right. intros e' He'. rewrite Hk in He'. by injection He' as <-. }
      rewrite Hnone. assert (window <= t - windowStart e) by (apply pruned_window; lia).
      intros x y Hx. destruct He as (Hs & _ & Hh). destruct (Hh x y Hx); lia.
  - rewrite map_lookup_filter_None_2 by (by left). done.
Qed.

Lemma run_inv from es :
  Time.zero_time < from -> ordered from es -> Forall uniform es ->
  exists h, bucket_inv (foldl (fun _ e => moment e) from es) (limiter_run cfg es) h /\ from <= foldl (fun _ e => moment e) from es.
Proof.
  intros Hz. unfold limiter_run. induction es as [|e es IH] using rev_ind; intros Ho Hu.
  - exists []. split; [|done]. split; [split; cbn; [set_solver..|lia]|cbn; rewrite lookup_empty; set_solver|done|].
    intros l1 p l2 Hl. by destruct l1.
  - apply ordered_app in Ho as [Ho Hle]. apply Forall_app in Hu as [Hu [He _]%Forall_cons].
    destruct (IH Ho Hu) as (h & Hi & Hge). rewrite !foldl_app. cbn [foldl].
    destruct e as [t r|t]; cbn [moment] in *.
    + destruct (arrive_inv _ _ h t r ltac:(lia) Hle He Hi) as [h' ?]. exists h'. split; [done|lia].
    + exists h. split; [by eapply tick_inv|lia].
Qed.

End Bucket.

(** C39: The rate limiter keeps its promise and no more.  Let requests and
    pruning ticks reach a limiter in any order of times, and take a bucket
    whose requests all have the limit [limit] and the window [window], not
    longer than twice the configured window.  In any stretch of time as long
    as the window it admits at most [2 * limit] requests of the bucket, and it
    refuses a request only when it has already admitted [limit] of them less
    than a window before. *)
Theorem rate_limit_bounds cfg key limit window from es :
  0 < limit -> 0 < window <= int64 (Window cfg * 2) -> Time.zero_time < from -> ordered from es ->
  Forall (uniform cfg key limit window) es ->
  let log := (limiter_run cfg es).2 in
  (forall a, (admitted_between cfg key a (a + window) log <= 2 * Z.to_nat limit)%nat)
  /\ forall l1 p l2, log = l1 ++ p :: l2 -> counted_in cfg key (ps_request p) -> ps_admitted p = false ->
     (Z.to_nat limit <= admitted_between cfg key (ps_time p - window + 1)%Z (ps_time p + 1)%Z l1)%nat.
Proof.
  intros HL [HW HW2] Hz Ho Hu. destruct (run_inv cfg key limit window HL HW HW2 from es Hz Ho Hu) as (h & [Hw _ Hlg Hj] & _).
  split; [|exact Hj]. intros a. rewrite (logged_between cfg key h) by done. by eapply windows_bound.
Qed.

(** ** A burst *)

Definition burst_request : Request := MkRequest "POST" "/api/v1/agents/take" ∅ ∅ "10.0.0.9:1234" 0 (MkBody "" false) None.
Definition burst_config : RateLimitConfig := MkRateLimitConfig 2 Time.Second true [].
Definition burst : list traffic :=
  [Arrive 1000 burst_request; Arrive (Time.Second) burst_request; Arrive (Time.Second + 500) burst_request;
   Arrive (Time.Second + 2000) burst_request; Tick (Time.Second + 3000); Arrive (Time.Second + 4000) burst_request].

Lemma rate_limit_bounds_witness :
  ps_admitted <$> (limiter_run burst_config burst).2 = [true; true; false; true; true]
  /\ (forall a, (admitted_between burst_config "10.0.0.9" a (a + Time.Second) (limiter_run burst_config burst).2 <= 4)%nat).
Proof.
  split; [vm_compute; reflexivity|].
  apply (rate_limit_bounds burst_config "10.0.0.9" 2 Time.Second 1 burst).
  - reflexivity.
  - split; [reflexivity|vm_compute; discriminate].
  - reflexivity.
  - repeat split; vm_compute; discriminate.
  - repeat constructor.
Defined.

(** A longer window of a principal is cut short by the pruning. *)
Definition slow_request : Request :=
  withAuthPrincipal burst_request (MkAuthPrincipal "red" false (MkNamespaceLimits 1 (10 * Time.Second) 0 0 0)).

Example long_window_cut_short :
  effective_window burst_config slow_request = 10 * Time.Second
  /\ ps_admitted <$> (limiter_run burst_config
       [Arrive 1000 slow_request; Tick (2 * Time.Second + 1000); Arrive (3 * Time.Second) slow_request]).2 = [true; true].
Proof. vm_compute. done. Qed.
