(* ===== verification/TelemetrySpans.v ===== *)
(** * Telemetry spans

    [src/pkg/telemetry/types.go], the spans of an observation
    ([src/internal/api/telemetry.go]), and the stores of spans:
    [src/pkg/store/postgres/postgres_telemetry.go] over the daily partitions
    of [telemetry_events], the sharded Postgres store, and the span keys of
    [src/pkg/store/valkey/store.go].  An error is a [goerror]; that of a
    refused statement names its SQLSTATE only. *)

From S2P Require Import Prelude GoLib GoSort Agent Common Sql PgRows ValkeyKeys ValkeyClient ApiTypes.
From stdpp Require Import gmap strings list fin_maps sorting.
From Stdlib Require Import ZArith Lia.

Open Scope Z_scope.
Open Scope string_scope.

(** ** Types *)

Record Link : Type := MkLink { lk_SpanID : string; lk_Type : string }.

(** A [float64] keeps its literal. *)
Record Metric : Type := MkMetric {
  mt_Key : string; mt_ValueBool : option bool; mt_ValueNum : option string; mt_ValueStr : option string }.

#[export] Instance Metric_eq_dec : EqDecision Metric.
Proof. solve_decision. Defined.

Record Guardrail : Type := MkGuardrail {
  gr_RuleID : string; gr_Hit : bool; gr_Severity : string; gr_EvidenceRef : string }.

Record TelEvent : Type := MkTelEvent {
  te_Name : string; te_Kind : string; te_TsStart : Z; te_TsEnd : option Z; te_Status : string;
  te_Attrs : option (gmap string any); te_SpanID : string; te_ParentSpanID : string }.

Record Trace : Type := MkTrace {
  tc_TraceID : string; tc_SpanID : string; tc_ParentSpanID : string; tc_CallID : string; tc_Links : list Link }.

Record Observation : Type := MkObservation {
  ob_Trace : option Trace; ob_Treatments : gmap string any; ob_Metrics : list Metric;
  ob_Guardrails : list Guardrail; ob_Events : list TelEvent }.

Record Span : Type := MkSpan {
  sn_TraceID : string; sn_SpanID : string; sn_ParentSpanID : string; sn_TupleID : string; sn_NamespaceID : string;
  sn_Name : string; sn_Kind : string; sn_TsStart : Z; sn_TsEnd : option Z; sn_Status : string;
  sn_Attrs : option (gmap string any); sn_Metric : option Metric; sn_CallID : string; sn_Links : list Link }.

Definition set_span_namespace (ns : string) (s : Span) : Span :=
  MkSpan (sn_TraceID s) (sn_SpanID s) (sn_ParentSpanID s) (sn_TupleID s) ns (sn_Name s) (sn_Kind s) (sn_TsStart s)
    (sn_TsEnd s) (sn_Status s) (sn_Attrs s) (sn_Metric s) (sn_CallID s) (sn_Links s).
Definition set_span_start (t : Z) (s : Span) : Span :=
  MkSpan (sn_TraceID s) (sn_SpanID s) (sn_ParentSpanID s) (sn_TupleID s) (sn_NamespaceID s) (sn_Name s) (sn_Kind s) t
    (sn_TsEnd s) (sn_Status s) (sn_Attrs s) (sn_Metric s) (sn_CallID s) (sn_Links s).
Definition set_span_id (id : string) (s : Span) : Span :=
  MkSpan (sn_TraceID s) id (sn_ParentSpanID s) (sn_TupleID s) (sn_NamespaceID s) (sn_Name s) (sn_Kind s) (sn_TsStart s)
    (sn_TsEnd s) (sn_Status s) (sn_Attrs s) (sn_Metric s) (sn_CallID s) (sn_Links s).

(** The JSON of links, empty fields omitted. *)
Definition link_value (l : Link) : any :=
  VStrMap (filter (fun kv => kv.2 <> "") {["span_id" := lk_SpanID l; "type" := lk_Type l]}).
Definition links_value (ls : list Link) : any := VList (link_value <$> ls).

(** ** The spans of an observation *)

Definition defaultTelemetryKind (value fallback : string) : string := if decide (value <> "") then value else fallback.

Definition trace_attrs (t : option Trace) : gmap string any :=
  match t with
  | None => ∅
  | Some t =>
      let m : gmap string any := if decide (tc_CallID t <> "") then {["call_id" := VStr (tc_CallID t)]} else ∅ in
      match tc_Links t with [] => m | ls => <["links" := links_value ls]> m end
  end.

Definition mergeAttrs (baseAttrs attrs : gmap string any) : option (gmap string any) :=
  if decide (baseAttrs = ∅ /\ attrs = ∅) then None else Some (attrs ∪ baseAttrs).

Definition guardrail_attrs (g : Guardrail) : gmap string any :=
  let m : gmap string any := {["rule_id" := VStr (gr_RuleID g); "hit" := VBool (gr_Hit g); "severity" := VStr (gr_Severity g)]} in
  if decide (gr_EvidenceRef g <> "") then <["evidence_ref" := VStr (gr_EvidenceRef g)]> m else m.

Definition obsToSpans (now : Z) (tupleID traceID namespaceID : string) (obs : option Observation) : list Span :=
  match obs with
  | None => []
  | Some obs =>
      let baseTraceID := match ob_Trace obs with
                         | Some t => if decide (tc_TraceID t <> "") then tc_TraceID t else traceID
                         | None => traceID
                         end in
      let baseAttrs := trace_attrs (ob_Trace obs) in
      if decide (baseTraceID = "") then [] else
      let span spanID parent name kind start stop status attrs metric :=
        MkSpan baseTraceID spanID parent tupleID namespaceID name kind start stop status (mergeAttrs baseAttrs attrs) metric "" [] in
      let anchored := match ob_Trace obs with Some t => bool_decide (tc_SpanID t <> "") | None => false end in
      let spanOf := match ob_Trace obs with Some t => tc_SpanID t | None => "" end in
      let parentOf := match ob_Trace obs with Some t => tc_ParentSpanID t | None => "" end in
      let anchor := if anchored then
          [span spanOf (if decide (parentOf = "") then tupleID else parentOf) "agent.op" "agent_op" now None "" ∅ None]
        else [] in
      let baseParent := if anchored then spanOf else if decide (parentOf = "") then tupleID else parentOf in
      let treatments := if decide (ob_Treatments obs = ∅) then []
        else [span "" baseParent "trace.treatments" "treatment" now None "" {["treatments" := VMap (ob_Treatments obs)]} None] in
      let metrics := (fun m => span "" baseParent (mt_Key m) "metric" now None "" ∅ (Some m)) <$> ob_Metrics obs in
      let guardrails := (fun g => span "" baseParent (gr_RuleID g) "guardrail" now None "" (guardrail_attrs g) None)
                          <$> ob_Guardrails obs in
      let events := (fun e => span (te_SpanID e) (if decide (te_ParentSpanID e = "") then baseParent else te_ParentSpanID e)
                                (te_Name e) (defaultTelemetryKind (te_Kind e) "event")
                                (if Time.IsZero (te_TsStart e) then now else te_TsStart e) (te_TsEnd e) (te_Status e)
                                (default ∅ (te_Attrs e)) None) <$> ob_Events obs in
      (anchor ++ treatments ++ metrics ++ guardrails ++ events)%list
  end.

(** ** Postgres *)

(** A row of [telemetry_events]. *)
Record TelRow : Type := MkTelRow {
  tr_event_id : string; tr_trace_id : string; tr_span_id : string; tr_parent_span_id : string; tr_tuple_id : string;
  tr_kind : string; tr_name : string; tr_ts_start : Z; tr_ts_end : option Z; tr_status : string; tr_attrs : jcol;
  tr_metric_key : string; tr_metric_bool : option bool; tr_metric_num : option string; tr_metric_str : option string;
  tr_namespace_id : string; tr_shard_id : string }.

(** The table: its rows, and the days it has a partition for. *)
Record TelDB : Type := MkTelDB { td_rows : list TelRow; td_days : list Z }.

Definition sqlstate (code : string) : goerror := MkGoError ("SQLSTATE " +:+ code) false false.

(** [attrs[key] = v] unless the key is there. *)
Definition add_absent (key : string) (v : any) (attrs : gmap string any) : gmap string any :=
  match attrs !! key with Some _ => attrs | None => <[key := v]> attrs end.

(** The namespace a span is stored under. *)
Definition span_namespace (span : Span) : string :=
  if decide (sn_NamespaceID span = "")
  then match default ∅ (sn_Attrs span) !! NamespaceMetadataKey with Some (VStr v) => v | _ => "" end
  else sn_NamespaceID span.

(** The attributes it is stored with. *)
Definition span_attrs (span : Span) : gmap string any :=
  let attrs := default ∅ (sn_Attrs span) in
  let attrs := if decide (sn_CallID span <> "") then add_absent "call_id" (VStr (sn_CallID span)) attrs else attrs in
  let attrs := if decide (span_namespace span <> "")
               then add_absent NamespaceMetadataKey (VStr (span_namespace span)) attrs else attrs in
  match sn_Links span with [] => attrs | ls => add_absent "links" (links_value ls) attrs end.

(** The row the loop of [RecordSpans] queues for a span. *)
Definition span_row (eventID shardID : string) (now : Z) (span : Span) : TelRow :=
  let start := if Time.IsZero (sn_TsStart span) then now else sn_TsStart span in
  let m := default (MkMetric "" None None None) (sn_Metric span) in
  MkTelRow eventID (sn_TraceID span) (sn_SpanID span) (sn_ParentSpanID span) (sn_TupleID span) (sn_Kind span) (sn_Name span)
    (Pg.timestamptz start) (Pg.timestamptz <$> sn_TsEnd span) (sn_Status span) (Marshal (VMap (span_attrs span)))
    (mt_Key m) (mt_ValueBool m) (mt_ValueNum m) (mt_ValueStr m) (span_namespace span) shardID.

(** The rows of one call; [uuid] gives the identifiers drawn. *)
Definition span_rows (uuid : nat -> string) (shardID : string) (now : Z) (spans : list Span) : list TelRow :=
  imap (fun i span => span_row (uuid i) shardID now span) (filter (fun span => sn_TraceID span <> "") spans).

(** The inserts of a batch are one implicit transaction, which a row of a day
    without a partition aborts; [down] is the error of a broken connection. *)
Definition pg_RecordSpans (down : option goerror) (uuid : nat -> string) (shardID : string) (now : Z) (spans : list Span)
    (d : TelDB) : result goerror unit * TelDB :=
  match span_rows uuid shardID now spans with
  | [] => (Ok (), d)
  | rows =>
      match down with
      | Some e => (Err e, d)
      | None =>
          if decide (Forall (fun row => day_of (tr_ts_start row) ∈ td_days d) rows)
          then (Ok (), MkTelDB (td_rows d ++ rows)%list (td_days d))
          else (Err (sqlstate Pg.no_partition), d)
      end
  end.

Definition scan_span (r : TelRow) : Span :=
  let metric := if decide (tr_metric_key r = "" /\ tr_metric_bool r = None /\ tr_metric_num r = None /\ tr_metric_str r = None)
                then None else Some (MkMetric (tr_metric_key r) (tr_metric_bool r) (tr_metric_num r) (tr_metric_str r)) in
  MkSpan (tr_trace_id r) (tr_span_id r) (tr_parent_span_id r) (tr_tuple_id r) (tr_namespace_id r) (tr_name r) (tr_kind r)
    (Pg.to_time (tr_ts_start r)) (Pg.to_time <$> tr_ts_end r) (tr_status r)
    (match unmarshal_map (tr_attrs r) with Ok m => m | Err _ => None end) metric "" [].

(** The [WHERE] clause of [ListSpans]. *)
Definition span_where (traceID namespaceID : string) (r : TelRow) : bool :=
  bool_decide (tr_trace_id r = traceID)
  && (bool_decide (Strings.TrimSpace namespaceID = "") || bool_decide (tr_namespace_id r = namespaceID)).

Definition pg_ListSpans `{SqlOrder} (down : option goerror) (traceID namespaceID : string) (limit offset : Z) (d : TelDB)
    : result goerror (list Span) :=
  if decide (traceID = "") then Err (MkGoError "trace_id is required" false false) else
  let limit := if decide (limit <= 0) then 100 else limit in
  match down with
  | Some e => Err e
  | None =>
      if decide (offset < 0) then Err (sqlstate Pg.invalid_row_count_offset)
      else Ok (scan_span <$> sql_window (Some limit) (Some offset)
                               (order_asc tr_ts_start (filter (fun r => span_where traceID namespaceID r) (td_rows d))))
  end.

(** [dropExpiredTelemetryPartitions]: the partitions of the days before that
    of the cutoff go, with their rows; [fault] stops it after some of them. *)
Definition dropExpiredTelemetryPartitions (fault : option (nat * goerror)) (cutoff : Z) (d : TelDB)
    : option goerror * TelDB :=
  let expired := filter (fun day => day < cutoff `div` (86400 * Time.Second)) (td_days d) in
  let dropped := match fault with Some (n, _) => take n expired | None => expired end in
  (snd <$> fault,
   MkTelDB (filter (fun r => day_of (tr_ts_start r) ∉ dropped) (td_rows d)) (filter (fun day => day ∉ dropped) (td_days d))).

(** The count is that of the final [DELETE]. *)
Definition pg_CleanupSpansBefore (fault : option (nat * goerror)) (down : option goerror) (cutoff : Z) (d : TelDB)
    : result goerror Z * TelDB :=
  let '(err, d) := dropExpiredTelemetryPartitions fault cutoff d in
  let delete :=
    match down with
    | Some e => (Err e, d)
    | None =>
        (Ok (Z.of_nat (length (filter (fun r => tr_ts_start r < Pg.timestamptz cutoff) (td_rows d)))),
         MkTelDB (filter (fun r => ~ tr_ts_start r < Pg.timestamptz cutoff) (td_rows d)) (td_days d))
    end in
  match err with
  | Some e => if Strings.Contains (err_Error e) "does not exist" then delete else (Err e, d)
  | None => delete
  end.

(** ** Several shards *)

(** The order and the window both sharded stores end with. *)
Definition span_before (a b : Span) : bool :=
  if decide (sn_TsStart a = sn_TsStart b) then string_ltb (sn_SpanID a) (sn_SpanID b)
  else bool_decide (sn_TsStart a < sn_TsStart b).

Definition merge_spans (limit offset : Z) (all : list Span) : list Span :=
  let all := SliceStable span_before all in
  let all := if decide (offset > 0) then drop (Z.to_nat offset) all else all in
  if decide (limit > 0) then take (Z.to_nat limit) all else all.

(** [byShard]: the spans of each shard, in order. *)
Definition group_spans (shard : Span -> option string) (spans : list Span) (shardID : string) : list Span :=
  filter (fun span => shard span = Some shardID) spans.

(** The shard of a span in the sharded Postgres store: that of its agent as
    [shardByTupleID] finds it, or the first. *)
Definition sharded_span_shard (shardByTupleID : string -> option string) (shards : list string) (span : Span) : option string :=
  match (if decide (sn_TupleID span <> "") then shardByTupleID (sn_TupleID span) else None) with
  | Some shard => Some shard
  | None => head shards
  end.

(** The loop over the map [byShard], in the order [order] of its shards. *)
Fixpoint sharded_RecordSpans (record : string -> list Span -> TelDB -> result goerror unit * TelDB)
    (spansOf : string -> list Span) (order : list string) (dbs : gmap string TelDB) : result goerror unit * gmap string TelDB :=
  match order with
  | [] => (Ok (), dbs)
  | shardID :: order =>
      let '(x, d) := record shardID (spansOf shardID) (default (MkTelDB [] []) (dbs !! shardID)) in
      let dbs := <[shardID := d]> dbs in
      match x with
      | Ok _ => sharded_RecordSpans record spansOf order dbs
      | Err e => (Err e, dbs)
      end
  end.

(** [ListSpans] over what the shards answer to a limit and an offset. *)
Fixpoint sharded_ListSpans (answers : list (Z -> Z -> result goerror (list Span))) (limit offset : Z) (all : list Span)
    : result goerror (list Span) :=
  match answers with
  | [] => Ok (merge_spans limit offset all)
  | shard :: answers =>
      match shard (int64 (limit + offset)) 0 with
      | Ok values => sharded_ListSpans answers limit offset (all ++ values)%list
      | Err e => Err e
      end
  end.

(** ** Valkey *)

(** The span keys of one shard: the spans, and the ordered sets of the traces
    and of the clean-up. *)
Record TelShard : Type := MkTelShard {
  ts_spans : gmap string Span; ts_traces : gmap string (gmap string Z); ts_cleanup : gmap string Z }.
Definition empty_tel_shard : TelShard := MkTelShard ∅ ∅ ∅.

Definition telemetrySpanKey (traceID spanID : string) : string := "telemetry:span:" +:+ part traceID +:+ ":" +:+ part spanID.
Definition telemetryTraceKey (traceID : string) : string := "telemetry:trace:" +:+ part traceID.

(** What decoding the JSON of a span gives back. *)
Definition decoded_span (span : Span) : Span :=
  MkSpan (sn_TraceID span) (sn_SpanID span) (sn_ParentSpanID span) (sn_TupleID span) (sn_NamespaceID span) (sn_Name span)
    (sn_Kind span) (sn_TsStart span) (sn_TsEnd span) (sn_Status span)
    (match sn_Attrs span with Some m => if decide (m = ∅) then None else Some (json_value <$> m) | None => None end)
    (sn_Metric span) (sn_CallID span) (sn_Links span).

(** The commands the store sends. *)
Inductive tcmd : Type :=
| TSet (key : string) (span : Span)
| TZaddTrace (traceID : string) (score : Z) (key : string)
| TZaddCleanup (score : Z) (key : string)
| TDel (key : string)
| TZremCleanup (key : string)
| TZremTrace (traceID key : string).

Definition exec_tcmd (c : tcmd) (d : TelShard) : TelShard :=
  match c with
  | TSet key span => MkTelShard (<[key := span]> (ts_spans d)) (ts_traces d) (ts_cleanup d)
  | TZaddTrace traceID score key =>
      let trace := telemetryTraceKey traceID in
      MkTelShard (ts_spans d) (<[trace := <[key := score]> (default ∅ (ts_traces d !! trace))]> (ts_traces d)) (ts_cleanup d)
  | TZaddCleanup score key => MkTelShard (ts_spans d) (ts_traces d) (<[key := score]> (ts_cleanup d))
  | TDel key => MkTelShard (delete key (ts_spans d)) (ts_traces d) (ts_cleanup d)
  | TZremCleanup key => MkTelShard (ts_spans d) (ts_traces d) (delete key (ts_cleanup d))
  | TZremTrace traceID key =>
      MkTelShard (ts_spans d) (alter (delete key) (telemetryTraceKey traceID) (ts_traces d)) (ts_cleanup d)
  end.

(** How a command sent to a shard ends; a failed one may have run. *)
Inductive fate : Type := Done | Failed (e : goerror) (ran : bool).

Definition ran (f : fate) : bool := match f with Done => true | Failed _ r => r end.

(** [DoMulti]: every command is sent; the first error of the replies. *)
Definition DoMulti (fates : nat -> fate) (cmds : list tcmd) (d : TelShard) : option goerror * TelShard :=
  (head (omap (fun i => match fates i with Failed e _ => Some e | Done => None end) (seq 0 (length cmds))),
   foldl (fun d '(i, c) => if ran (fates i) then exec_tcmd c d else d) d (imap pair cmds)).

(** The commands for the spans of one shard. *)
Definition record_cmds (uuid : nat -> string) (spans : list Span) : list tcmd :=
  concat (imap (fun i span =>
    let unique := if decide (sn_SpanID span = "")
                  then "generated-" +:+ Strconv.FormatInt (Z.of_nat i) +:+ "-" +:+ uuid i else sn_SpanID span in
    let key := telemetrySpanKey (sn_TraceID span) unique in
    let score := Time.UnixMilli (sn_TsStart span) in
    [TSet key (decoded_span (set_span_id unique span)); TZaddTrace (sn_TraceID span) score key; TZaddCleanup score key]) spans).

Section Valkey.
Context (s : ValkeyStore).

Definition telemetry_first_shard : option string := sh_ShardID <$> head (vs_shards s).

Definition shardForTelemetry (namespaceID traceID : string) : option string :=
  if negb (isSharded s) then telemetry_first_shard
  else
    let keyQueue := if decide (Strings.TrimSpace traceID <> "") then "__telemetry__:" +:+ traceID else "__telemetry__" in
    match targetShard s namespaceID keyQueue with
    | Ok shard => Some (sh_ShardID shard)
    | Err _ => telemetry_first_shard
    end.

Definition shardForSpan (span : Span) : option string :=
  if negb (isSharded s) then telemetry_first_shard
  else
    let namespaceID := Strings.TrimSpace (sn_NamespaceID span) in
    if decide (namespaceID <> "") then shardForTelemetry namespaceID (sn_TraceID span)
    else shardForTelemetry "__trace__" (sn_TraceID span).

(** The loop over [byShard], in the order [order] of its shards. *)
Fixpoint valkey_RecordSpans (fates : string -> nat -> fate) (uuid : string -> nat -> string) (spans : list Span)
    (order : list string) (ds : gmap string TelShard) : result goerror unit * gmap string TelShard :=
  match order with
  | [] => (Ok (), ds)
  | shardID :: order =>
      let cmds := record_cmds (uuid shardID) (group_spans shardForSpan spans shardID) in
      let '(err, d) := DoMulti (fates shardID) cmds (default empty_tel_shard (ds !! shardID)) in
      let ds := <[shardID := d]> ds in
      match err with
      | Some e => (Err e, ds)
      | None => valkey_RecordSpans fates uuid spans order ds
      end
  end.

(** The first keys of a trace by score, their spans, and of these the
    namespace's. *)
Definition spans_of_shard (traceID namespaceID : string) (fetch : Z) (d : TelShard) : list Span :=
  let keys := take (Z.to_nat fetch) ((by_score (default ∅ (ts_traces d !! telemetryTraceKey traceID))).*1) in
  filter (fun span => namespaceID = "" \/ sn_NamespaceID span = namespaceID) (omap (fun key => ts_spans d !! key) keys).

(** The shards a listing asks. *)
Definition listed_shards (traceID namespaceID : string) : list string :=
  if isSharded s && bool_decide (Strings.TrimSpace namespaceID <> "")
  then option_list (shardForTelemetry namespaceID traceID)
  else sh_ShardID <$> vs_shards s.

(** [reads]: the error of asking a shard, if it fails. *)
Fixpoint collect_spans (reads : string -> option goerror) (traceID namespaceID : string) (fetch : Z) (shards : list string)
    (ds : gmap string TelShard) : result goerror (list Span) :=
  match shards with
  | [] => Ok []
  | shardID :: shards =>
      match reads shardID with
      | Some e => Err e
      | None =>
          match collect_spans reads traceID namespaceID fetch shards ds with
          | Err e => Err e
          | Ok rest => Ok (spans_of_shard traceID namespaceID fetch (default empty_tel_shard (ds !! shardID)) ++ rest)%list
          end
      end
  end.

Definition valkey_ListSpans (reads : string -> option goerror) (traceID namespaceID : string) (limit offset : Z)
    (ds : gmap string TelShard) : result goerror (list Span) :=
  if decide (Strings.TrimSpace traceID = "") then Err (MkGoError "trace_id is required" false false) else
  let limit := if decide (limit <= 0) then 100 else limit in
  let fetch := int64 (limit + offset) in
  let fetch := if decide (fetch <= 0) then limit else fetch in
  match collect_spans reads traceID namespaceID fetch (listed_shards traceID namespaceID) ds with
  | Ok all => Ok (merge_spans limit offset all)
  | Err e => Err e
  end.

(** The commands that remove the spans under the keys found. *)
Definition cleanup_cmds (keys : list string) (d : TelShard) : list tcmd :=
  keys ≫= (fun key => [TDel key; TZremCleanup key]
                      ++ match ts_spans d !! key with Some span => [TZremTrace (sn_TraceID span) key] | None => [] end)%list.

(** The keys of a shard that are due, at most a batch of them. *)
Definition due_keys (cutoff : Z) (d : TelShard) : list string :=
  take (Z.to_nat (vs_leaseReapBatch s))
    (filter (fun ks => ks.2 <= Time.UnixMilli cutoff) (by_score (ts_cleanup d))).*1.

Fixpoint valkey_CleanupSpansBefore (reads : string -> option goerror) (fates : string -> nat -> fate) (cutoff : Z)
    (shards : list string) (removed : Z) (ds : gmap string TelShard) : (Z * option goerror) * gmap string TelShard :=
  match shards with
  | [] => ((removed, None), ds)
  | shardID :: shards =>
      match reads shardID with
      | Some e => ((removed, Some e), ds)
      | None =>
          let d := default empty_tel_shard (ds !! shardID) in
          let keys := due_keys cutoff d in
          let removed := removed + Z.of_nat (length keys) in
          let '(err, d) := DoMulti (fates shardID) (cleanup_cmds keys d) d in
          let ds := <[shardID := d]> ds in
          match err with
          | Some e => ((removed, Some e), ds)
          | None => valkey_CleanupSpansBefore reads fates cutoff shards removed ds
          end
      end
  end.
End Valkey.
