(* ===== verification/ApiTelemetry.v ===== *)
(** * HTTP API: telemetry

    The telemetry endpoints of [src/internal/api/handlers.go] as programs
    over the space that end in a call of the telemetry store, and their
    namespaces: over the Postgres store no request changes what a listing of
    another namespace shows, over the Valkey store it may. *)

From S2P Require Import Prelude GoLib GoSort Agent Common Sql PgRows ValkeyKeys ValkeyClient ApiTypes ApiHandlers ApiIsolation ApiSqliteLaws ApiScenario TelemetrySpans.
From stdpp Require Import gmap strings list fin_maps relations sorting.
From Stdlib Require Import ZArith Lia.

Open Scope Z_scope.
Open Scope string_scope.

(** ** Handlers *)

(** The JSON decoder of the request bodies. *)
Class TelemetryDecoder : Type := {
  decode_Span : Body -> result jerror Span;
  decode_SpanBatch : Body -> result jerror (list Span);
}.

(** What an endpoint answers. *)
Inductive tel_reply : Type :=
| TelOutcome (o : outcome)
| TelIngested (n : Z)
| TelSpans (spans : list Span) (total : Z).

(** An endpoint answers, or calls the telemetry store and then answers. *)
Inductive tel_call : Type :=
| TelReply (x : tel_reply)
| TelRecord (spans : list Span) (k : result goerror unit -> prog tel_reply)
| TelList (traceID namespaceID : string) (limit offset : Z) (k : result goerror (list Span) -> prog tel_reply).

Definition tel_error (status : Z) (message : string) : prog tel_reply :=
  o ← writeError status message; mret (TelOutcome o).

Definition tel_refuse (status : Z) (message : string) : prog tel_call :=
  x ← tel_error status message; mret (TelReply x).

(** The loop of [scopeTelemetrySpansToPrincipal]; [None]: an agent the
    principal does not see. *)
Fixpoint scope_spans (namespaceID : string) (visibleByTupleID : gmap string bool) (spans : list Span) : prog (option (list Span)) :=
  match spans with
  | [] => mret (Some [])
  | span :: spans =>
      let tupleID := Strings.TrimSpace (sn_TupleID span) in
      let next cache :=
        rest ← scope_spans namespaceID cache spans;
        mret match rest with Some scoped => Some (set_span_namespace namespaceID span :: scoped) | None => None end in
      if decide (tupleID = "") then next visibleByTupleID
      else
        visible ← (match visibleByTupleID !! tupleID with
                   | Some visible => mret visible
                   | None =>
                       got ← on_space "" (CGet tupleID);
                       mret match got with
                            | Ok t => bool_decide (effectiveAgentNamespace t = namespaceID)
                            | Err _ => false
                            end
                   end);
        if (visible : bool) then next (<[tupleID := visible]> visibleByTupleID) else mret None
  end.

Definition scopeTelemetrySpansToPrincipal (r : Request) (spans : list Span) : prog (result (Z * string) (list Span)) :=
  let namespaceID := requestPrincipalNamespace r in
  if decide (namespaceID = "" \/ spans = []) then mret (Ok spans)
  else
    scoped ← scope_spans namespaceID ∅ spans;
    mret match scoped with
         | Some scoped => Ok scoped
         | None => Err (StatusNotFound, "agent not found")
         end.

(** [span.TsStart], when it is missing. *)
Definition started (now : Z) (span : Span) : Span :=
  if Time.IsZero (sn_TsStart span) then set_span_start now span else span.

Section Telemetry.
Context {TD : TelemetryDecoder} (available : bool).

(** The call of [RecordSpans] both ingesting endpoints end with. *)
Definition record_scoped (r : Request) (spans : list Span) (failure : string) (ingested : list Span -> Z) : prog tel_call :=
  scoped ← scopeTelemetrySpansToPrincipal r spans;
  match scoped with
  | Err (status, message) => tel_refuse status message
  | Ok spans =>
      mret (TelRecord spans (fun x => match x with
                                      | Err _ => tel_error StatusInternalServerError failure
                                      | Ok _ => mret (TelIngested (ingested spans))
                                      end))
  end.

Definition IngestTelemetrySpan (r : Request) : prog tel_call :=
  if negb available then tel_refuse StatusNotImplemented "telemetry store not available"
  else match decode_Span (rq_body r) with
       | Err _ => tel_refuse StatusBadRequest "invalid telemetry span"
       | Ok span =>
           if decide (sn_TraceID span = "") then tel_refuse StatusBadRequest "trace_id is required"
           else
             now ← (if Time.IsZero (sn_TsStart span) then direct CNow else mret 0);
             record_scoped r [started now span] "failed to record telemetry span" (fun _ => 1)
       end.

Definition IngestTelemetrySpanBatch (r : Request) : prog tel_call :=
  if negb available then tel_refuse StatusNotImplemented "telemetry store not available"
  else match decode_SpanBatch (rq_body r) with
       | Err _ => tel_refuse StatusBadRequest "invalid telemetry span batch"
       | Ok [] => mret (TelReply (TelIngested 0))
       | Ok spans =>
           now ← direct CNow;
           if decide (Exists (fun span => sn_TraceID span = "") spans)
           then tel_refuse StatusBadRequest "trace_id is required for all spans"
           else record_scoped r (started now <$> spans) "failed to record telemetry spans"
                  (fun spans => Z.of_nat (length spans))
       end.

Definition ListTelemetrySpans (r : Request) : prog tel_call :=
  if negb available then tel_refuse StatusNotImplemented "telemetry store not available"
  else
    let traceID := url_param r "trace_id" in
    if decide (traceID = "") then tel_refuse StatusBadRequest "trace_id is required"
    else
      let limit := atoi_ignoring_error (url_param r "limit") in
      let offset := atoi_ignoring_error (url_param r "offset") in
      let limit := if decide (limit = 0) then 100 else limit in
      mret (TelList traceID (requestPrincipalNamespace r) limit offset
              (fun x => match x with
                        | Err _ => tel_error StatusInternalServerError "failed to list telemetry spans"
                        | Ok spans => mret (TelSpans spans (Z.of_nat (length spans)))
                        end)).

(** [recordObs]: the spans a handler records beside its answer. *)
Definition recordObs (now : Z) (tupleID traceID namespaceID : string) (obs : option Observation) : option (list Span) :=
  if negb available then None
  else match obsToSpans now tupleID traceID namespaceID obs with [] => None | spans => Some spans end.
End Telemetry.

(** ** What a program may end with *)

(** The calls a program made and their answers. *)
Notation call_log := (list (sigT answer)).

(** [yields p log a]: with the answers of [log], whatever gave them, the
    program ends with [a]. *)
Fixpoint yields {A} (p : prog A) (log : call_log) (a : A) : Prop :=
  match p with
  | Ret a' => log = [] /\ a = a'
  | Act _ c k => exists x log', log = existT c x :: log' /\ yields (k x) log' a
  end.

Lemma yields_bind {A B} (p : prog A) (f : A -> prog B) log b :
  yields (p ≫= f) log b ->
  exists log1 log2 a, log = (log1 ++ log2)%list /\ yields p log1 a /\ yields (f a) log2 b.
Proof.
  unfold mbind, prog_mbind. revert log. induction p as [a|h c k IH]; intros log H; simpl in H.
  { by exists [], log, a. }
  destruct H as (x & log' & -> & Hk). destruct (IH x log' Hk) as (log1 & log2 & a & -> & H1 & H2).
  exists (existT c x :: log1), log2, a. split_and!; [done| |done]. by exists x, log1.
Qed.

(** The agent [id] was read and found in the namespace. *)
Definition seen_in (namespaceID : string) (log : call_log) (id : string) : Prop :=
  exists t, existT (CGet id) (Ok t : answer (CGet id)) ∈ log /\ effectiveAgentNamespace t = namespaceID.

(** A span a principal of the namespace may record: it bears the namespace,
    and its agent was seen there. *)
Definition span_scoped (namespaceID : string) (log : call_log) (span : Span) : Prop :=
  sn_NamespaceID span = namespaceID
  /\ (Strings.TrimSpace (sn_TupleID span) <> "" -> seen_in namespaceID log (Strings.TrimSpace (sn_TupleID span))).

(** ** Namespaces of recorded spans *)

Lemma seen_in_app ns l1 l2 id : seen_in ns l1 id \/ seen_in ns l2 id -> seen_in ns (l1 ++ l2)%list id.
Proof. intros [(t & Ht & ?)|(t & Ht & ?)]; exists t; (split; [|done]); apply elem_of_app; auto. Qed.

Lemma span_scoped_app ns l1 l2 span : span_scoped ns l1 span \/ span_scoped ns l2 span -> span_scoped ns (l1 ++ l2)%list span.
Proof. intros [[? H]|[? H]]; (split; [done|]); intros Ht; apply seen_in_app; auto. Qed.

(** What the cache remembers was answered before. *)
Definition cache_sound (ns : string) (log : call_log) (cache : gmap string bool) : Prop :=
  forall id, cache !! id = Some true -> seen_in ns log id.

Lemma scope_spans_scoped ns spans cache log0 log scoped :
  cache_sound ns log0 cache ->
  yields (scope_spans ns cache spans) log (Some scoped) ->
  Forall (span_scoped ns (log0 ++ log)%list) scoped /\ scoped = set_span_namespace ns <$> spans.
Proof.
  revert cache log0 log scoped. induction spans as [|span spans IH]; intros cache log0 log scoped Hc H.
  { destruct H as [-> [= ->]]. by split. }
  simpl in H.
  assert (Hnext : forall cache log0 log,
    cache_sound ns log0 cache ->
    (Strings.TrimSpace (sn_TupleID span) <> "" -> seen_in ns log0 (Strings.TrimSpace (sn_TupleID span))) ->
    yields (rest ← scope_spans ns cache spans;
            mret match rest with Some scoped => Some (set_span_namespace ns span :: scoped) | None => None end) log (Some scoped) ->
    Forall (span_scoped ns (log0 ++ log)%list) scoped /\ scoped = set_span_namespace ns <$> span :: spans).
  { clear -IH. intros cache log0 log Hc Hseen (l1 & l2 & rest & -> & H1 & H2)%yields_bind.
    destruct H2 as [-> H2]. rewrite app_nil_r. destruct rest as [rest|]; [|done]. injection H2 as ->.
    destruct (IH _ _ _ _ Hc H1) as [HF ->]. split; [|done]. constructor; [|done].
    split; [done|]. intros Ht. apply seen_in_app. left. by apply Hseen. }
  destruct (decide _) as [|Ht]; [by apply (Hnext cache)|].
  apply yields_bind in H as (l1 & l2 & visible & -> & H1 & H2). rewrite app_assoc.
  destruct visible; [|by destruct H2].
  assert (Hseen : seen_in ns (log0 ++ l1)%list (Strings.TrimSpace (sn_TupleID span))).
  { destruct (cache !! _) as [v|] eqn:Hv.
    - destruct H1 as [-> <-]. rewrite app_nil_r. by apply Hc.
    - apply seen_in_app. right. destruct H1 as (x & l & -> & -> & H1). destruct x as [t|]; [|discriminate].
      exists t. split; [by left|]. symmetry in H1. by apply bool_decide_eq_true_1 in H1. }
  eapply Hnext; [|done|exact H2]. intros id. destruct (decide (id = Strings.TrimSpace (sn_TupleID span))) as [->|Hne]; [done|].
  rewrite lookup_insert_ne by done. intros Hid. apply seen_in_app. left. by apply Hc.
Qed.

Section Isolation.
Context {TD : TelemetryDecoder} `{Srt : SqlOrder}.

Definition endpoints (r : Request) : list (prog tel_call) :=
  [IngestTelemetrySpan true r; IngestTelemetrySpanBatch true r; ListTelemetrySpans true r].

Lemma tel_refuse_records status message log spans k : ~ yields (tel_refuse status message) log (TelRecord spans k).
Proof. by intros (l1 & l2 & x & -> & H1 & -> & H2)%yields_bind. Qed.

Lemma record_scoped_scoped r ns spans failure ingested log scoped k :
  scope r = Some ns -> spans <> [] ->
  yields (record_scoped r spans failure ingested) log (TelRecord scoped k) ->
  Forall (span_scoped ns log) scoped.
Proof.
  unfold scope. destruct (decide _) as [|Hns]; [done|]. intros [= <-] Hne.
  intros (l1 & l2 & x & -> & H1 & H2)%yields_bind. unfold scopeTelemetrySpansToPrincipal in H1.
  rewrite decide_False in H1 by tauto. apply yields_bind in H1 as (m1 & m2 & x' & -> & H1 & -> & ->).
  destruct x' as [x'|]; [|by apply tel_refuse_records in H2].
  destruct H2 as [-> [= -> _]]. rewrite !app_nil_r.
  by destruct (scope_spans_scoped (requestPrincipalNamespace r) spans ∅ [] m1 x') as [HF _].
Qed.

(** Every endpoint records spans of the principal's namespace only. *)
Lemma endpoint_scoped r ns p log spans k :
  scope r = Some ns -> p ∈ endpoints r -> yields p log (TelRecord spans k) -> Forall (span_scoped ns log) spans.
Proof.
  intros Hr Hp H. unfold endpoints in Hp. rewrite !elem_of_cons, elem_of_nil in Hp.
  destruct Hp as [->|[->|[->|[]]]].
  - unfold IngestTelemetrySpan in H. simpl in H. destruct (decode_Span _) as [span|]; [|by apply tel_refuse_records in H].
    destruct (decide _); [by apply tel_refuse_records in H|].
    apply yields_bind in H as (l1 & l2 & now & -> & _ & H).
    eapply record_scoped_scoped in H; [|done..]. eapply Forall_impl; [exact H|]. intros s Hs. apply span_scoped_app. auto.
  - unfold IngestTelemetrySpanBatch in H. simpl in H.
    destruct (decode_SpanBatch _) as [[|span rest]|]; [by destruct H| |by apply tel_refuse_records in H].
    destruct H as (now & l2 & -> & H). destruct (decide _); [by apply tel_refuse_records in H|].
    eapply record_scoped_scoped in H; [|done..]. eapply Forall_impl; [exact H|]. intros s Hs.
    apply (span_scoped_app _ [_]). auto.
  - unfold ListTelemetrySpans in H. simpl in H. destruct (decide _); [by apply tel_refuse_records in H|]. by destruct H.
Qed.

Lemma obsToSpans_namespace now tupleID traceID ns obs : Forall (fun s => sn_NamespaceID s = ns) (obsToSpans now tupleID traceID ns obs).
Proof.
  destruct obs as [obs|]; simpl; [|constructor]. destruct (decide _); [constructor|].
  rewrite !Forall_app. split_and!; try (apply Forall_fmap, Forall_true; done).
  all: repeat case_match; repeat constructor.
Qed.

(** The spans written in a namespace: through an endpoint, by a principal of
    it; or as an observation, of an agent of it. *)
Inductive writes (ns : string) : TelDB -> TelDB -> Prop :=
| writes_endpoint r p log spans k down uuid shard now d :
    scope r = Some ns -> p ∈ endpoints r -> yields p log (TelRecord spans k) ->
    writes ns d (pg_RecordSpans down uuid shard now spans d).2
| writes_observation t obs spans down uuid shard now d :
    a_NamespaceID t = ns -> ns <> "" ->
    recordObs true now (a_ID t) (a_TraceID t) (a_NamespaceID t) obs = Some spans ->
    writes ns d (pg_RecordSpans down uuid shard now spans d).2.

Lemma writes_rows ns d d' :
  writes ns d d' -> exists rows, td_rows d' = (td_rows d ++ rows)%list /\ Forall (fun r => tr_namespace_id r = ns) rows.
Proof.
  assert (Hrec : forall down uuid shard now spans d,
    ns <> "" -> Forall (fun s => sn_NamespaceID s = ns) spans ->
    exists rows, td_rows (pg_RecordSpans down uuid shard now spans d).2 = (td_rows d ++ rows)%list
                 /\ Forall (fun r => tr_namespace_id r = ns) rows).
  { clear. intros down uuid shard now spans d Hns HF.
    assert (Hrows : Forall (fun r => tr_namespace_id r = ns) (span_rows uuid shard now spans)).
    { apply Forall_forall. unfold span_rows. intros r (i & span & -> & Hi)%elem_of_lookup_imap_1.
      apply list_elem_of_lookup_2, list_elem_of_filter in Hi as [_ Hi]. rewrite Forall_forall in HF.
      simpl. unfold span_namespace. rewrite (HF _ Hi). by rewrite decide_False. }
    unfold pg_RecordSpans. destruct (span_rows _ _ _ _) as [|row rows]; [exists []; by rewrite app_nil_r|].
    destruct down; [exists []; by rewrite app_nil_r|].
    destruct (decide _); [by exists (row :: rows)|exists []; by rewrite app_nil_r]. }
  intros H. destruct H as [r p log spans k down uuid shard now d Hr Hp Hy|t obs spans down uuid shard now d <- Hne Ho].
  - apply Hrec.
    + unfold scope in Hr. destruct (decide _); [done|]. congruence.
    + eapply Forall_impl; [by eapply endpoint_scoped|]. by intros s [? _].
  - apply Hrec; [done|]. unfold recordObs in Ho. simpl in Ho. pose proof (obsToSpans_namespace now (a_ID t) (a_TraceID t) (a_NamespaceID t) obs) as HF.
    destruct (obsToSpans _ _ _ _ _); [done|]. by injection Ho as <-.
Qed.

Lemma listing_other ns other d d' down traceID limit offset :
  Strings.TrimSpace ns <> "" -> other <> ns -> writes other d d' ->
  pg_ListSpans down traceID ns limit offset d' = pg_ListSpans down traceID ns limit offset d.
Proof.
  intros Hns Ho (rows & Hd & HF)%writes_rows. unfold pg_ListSpans. rewrite Hd, filter_app.
  rewrite (filter_none rows), app_nil_r; [done|]. rewrite Forall_forall in HF. intros r Hr%HF Hw. apply Is_true_true, andb_true_iff in Hw as [_ Hw].
  rewrite (bool_decide_false (_ = "")) in Hw by done. apply bool_decide_eq_true_1 in Hw. congruence.
Qed.

Lemma listing_own traceID ns limit offset down d spans :
  Strings.TrimSpace ns <> "" -> pg_ListSpans down traceID ns limit offset d = Ok spans ->
  Forall (fun s => sn_NamespaceID s = ns /\ sn_TraceID s = traceID) spans.
Proof.
  intros Hns. unfold pg_ListSpans. destruct (decide _); [done|]. destruct down; [done|].
  destruct (decide (offset < 0)); [done|]. intros [= <-]. apply Forall_fmap, Forall_forall. intros r Hr.
  apply elem_of_window in Hr. apply elem_of_sql_sort, list_elem_of_filter in Hr as [Hw _].
  apply Is_true_true, andb_true_iff in Hw as [H1 H2]. rewrite (bool_decide_false (_ = "")) in H2 by done.
  apply bool_decide_eq_true_1 in H1. apply bool_decide_eq_true_1 in H2. by split.
Qed.

(** Writes of other namespaces, one after another. *)
Definition others_write (ns : string) : TelDB -> TelDB -> Prop :=
  rtc (fun d d' => exists other, other <> ns /\ writes other d d').

Lemma listing_others ns d d' down traceID limit offset :
  Strings.TrimSpace ns <> "" -> others_write ns d d' ->
  pg_ListSpans down traceID ns limit offset d' = pg_ListSpans down traceID ns limit offset d.
Proof.
  intros Hns. induction 1 as [d|d d1 d' (other & Ho & H) _ IH]; [done|]. rewrite IH. by eapply listing_other.
Qed.

(** C36: telemetry keeps to namespaces over the Postgres store.  Take a
    request whose principal has a namespace.  Whatever the space answers it,
    the spans an endpoint hands to the store for it bear that namespace, and
    each agent they name was read and found in it.  And when it lists a
    trace, the answer is the one it would have got had no other namespace
    written spans, through the endpoints or as observations, in whatever
    number and order and under whatever trace and span identifiers; and it
    holds spans of that trace and namespace only. *)
Theorem telemetry_isolated r ns d d' :
  scope r = Some ns -> others_write ns d d' ->
  (forall p log spans k, p ∈ endpoints r -> yields p log (TelRecord spans k) -> Forall (span_scoped ns log) spans)
  /\ forall log traceID asked limit offset k down,
       yields (ListTelemetrySpans true r) log (TelList traceID asked limit offset k) ->
       pg_ListSpans down traceID asked limit offset d' = pg_ListSpans down traceID asked limit offset d
       /\ forall spans, pg_ListSpans down traceID asked limit offset d' = Ok spans ->
                        Forall (fun s => sn_NamespaceID s = ns /\ sn_TraceID s = traceID) spans.
Proof.
  intros Hr Hw. split; [by intros; eapply endpoint_scoped|].
  intros log traceID asked limit offset k down H. unfold ListTelemetrySpans in H. simpl in H.
  destruct (decide _); [by apply yields_bind in H as (? & ? & ? & -> & _ & -> & [=])|].
  destruct H as [-> [= -> -> -> -> _]].
  assert (Hns : requestPrincipalNamespace r = ns /\ Strings.TrimSpace ns <> "").
  { unfold scope in Hr. destruct (decide _) as [|Hne]; [done|]. injection Hr as <-. split; [done|].
    unfold requestPrincipalNamespace in *. destruct (AuthPrincipalFromContext r); [|done].
    by rewrite Strings.TrimSpace_idemp. }
  destruct Hns as [-> Hns]. split; [by apply listing_others|]. intros spans. by apply listing_own.
Qed.

(** ** What comes back *)

Definition microseconds (t : Z) : Z := t `div` Time.Microsecond * Time.Microsecond.

(** A span as it is read back: its instants to the microsecond, its call and
    links among its attributes, a metric without key and value gone. *)
Definition read_back (now : Z) (span : Span) : Span :=
  MkSpan (sn_TraceID span) (sn_SpanID span) (sn_ParentSpanID span) (sn_TupleID span) (span_namespace span) (sn_Name span)
    (sn_Kind span) (microseconds (if Time.IsZero (sn_TsStart span) then now else sn_TsStart span))
    (microseconds <$> sn_TsEnd span) (sn_Status span) (Some (json_value <$> span_attrs span))
    (sn_Metric span ≫= fun m =>
       if decide (m = MkMetric "" None None None) then None else Some m) "" [].

Lemma scan_span_row id shard now span : scan_span (span_row id shard now span) = read_back now span.
Proof.
  unfold scan_span, span_row, read_back. cbn -[decide]. f_equal.
  - by destruct (sn_TsEnd span).
  - destruct (sn_Metric span) as [[key b n v]|]; cbn -[decide]; [|by rewrite decide_True].
    destruct (decide _) as [(-> & -> & -> & ->)|Hm]; [by rewrite decide_True|].
    rewrite decide_False; [done|]. intros [= -> -> -> ->]. by apply Hm.
Qed.

Lemma span_row_where traceID ns id shard now span :
  Strings.TrimSpace ns <> "" ->
  span_where traceID ns (span_row id shard now span) <-> sn_TraceID span = traceID /\ span_namespace span = ns.
Proof.
  intros Hns. unfold span_where. cbn. rewrite (bool_decide_false (_ = "")) by done. simpl.
  by rewrite Is_true_true, andb_true_iff, !bool_decide_eq_true.
Qed.

(** A batch that was accepted is listed: of a trace and a namespace the table
    had no spans of, a page large enough gives exactly those of the batch,
    each as [read_back] says and in the order of their starts. *)
Theorem recorded_spans_listed uuid shard now spans d d' traceID ns limit :
  pg_RecordSpans None uuid shard now spans d = (Ok (), d') ->
  traceID <> "" -> Strings.TrimSpace ns <> "" -> Z.of_nat (length spans) <= limit -> 0 < limit ->
  filter (fun r => span_where traceID ns r) (td_rows d) = [] ->
  exists page,
    pg_ListSpans None traceID ns limit 0 d' = Ok page
    /\ page ≡ₚ (read_back now <$> filter (fun s => sn_TraceID s = traceID /\ span_namespace s = ns) spans)
    /\ StronglySorted (fun a b => sn_TsStart a <= sn_TsStart b) page.
Proof.
  intros Hrec Ht Hns Hlim Hpos Hnone.
  assert (Hrows : td_rows d' = (td_rows d ++ span_rows uuid shard now spans)%list).
  { unfold pg_RecordSpans in Hrec. destruct (span_rows _ _ _ _) as [|row rows]; [injection Hrec as <-; by rewrite app_nil_r|].
    destruct (decide _); [|done]. by injection Hrec as <-. }
  set (sel := filter (fun r => span_where traceID ns r) (span_rows uuid shard now spans)).
  assert (Hsel : scan_span <$> sel = read_back now <$> filter (fun s => sn_TraceID s = traceID /\ span_namespace s = ns) spans).
  { unfold sel, span_rows. clear -Ht Hns. generalize uuid. induction spans as [|s spans IH]; intros u; [done|].
    rewrite !filter_cons. destruct (decide (sn_TraceID s <> "")) as [Hs|Hs].
    - specialize (IH (u ∘ S)). unfold compose in IH. rewrite imap_cons, filter_cons.
      pose proof (span_row_where traceID ns (u 0%nat) shard now s Hns) as Hw.
      destruct (decide (Is_true _)) as [H1|H1], (decide (_ /\ _)) as [H2|H2]; [|tauto..|exact IH].
      rewrite !fmap_cons, scan_span_row. f_equal. exact IH.
    - rewrite (decide_False (P := _ /\ _)); [apply IH|]. intros [Heq _]. apply Hs. congruence. }
  exists (scan_span <$> order_asc tr_ts_start sel). split_and!.
  - unfold pg_ListSpans. rewrite !decide_False by (done || lia). rewrite Hrows, filter_app, Hnone. fold sel.
    simpl. unfold sql_window. simpl. rewrite take_ge; [done|].
    unfold order_asc. rewrite sql_sort_perm. unfold sel, span_rows. etrans; [apply length_filter|].
    rewrite length_imap. etrans; [apply length_filter|]. lia.
  - rewrite <- Hsel. unfold order_asc. by rewrite sql_sort_perm.
  - eapply StronglySorted_fmap, (sql_sort_sorted tr_ts_start). intros a b Hab.
    by apply Z.mul_le_mono_nonneg_r.
Qed.
End Isolation.

(** ** A case: two namespaces, one trace *)

Definition demo_span (ns id tuple : string) (start : Z) : Span :=
  MkSpan "t" id "" tuple ns "step" "event" start None "ok" None None "" [].

(** A body names the identifier of the span it holds. *)
#[local] Instance demo_spans : TelemetryDecoder := {|
  decode_Span b := Ok (demo_span "acme" (bd_bytes b) "" Time.Second);
  decode_SpanBatch b := Ok [demo_span "acme" (bd_bytes b) "" Time.Second];
|}.

Definition listing_request (ns : string) : Request :=
  MkRequest "GET" "/api/v1/telemetry/spans" ∅ {["trace_id" := "t"; "limit" := "1"]} "10.0.0.1:80" 0 (MkBody "" false)
    (Some (principal_of ns)).
Definition ingest_request (ns id : string) : Request := request ns "POST" "/api/v1/telemetry/spans" "worker" "" id.

Definition demo_uuid (i : nat) : string := "event-" +:+ Strconv.FormatInt (Z.of_nat i).
Definition demo_table : TelDB :=
  (pg_RecordSpans None demo_uuid "s" 0 [demo_span "acme" "a" "" (2 * Time.Second)] (MkTelDB [] [0])).2.

(** Another tenant sends an earlier span under the same trace and span, in
    the name of acme. *)
Definition intruded_table : TelDB :=
  (pg_RecordSpans None demo_uuid "s" 0 [demo_span "globex" "a" "" Time.Second] demo_table).2.

Lemma telemetry_isolated_witness :
  scope (listing_request "acme") = Some "acme"
  /\ length (td_rows intruded_table) = 2%nat
  /\ (sn_SpanID <$> match pg_ListSpans (H := MergeSqlOrder) None "t" "acme" 1 0 intruded_table with Ok l => l | Err _ => [] end) = ["a"]
  /\ (pg_ListSpans (H := MergeSqlOrder) None "t" "acme" 1 0 intruded_table
      = pg_ListSpans (H := MergeSqlOrder) None "t" "acme" 1 0 demo_table
      /\ forall spans, pg_ListSpans (H := MergeSqlOrder) None "t" "acme" 1 0 intruded_table = Ok spans ->
                       Forall (fun s => sn_NamespaceID s = "acme" /\ sn_TraceID s = "t") spans).
Proof.
  split_and!; [vm_compute; reflexivity..|].
  eapply (telemetry_isolated (Srt := MergeSqlOrder) (listing_request "acme") "acme" demo_table intruded_table).
  - vm_compute. reflexivity.
  - apply rtc_once. exists "globex". split; [by apply (bool_decide_unpack _); vm_compute|].
    eapply (writes_endpoint "globex" (ingest_request "globex" "a") (IngestTelemetrySpan true (ingest_request "globex" "a")) []).
    + vm_compute. reflexivity.
    + by left.
    + split; [reflexivity|]. vm_compute. reflexivity.
  - split; [reflexivity|]. vm_compute. reflexivity.
Defined.

(** ** The Valkey store *)

Definition demo_valkey : ValkeyStore := MkVStore [MkSpec "v0" "localhost:6379" "" ""] false "" "" 0 0 200 false false false 100 "".
Definition valkey_after (spans : list Span) (ds : gmap string TelShard) : gmap string TelShard :=
  (valkey_RecordSpans demo_valkey (fun _ _ => Done) (fun _ => demo_uuid) spans ["v0"] ds).2.
Definition acme_sees (limit : Z) (ds : gmap string TelShard) : result goerror (list string) :=
  match valkey_ListSpans demo_valkey (fun _ => None) "t" "acme" limit 0 ds with
  | Ok spans => Ok (sn_SpanID <$> spans)
  | Err e => Err e
  end.

(** The key of a span has no namespace: a span of another namespace with the
    same trace and span identifiers replaces it. *)
Lemma valkey_span_replaced :
  let ds := valkey_after [demo_span "acme" "a" "" Time.Second] ∅ in
  acme_sees 10 ds = Ok ["a"] /\ acme_sees 10 (valkey_after [demo_span "globex" "a" "" Time.Second] ds) = Ok [].
Proof. vm_compute. by split. Qed.

(** The page is cut before the namespace is looked at: an earlier span of
    another namespace takes the place of one's own. *)
Lemma valkey_page_crowded :
  let ds := valkey_after [demo_span "acme" "a" "" (2 * Time.Second)] ∅ in
  acme_sees 1 ds = Ok ["a"] /\ acme_sees 1 (valkey_after [demo_span "globex" "b" "" Time.Second] ds) = Ok [].
Proof. vm_compute. by split. Qed.
