(* ===== verification/ApiReports.v ===== *)
(** * What the server reports of itself

    The metrics of [src/pkg/metrics/metrics.go] with the middleware that
    records them ([src/internal/api/metrics_middleware.go]) and the loop of
    [src/cmd/server/main.go] that counts the agents; the health, shard and
    debug handlers of [src/internal/api/handlers.go] with what the sharded
    stores answer to them; the optional capabilities of a store
    ([src/pkg/store/internal/core/runtime.go]). *)

From S2P Require Import Prelude GoLib GoSort Agent Common Effects PgRows PgEffects Scenario PgQuery PgEngine PgLifecycle PgLogic PgAlone PgScenario ShardMap Shards ValkeyClient ApiTypes TelemetrySpans ApiHandlers StoreConfig Dsn StoreLifecycle.
From stdpp Require Import gmap strings list fin_maps.
From Stdlib Require Import ZArith Lia Ascii.

Open Scope Z_scope.
Open Scope string_scope.

(** ** The registry *)

(** A metric and the values of its labels. *)
Notation series := (string * list string)%type.

(** Counters and gauges by series, and the observations of a histogram;
    durations are in nanoseconds. *)
Record Metrics : Type := MkMetrics {
  mr_counters : gmap series Z; mr_gauges : gmap series Z; mr_observed : gmap series (list Z) }.

(** The metrics that are registered, with the names of their labels. *)
Definition metric_vecs : list (string * list string) :=
  [("agent_space_operations_total", ["operation"; "status"; "store_type"]);
   ("agent_space_operation_duration_seconds", ["operation"; "store_type"]);
   ("agent_space_operation_stage_duration_seconds", ["operation"; "stage"; "store_type"]);
   ("agent_space_route_activity_total", ["activity"; "store_type"]);
   ("agent_space_route_activity_duration_seconds", ["activity"; "store_type"]);
   ("agent_space_agents_total", ["status"; "store_type"]);
   ("agent_space_agents_by_kind", ["kind"; "store_type"]);
   ("agent_space_backlog_total", ["kind"; "store_type"]);
   ("agent_space_events_processed_total", ["event_type"; "store_type"]);
   ("agent_space_store_connections", ["store_type"]);
   ("agent_space_store_errors_total", ["store_type"; "error_type"]);
   ("agent_space_waiters_active", ["store_type"]);
   ("agent_space_waiter_wait_time_seconds", ["store_type"; "operation"]);
   ("agent_space_subscribers_active", ["store_type"]);
   ("agent_space_postgres_pool_connections", ["stat"]);
   ("agent_space_http_requests_total", ["method"; "endpoint"; "status_code"; "namespace_id"]);
   ("agent_space_http_request_duration_seconds", ["method"; "endpoint"; "namespace_id"]);
   ("agent_space_http_request_size_bytes", ["method"; "endpoint"; "namespace_id"]);
   ("agent_space_http_response_size_bytes", ["method"; "endpoint"; "namespace_id"]);
   ("agent_space_quota_rejections_total", ["namespace_id"; "reason"])].

(** [WithLabelValues] panics unless a metric gets as many values as it has
    labels. *)
Definition well_labelled (m : series) : Prop :=
  match List.find (fun v => bool_decide (v.1 = m.1)) metric_vecs with
  | Some (_, names) => length m.2 = length names
  | None => False
  end.

Definition Inc (m : series) (r : Metrics) : Metrics :=
  MkMetrics (<[m := default 0 (mr_counters r !! m) + 1]> (mr_counters r)) (mr_gauges r) (mr_observed r).
Definition Set_ (m : series) (v : Z) (r : Metrics) : Metrics :=
  MkMetrics (mr_counters r) (<[m := v]> (mr_gauges r)) (mr_observed r).
Definition Observe (m : series) (v : Z) (r : Metrics) : Metrics :=
  MkMetrics (mr_counters r) (mr_gauges r) (<[m := default [] (mr_observed r !! m) ++ [v]]> (mr_observed r))%list.

Definition RecordOperation (operation storeType : string) (success : bool) (duration : Z) (r : Metrics) : Metrics :=
  let status := if success then "success" else "failure" in
  Observe ("agent_space_operation_duration_seconds", [operation; storeType]) duration
    (Inc ("agent_space_operations_total", [operation; status; storeType]) r).

Definition RecordOperationStage (operation stage storeType : string) (duration : Z) (r : Metrics) : Metrics :=
  Observe ("agent_space_operation_stage_duration_seconds", [operation; stage; storeType]) duration r.

Definition RecordRouteActivity (activity storeType : string) (r : Metrics) : Metrics :=
  Inc ("agent_space_route_activity_total", [activity; storeType]) r.

Definition RecordRouteActivityDuration (activity storeType : string) (duration : Z) (r : Metrics) : Metrics :=
  Observe ("agent_space_route_activity_duration_seconds", [activity; storeType]) duration r.

Definition http_requests : string := "agent_space_http_requests_total".

Definition RecordHTTPRequest (method endpoint statusCode namespaceID : string) (duration requestSize responseSize : Z)
    (r : Metrics) : Metrics :=
  let r := Inc (http_requests, [method; endpoint; statusCode; namespaceID]) r in
  let r := Observe ("agent_space_http_request_duration_seconds", [method; endpoint; namespaceID]) duration r in
  let r := if decide (0 < requestSize)
           then Observe ("agent_space_http_request_size_bytes", [method; endpoint; namespaceID]) requestSize r else r in
  if decide (0 < responseSize)
  then Observe ("agent_space_http_response_size_bytes", [method; endpoint; namespaceID]) responseSize r else r.

Definition RecordStoreError (storeType errorType : string) (r : Metrics) : Metrics :=
  Inc ("agent_space_store_errors_total", [storeType; errorType]) r.

Definition RecordQuotaRejection (namespaceID reason : string) (r : Metrics) : Metrics :=
  let namespaceID := if decide (namespaceID = "") then "_global" else namespaceID in
  let reason := if decide (reason = "") then "unknown" else reason in
  Inc ("agent_space_quota_rejections_total", [namespaceID; reason]) r.

(** The ranges over the maps write different series: their order is
    immaterial. *)
Definition UpdateAgentMetrics (storeType : string) (byStatus byKind : gmap string Z) (r : Metrics) : Metrics :=
  let r := map_fold (fun status count => Set_ ("agent_space_agents_total", [status; storeType]) count) r byStatus in
  map_fold (fun kind count => Set_ ("agent_space_agents_by_kind", [kind; storeType]) count) r byKind.

Definition UpdateBacklogMetric (storeType kind : string) (backlog : Z) (r : Metrics) : Metrics :=
  Set_ ("agent_space_backlog_total", [kind; storeType]) backlog r.

(** *** No recording panics *)

(** Every series has the labels of its metric. *)
Record labelled (r : Metrics) : Prop := {
  lb_counters : map_Forall (fun m _ => well_labelled m) (mr_counters r);
  lb_gauges : map_Forall (fun m _ => well_labelled m) (mr_gauges r);
  lb_observed : map_Forall (fun m _ => well_labelled m) (mr_observed r);
}.

Lemma labelled_Inc m r : well_labelled m -> labelled r -> labelled (Inc m r).
Proof. intros Hm [H1 H2 H3]. split; simpl; [by apply map_Forall_insert_2|done..]. Qed.
Lemma labelled_Set m v r : well_labelled m -> labelled r -> labelled (Set_ m v r).
Proof. intros Hm [H1 H2 H3]. split; simpl; [done|by apply map_Forall_insert_2|done]. Qed.
Lemma labelled_Observe m v r : well_labelled m -> labelled r -> labelled (Observe m v r).
Proof. intros Hm [H1 H2 H3]. split; simpl; [done..|by apply map_Forall_insert_2]. Qed.

Create HintDb metrics.
#[export] Hint Resolve labelled_Inc labelled_Set labelled_Observe : metrics.
#[export] Hint Extern 1 (well_labelled _) => reflexivity : metrics.

Lemma labelled_fold (f : string -> Z -> Metrics -> Metrics) (counts : gmap string Z) r :
  (forall k v r, labelled r -> labelled (f k v r)) -> labelled r -> labelled (map_fold f r counts).
Proof. intros Hf Hr. apply (map_fold_weak_ind (fun r _ => labelled r)); auto. Qed.

(** Whatever is recorded, the labels fit. *)
Lemma recordings_labelled r :
  labelled r ->
  (forall op st ok d, labelled (RecordOperation op st ok d r)) /\ (forall op stage st d, labelled (RecordOperationStage op stage st d r))
  /\ (forall a st, labelled (RecordRouteActivity a st r)) /\ (forall a st d, labelled (RecordRouteActivityDuration a st d r))
  /\ (forall m e c ns d rq rs, labelled (RecordHTTPRequest m e c ns d rq rs r)) /\ (forall st e, labelled (RecordStoreError st e r))
  /\ (forall ns reason, labelled (RecordQuotaRejection ns reason r))
  /\ (forall st byStatus byKind, labelled (UpdateAgentMetrics st byStatus byKind r))
  /\ (forall st kind n, labelled (UpdateBacklogMetric st kind n r)).
Proof.
  intros Hr. split_and!; intros;
    unfold RecordOperation, RecordOperationStage, RecordRouteActivity, RecordRouteActivityDuration, RecordHTTPRequest,
      RecordStoreError, RecordQuotaRejection, UpdateAgentMetrics, UpdateBacklogMetric, http_requests;
    repeat case_decide; auto 10 with metrics.
  all: apply labelled_fold; [auto with metrics|]; apply labelled_fold; auto with metrics.
Qed.

(** ** The middleware *)

(** The loop over the patterns. *)
Definition id_patterns : list (string * string) :=
  [("/api/v1/agents/", "/api/v1/agents/:id"); ("/api/v1/dag/", "/api/v1/dag/:id"); ("/api/v1/events/", "/api/v1/events/:id")].

Fixpoint match_pattern (patterns : list (string * string)) (path : string) : option string :=
  match patterns with
  | [] => None
  | (prefix, replace) :: patterns =>
      if Strings.HasPrefix path prefix && bool_decide (String.length prefix < String.length path)%nat
         && negb (Strings.Contains (of_bytes (drop (String.length prefix) (bytes path))) "/")
      then Some replace
      else match_pattern patterns path
  end.

Definition normalizeEndpoint (path : string) : string :=
  let path := Strings.TrimSuffix path "/" in
  match match_pattern id_patterns path with
  | Some label => label
  | None =>
      if decide (path = "/api/v1/agents/query") then "/api/v1/agents/query"
      else if decide (path = "/api/v1/agents/read") then "/api/v1/agents/read"
      else if decide (path = "/api/v1/agents/take") then "/api/v1/agents/take"
      else if decide (path = "/api/v1/agents/in") then "/api/v1/agents/in"
      else if Strings.HasSuffix path "/complete" then "/api/v1/agents/:id/complete"
      else if Strings.HasSuffix path "/release" then "/api/v1/agents/:id/release"
      else path
  end.

(** What a handler does to its [http.ResponseWriter]: a status, or some
    bytes of which [n] were written. *)
Inductive write : Type := WriteHeader (code : Z) | Write (n : Z).

(** [metricsResponseWriter]. *)
Record metricsResponseWriter : Type := MkMRW { rw_statusCode : Z; rw_written : Z }.

Definition rw_write (rw : metricsResponseWriter) (op : write) : metricsResponseWriter :=
  match op with
  | WriteHeader code => MkMRW code (rw_written rw)
  | Write n => MkMRW (rw_statusCode rw) (rw_written rw + n)
  end.

Definition MetricsMiddleware (r : Request) (duration : Z) (next : list write) (reg : Metrics) : Metrics :=
  let requestSize := if decide (rq_length r < 0) then 0 else rq_length r in
  let endpoint := normalizeEndpoint (rq_path r) in
  let rw := foldl rw_write (MkMRW StatusOK 0) next in
  let namespaceID := match AuthPrincipalFromContext r with
                     | Some principal => if decide (ap_NamespaceID principal = "") then "_global" else ap_NamespaceID principal
                     | None => "_global"
                     end in
  RecordHTTPRequest (rq_method r) endpoint (Strconv.FormatInt (rw_statusCode rw)) namespaceID duration requestSize
    (rw_written rw) reg.

(** Every request that reaches the middleware is counted once. *)
Definition requests_total (r : Metrics) : Z :=
  map_fold (fun (m : series) n total => if decide (m.1 = http_requests) then total + n else total) 0 (mr_counters r).

Lemma requests_total_Inc labels r : requests_total (Inc (http_requests, labels) r) = requests_total r + 1.
Proof.
  unfold requests_total, Inc. cbn [mr_counters]. set (f := fun _ _ _ => _). generalize (mr_counters r) as cs. intros cs.
  assert (Hf : forall j1 j2 z1 z2 y, f j1 z1 (f j2 z2 y) = f j2 z2 (f j1 z1 y)) by (intros; unfold f; repeat case_decide; lia).
  destruct (cs !! (http_requests, labels)) as [n|] eqn:Hl; cbn [default].
  - rewrite <- insert_delete_eq, map_fold_insert_L by (try apply lookup_delete_eq; intros; apply Hf).
    rewrite (map_fold_delete_L f 0 _ n cs) by (done || (intros; apply Hf)). unfold f at 1 3. simpl. lia.
  - rewrite map_fold_insert_L by (done || (intros; apply Hf)). unfold f at 1. simpl. lia.
Qed.

Lemma middleware_counts r duration next reg :
  requests_total (MetricsMiddleware r duration next reg) = requests_total reg + 1.
Proof.
  unfold MetricsMiddleware, RecordHTTPRequest.
  match goal with |- context [Inc (_, ?labels) reg] => rewrite <- (requests_total_Inc labels) end.
  repeat case_decide; reflexivity.
Qed.

(** *** Labels of endpoints *)

Lemma contains_slash l : "/"%char ∉ l -> Strings.contains_bytes l ["/"%char] = false.
Proof.
  induction l as [|c l IH]; intros Hno; simpl; [done|]. apply not_elem_of_cons in Hno as [H1 H2].
  rewrite bool_decide_eq_false_2 by done. simpl. by apply IH.
Qed.

Lemma no_slash_suffix s rest : rest <> "" -> "/"%char ∉ bytes rest -> Strings.HasSuffix (s +:+ rest) "/" = false.
Proof.
  intros Hne Hno. unfold Strings.HasSuffix. rewrite bytes_app, rev_app_distr. simpl.
  destruct (rev (bytes rest)) as [|c l] eqn:Hr.
  - destruct Hne. rewrite <- (of_bytes_bytes rest), <- (rev_involutive (bytes rest)), Hr. done.
  - simpl. rewrite bool_decide_eq_false_2; [done|]. intros <-. apply Hno, list_elem_of_In, in_rev. rewrite Hr. by left.
Qed.

Lemma prefix_bytes_refl p l : Strings.prefix_bytes p (p ++ l) = true.
Proof. induction p as [|c p IH]; simpl; [done|]. by rewrite bool_decide_eq_true_2. Qed.

(** Below [/api/v1/agents/] every path of one segment has the same label,
    that of the operations [query], [read], [take] and [in] included: the
    cases for them are never reached. *)
Lemma agent_paths_share_label rest :
  rest <> "" -> "/"%char ∉ bytes rest -> normalizeEndpoint ("/api/v1/agents/" +:+ rest) = "/api/v1/agents/:id".
Proof.
  intros Hne Hno. unfold normalizeEndpoint, Strings.TrimSuffix. rewrite no_slash_suffix by done.
  set (prefix := "/api/v1/agents/") in *. unfold match_pattern, id_patterns. fold prefix.
  assert (Strings.HasPrefix (prefix +:+ rest) prefix = true) as ->
    by (unfold Strings.HasPrefix; rewrite bytes_app; apply prefix_bytes_refl).
  assert (Hlen : (String.length prefix < String.length (prefix +:+ rest))%nat).
  { assert (String.length (prefix +:+ rest) = String.length prefix + String.length rest)%nat as -> by done.
    destruct rest; [done|]. simpl. lia. }
  rewrite bool_decide_eq_true_2 by done.
  assert (drop (String.length prefix) (bytes (prefix +:+ rest)) = bytes rest) as -> by (rewrite bytes_app; done).
  rewrite of_bytes_bytes. unfold Strings.Contains. by rewrite contains_slash.
Qed.

(** A deeper path is its own label: there are as many series as clients ask
    for. *)
Example deep_paths_are_labels :
  normalizeEndpoint "/api/v1/agents/query" = "/api/v1/agents/:id"
  /\ normalizeEndpoint "/api/v1/agents/a1/renew" = "/api/v1/agents/a1/renew"
  /\ normalizeEndpoint "/api/v1/agents/a1/complete-and-out" = "/api/v1/agents/a1/complete-and-out".
Proof. by vm_compute. Qed.

(** ** Counting the agents *)

(** A reading of a store with state [W]. *)
Definition Reading (W A : Type) : Type := W -> result gerror A * W.

#[export] Instance Reading_ret W : MRet (Reading W) := fun A a w => (Ok a, w).
#[export] Instance Reading_bind W : MBind (Reading W) := fun A B f m w =>
  match m w with (Ok a, w) => f a w | (Err e, w) => (Err e, w) end.

Section Collect.
Context {W : Type} (statusCounter : option (Query -> Reading W (gmap string Z))) (counter : option (Query -> Reading W Z)).

Definition metric_statuses : list string := [StatusNew; StatusInProgress; StatusCompleted; StatusFailed; StatusCancelled].

Definition kind_query (kind status : string) : Query := MkQuery kind status [] "" "" "" "" "" None 0 0.

(** The count of each status, in turn. *)
Fixpoint count_each (Count : Query -> Reading W Z) (kind : string) (statuses : list string) : Reading W (list (string * Z)) :=
  match statuses with
  | [] => mret []
  | status :: statuses =>
      count ← Count (kind_query kind status);
      rest ← count_each Count kind statuses;
      mret ((status, count) :: rest)
  end.

Definition at_key (counts : gmap string Z) (status : string) : Z := default 0 (counts !! status).

(** One kind: its total and its backlog. *)
Definition collect_kind (kind : string) : Reading W (Z * Z) :=
  match statusCounter, counter with
  | Some CountByStatus, _ =>
      counts ← CountByStatus (kind_query kind "");
      mret (map_fold (fun _ count total => total + count) 0 counts, at_key counts StatusNew + at_key counts StatusInProgress)
  | None, Some Count =>
      counts ← count_each Count kind metric_statuses;
      mret (foldl (fun total p => total + p.2) 0 counts,
            at_key (list_to_map counts) StatusNew + at_key (list_to_map counts) StatusInProgress)
  | None, None => mret (0, 0)
  end.

Fixpoint collect_kinds (kinds : list string) (byKind backlogByKind : gmap string Z)
    : Reading W (gmap string Z * gmap string Z) :=
  match kinds with
  | [] => mret (byKind, backlogByKind)
  | kind :: kinds =>
      p ← collect_kind kind;
      collect_kinds kinds (<[kind := p.1]> byKind) (<[kind := p.2]> backlogByKind)
  end.

Definition collectAgentMetrics (kinds : list string) : Reading W (gmap string Z * gmap string Z * gmap string Z) :=
  match statusCounter, counter with
  | None, None => fun w => (Err (EDB "agent store does not support status counting"), w)
  | Some CountByStatus, _ =>
      counts ← CountByStatus (kind_query "" "");
      let byStatus := list_to_map ((fun status => (status, at_key counts status)) <$> metric_statuses) in
      p ← collect_kinds kinds ∅ ∅; mret (byStatus, p.1, p.2)
  | None, Some Count =>
      counts ← count_each Count "" metric_statuses;
      p ← collect_kinds kinds ∅ ∅; mret (list_to_map counts, p.1, p.2)
  end.

(** [collectAndPublish]: a failure leaves the gauges as they are. *)
Definition collectAndPublish (storeType : string) (kinds : list string) (reg : Metrics) (w : W) : Metrics * W :=
  match collectAgentMetrics kinds w with
  | (Err _, w) => (reg, w)
  | (Ok (byStatus, byKind, backlogByKind), w) =>
      (map_fold (UpdateBacklogMetric storeType) (UpdateAgentMetrics storeType byStatus byKind reg) backlogByKind, w)
  end.

(** [startAgentMetricsLoop]: once, and at each of [ticks]. *)
Definition startAgentMetricsLoop (storeType : string) (interval : Z) (kinds : list string) (ticks : nat)
    (reg : Metrics) (w : W) : Metrics * W :=
  if decide (interval <= 0) then (reg, w)
  else match statusCounter, counter with
       | None, None => (reg, w)
       | _, _ => Nat.iter (S ticks) (fun p => collectAndPublish storeType kinds p.1 p.2) (reg, w)
       end.
End Collect.

(** What the two ways of counting promise: both read the same [tally]. *)
Class Counts {W} (view : W -> Prop) (tally : string -> string -> Z)
    (CountByStatus : Query -> Reading W (gmap string Z)) (Count : Query -> Reading W Z) : Prop := {
  by_status_counts kind w : view w -> exists counts w', CountByStatus (kind_query kind "") w = (Ok counts, w') /\ view w'
    /\ forall status, counts !! status = if decide (status ∈ metric_statuses) then Some (tally kind status) else None;
  count_counts kind status w : view w -> status ∈ metric_statuses ->
    exists w', Count (kind_query kind status) w = (Ok (tally kind status), w') /\ view w';
}.

Section Paths.
Context {W : Type} {view : W -> Prop} {tally : string -> string -> Z} {CBS : Query -> Reading W (gmap string Z)}
  {Cnt : Query -> Reading W Z} `{HC : !Counts view tally CBS Cnt}.

Definition tallies (kind : string) : list (string * Z) := (fun status => (status, tally kind status)) <$> metric_statuses.
Definition kind_total (kind : string) : Z := foldl (fun total p => total + p.2) 0 (tallies kind).
Definition kind_backlog (kind : string) : Z := tally kind StatusNew + tally kind StatusInProgress.

Lemma count_each_ok kind statuses w :
  view w -> statuses ⊆ metric_statuses ->
  exists w', count_each Cnt kind statuses w = (Ok ((fun status => (status, tally kind status)) <$> statuses), w') /\ view w'.
Proof.
  revert w. induction statuses as [|st sts IH]; intros w Hv Hin; simpl; [by exists w|].
  destruct (count_counts kind st w Hv) as (w1 & H1 & Hv1); [set_solver|].
  destruct (IH w1 Hv1) as (w2 & H2 & Hv2); [set_solver|].
  exists w2. unfold mbind, Reading_bind. by rewrite H1, H2.
Qed.

(** The map of a grouped count is that of the single counts. *)
Lemma grouped_is_tallies kind (counts : gmap string Z) :
  (forall status, counts !! status = if decide (status ∈ metric_statuses) then Some (tally kind status) else None) ->
  counts = list_to_map (tallies kind).
Proof.
  intros H. apply map_eq. intros st. rewrite H. unfold tallies, metric_statuses. simpl.
  case_decide as Hin; rewrite ?elem_of_cons in Hin.
  - destruct Hin as [->|[->|[->|[->|[->|Hin%elem_of_nil]]]]]; by simplify_map_eq.
  - symmetry. rewrite !lookup_insert_ne by (intros <-; apply Hin; tauto). apply lookup_empty.
Qed.

Lemma tallies_total kind : map_fold (fun _ count total => total + count) 0 (list_to_map (tallies kind) : gmap string Z) = kind_total kind.
Proof.
  unfold tallies, kind_total, metric_statuses. simpl.
  repeat (rewrite map_fold_insert_L; [|intros; lia|by simplify_map_eq]). rewrite map_fold_empty. lia.
Qed.

Lemma tallies_backlog kind :
  at_key (list_to_map (tallies kind)) StatusNew + at_key (list_to_map (tallies kind)) StatusInProgress = kind_backlog kind.
Proof. reflexivity. Qed.

(** Either way of counting. *)
Definition path (sc : option (Query -> Reading W (gmap string Z))) (c : option (Query -> Reading W Z)) : Prop :=
  sc = Some CBS \/ (sc = None /\ c = Some Cnt).

Lemma collect_kind_ok sc c kind w :
  path sc c -> view w -> exists w', collect_kind sc c kind w = (Ok (kind_total kind, kind_backlog kind), w') /\ view w'.
Proof.
  intros [->|[-> ->]] Hv; unfold collect_kind, mbind, Reading_bind.
  - destruct (by_status_counts kind w Hv) as (counts & w1 & -> & Hv1 & ->%grouped_is_tallies). exists w1.
    by rewrite tallies_total, tallies_backlog.
  - destruct (count_each_ok kind metric_statuses w Hv) as (w1 & -> & Hv1); [done|]. exists w1. done.
Qed.

Lemma collect_kinds_ok sc c kinds total backlog w :
  path sc c -> view w ->
  exists w', collect_kinds sc c kinds total backlog w
    = (Ok (foldl (fun m kind => <[kind := kind_total kind]> m) total kinds,
           foldl (fun m kind => <[kind := kind_backlog kind]> m) backlog kinds), w') /\ view w'.
Proof.
  intros Hp. revert total backlog w. induction kinds as [|kind kinds IH]; intros total backlog w Hv; simpl; [by exists w|].
  unfold mbind, Reading_bind. destruct (collect_kind_ok sc c kind w Hp Hv) as (w1 & -> & Hv1). by apply IH.
Qed.

Lemma collect_ok sc c kinds w :
  path sc c -> view w ->
  exists w', collectAgentMetrics sc c kinds w
    = (Ok (list_to_map (tallies ""), foldl (fun m kind => <[kind := kind_total kind]> m) ∅ kinds,
           foldl (fun m kind => <[kind := kind_backlog kind]> m) ∅ kinds), w') /\ view w'.
Proof.
  intros Hp Hv. assert (Hp' := Hp). destruct Hp as [->|[-> ->]]; unfold collectAgentMetrics, mbind, Reading_bind.
  - destruct (by_status_counts "" w Hv) as (counts & w1 & -> & Hv1 & ->%grouped_is_tallies).
    destruct (collect_kinds_ok _ c kinds ∅ ∅ w1 Hp' Hv1) as (w2 & -> & Hv2). by exists w2.
  - destruct (count_each_ok "" metric_statuses w Hv) as (w1 & -> & Hv1); [done|].
    destruct (collect_kinds_ok _ _ kinds ∅ ∅ w1 Hp' Hv1) as (w2 & -> & Hv2). by exists w2.
Qed.
End Paths.

(** *** The Postgres store counts *)

Section Postgres.
Context `{E : PgEnv} (rows : gmap string PgRow).
Hypothesis HA : alone E.
(** Statuses are those of the lifecycle, and no agent expires meanwhile. *)
Hypothesis Hstatus : map_Forall (fun _ r => g_status r ∈ metric_statuses) rows.
Hypothesis Hlive : map_Forall (fun _ r => forall n, ttlClause (server_now_at n) r = true) rows.

Definition of_kind (kind : string) (p : string * PgRow) : Prop := kind = "" \/ g_kind p.2 = kind.
#[local] Instance of_kind_dec kind p : Decision (of_kind kind p).
Proof. unfold of_kind. apply _. Defined.

Definition pg_tally (kind status : string) : Z :=
  Z.of_nat (length (filter (fun p => of_kind kind p /\ g_status p.2 = status) (map_to_list rows))).
Definition holds (w : PW) : Prop := pg_agents (pw_db w) = rows.

Lemma status_group l st :
  group_by_status l !! st
  = if decide (filter (fun p => g_status p.2 = st) l = []) then None
    else Some (Z.of_nat (length (filter (fun p => g_status p.2 = st) l))).
Proof.
  induction l as [|p l IH]; [done|]. cbn [group_by_status foldr]. fold (group_by_status l).
  rewrite filter_cons. destruct (decide (g_status p.2 = st)) as [<-|Hne].
  - rewrite lookup_insert_eq, IH. case_decide as Hf; [by rewrite Hf|]. rewrite (decide_False (P := _ :: _ = [])) by done.
    simpl. f_equal. lia.
  - by rewrite lookup_insert_ne.
Qed.

Lemma filter_on {A} (P Q : A -> Prop) `{!forall x, Decision (P x), !forall x, Decision (Q x)} (l : list A) :
  (forall x, x ∈ l -> P x <-> Q x) -> filter P l = filter Q l.
Proof.
  induction l as [|x l IH]; intros HPQ; [done|]. rewrite !filter_cons, IH by set_solver.
  destruct (HPQ x) as [H1 H2]; [set_solver|]. repeat case_decide; tauto.
Qed.

Lemma clauses_hold n kind status p :
  p ∈ map_to_list rows ->
  psat_all (server_now_at n) (buildWhereClauses (Some (kind_query kind status)) false) p.2
  <-> of_kind kind p /\ (status = "" \/ g_status p.2 = status).
Proof.
  destruct p as [id r]. intros Hin%elem_of_map_to_list. pose proof (Hlive id r Hin n) as Ht.
  unfold psat_all, buildWhereClauses, of_kind, punless_empty. simpl.
  rewrite Ht. repeat case_decide; simpl; rewrite ?andb_true_r, ?Is_true_true, ?andb_true_iff, ?bool_decide_eq_true; tauto.
Qed.

Lemma rows_counted n kind status :
  rows_where (server_now_at n) (buildWhereClauses (Some (kind_query kind status)) false) rows
  = filter (fun p => of_kind kind p /\ (status = "" \/ g_status p.2 = status)) (map_to_list rows).
Proof. apply filter_on. intros p Hp. by apply clauses_hold. Qed.

(** The groups of the rows of a kind. *)
Lemma groups_counted n kind st :
  (group_by_status (rows_where (server_now_at n) (buildWhereClauses (Some (kind_query kind "")) false) rows) ∪ zero_counts) !! st
  = if decide (st ∈ metric_statuses) then Some (pg_tally kind st) else None.
Proof.
  rewrite rows_counted, lookup_union, status_group, list_filter_filter.
  rewrite (filter_on (fun p => g_status p.2 = st /\ _) (fun p => of_kind kind p /\ g_status p.2 = st)) by tauto.
  unfold pg_tally. set (found := filter _ _). assert (Hz : zero_counts !! st = if decide (st ∈ metric_statuses) then Some 0 else None).
  { unfold zero_counts, metric_statuses. simpl. case_decide as Hin; rewrite ?elem_of_cons in Hin.
    - destruct Hin as [->|[->|[->|[->|[->|Hin%elem_of_nil]]]]]; by simplify_map_eq.
    - rewrite !lookup_insert_ne by (intros <-; apply Hin; tauto). apply lookup_empty. }
  rewrite Hz. destruct (decide (found = [])) as [->|Hne]; [by case_decide|].
  assert (Hst : st ∈ metric_statuses).
  { destruct found as [|[id r] found'] eqn:Hf; [done|].
    assert (Hin : (id, r) ∈ found) by (rewrite Hf; set_solver). unfold found in Hin.
    apply list_elem_of_filter in Hin as [[_ <-] Hin%elem_of_map_to_list]. exact (Hstatus id r Hin). }
  by rewrite !decide_True.
Qed.

Lemma call_alone {A} (m : nat -> PM A) w : pcall m w = m (pw_call w) (ptick w).
Proof. unfold pcall. rewrite (alone_advance HA). by destruct HA as (-> & _). Qed.

#[export] Instance pg_counts : Counts holds pg_tally (fun q => countByStatus (Some q)) (fun q => count (Some q)).
Proof.
  split.
  - intros kind w Hw. unfold countByStatus, pool_read, pg_rows_Err, mbind, PM_bind. rewrite !call_alone.
    eexists _, _. split; [reflexivity|]. split; [exact Hw|]. intros st. simpl. rewrite Hw. apply groups_counted.
  - intros kind st w Hw Hin. unfold count, pool_read. rewrite call_alone. exists (ptick w). split; [|exact Hw]. f_equal. f_equal.
    change (pw_db (ptick w)) with (pw_db w). unfold holds in Hw. rewrite Hw, rows_counted. unfold pg_tally. do 2 f_equal. apply filter_on. intros p _.
    assert (st <> "") by (intros ->; unfold metric_statuses in Hin; set_solver). tauto.
Qed.

(** Every row has one of the statuses, so the tallies add up. *)
Lemma split_by_status kind l :
  Forall (fun p : string * PgRow => g_status p.2 ∈ metric_statuses) l ->
  length (filter (of_kind kind) l)
  = list_sum ((fun st => length (filter (fun p => of_kind kind p /\ g_status p.2 = st) l)) <$> metric_statuses).
Proof.
  induction 1 as [|p l Hp Hl IH]; [done|]. rewrite filter_cons.
  assert (Hcons : forall st, length (filter (fun p => of_kind kind p /\ g_status p.2 = st) (p :: l))
    = ((if decide (of_kind kind p /\ g_status p.2 = st) then 1 else 0)
       + length (filter (fun p => of_kind kind p /\ g_status p.2 = st) l))%nat).
  { intros st. rewrite filter_cons. by case_decide. }
  rewrite (list_fmap_ext _ _ _ (fun _ st _ => Hcons st)).
  destruct (decide (of_kind kind p)) as [Hk|Hk].
  - cbn [length]. rewrite IH. unfold metric_statuses in Hp |- *. rewrite !elem_of_cons in Hp.
    destruct Hp as [Hp|[Hp|[Hp|[Hp|[Hp|Hp%elem_of_nil]]]]]; [..|done]; rewrite Hp; cbn [fmap list_fmap list_sum fold_right];
      repeat (case_decide as Hx; [destruct Hx as [_ Hx]; first [by (vm_compute in Hx; discriminate Hx)|clear Hx]|first [by destruct Hx|clear Hx]]); lia.
  - rewrite IH. f_equal. apply list_fmap_ext. intros i st _. by rewrite decide_False by tauto.
Qed.

Lemma tallies_add_up kind : kind_total (tally := pg_tally) kind = Z.of_nat (length (filter (of_kind kind) (map_to_list rows))).
Proof.
  rewrite split_by_status.
  - unfold kind_total, tallies, pg_tally, metric_statuses. cbn [fmap list_fmap list_sum fold_right foldl snd]. lia.
  - apply Forall_forall. intros [id r] Hin%elem_of_map_to_list. exact (Hstatus id r Hin).
Qed.

Lemma published_at (f : string -> Z) kinds m kind :
  kind ∈ kinds -> foldl (fun (m : gmap string Z) k => <[k := f k]> m) m kinds !! kind = Some (f kind).
Proof.
  revert m. induction kinds as [|k kinds IH] using rev_ind; intros m; [by intros ?%elem_of_nil|].
  rewrite foldl_app. simpl. destruct (decide (k = kind)) as [->|Hne]; [by rewrite lookup_insert_eq|].
  rewrite lookup_insert_ne by done. intros [H|H%list_elem_of_singleton]%elem_of_app; [by apply IH|congruence].
Qed.

(** C40: the two ways of counting agree.  Over a Postgres store in which no
    agent expires meanwhile, the figures the metrics loop collects through
    [CountByStatus] are those it collects through [Count]: for each status
    the number of agents in it, for each kind the number of its agents, in
    whatever status, and of those that are new or in progress. *)
Theorem metrics_paths_agree w c kinds :
  pg_agents (pw_db w) = rows ->
  exists byStatus byKind backlogByKind,
    (collectAgentMetrics (Some (fun q => countByStatus (Some q))) c kinds w).1 = Ok (byStatus, byKind, backlogByKind)
    /\ (collectAgentMetrics None (Some (fun q => count (Some q))) kinds w).1 = Ok (byStatus, byKind, backlogByKind)
    /\ (forall status, status ∈ metric_statuses ->
          byStatus !! status = Some (Z.of_nat (length (filter (fun p => g_status p.2 = status) (map_to_list rows)))))
    /\ (forall kind, kind ∈ kinds -> kind <> "" ->
          byKind !! kind = Some (Z.of_nat (length (filter (fun p => g_kind p.2 = kind) (map_to_list rows))))
          /\ backlogByKind !! kind = Some (pg_tally kind StatusNew + pg_tally kind StatusInProgress)).
Proof.
  intros Hw.
  destruct (collect_ok (HC := pg_counts) (Some (fun q => countByStatus (Some q))) c kinds w) as (w1 & H1 & _); [by left|done|].
  destruct (collect_ok (HC := pg_counts) None (Some (fun q => count (Some q))) kinds w) as (w2 & H2 & _); [by right|done|].
  do 3 eexists. rewrite H1, H2. split; [done|]. split; [done|]. split.
  - intros st Hin. unfold tallies.
    apply elem_of_list_to_map_1; [rewrite <- list_fmap_compose; apply (bool_decide_unpack _); by vm_compute|].
    apply list_elem_of_fmap. exists st. split; [|done]. unfold pg_tally. do 3 f_equal. apply list_filter_iff.
    intros p. unfold of_kind. tauto.
  - intros kind Hin Hne. rewrite !published_at by done. split; [|done]. rewrite tallies_add_up. do 3 f_equal.
    apply list_filter_iff. intros p. unfold of_kind. tauto.
Qed.
End Postgres.

(** Three agents of two kinds. *)
Definition three_agents : PW :=
  let offered t w := (out (E := pg_alone) demo_store t w).2 in
  offered (offer "c" "mail" [] ∅) (offered (offer "b" "job" [] ∅) (offered (offer "a" "job" [] ∅) (pg_start fresh_pg))).

Lemma no_ttl_live now r : g_ttl_ms r = 0 -> ttlClause now r = true.
Proof. unfold ttlClause. intros ->. done. Qed.

Lemma metrics_paths_agree_witness :
  exists byStatus byKind backlogByKind,
    (collectAgentMetrics None (Some (fun q => count (E := pg_alone) (Some q))) ["job"] three_agents).1
    = Ok (byStatus, byKind, backlogByKind)
    /\ byKind !! "job" = Some 2.
Proof.
  destruct (metrics_paths_agree (E := pg_alone) (pg_agents (pw_db three_agents)) pg_alone_alone) with
    (w := three_agents) (c := @None (Query -> Reading PW Z)) (kinds := ["job"]) as (bs & bk & bl & _ & H2 & _ & Hk).
  - apply (bool_decide_unpack _). vm_compute. exact I.
  - assert (Hz : map_Forall (fun _ r => g_ttl_ms r = 0) (pg_agents (pw_db three_agents)))
      by (apply (bool_decide_unpack _); vm_compute; exact I).
    intros id r Hr n. exact (no_ttl_live _ r (Hz id r Hr)).
  - reflexivity.
  - exists bs, bk, bl. split; [exact H2|]. destruct (Hk "job") as [-> _]; [by left|done|]. vm_compute. reflexivity.
Defined.

(** ** Health and shards *)

(** [Health] of the Postgres store. *)
Definition pg_Health `{PgEnv} : PM unit :=
  one ← pool_read (fun _ _ => Ok 1);
  if decide (one = 1) then mret tt else pfail (EDB "unexpected health query result").

(** [Health] of the SQLite store. *)
Definition sqlite_Health `{Env} {D} : M D unit :=
  one ← db_read (fun _ => Ok 1);
  if decide (one = 1) then mret tt else fail (EDB "unexpected health query result").

(** [getBackendType]: by the type of the store. *)
Definition backend_name (s : StoreLifecycle.handle) : string :=
  match s with
  | HPostgres _ => StoreTypePostgres
  | HSharded _ => StoreTypePostgresSharded
  | HValkey _ => StoreTypeValkey
  | HSQLite _ => "sqlite"
  end.

Record ShardHealth : Type := MkShardHealth {
  hl_ShardID : string; hl_OwnerNodeID : string; hl_AdvertiseAddr : string; hl_Ready : bool; hl_Error : string }.

Definition errorString (err : option string) : string := default "" err.

(** A store of shards: [Health] and [ShardHealthInfo] of the sharded Postgres
    store and of the Valkey store, over the answers [ping] of the shards. *)
Section Pinged.
Context {S : Type} (id owner addr : S -> string) (ping : S -> option string).

Fixpoint shards_Health (shards : list S) : option string :=
  match shards with
  | [] => None
  | shard :: shards =>
      match ping shard with
      | Some err => Some ("shard " +:+ id shard +:+ " unhealthy: " +:+ err)
      | None => shards_Health shards
      end
  end.

Definition shards_HealthInfo (shards : list S) : list ShardHealth :=
  (fun shard => let err := ping shard in
                MkShardHealth (id shard) (owner shard) (addr shard) (bool_decide (err = None)) (errorString err)) <$> shards.

Lemma health_means_ready shards : shards_Health shards = None <-> Forall hl_Ready (shards_HealthInfo shards).
Proof.
  unfold shards_HealthInfo. induction shards as [|x shards IH]; simpl; [by split|].
  rewrite Forall_cons, <- IH. simpl. destruct (ping x); simpl; [|tauto]. split; [done|]. by intros [].
Qed.
End Pinged.

Definition sharded_Health := @shards_Health ShardSpec sp_ShardID.
Definition sharded_HealthInfo := @shards_HealthInfo ShardSpec sp_ShardID sp_OwnerNodeID sp_AdvertiseAddr.
Definition valkey_Health := @shards_Health shardSpec sh_ShardID.
Definition valkey_HealthInfo := @shards_HealthInfo shardSpec sh_ShardID sh_OwnerNodeID sh_AdvertiseAddr.

(** [ShardMapInfo] of the Valkey store: the version and the epoch of its map
    are not those of the file. *)
Definition valkey_ShardMapInfo (s : ValkeyStore) : ShardMapReport :=
  MkShardMapReport 1 0 (vs_nodeID s) (vs_advertiseAddr s)
    ((fun sp => MkShardSummary (sh_ShardID sp) (sh_OwnerNodeID sp) (sh_AdvertiseAddr sp) (sh_Addr sp)) <$> vs_shards s).

Record QueueStats : Type := MkQueueStats {
  qt_namespace_id : string; qt_queue : string; qt_shard_id : string; qt_counts : gmap string Z; qt_total : Z }.

Definition queue_query (namespaceID queue : string) : Query :=
  MkQuery "" "" [] "" "" "" namespaceID "" (Some {[QueueMetadataKey := queue]}) 0 0.

(** [ShardQueueStats] of the sharded Postgres store. *)
Definition sharded_QueueStats {W} `{ShardOps W} (s : ShardedStore) (namespaceID queue : string) : SM W QueueStats :=
  shard ← sresult (shardForNamespaceQueue s namespaceID queue);
  counts ← on_shard shard (so_CountByStatus (Some (queue_query namespaceID queue)));
  mret (MkQueueStats namespaceID queue (sp_ShardID shard) counts (map_fold (fun _ count total => total + count) 0 counts)).

(** The statistics of a queue are the counts of the store for its query. *)
Lemma queue_stats_counts {W} `{ShardOps W} (s : ShardedStore) ns queue w :
  Strings.TrimSpace ns = ns -> Strings.TrimSpace queue = queue -> ns <> "" -> queue <> "" ->
  CountByStatus s (Some (queue_query ns queue)) w
  = (stats ← sharded_QueueStats s ns queue; mret (qt_counts stats) : SM W _) w.
Proof.
  intros Hns Hq Hn1 Hn2. unfold CountByStatus, sharded_QueueStats, ShardMap.shardFromQuery, ShardMap.queryNamespaceAndQueue.
  assert (omget (q_Metadata (queue_query ns queue)) QueueMetadataKey = queue) as ->
    by (unfold queue_query, omget, mget; cbn [q_Metadata default]; by simplify_map_eq).
  cbn [q_NamespaceID queue_query]. rewrite Hns, Hq, decide_False by tauto.
  unfold mbind, SM_bind, sresult. destruct (shardForNamespaceQueue s ns queue); [|done].
  by destruct (on_shard _ _ w) as [[]].
Qed.

(** ** The handlers *)

(** The bodies of these answers. *)
Inductive report : Type :=
| RHealth (status : string) (ready : bool) (backend : string) (message : option string)
| RShardMap (info : ShardMapReport)
| RShardHealth (backend : string) (shards : list ShardHealth)
| RQueueStats (stats : QueueStats)
| RInvariants (backend : string) (invariants : gmap string any)
| RStatusCounts (backend : string) (counts : gmap string Z) (truncated : bool)
| RError (message : string)
| RText (text : string).

Record reply : Type := MkReply { re_status : Z; re_report : report }.

(** What [h.space] implements of the optional interfaces, over its state. *)
Record Providers (W : Type) : Type := MkProviders {
  pv_backend : string;
  pv_Health : option (W -> option string * W);
  pv_ShardMapInfo : option (W -> result string ShardMapReport * W);
  pv_ShardHealthInfo : option (W -> result string (list ShardHealth) * W);
  pv_ShardQueueStats : option (string -> string -> W -> result string QueueStats * W);
  pv_DebugInvariants : option (W -> result string (gmap string any) * W);
  pv_Query : Query -> W -> result string (list Agent) * W }.
Arguments pv_backend {W}.
Arguments pv_Health {W}.
Arguments pv_ShardMapInfo {W}.
Arguments pv_ShardHealthInfo {W}.
Arguments pv_ShardQueueStats {W}.
Arguments pv_DebugInvariants {W}.
Arguments pv_Query {W}.

Section Handlers.
Context {W : Type} (h : Providers W).

Definition HealthCheck (w : W) : reply * W :=
  match pv_Health h with
  | None => (MkReply StatusOK (RHealth "healthy" true (pv_backend h) None), w)
  | Some Health =>
      match Health w with
      | (Some _, w) => (MkReply StatusServiceUnavailable (RHealth "unhealthy" false (pv_backend h) (Some "backend unavailable")), w)
      | (None, w) => (MkReply StatusOK (RHealth "healthy" true (pv_backend h) None), w)
      end
  end.

(** [requireAdmin] before the rest of a handler. *)
Definition admin_only (r : Request) (k : W -> reply * W) (w : W) : reply * W :=
  match AuthPrincipalFromContext r with
  | None => (MkReply StatusUnauthorized (RError "admin authentication required"), w)
  | Some principal => if ap_Admin principal then k w else (MkReply StatusForbidden (RError "admin access required"), w)
  end.

(** The answer of an optional interface, if the store has it. *)
Definition provided {A} (provider : option (W -> result string A * W)) (failed : string) (body : A -> report) (w : W) : reply * W :=
  match provider with
  | None => (MkReply StatusNotFound (RError "shard admin endpoints are not available for this backend"), w)
  | Some info =>
      match info w with
      | (Err _, w) => (MkReply StatusInternalServerError (RError failed), w)
      | (Ok a, w) => (MkReply StatusOK (body a), w)
      end
  end.

Definition GetShardMap (r : Request) : W -> reply * W :=
  admin_only r (provided (pv_ShardMapInfo h) "failed to read shard map" RShardMap).

Definition GetShardHealth (r : Request) : W -> reply * W :=
  admin_only r (provided (pv_ShardHealthInfo h) "failed to read shard health" (RShardHealth (pv_backend h))).

Definition GetShardQueueStats (r : Request) : W -> reply * W :=
  admin_only r (fun w =>
    let namespaceID := Strings.TrimSpace (url_param r "namespace_id") in
    let queue := Strings.TrimSpace (url_param r "queue") in
    match pv_ShardQueueStats h with
    | Some ShardQueueStats =>
        if decide (namespaceID = "" \/ queue = "")
        then (MkReply StatusBadRequest (RError "namespace_id and queue are required"), w)
        else provided (Some (ShardQueueStats namespaceID queue)) "failed to read shard queue stats" RQueueStats w
    | None => provided None "failed to read shard queue stats" RQueueStats w
    end).

(** The loop of [countByStatus]: a query that fails counts as nothing. *)
Fixpoint count_statuses (limit : Z) (statuses : list string) (counts : gmap string Z) (truncated : bool) (w : W)
    : gmap string Z * bool * W :=
  match statuses with
  | [] => (counts, truncated, w)
  | status :: statuses =>
      match pv_Query h (set_window (kind_query "" status) limit 0) w with
      | (Err _, w) => count_statuses limit statuses (<[status := 0]> counts) truncated w
      | (Ok agents, w) =>
          let n := Z.of_nat (length agents) in
          count_statuses limit statuses (<[status := n]> counts) (truncated || bool_decide (limit <= n)) w
      end
  end.

Definition api_countByStatus (limit : Z) : W -> gmap string Z * bool * W :=
  count_statuses limit [StatusNew; StatusInProgress; StatusCompleted; StatusFailed] ∅ false.

Definition DebugInvariants (r : Request) (w : W) : reply * W :=
  if decide (rq_method r <> "GET") then (MkReply StatusMethodNotAllowed (RText "Method not allowed"), w)
  else match pv_DebugInvariants h with
       | Some invariants =>
           match invariants w with
           | (Err _, w) => (MkReply StatusInternalServerError (RError "failed to compute invariants"), w)
           | (Ok m, w) => (MkReply StatusOK (RInvariants (pv_backend h) m), w)
           end
       | None =>
           let '(counts, truncated, w) := api_countByStatus 2000 w in
           (MkReply StatusOK (RStatusCounts (pv_backend h) counts truncated), w)
       end.

(** The routes of these handlers; [debug]: the variable DEBUG_INVARIANTS. *)
Definition report_route (debug profile : string) (r : Request) : option (W -> reply * W) :=
  let get_only k w := if decide (rq_method r <> "GET") then (MkReply StatusMethodNotAllowed (RText "Method not allowed"), w)
                      else k r w in
  let path := rq_path r in
  if decide (path = "/api/v1/admin/shards") then Some (get_only GetShardMap)
  else if decide (path = "/api/v1/admin/shards/health") then Some (get_only GetShardHealth)
  else if decide (path = "/api/v1/admin/shards/queues/stats") then Some (get_only GetShardQueueStats)
  else if decide (path = "/api/v1/health" \/ path = "/health") then Some HealthCheck
  else if decide (path = "/debug/invariants" /\ Strings.ToLower debug ∈ ["true"; "1"] /\ profile <> "production")
       then Some (DebugInvariants r)
  else None.
End Handlers.

(** ** The capabilities of a store *)

(** [ErrCapabilityUnsupported], or the capability's own answer. *)
Definition ErrCapabilityUnsupported : string := "store capability unsupported".

Record StoreRuntime (W : Type) : Type := MkStoreRuntime {
  rt_StatusCounter : option (option Query -> W -> result string (gmap string Z) * W);
  rt_DebugInvariants : option (W -> result string (gmap string any) * W);
  rt_RecordSpans : option (list Span -> W -> result string unit * W);
  rt_ListSpans : option (string -> string -> Z -> Z -> W -> result string (list Span) * W) }.
Arguments rt_StatusCounter {W}.
Arguments rt_DebugInvariants {W}.
Arguments rt_RecordSpans {W}.
Arguments rt_ListSpans {W}.

Definition supported {W A} (capability : option (W -> result string A * W)) (w : W) : result string A * W :=
  match capability with None => (Err ErrCapabilityUnsupported, w) | Some f => f w end.

(** A nil runtime is [None]. *)
Definition rt_CountByStatus {W} (r : option (StoreRuntime W)) (q : option Query) : W -> result string (gmap string Z) * W :=
  supported (f ← (r ≫= rt_StatusCounter); Some (f q)).
Definition rt_GetDebugInvariants {W} (r : option (StoreRuntime W)) : W -> result string (gmap string any) * W :=
  supported (r ≫= rt_DebugInvariants).
Definition rt_RecordTelemetry {W} (r : option (StoreRuntime W)) (spans : list Span) : W -> result string unit * W :=
  supported (f ← (r ≫= rt_RecordSpans); Some (f spans)).
Definition rt_ListTelemetry {W} (r : option (StoreRuntime W)) (traceID namespaceID : string) (limit offset : Z)
    : W -> result string (list Span) * W :=
  supported (f ← (r ≫= rt_ListSpans); Some (f traceID namespaceID limit offset)).

(** [startTelemetryCleanupLoop]: at once and at each tick, at the readings
    [clock] of the time, what starts before the retention goes; a store
    without [CleanupSpansBefore] is left alone. *)
Definition startTelemetryCleanupLoop {W} (cleaner : option (Z -> W -> result goerror Z * W)) (retention : Z)
    (clock : list Z) (w : W) : W :=
  match cleaner with
  | None => w
  | Some CleanupSpansBefore => foldl (fun w now => (CleanupSpansBefore (now - retention) w).2) w clock
  end.

(** ** What the reports say *)

(** The sharded Postgres store behind the handlers: its shards answer
    [ping], and [show] prints an error. *)
Definition sharded_providers {W} `{ShardOps W} `{Url.IPLiterals} (cfg : PostgresShardedConfig) (s : ShardedStore)
    (ping : ShardSpec -> option string) (show : serror -> string) (query : Query -> SW W -> result string (list Agent) * SW W)
    : Providers (SW W) :=
  let shown {A} (r : result serror A) := match r with Ok a => Ok a | Err e => Err (show e) end in
  MkProviders (SW W) StoreTypePostgresSharded
    (Some (fun w => (sharded_Health ping (shards s), w)))
    (Some (fun w => (Ok (ShardMapInfo cfg s), w)))
    (Some (fun w => (Ok (sharded_HealthInfo ping (shards s)), w)))
    (Some (fun ns queue w => let '(r, w) := sharded_QueueStats s ns queue w in (shown r, w)))
    None query.

Definition admin (r : Request) : bool :=
  match AuthPrincipalFromContext r with Some principal => ap_Admin principal | None => false end.

(** Whoever is not an administrator learns nothing of the store from the
    shard endpoints: the answer is a refusal that depends on the request
    alone, and the store is not asked. *)
Lemma reports_refused {W} (h1 h2 : Providers W) r w :
  admin r = false ->
  GetShardMap h1 r w = GetShardMap h2 r w /\ GetShardHealth h1 r w = GetShardHealth h2 r w
  /\ GetShardQueueStats h1 r w = GetShardQueueStats h2 r w /\ (GetShardMap h1 r w).2 = w
  /\ (re_status (GetShardMap h1 r w).1 = StatusUnauthorized \/ re_status (GetShardMap h1 r w).1 = StatusForbidden).
Proof.
  unfold admin, GetShardMap, GetShardHealth, GetShardQueueStats, admin_only.
  destruct (AuthPrincipalFromContext r) as [p|]; [destruct (ap_Admin p); [done|]|]; intros _; cbn; auto 10.
Qed.

(** The probe of the load balancer and the report for administrators agree:
    the server is healthy exactly when it lists every shard as ready. *)
Lemma health_matches_report {W} `{ShardOps W} `{Url.IPLiterals} cfg s ping show query r w :
  admin r = true ->
  let h := sharded_providers (W := W) cfg s ping show query in
  exists list, GetShardHealth h r w = (MkReply StatusOK (RShardHealth StoreTypePostgresSharded list), w)
    /\ sp_ShardID <$> shards s = hl_ShardID <$> list
    /\ (re_status (HealthCheck h w).1 = StatusOK <-> Forall hl_Ready list).
Proof.
  intros Ha h. exists (sharded_HealthInfo ping (shards s)). split; [|split].
  - unfold GetShardHealth, admin_only, admin in *. destruct (AuthPrincipalFromContext r) as [p|]; [|done]. by rewrite Ha.
  - unfold sharded_HealthInfo, shards_HealthInfo. by rewrite <- list_fmap_compose.
  - unfold sharded_HealthInfo. rewrite <- (health_means_ready sp_ShardID). unfold HealthCheck, h, sharded_providers. cbn.
    unfold sharded_Health. destruct (shards_Health sp_ShardID ping (shards s)); cbn; split; done.
Qed.
